(* ===== verification/_CoqProject ===== *)
-Q . S2P
Prelude.v
Endian.v
MsgHeader.v
PTCPQueue.v
PTCPQueueSpec.v
PTCPQueueProps.v
SPSCVarQueue.v
SPSCProps.v
SPSCTheorems.v
Conf.v
PTCPConn.v
PTCPRecv.v
PTCPFraming.v
PTCPFront.v
PTCPSend.v
PTCPConnTheorems.v
CString.v
TcpShmConn.v
RingOps.v
RingWait.v
TcpShmProps.v
StateRes.v
SysIO.v
Messages.v
System.v
ShmProbe.v
Descriptors.v
OsPosix.v
OsPosixProps.v
OsWindows.v
ShmProbeProps.v
Server.v
Client.v
ServerShape.v
ServerProps.v
ServerTheorems.v
ServerFds.v
ServerStop.v
PosixServer.v
LoginTheorems.v
Handshake.v
SweepTheorems.v
PollThreads.v
ClientTheorems.v
ClientFds.v
Echo.v
EchoTheorems.v
EchoRun.v
