(* ===== verification/Prelude.v ===== *)
(** * tcpshm: a verification development

    tcpshm is a library for two processes that exchange messages over TCP or,
    on one machine, over shared memory, and that resume where they were after a
    crash or a reconnection.  This is the root of a development that models it
    and proves what it promises; this comment describes the whole.

    ** The program

    A server (tcpshm_server.h) and a client (tcpshm_client.h) log in over TCP.
    The login names both sides, and carries the sequence numbers of what each has
    queued and received; with shared memory the server first proves, with a probe
    that the client answers, that both see the same memory.  Each side then has a
    connection (tcpshm_conn.h).  Over TCP it is a PTCPConnection (ptcp_conn.h):
    outgoing messages stay in a queue in a mapped file (ptcp_queue.h) until the
    other side acknowledges them in the header of its own messages
    (msg_header.h), and incoming bytes are cut into messages in a growing buffer.
    With shared memory it is a pair of rings (spsc_varq.h), one per direction.
    os.h wraps the system, endian.h converts integers to the order of the wire.
    server.cpp and client.cpp are an example: the server answers a login that the
    client sends for each line typed.

    ** Files and code

    - Prelude: outcomes [res] (a result, undefined behaviour, fuel that ran out),
      integers of a width, arrays, the lemmas and tactics all files share.
      StateRes: the monad of stateful computations, and Hoare triples on it.
    - Endian (endian.h, tcp_bswap* of os.h), MsgHeader (msg_header.h).
    - PTCPQueue (ptcp_queue.h) with its abstract log in PTCPQueueSpec; theorems in
      PTCPQueueProps.
    - SPSCVarQueue (spsc_varq.h): the operations, and the two processes as
      machines that interleave access by access; SPSCProps is the invariant,
      SPSCTheorems and RingOps the theorems.  RingWait adds WaitForData, with a
      reader that sleeps and is notified.
    - Conf: the template parameters [Conf] (common.h, server.cpp, client.cpp), and
      sockets as the class [Sockets], with a scripted instance.
    - PTCPConn (class PTCPConnection): PTCPRecv (DoRecv), PTCPFraming and PTCPFront
      (Front), PTCPSend (SendPending), PTCPConnTheorems.
    - CString (strncpy, strncmp, snprintf), TcpShmConn (class TcpShmConnection, and
      the interface [Mmap] of my_mmap), TcpShmProps.
    - SysIO (tcp_send_all, tcp_recv_all), Messages (the four control messages),
      System (the system calls of login as an interface), ShmProbe (both sides of
      the probe), ShmProbeProps.
    - The two system layers of os.h, over the calls of the kernel as classes:
      OsPosix and OsPosixProps (my_mmap, my_mmap_existing, my_munmap and the
      wrappers of sockets, clocks and processes), which give instances of the
      interfaces above, and OsWindows (the same under _WIN32, with its table of
      mappings).  PosixServer is the server over the POSIX layer.
    - Server (class TcpShmServer): a record of the members, one computation per
      method; HandleLogin is cut into [login_slots], [login_slot] and
      [login_seqs], PollCtl into [accept_one], [poll_new] and [sweep].
      ServerShape is the invariant on groups and names, ServerProps and
      ServerTheorems show that each method keeps it; LoginTheorems and
      SweepTheorems say what a login and a sweep do.  PollThreads interleaves a
      thread in PollTcp or PollShm with one in PollCtl.
    - Client (class TcpShmClient), ClientTheorems.  Handshake runs its Connect
      against the login of the server.
    - Descriptors is a ledger of the open ones; ServerFds, ServerStop and ClientFds
      keep it over the methods of the server and of the client.
    - Echo (server.cpp, client.cpp and the structs of common.h), EchoTheorems, and
      EchoRun, where a codec and a system run it.

    Definitions have the names of the code where there is one.  A mapped file and
    a shared-memory object are entries of a [disk] by their name, so that two
    connections alias when and only when their names agree; the pointers of a
    connection are names in it.  A [PTCPConnection] holds the content of the file
    it maps and [Release] writes it back: a file is mapped by one connection of
    one process at a time.

    ** What is proved

    - Nothing is lost, doubled or reordered.  The send queue holds what was
      submitted and not acknowledged, through compaction, wrap-around of sequence
      numbers and new logins ([queue_retains_unacked], [Ack_exact],
      [login_resends_all]); the receiver gets the messages sent, however the socket
      cuts the bytes and whatever the byte orders ([messages_in_order],
      [transfer]); a reopened connection, and a whole login of the server, resume
      the abstract log ([Open_resumes], [login_resumes_queue]); a login of the
      client that fails loses nothing ([failed_connect_loses_nothing]); and a login
      that both sides accept leaves both queues where the other side expects them
      ([login_in_step]).
    - The rings are safe and in order under every interleaving and every crash
      ([ring_fifo], [ring_memory_safe], [ring_survives_crashes]), the functions
      refine the steps ([Alloc_is_steps], [Front_is_steps]), a reader that waits
      misses no message ([WaitForData_wakes]), and two connections that open
      crossed names exchange messages over them ([OpenFile_connects_ends],
      [shm_messages_in_order]).
    - The server keeps its groups well formed in every reachable state, clients
      share no file, closed connections leave once ([server_invariant],
      [clients_share_nothing], [sweep_closes_once]).  A thread that polls a group
      while another changes it stays inside it, and visits each connection that
      nobody moves exactly once ([polling_stays_in_group],
      [settled_visited_once]).
    - Descriptors: no path through the server or the client leaks one, closes one
      twice or closes that of another; [Stop] returns with none left
      ([server_owns_descriptors], [Stop_closes_everything],
      [client_owns_descriptor]); nor does a mapping, on either system
      ([my_mmap_closes], [windows_handles]).
    - The wire: headers and control messages survive the trip between hosts of any
      byte order ([header_wire_roundtrip], [control_message_roundtrip]), the probe
      needs the memory and not only the answer ([probe_agreement]), its name fits
      ([probe_name_fits]); the scattered read of Windows is that of POSIX
      ([windows_readv]).
    - Errors, bounds and termination: corrupt files, oversized messages, the window
      of a sequence number, the loops of sending and receiving.
    - The example: a request gets the answer to it ([login_roundtrip]), and one
      longer than 65535 bytes overflows its buffer ([long_message_overflows]).

    ** Assumptions

    - Sockets, files, clocks and callbacks are parameters: the classes [Sockets],
      [Mmap], [System], [ProbeMemory], [App] and [ClientApp].  Theorems that need
      more of them take [SendLaws] (a send appends the bytes it counts to the
      outgoing stream), [RecvLaws] (a receive takes bytes off the incoming one),
      [SocketLaws] and [SystemLaws] (what the other calls leave alone), [AppLaws]
      (callbacks do not rename connections), or [Descriptors], [AppFds] and
      [ClientFds] (which calls open and close a descriptor; a callback leaves those
      of the library alone).
    - The system layers take the kernel as [Posix], [Win32] and [Winsock], and its
      documented behaviour as [PosixLaws], [FileFlags], [Win32Laws] and
      [WSARecvLaws]; the example takes iguana's encoding as [Protobuf] with
      [ProtobufLaws] (what it encodes it decodes), and the terminal as [Console].
      Concrete instances satisfy them all and run in the witnesses.
    - Parameters of the program satisfy [ConfOk] and [ParamsOk]: buffer sizes are multiples of 8,
      names have at least two bytes, a ring has a power of two of blocks.
    - Memory is sequentially consistent.  One call at a time runs on a connection;
      on the server too, but for PollThreads, where polling and control interleave
      on a group.  The two ends of a ring interleave access by access.  The
      notification of a std::atomic reaches the thread that waits on it, in the other
      process.
      Callbacks that only report are logged as events.  The string [ptcp_dir]
      outlives the server.
    - Loops whose end is not structural have fuel: the loop's measure plus one
      (blocks of a queue, bytes left, live slots), and the theorems on them show it
      is enough.  A loop that does not end in the code runs out of every fuel
      ([SanityCheck_zero_size_hangs]).

    ** Not modelled

    - Orderings of std::atomic below sequential consistency, and the fences of
      tcp_volatile_read and tcp_volatile_write: accesses interleave as they are
      written.
    - What a connection does when two threads are inside it, which is a data race:
      PollThreads interleaves the accesses to the group and no more.
    - The receive buffer of a new connection, which is read in one call.
    - WSAStartup and WSACleanup, which run before and after main.
    - Of the example programs, Run and main, which start threads and read the
      console, and the callbacks that only print.
    - The vendored libraries under third_party, which are not part of the library.
    - The removal of the probe's object when VerifyShmProbe ends is in the model of
      VerifyShmProbe, and in the ledger of descriptors; that no object is left
      behind is not stated as a theorem of its own. *)

From Stdlib Require Export ZArith Lia ZifyBool.
From stdpp Require Export base tactics numbers list list_numbers option.

#[global] Set Default Goal Selector "!".
#[export] Set Default Proof Using "Type".

(** ** Outcomes

    A routine of the library either returns, reads or writes outside an object
    (undefined behaviour in C++), or runs a loop for longer than the fuel the
    model gives it. *)
Inductive res (A : Type) : Type :=
| Ret (a : A)
| UB
| NoFuel.
Arguments Ret {A} a.
Arguments UB {A}.
Arguments NoFuel {A}.

#[export] Instance res_ret : MRet res := fun A a => Ret a.
#[export] Instance res_bind : MBind res := fun A B f m =>
  match m with
  | Ret a => f a
  | UB => UB
  | NoFuel => NoFuel
  end.
#[export] Instance res_eq_dec {A} `{EqDecision A} : EqDecision (res A).
Proof. solve_decision. Defined.

Definition is_ret {A} (m : res A) : Prop := exists a, m = Ret a.

Lemma bind_Ret {A B} (m : res A) (f : A -> res B) b :
  (m ≫= f) = Ret b <-> exists a, m = Ret a /\ f a = Ret b.
Proof.
  split.
  - destruct m; simpl; intros H; try discriminate H. eauto.
  - intros (a & -> & Hf). exact Hf.
Qed.

(** ** Machine integers

    A [uintN_t] is a [Z] in [[0, 2^N)]; its operations reduce modulo [2^N].
    [s32] is the conversion [(int)x] of a [uint32_t] (two's complement). *)
Definition u16 (x : Z) : Z := (x mod 2 ^ 16)%Z.
Definition u32 (x : Z) : Z := (x mod 2 ^ 32)%Z.
Definition u64 (x : Z) : Z := (x mod 2 ^ 64)%Z.
Definition s32 (x : Z) : Z := ((x + 2 ^ 31) mod 2 ^ 32 - 2 ^ 31)%Z.

Definition in_u16 (x : Z) : Prop := (0 <= x < 2 ^ 16)%Z.
Definition in_u32 (x : Z) : Prop := (0 <= x < 2 ^ 32)%Z.
Definition in_u64 (x : Z) : Prop := (0 <= x < 2 ^ 64)%Z.
Definition in_byte (x : Z) : Prop := (0 <= x < 256)%Z.

(** ** Memory objects

    An array object is a list; an access outside it is [UB]. *)
Section Memory.
Context {A : Type}.
Local Open Scope Z_scope.

(** [l[i]] *)
Definition ld (l : list A) (i : Z) : res A :=
  if 0 <=? i then
    match l !! Z.to_nat i with
    | Some x => Ret x
    | None => UB
    end
  else UB.

(** [l[i] = x] *)
Definition st (l : list A) (i : Z) (x : A) : res (list A) :=
  if (0 <=? i) && (i <? Z.of_nat (length l))
  then Ret (<[Z.to_nat i := x]> l) else UB.

(** [memcpy(&l[i], xs, length xs)] *)
Definition write_at (l : list A) (i : Z) (xs : list A) : res (list A) :=
  if (0 <=? i) && (i + Z.of_nat (length xs) <=? Z.of_nat (length l))
  then Ret (take (Z.to_nat i) l ++ xs ++ drop (Z.to_nat i + length xs) l)
  else UB.

(** the [n] elements that start at [&l[i]] *)
Definition read_at (l : list A) (i n : Z) : res (list A) :=
  if (0 <=? i) && (0 <=? n) && (i + n <=? Z.of_nat (length l))
  then Ret (take (Z.to_nat n) (drop (Z.to_nat i) l)) else UB.

(** [memmove(&l[dst], &l[src], n)], [n] counted in elements *)
Definition memmove (l : list A) (dst src n : Z) : res (list A) :=
  xs ← read_at l src n; write_at l dst xs.
End Memory.

Abbreviation zlen l := (Z.of_nat (length l)).

(** Number of [k]-byte blocks a message of [sz] bytes occupies:
    [(sz + k - 1) / k], computed in [size_t]. *)
Definition blocks (k sz : Z) : Z := ((sz + k - 1) / k)%Z.

(** ** Automation *)
Create Rewrite HintDb wrap.
Create Rewrite HintDb wrap_id.
Create Rewrite HintDb len.
Create HintDb bounds discriminated.

Ltac unwrap := unfold u16, u32, u64, s32, in_u16, in_u32, in_u64, in_byte in *.
(** Linear arithmetic over wrap-around operations. *)
Ltac word_lia :=
  unwrap; cbn [Z.pow Z.pow_pos Pos.iter Z.mul Pos.mul Pos.add] in *;
  Z.div_mod_to_equations; lia.
#[export] Hint Extern 5 (in_u16 _) => (word_lia) : bounds.
#[export] Hint Extern 5 (in_u32 _) => (word_lia) : bounds.
#[export] Hint Extern 5 (in_byte _) => (word_lia) : bounds.
#[export] Hint Extern 5 (_ <= _)%Z => lia : bounds.
#[export] Hint Extern 5 (_ < _)%Z => lia : bounds.
#[export] Hint Extern 5 (_ = _ :> Z) => lia : bounds.

Ltac len_lia :=
  rewrite ?length_app, ?length_cons, ?length_nil, ?length_take, ?length_drop in *;
  cbn [length] in *; lia.

(** Split the boolean tests of the goal or of a hypothesis. *)
Ltac case_test :=
  match goal with
  | |- context [if (?a <? ?b)%Z then _ else _] => destruct (Z.ltb_spec a b)
  | |- context [if (?a <=? ?b)%Z then _ else _] => destruct (Z.leb_spec a b)
  | |- context [if (?a =? ?b)%Z then _ else _] => destruct (Z.eqb_spec a b)
  end.
Ltac inv_ret :=
  repeat match goal with
  | H : Ret _ = Ret _ |- _ => injection H; clear H; intros; subst
  | H : UB = Ret _ |- _ => discriminate H
  | H : NoFuel = Ret _ |- _ => discriminate H
  | H : (_ ≫= _) = Ret _ |- _ => apply bind_Ret in H as (? & ? & ?)
  end.

(** A closed conjunction of decidable facts, by evaluation. *)
Ltac concrete := repeat (split || constructor); vm_compute; congruence.

(** Use the state a computation returned as the witness of the goal. *)
Ltac ret_exists :=
  match goal with
  | |- exists x, Ret (?y, _) = _ /\ _ => exists y
  | |- exists x, Ret ?y = _ /\ _ => exists y
  end.

(** ** Machine-integer lemmas *)
Section Words.
Local Open Scope Z_scope.

Lemma u16_id x : in_u16 x -> u16 x = x.
Proof. unfold u16, in_u16. apply Z.mod_small. Qed.
Lemma u32_id x : in_u32 x -> u32 x = x.
Proof. unfold u32, in_u32. apply Z.mod_small. Qed.
Lemma u16_in x : in_u16 (u16 x).
Proof. apply Z.mod_pos_bound. reflexivity. Qed.
Lemma u32_in x : in_u32 (u32 x).
Proof. apply Z.mod_pos_bound. reflexivity. Qed.
Lemma u32_add_l a b : u32 (u32 a + b) = u32 (a + b).
Proof. apply Zplus_mod_idemp_l. Qed.
Lemma u32_add_r a b : u32 (a + u32 b) = u32 (a + b).
Proof. apply Zplus_mod_idemp_r. Qed.
Lemma u32_sub_l a b : u32 (u32 a - b) = u32 (a - b).
Proof. apply Zminus_mod_idemp_l. Qed.
Lemma u32_sub_r a b : u32 (a - u32 b) = u32 (a - b).
Proof. apply Zminus_mod_idemp_r. Qed.
Lemma u32_idem a : u32 (u32 a) = u32 a.
Proof. apply Zmod_mod. Qed.
Lemma s32_u32 a : s32 (u32 a) = s32 a.
Proof. unfold s32, u32. rewrite Zplus_mod_idemp_l. reflexivity. Qed.
Lemma s32_id x : - 2 ^ 31 <= x < 2 ^ 31 -> s32 x = x.
Proof. intros. unfold s32. rewrite Z.mod_small by lia. lia. Qed.

(** The sequence-number comparison of the library, [(int)(a - b)], is the
    true distance when the two counters are less than [2^31] apart. *)
Lemma s32_dist a b : - 2 ^ 31 <= a - b < 2 ^ 31 -> s32 (u32 (u32 a - u32 b)) = a - b.
Proof. intros. rewrite u32_sub_l, u32_sub_r, s32_u32. apply s32_id. assumption. Qed.

Lemma blocks_bounds k sz : 0 < k -> sz <= k * blocks k sz < sz + k.
Proof. intros. unfold blocks. Z.div_mod_to_equations. nia. Qed.
Lemma blocks_pos k sz : 0 < k -> 0 < sz -> 1 <= blocks k sz.
Proof. intros Hk Hs. pose proof (blocks_bounds k sz Hk). nia. Qed.
Lemma blocks_nonneg k sz : 0 < k -> 0 <= sz -> 0 <= blocks k sz.
Proof. intros Hk Hs. pose proof (blocks_bounds k sz Hk). nia. Qed.
End Words.
#[export] Hint Rewrite u32_add_l u32_add_r u32_sub_l u32_sub_r u32_idem s32_u32 : wrap.
#[export] Hint Resolve u16_in u32_in : bounds.
#[export] Hint Rewrite u32_id using word_lia : wrap_id.
#[export] Hint Rewrite u16_id using word_lia : wrap_id.

(** ** Memory lemmas *)
Section MemoryLemmas.
Context {A : Type}.
Local Open Scope Z_scope.
Implicit Types (l pre post xs : list A).

Lemma ld_Ret l i x : ld l i = Ret x <-> 0 <= i /\ l !! Z.to_nat i = Some x.
Proof.
  unfold ld. destruct (Z.leb_spec 0 i); [|intuition (lia || congruence)].
  destruct (l !! Z.to_nat i); intuition congruence.
Qed.

Lemma ld_app pre x post i : i = zlen pre -> ld (pre ++ x :: post) i = Ret x.
Proof. intros ->. apply ld_Ret. split; [lia|]. apply list_lookup_middle. lia. Qed.

Lemma ld_inb l i : 0 <= i < zlen l -> exists x, ld l i = Ret x.
Proof.
  intros H. destruct (lookup_lt_is_Some_2 l (Z.to_nat i)) as [x Hx]; [lia|].
  exists x. apply ld_Ret. split; [lia | exact Hx].
Qed.

Lemma st_Ret l i x l' : st l i x = Ret l' <-> 0 <= i < zlen l /\ l' = <[Z.to_nat i := x]> l.
Proof.
  unfold st. destruct (_ && _) eqn:E.
  - split; [intros [= <-] | intros [_ ->]]; [split; [lia | reflexivity] | reflexivity].
  - split; [discriminate | lia].
Qed.

Lemma st_app pre x y post i : i = zlen pre -> st (pre ++ x :: post) i y = Ret (pre ++ y :: post).
Proof.
  intros ->. unfold st. rewrite length_app, length_cons.
  destruct (_ && _) eqn:E; [|lia].
  rewrite insert_app_r_alt by lia. rewrite Nat2Z.id, Nat.sub_diag. reflexivity.
Qed.

Lemma write_at_len l i xs l' : write_at l i xs = Ret l' -> length l' = length l.
Proof.
  unfold write_at. destruct (_ && _) eqn:E; [|discriminate]. intros [= <-].
  rewrite !length_app, length_take, length_drop. lia.
Qed.

Lemma write_at_app pre ys post xs i :
  i = zlen pre -> length xs = length ys ->
  write_at (pre ++ ys ++ post) i xs = Ret (pre ++ xs ++ post).
Proof.
  intros -> E. unfold write_at. rewrite !length_app.
  destruct (_ && _) eqn:B; [|lia].
  rewrite Nat2Z.id, take_app_length, drop_app_add, E, drop_app_length. reflexivity.
Qed.

Lemma read_at_app pre ys post i n :
  i = zlen pre -> n = zlen ys -> read_at (pre ++ ys ++ post) i n = Ret ys.
Proof.
  intros -> ->. unfold read_at. rewrite !length_app.
  destruct (_ && _) eqn:B; [|lia].
  rewrite !Nat2Z.id, drop_app_length, take_app_length. reflexivity.
Qed.

(** Moving the live region to the front of the array leaves it there. *)
Lemma memmove_front pre body post r n :
  r = zlen pre -> n = zlen body ->
  exists post', memmove (pre ++ body ++ post) 0 r n = Ret (body ++ post')
    /\ length post' = (length pre + length post)%nat
    /\ (forall P, Forall P (pre ++ body ++ post) -> Forall P post').
Proof.
  intros -> ->. unfold memmove. rewrite (read_at_app pre body post) by reflexivity.
  exists (drop (length body) (pre ++ body ++ post)). simpl. split; [|split].
  - unfold write_at. rewrite !length_app. destruct (_ && _) eqn:B; [reflexivity | lia].
  - rewrite length_drop, !length_app. lia.
  - intros P HP. apply Forall_drop. exact HP.
Qed.
End MemoryLemmas.
#[export] Hint Rewrite @length_app @length_cons @length_nil @length_take @length_drop : len.
