(* ===== verification/Endian.v ===== *)
(** * Byte order (src/tcpshm/endian.h, the byte swaps of src/tcpshm/os.h)

    Integers in memory are byte strings whose order is the platform's;
    [Endian<ToLittle>::Convert] makes the bytes in memory those of the order
    the wire uses.  The byte order of the host is the class [Platform], so that
    every theorem holds on both kinds of host. *)

From S2P Require Import Prelude.
Local Open Scope Z_scope.

(** [std::endian::native == std::endian::little] *)
Class Platform := native_little : bool.

(** ** Byte strings of integers *)
Fixpoint le_split (n : nat) (w : Z) : list Z :=
  match n with
  | O => []
  | S n => w mod 256 :: le_split n (w / 256)
  end.

Fixpoint le_combine (bs : list Z) : Z :=
  match bs with
  | [] => 0
  | b :: bs => b + 256 * le_combine bs
  end.

(** The [n] bytes an integer has in the memory of a host with the given order,
    and the integer a host reads from bytes. *)
Definition to_bytes (little : bool) (n : nat) (w : Z) : list Z :=
  if little then le_split n w else reverse (le_split n w).
Definition of_bytes (little : bool) (bs : list Z) : Z :=
  if little then le_combine bs else le_combine (reverse bs).

(** ** os.h: tcp_bswap16, tcp_bswap32, tcp_bswap64

    The compiler's [__builtin_bswapN] returns its argument with the order of
    its [N/8] bytes reversed. *)
Definition bswap (n : nat) (x : Z) : Z := le_combine (reverse (le_split n x)).
Definition tcp_bswap16 (x : Z) : Z := bswap 2 (u16 x).
Definition tcp_bswap32 (x : Z) : Z := bswap 4 (u32 x).
Definition tcp_bswap64 (x : Z) : Z := bswap 8 (u64 x).

(** ** endian.h: class Endian *)
Section Endian.
Context {platform : Platform}.

Definition IsLittle : bool := native_little.

(** [Convert<T>], by [sizeof(T)] *)
Definition Convert (ToLittle : bool) (sizeof_T : nat) (t : Z) : Z :=
  if Bool.eqb ToLittle IsLittle then t
  else if Nat.eqb sizeof_T 2 then tcp_bswap16 t
  else if Nat.eqb sizeof_T 4 then tcp_bswap32 t
  else if Nat.eqb sizeof_T 8 then tcp_bswap64 t
  else t.
End Endian.

(** ** Lemmas on byte strings *)
Lemma length_le_split n w : length (le_split n w) = n.
Proof. revert w. induction n; intros; simpl; auto. Qed.
#[export] Hint Rewrite length_le_split : len.

Lemma le_split_in_byte n w : Forall in_byte (le_split n w).
Proof.
  revert w. induction n; intros; simpl; constructor; auto.
  apply Z.mod_pos_bound. lia.
Qed.

Lemma le_combine_split n w : le_combine (le_split n w) = w mod 256 ^ Z.of_nat n.
Proof.
  revert w. induction n as [|n IH]; intros w.
  - simpl. rewrite Z.mod_1_r. reflexivity.
  - cbn [le_split le_combine]. rewrite IH, Nat2Z.inj_succ, Z.pow_succ_r by lia.
    rewrite Z.rem_mul_r by lia. lia.
Qed.

Lemma le_combine_bound bs : Forall in_byte bs -> 0 <= le_combine bs < 256 ^ zlen bs.
Proof.
  induction 1 as [|b bs Hb _ IH]; [simpl; lia|].
  cbn [le_combine length]. rewrite Nat2Z.inj_succ, Z.pow_succ_r by lia.
  unfold in_byte in Hb. lia.
Qed.

Lemma le_split_combine bs : Forall in_byte bs -> le_split (length bs) (le_combine bs) = bs.
Proof.
  induction 1 as [|b bs Hb _ IH]; [reflexivity|].
  cbn [le_combine length le_split]. unfold in_byte in Hb.
  replace ((b + 256 * le_combine bs) mod 256) with b by word_lia.
  replace ((b + 256 * le_combine bs) / 256) with (le_combine bs) by word_lia.
  f_equal. exact IH.
Qed.

Lemma length_to_bytes little n w : length (to_bytes little n w) = n.
Proof. unfold to_bytes. destruct little; rewrite ?length_reverse; apply length_le_split. Qed.
#[export] Hint Rewrite length_to_bytes : len.

Lemma to_bytes_in_byte little n w : Forall in_byte (to_bytes little n w).
Proof.
  unfold to_bytes. destruct little; [apply le_split_in_byte|].
  apply Forall_reverse, le_split_in_byte.
Qed.

Lemma of_to_bytes little n w : 0 <= w < 256 ^ Z.of_nat n -> of_bytes little (to_bytes little n w) = w.
Proof.
  intros Hw. unfold of_bytes, to_bytes.
  destruct little; rewrite ?reverse_involutive, le_combine_split; apply Z.mod_small; exact Hw.
Qed.

Lemma to_of_bytes little n bs :
  Forall in_byte bs -> length bs = n -> to_bytes little n (of_bytes little bs) = bs.
Proof.
  intros Hbs <-. unfold of_bytes, to_bytes. destruct little.
  - apply le_split_combine. exact Hbs.
  - rewrite <- (length_reverse bs), le_split_combine by (apply Forall_reverse; exact Hbs).
    apply reverse_involutive.
Qed.

Lemma of_bytes_bound little bs : Forall in_byte bs -> 0 <= of_bytes little bs < 256 ^ zlen bs.
Proof.
  intros Hbs. unfold of_bytes. destruct little; [apply le_combine_bound; exact Hbs|].
  rewrite <- (length_reverse bs). apply le_combine_bound, Forall_reverse. exact Hbs.
Qed.

(** ** What [Convert] does *)
Lemma bswap_bytes little n w : to_bytes little n (bswap n w) = to_bytes (negb little) n w.
Proof.
  assert (E : le_split n (bswap n w) = reverse (le_split n w)).
  { unfold bswap. rewrite <- (length_le_split n w) at 1. rewrite <- length_reverse.
    apply le_split_combine, Forall_reverse, le_split_in_byte. }
  unfold to_bytes. destruct little; simpl; rewrite E; [reflexivity | apply reverse_involutive].
Qed.

Lemma bswap_bound n w : 0 <= bswap n w < 256 ^ Z.of_nat n.
Proof.
  pose proof (le_combine_bound (reverse (le_split n w))) as H.
  rewrite length_reverse, length_le_split in H. apply H.
  apply Forall_reverse, le_split_in_byte.
Qed.

Lemma to_bytes_inj little n a b :
  0 <= a < 256 ^ Z.of_nat n -> 0 <= b < 256 ^ Z.of_nat n ->
  to_bytes little n a = to_bytes little n b -> a = b.
Proof.
  intros Ha Hb E. rewrite <- (of_to_bytes little n a Ha), <- (of_to_bytes little n b Hb), E.
  reflexivity.
Qed.

Lemma bswap_involutive n w : 0 <= w < 256 ^ Z.of_nat n -> bswap n (bswap n w) = w.
Proof.
  intros Hw. apply (to_bytes_inj true n); [apply bswap_bound | exact Hw |].
  rewrite !bswap_bytes. reflexivity.
Qed.

Section ConvertLemmas.
Context {platform : Platform}.

(** The widths the library converts. *)
Definition convertible (n : nat) : Prop := n = 2%nat \/ n = 4%nat \/ n = 8%nat.

Lemma Convert_eq ToLittle n t :
  convertible n -> 0 <= t < 256 ^ Z.of_nat n ->
  Convert ToLittle n t = if Bool.eqb ToLittle native_little then t else bswap n t.
Proof.
  unfold Convert, IsLittle. intros [-> | [-> | ->]] Ht; simpl (Nat.eqb _ _); cbv iota;
    unfold tcp_bswap16, tcp_bswap32, tcp_bswap64, u16, u32, u64;
    rewrite Z.mod_small by (simpl in Ht; lia); reflexivity.
Qed.

Lemma Convert_bound ToLittle n t :
  convertible n -> 0 <= t < 256 ^ Z.of_nat n -> 0 <= Convert ToLittle n t < 256 ^ Z.of_nat n.
Proof.
  intros Hn Ht. rewrite Convert_eq by assumption.
  destruct (Bool.eqb _ _); [exact Ht | apply bswap_bound].
Qed.

Lemma Convert_involutive ToLittle n t :
  convertible n -> 0 <= t < 256 ^ Z.of_nat n -> Convert ToLittle n (Convert ToLittle n t) = t.
Proof.
  intros Hn Ht. rewrite Convert_eq; [|assumption|apply Convert_bound; assumption].
  rewrite Convert_eq by assumption.
  destruct (Bool.eqb _ _); [reflexivity | apply bswap_involutive; exact Ht].
Qed.

(** Whatever the host, the memory of a converted integer holds the bytes of
    the order the wire uses. *)
Lemma Convert_bytes ToLittle n t :
  convertible n -> 0 <= t < 256 ^ Z.of_nat n ->
  to_bytes native_little n (Convert ToLittle n t) = to_bytes ToLittle n t.
Proof.
  intros Hn Ht. rewrite Convert_eq by assumption.
  destruct (Bool.eqb ToLittle native_little) eqn:E.
  - apply Bool.eqb_prop in E. rewrite E. reflexivity.
  - rewrite bswap_bytes. destruct ToLittle, native_little; (reflexivity || discriminate E).
Qed.
End ConvertLemmas.
