(* ===== verification/MsgHeader.v ===== *)
(** * The message header (src/tcpshm/msg_header.h)

    Every message starts with an 8-byte [MsgHeader].  The queue of a TCP
    connection is an array of [MsgHeader]-sized blocks, and its bytes are sent
    as they are in memory, so this file also relates a header to its bytes. *)

From S2P Require Import Prelude Endian.
Local Open Scope Z_scope.

Record MsgHeader : Type := mkHeader {
  size : Z;      (* uint16_t: size of this msg, including header itself *)
  msg_type : Z;  (* uint16_t *)
  ack_seq : Z    (* uint32_t *)
}.
Definition sizeof_MsgHeader : Z := 8.

#[export] Instance MsgHeader_eq_dec : EqDecision MsgHeader.
Proof. solve_decision. Defined.

Definition hdr_ok (h : MsgHeader) : Prop :=
  in_u16 (size h) /\ in_u16 (msg_type h) /\ in_u32 (ack_seq h).

Section MsgHeader.
Context {platform : Platform}.

(** [MsgHeader::ConvertByteOrder<ToLittle>] *)
Definition ConvertByteOrder (ToLittle : bool) (h : MsgHeader) : MsgHeader :=
  mkHeader (Convert ToLittle 2 (size h))
           (Convert ToLittle 2 (msg_type h))
           (Convert ToLittle 4 (ack_seq h)).

(** The 8 bytes of a header in the memory of a host, and the header read
    through a [MsgHeader] pointer to bytes. *)
Definition hdr_bytes (little : bool) (h : MsgHeader) : list Z :=
  to_bytes little 2 (size h) ++ to_bytes little 2 (msg_type h) ++ to_bytes little 4 (ack_seq h).
Definition bytes_hdr (little : bool) (bs : list Z) : MsgHeader :=
  mkHeader (of_bytes little (take 2 bs))
           (of_bytes little (take 2 (drop 2 bs)))
           (of_bytes little (take 4 (drop 4 bs))).

(** The bytes of an array of header-sized blocks. *)
Definition blks_bytes (bs : list MsgHeader) : list Z := flat_map (hdr_bytes native_little) bs.
End MsgHeader.

(** A message of [uint16_t] size occupies at least one block, at most [2^13]. *)
Lemma msg_blocks_bounds s : in_u16 s -> 0 < s -> 1 <= blocks sizeof_MsgHeader s <= 2 ^ 13.
Proof. unfold sizeof_MsgHeader, blocks. intros. word_lia. Qed.
Lemma msg_blocks_range s : in_u16 s -> 0 <= blocks sizeof_MsgHeader s <= 2 ^ 13.
Proof. unfold sizeof_MsgHeader, blocks. intros. word_lia. Qed.

Lemma hdr_ok_intro s t a : in_u16 s -> in_u16 t -> in_u32 a -> hdr_ok (mkHeader s t a).
Proof. intros. split; [|split]; assumption. Qed.

(** ** Bytes of a header *)
Lemma length_hdr_bytes little h : length (hdr_bytes little h) = 8%nat.
Proof. unfold hdr_bytes. autorewrite with len. reflexivity. Qed.
#[export] Hint Rewrite length_hdr_bytes : len.

Lemma hdr_bytes_in_byte little h : Forall in_byte (hdr_bytes little h).
Proof. unfold hdr_bytes. rewrite !Forall_app. auto using to_bytes_in_byte. Qed.

Lemma bytes_hdr_bytes little h rest : hdr_ok h -> bytes_hdr little (hdr_bytes little h ++ rest) = h.
Proof.
  intros (Hs & Ht & Ha). unfold bytes_hdr, hdr_bytes.
  assert (L2 : forall w, length (to_bytes little 2 w) = 2%nat) by (intros; apply length_to_bytes).
  assert (L4 : forall w, length (to_bytes little 4 w) = 4%nat) by (intros; apply length_to_bytes).
  rewrite <- !app_assoc, (take_app_length' _ _ 2) by (symmetry; apply L2).
  rewrite (drop_app_length' _ _ 2) by (symmetry; apply L2).
  rewrite (take_app_length' _ _ 2) by (symmetry; apply L2).
  rewrite app_assoc, (drop_app_length' _ _ 4) by (rewrite length_app, !L2; reflexivity).
  rewrite (take_app_length' _ _ 4) by (symmetry; apply L4).
  destruct h. simpl in *. f_equal; apply of_to_bytes; assumption.
Qed.

Lemma hdr_bytes_hdr little bs :
  Forall in_byte bs -> length bs = 8%nat -> hdr_bytes little (bytes_hdr little bs) = bs.
Proof.
  intros Hb L. unfold hdr_bytes, bytes_hdr. simpl.
  rewrite !to_of_bytes; rewrite ?length_take, ?length_drop; try lia;
    try (repeat (apply Forall_take || apply Forall_drop); assumption).
  rewrite <- (take_drop 2 bs) at 4. f_equal.
  rewrite <- (take_drop 2 (drop 2 bs)) at 2. f_equal. rewrite drop_drop.
  apply take_ge. rewrite length_drop. lia.
Qed.

Lemma bytes_hdr_ok little bs : Forall in_byte bs -> length bs = 8%nat -> hdr_ok (bytes_hdr little bs).
Proof.
  intros Hb L. unfold hdr_ok, bytes_hdr, in_u16, in_u32. simpl size. simpl msg_type. simpl ack_seq.
  assert (B : forall xs n, Forall in_byte xs -> length xs = n ->
                      0 <= of_bytes little xs < 256 ^ Z.of_nat n).
  { intros xs n Hx <-. apply of_bytes_bound. exact Hx. }
  split; [|split]; [apply (B _ 2%nat)|apply (B _ 2%nat)|apply (B _ 4%nat)];
    rewrite ?length_take, ?length_drop; try lia;
    repeat (apply Forall_take || apply Forall_drop); assumption.
Qed.

Section ConvertByteOrderLemmas.
Context {platform : Platform}.

Lemma ConvertByteOrder_ok ToLittle h : hdr_ok h -> hdr_ok (ConvertByteOrder ToLittle h).
Proof.
  intros (? & ? & ?). unfold hdr_ok, ConvertByteOrder. simpl size. simpl msg_type. simpl ack_seq.
  repeat split; try (apply (Convert_bound ToLittle 2); [left; reflexivity | assumption]);
    apply (Convert_bound ToLittle 4); try assumption; right; left; reflexivity.
Qed.

Lemma ConvertByteOrder_involutive ToLittle h :
  hdr_ok h -> ConvertByteOrder ToLittle (ConvertByteOrder ToLittle h) = h.
Proof.
  intros (Hs & Ht & Ha). unfold ConvertByteOrder. destruct h as [s t a]. simpl in *.
  f_equal; apply Convert_involutive; unfold convertible; auto; assumption.
Qed.

(** A converted header has, in the memory of any host, the bytes of the order
    of the wire. *)
Lemma ConvertByteOrder_bytes ToLittle h :
  hdr_ok h -> hdr_bytes native_little (ConvertByteOrder ToLittle h) = hdr_bytes ToLittle h.
Proof.
  intros (Hs & Ht & Ha). unfold hdr_bytes, ConvertByteOrder. simpl.
  rewrite !Convert_bytes; unfold convertible; auto.
Qed.

Lemma size_ConvertByteOrder ToLittle h :
  hdr_ok h -> Convert ToLittle 2 (size (ConvertByteOrder ToLittle h)) = size h.
Proof. intros (Hs & _). apply Convert_involutive; unfold convertible; auto. Qed.

Lemma blks_bytes_app xs ys : blks_bytes (xs ++ ys) = blks_bytes xs ++ blks_bytes ys.
Proof. apply flat_map_app. Qed.

Lemma length_blks_bytes bs : length (blks_bytes bs) = (8 * length bs)%nat.
Proof.
  induction bs as [|b bs IH]; [reflexivity|]. unfold blks_bytes in *. cbn [flat_map length].
  rewrite length_app, length_hdr_bytes, IH. lia.
Qed.
End ConvertByteOrderLemmas.
#[export] Hint Rewrite @blks_bytes_app @length_blks_bytes : len.
#[export] Hint Resolve hdr_bytes_in_byte ConvertByteOrder_ok bytes_hdr_ok : bounds.

(** A header converted by a host of any byte order has in memory the bytes of the order
    of the wire, and a host of any byte order that reads and converts those bytes gets the
    header back. *)
Theorem header_wire_roundtrip (sender receiver : Platform) ToLittle h rest :
  hdr_ok h ->
  let wire := hdr_bytes (@native_little sender) (@ConvertByteOrder sender ToLittle h) in
  wire = hdr_bytes ToLittle h
  /\ @ConvertByteOrder receiver ToLittle (bytes_hdr (@native_little receiver) (wire ++ rest)) = h.
Proof.
  intros Hh wire. assert (E : wire = hdr_bytes ToLittle h) by (apply ConvertByteOrder_bytes; exact Hh).
  split; [exact E|]. rewrite E.
  rewrite <- (ConvertByteOrder_bytes (platform:=receiver) ToLittle h Hh).
  rewrite bytes_hdr_bytes by auto with bounds. apply ConvertByteOrder_involutive. exact Hh.
Qed.

(** From a little-endian to a big-endian host. *)
Lemma header_wire_roundtrip_witness :
  hdr_bytes true (@ConvertByteOrder true true (mkHeader 300 2 70000)) = hdr_bytes true (mkHeader 300 2 70000)
  /\ @ConvertByteOrder false true
       (bytes_hdr false (hdr_bytes true (@ConvertByteOrder true true (mkHeader 300 2 70000)) ++ [7]))
     = mkHeader 300 2 70000.
Proof. refine (header_wire_roundtrip true false true (mkHeader 300 2 70000) [7] _). concrete. Defined.
