(* ===== verification/PTCPQueue.v ===== *)
(** * The persistent TCP send queue (src/tcpshm/ptcp_queue.h)

    [PTCPQueue] keeps every message that was sent until the peer has
    acknowledged it.  It is an array of header-sized blocks, mapped to a file:
    the messages in [[read_idx_, write_idx_)] are not acknowledged yet, those
    from [send_idx_] on are still to be handed to the socket.

    This file holds the state and one definition per operation;
    PTCPQueueSpec.v holds the abstract log they implement. *)

From S2P Require Import Prelude Endian MsgHeader.
Local Open Scope Z_scope.

(** The fields of the class, in the order of the file it is mapped to. *)
Record PTCPQueue : Type := mkQueue {
  blk_ : list MsgHeader;
  write_idx_ : Z;
  read_idx_ : Z;
  send_idx_ : Z;
  read_seq_num_ : Z;  (* the seq_num_ of msg read_idx_ points to *)
  ack_seq_num_ : Z
}.

Section Queue.
Context {platform : Platform}.
(** The template parameters. *)
Context (Bytes : Z) (ToLittleEndian : bool).

Definition BLK_CNT : Z := Bytes / sizeof_MsgHeader.

Definition with_blk (q : PTCPQueue) (blk : list MsgHeader) : PTCPQueue :=
  mkQueue blk (write_idx_ q) (read_idx_ q) (send_idx_ q) (read_seq_num_ q) (ack_seq_num_ q).

(** [MsgHeader& header = blk_[write_idx_]; header.size = size; return &header;] *)
Definition Alloc_header (size : Z) (q : PTCPQueue) : res (PTCPQueue * option Z) :=
  header ← ld (blk_ q) (write_idx_ q);
  blk ← st (blk_ q) (write_idx_ q) (mkHeader size (msg_type header) (ack_seq header));
  Ret (with_blk q blk, Some (write_idx_ q)).

(** The pointer returned is the index of the header in [blk_]; [None] is [nullptr]. *)
Definition Alloc (size : Z) (q : PTCPQueue) : res (PTCPQueue * option Z) :=
  let size := u16 (size + sizeof_MsgHeader) in
  let blk_sz := u32 (blocks sizeof_MsgHeader size) in
  let avail_sz := u32 (BLK_CNT - write_idx_ q) in
  if avail_sz <? blk_sz then
    if u32 (avail_sz + read_idx_ q) <? blk_sz then Ret (q, None)
    else
      blk ← memmove (blk_ q) 0 (read_idx_ q) (u32 (write_idx_ q - read_idx_ q));
      Alloc_header size
        (mkQueue blk (u32 (write_idx_ q - read_idx_ q)) 0 (u32 (send_idx_ q - read_idx_ q))
                 (read_seq_num_ q) (ack_seq_num_ q))
  else Alloc_header size q.

(** What the user does with the pointer [Alloc] returned (client.cpp [Send],
    server.cpp [writeResponse]): set [msg_type], copy the body after the header. *)
Definition Fill (header : Z) (ty : Z) (body : list MsgHeader) (q : PTCPQueue) : res PTCPQueue :=
  h ← ld (blk_ q) header;
  blk ← st (blk_ q) header (mkHeader (size h) ty (ack_seq h));
  blk ← write_at blk (header + 1) body;
  Ret (with_blk q blk).

Definition Push (q : PTCPQueue) : res PTCPQueue :=
  header ← ld (blk_ q) (write_idx_ q);
  let blk_sz := u32 (blocks sizeof_MsgHeader (size header)) in
  let header := mkHeader (size header) (msg_type header) (ack_seq_num_ q) in
  blk ← st (blk_ q) (write_idx_ q) (ConvertByteOrder ToLittleEndian header);
  Ret (mkQueue blk (u32 (write_idx_ q + blk_sz)) (read_idx_ q) (send_idx_ q)
               (read_seq_num_ q) (ack_seq_num_ q)).

(** The pointer is returned as an index of [blk_], with the value of [blk_sz]. *)
Definition GetSendable (q : PTCPQueue) : Z * Z :=
  (send_idx_ q, s32 (u32 (write_idx_ q - send_idx_ q))).

Definition Sendout (blk_sz : Z) (q : PTCPQueue) : PTCPQueue :=
  mkQueue (blk_ q) (write_idx_ q) (read_idx_ q) (u32 (send_idx_ q + blk_sz))
          (read_seq_num_ q) (ack_seq_num_ q).

(** The [do .. while(read_seq_num_ != ack_seq)] loop of [Ack]. *)
Fixpoint Ack_loop (fuel : nat) (ack_seq : Z) (q : PTCPQueue) : res PTCPQueue :=
  match fuel with
  | O => NoFuel
  | S fuel =>
      header ← ld (blk_ q) (read_idx_ q);
      let q' := mkQueue (blk_ q) (write_idx_ q)
                  (u32 (read_idx_ q
                        + blocks sizeof_MsgHeader (Convert ToLittleEndian 2 (size header))))
                  (send_idx_ q) (u32 (read_seq_num_ q + 1)) (ack_seq_num_ q) in
      if read_seq_num_ q' =? ack_seq then Ret q' else Ack_loop fuel ack_seq q'
  end.

(** Each iteration moves [read_seq_num_] one step towards [ack_seq]. *)
Definition Ack_fuel (ack_seq : Z) (q : PTCPQueue) : nat :=
  Z.to_nat (u32 (ack_seq - read_seq_num_ q)).

Definition Ack (ack_seq : Z) (q : PTCPQueue) : res PTCPQueue :=
  if s32 (u32 (ack_seq - read_seq_num_ q)) <=? 0 then Ret q
  else
    q ← Ack_loop (Ack_fuel ack_seq q) ack_seq q;
    if read_idx_ q =? write_idx_ q
    then Ret (mkQueue (blk_ q) 0 0 0 (read_seq_num_ q) (ack_seq_num_ q))
    else Ret q.

Definition LoginAck (ack_seq : Z) (q : PTCPQueue) : res PTCPQueue :=
  q ← Ack ack_seq q;
  Ret (mkQueue (blk_ q) (write_idx_ q) (read_idx_ q) (read_idx_ q)
               (read_seq_num_ q) (ack_seq_num_ q)).

(** [MyAck()] returns a reference to [ack_seq_num_]: reading it, and [MyAck()++]. *)
Definition MyAck (q : PTCPQueue) : Z := ack_seq_num_ q.
Definition MyAck_incr (q : PTCPQueue) : PTCPQueue :=
  mkQueue (blk_ q) (write_idx_ q) (read_idx_ q) (send_idx_ q)
          (read_seq_num_ q) (u32 (ack_seq_num_ q + 1)).

(** The [while(idx < write_idx_)] loop of [SanityCheckAndGetSeq], from [idx]
    and [end]; [None] is the early [return false]. *)
Fixpoint Sanity_loop (fuel : nat) (q : PTCPQueue) (idx end_ : Z) : res (option (Z * Z)) :=
  match fuel with
  | O => NoFuel
  | S fuel =>
      if idx <? write_idx_ q then
        header ← ld (blk_ q) idx;
        let header := ConvertByteOrder ToLittleEndian header in
        if s32 (u32 (ack_seq_num_ q - ack_seq header)) <? 0 then Ret None
        else Sanity_loop fuel q (u32 (idx + blocks sizeof_MsgHeader (size header)))
                         (u32 (end_ + 1))
      else Ret (Some (idx, end_))
  end.

(** One unit of fuel per block of the array, and one for the exit test. *)
Definition Sanity_fuel (q : PTCPQueue) : nat := S (Z.to_nat (write_idx_ q - read_idx_ q)).

(** [Some (seq_start, seq_end)] is [return true]. *)
Definition SanityCheckAndGetSeq (q : PTCPQueue) : res (option (Z * Z)) :=
  r ← Sanity_loop (Sanity_fuel q) q (read_idx_ q) (read_seq_num_ q);
  match r with
  | None => Ret None
  | Some (idx, end_) =>
      if negb (idx =? write_idx_ q) then Ret None else Ret (Some (read_seq_num_ q, end_))
  end.

(** [memset(q_, 0, sizeof(PTCPQ))]: also the content of a new file. *)
Definition zero_header : MsgHeader := mkHeader 0 0 0.
Definition zero_queue : PTCPQueue :=
  mkQueue (replicate (Z.to_nat BLK_CNT) zero_header) 0 0 0 0 0.
End Queue.

(** A run: a 64-byte queue, one 9-byte message (two header blocks of body). *)
Example Push_example :
  let _ : Platform := true in
  (r ← Alloc 64 9 (zero_queue 64);
   let '(q, p) := r in
   match p with
   | Some h =>
       q ← Fill h 1 [mkHeader 1 2 3; mkHeader 9 0 0] q;
       q ← Push true q;
       Ret (write_idx_ q, GetSendable q)
   | None => UB
   end) = Ret (3, (0, 3)).
Proof. vm_compute. reflexivity. Qed.
