(* ===== verification/PTCPQueueSpec.v ===== *)
(** * The abstract log a PTCPQueue implements

    [log] is what the queue promises: the messages that are not acknowledged
    yet in the order they were sent, the sequence number of the first of them,
    how much of them the socket has taken, and the number of messages consumed
    from the peer.  [Rep] relates the array of PTCPQueue.v to a log, and each
    operation of the queue refines one operation of the log. *)

From S2P Require Import Prelude Endian MsgHeader PTCPQueue.
Local Open Scope Z_scope.

(** ** The abstract state *)

(** A message, in host byte order; the body is the rest of its blocks. *)
Record msg : Type := mkMsg { m_hdr : MsgHeader; m_body : list MsgHeader }.

Record log : Type := mkLog {
  entries : list msg;
  first_seq : Z;
  sent : Z;      (* blocks of the entries handed to the socket *)
  my_ack : Z
}.

Definition msg_ok (m : msg) : Prop :=
  hdr_ok (m_hdr m) /\ Forall hdr_ok (m_body m)
  /\ 1 + zlen (m_body m) = blocks sizeof_MsgHeader (size (m_hdr m)).

Section Spec.
Context {platform : Platform}.
Context (Bytes : Z) (ToLittleEndian : bool).

(** The blocks of a message in the queue: its header in wire order. *)
Definition wire (m : msg) : list MsgHeader :=
  ConvertByteOrder ToLittleEndian (m_hdr m) :: m_body m.
Definition wires (ms : list msg) : list MsgHeader := flat_map wire ms.

(** ** Operations of the log *)
Definition spec_room (size : Z) (l : log) : bool :=
  zlen (wires (entries l)) + blocks sizeof_MsgHeader (size + sizeof_MsgHeader)
    <=? BLK_CNT Bytes.
Definition spec_send (size ty : Z) (body : list MsgHeader) (l : log) : log :=
  mkLog (entries l ++ [mkMsg (mkHeader (size + sizeof_MsgHeader) ty (my_ack l)) body])
        (first_seq l) (sent l) (my_ack l).
Definition spec_sendout (n : Z) (l : log) : log :=
  mkLog (entries l) (first_seq l) (sent l + n) (my_ack l).
(** [ack] is the sequence number the peer expects next. *)
Definition spec_acked (ack : Z) (l : log) : Z := s32 (u32 (ack - first_seq l)).
Definition spec_ack (ack : Z) (l : log) : log :=
  if spec_acked ack l <=? 0 then l
  else
    let k := Z.to_nat (spec_acked ack l) in
    mkLog (drop k (entries l)) ack
          (sent l - zlen (wires (take k (entries l)))) (my_ack l).
Definition spec_login_ack (ack : Z) (l : log) : log :=
  let l := spec_ack ack l in mkLog (entries l) (first_seq l) 0 (my_ack l).
Definition spec_pop (l : log) : log :=
  mkLog (entries l) (first_seq l) (sent l) (u32 (my_ack l + 1)).
(** An entry that acknowledges more than was consumed is refused. *)
Definition spec_seq (l : log) : option (Z * Z) :=
  if forallb (fun m => 0 <=? s32 (u32 (my_ack l - ack_seq (m_hdr m)))) (entries l)
  then Some (first_seq l, u32 (first_seq l + zlen (entries l)))
  else None.

(** ** Representation *)
Record Rep (q : PTCPQueue) (l : log) : Prop := {
  rep_layout : exists pre post,
    blk_ q = pre ++ wires (entries l) ++ post /\ read_idx_ q = zlen pre;
  rep_size : zlen (blk_ q) = BLK_CNT Bytes;
  rep_write : write_idx_ q = read_idx_ q + zlen (wires (entries l));
  rep_send : send_idx_ q = read_idx_ q + sent l;
  rep_sent : 0 <= sent l <= zlen (wires (entries l));
  rep_hdrs : Forall hdr_ok (blk_ q);
  rep_msgs : Forall msg_ok (entries l);
  rep_seq : read_seq_num_ q = first_seq l /\ in_u32 (first_seq l);
  rep_ack : ack_seq_num_ q = my_ack l /\ in_u32 (my_ack l)
}.
End Spec.

(** ** Basic facts *)
Section SpecLemmas.
Context {platform : Platform}.
Context (Bytes : Z) (ToLittleEndian : bool).
Abbreviation wire := (wire ToLittleEndian).
Abbreviation wires := (wires ToLittleEndian).

Lemma wires_app xs ys : wires (xs ++ ys) = wires xs ++ wires ys.
Proof. apply flat_map_app. Qed.

Lemma spec_sendout_0 l : spec_sendout 0 l = l.
Proof. destruct l. unfold spec_sendout. cbn. rewrite Z.add_0_r. reflexivity. Qed.

Lemma wires_cons m ms : wires (m :: ms) = wire m ++ wires ms.
Proof. reflexivity. Qed.

Lemma wires_split k ms : wires ms = wires (take k ms) ++ wires (drop k ms).
Proof. rewrite <- wires_app, take_drop. reflexivity. Qed.

Lemma zlen_wire m : msg_ok m -> zlen (wire m) = blocks sizeof_MsgHeader (size (m_hdr m)).
Proof. intros (_ & _ & <-). unfold PTCPQueueSpec.wire. cbn [length]. lia. Qed.

Lemma length_wires_ge ms : (length ms <= length (wires ms))%nat.
Proof.
  induction ms as [|m ms IH]; [simpl; lia|].
  rewrite wires_cons, length_app. cbn [length PTCPQueueSpec.wire]. lia.
Qed.

Lemma wire_hdr_ok m : msg_ok m -> Forall hdr_ok (wire m).
Proof. intros (? & ? & _). constructor; auto with bounds. Qed.

Lemma wires_hdr_ok ms : Forall msg_ok ms -> Forall hdr_ok (wires ms).
Proof.
  induction 1 as [|m ms Hm _ IH]; [constructor|].
  rewrite wires_cons, Forall_app. auto using wire_hdr_ok.
Qed.

(** The header of a queued message gives the length of its entry. *)
Lemma wire_size m : msg_ok m ->
  Convert ToLittleEndian 2 (size (ConvertByteOrder ToLittleEndian (m_hdr m))) = size (m_hdr m).
Proof. intros (H & _). apply size_ConvertByteOrder. exact H. Qed.

(** The loop of [Ack] drops the messages up to the acknowledged one. *)
Lemma Ack_loop_drop ms : forall fuel s q pre rest,
  blk_ q = pre ++ wires ms ++ rest -> read_idx_ q = zlen pre ->
  zlen (blk_ q) < 2 ^ 32 -> Forall msg_ok ms -> ms <> [] -> (length ms <= fuel)%nat ->
  s = u32 (read_seq_num_ q + zlen ms) ->
  Ack_loop ToLittleEndian fuel s q
  = Ret (mkQueue (blk_ q) (write_idx_ q) (read_idx_ q + zlen (wires ms)) (send_idx_ q) s
                 (ack_seq_num_ q)).
Proof.
  induction ms as [|m ms IH]; intros fuel s q pre rest E Er Hlen Hok Hne Hf Hs; [congruence|].
  destruct fuel as [|fuel]; [simpl in Hf; lia|]. cbn [Ack_loop].
  apply Forall_cons_iff in Hok as [Hm Hms]. pose proof (zlen_wire m Hm) as Lm.
  pose proof (length_wires_ge ms) as Lg.
  rewrite wires_cons in E.
  assert (L : zlen pre + zlen (wire m) + zlen (wires ms) + zlen rest = zlen (blk_ q)).
  { rewrite E. autorewrite with len. lia. }
  rewrite E at 1. unfold PTCPQueueSpec.wire at 1. cbn [app]. rewrite ld_app by exact Er.
  cbn [mbind res_bind]. rewrite wire_size, <- Lm by exact Hm.
  rewrite (u32_id (read_idx_ q + _)) by word_lia. cbn [read_seq_num_ length] in *.
  rewrite wires_cons, length_app. destruct ms as [|m' ms].
  - replace (u32 (read_seq_num_ q + 1)) with s by (rewrite Hs; reflexivity).
    rewrite Z.eqb_refl. do 2 f_equal. cbn. lia.
  - assert (Hd : u32 (read_seq_num_ q + 1) <> s) by (rewrite Hs; cbn [length] in *; word_lia).
    apply Z.eqb_neq in Hd. rewrite Hd.
    rewrite (IH fuel s _ (pre ++ wire m) rest); cbn [blk_ read_idx_ write_idx_ send_idx_ read_seq_num_ ack_seq_num_];
      auto; try (cbn [length] in *; lia).
    + do 2 f_equal. lia.
    + rewrite E, <- !app_assoc. reflexivity.
    + rewrite length_app. lia.
    + rewrite Hs, u32_add_l. f_equal. cbn [length]. lia.
Qed.
End SpecLemmas.
#[export] Hint Rewrite @wires_app @wires_cons : len.

(** ** Each operation refines its abstract operation *)
Section Refinement.
Context {platform : Platform}.
Context (Bytes : Z) (ToLittleEndian : bool).
(** [Bytes] is a [uint32_t] template argument. *)
Context (Bytes_range : 0 <= Bytes < 2 ^ 32).
Abbreviation Rep := (Rep Bytes ToLittleEndian).
Abbreviation wires := (wires ToLittleEndian).
Abbreviation wire := (wire ToLittleEndian).
Abbreviation BLK_CNT := (BLK_CNT Bytes).
Abbreviation spec_ack := (spec_ack ToLittleEndian).
Abbreviation spec_login_ack := (spec_login_ack ToLittleEndian).
Implicit Types (q : PTCPQueue) (l : log).

Lemma BLK_CNT_range : 0 <= BLK_CNT < 2 ^ 29.
Proof using Bytes_range. unfold PTCPQueue.BLK_CNT, sizeof_MsgHeader. word_lia. Qed.

(** The indices of a queue that represents a log. *)
Lemma rep_bounds q l : Rep q l ->
  0 <= read_idx_ q <= send_idx_ q /\ send_idx_ q <= write_idx_ q <= BLK_CNT
  /\ zlen (entries l) <= zlen (wires (entries l)) <= BLK_CNT.
Proof.
  intros [(pre & post & E & Er) Hs Hw Hsd Hst _ _ _ _].
  pose proof (length_wires_ge ToLittleEndian (entries l)).
  rewrite E in Hs. rewrite !length_app in Hs. lia.
Qed.

(** A queue whose memory past [write_idx_] is arbitrary represents the same log. *)
Lemma rep_zero : in_u32 0 -> Rep (zero_queue Bytes) (mkLog [] 0 0 0).
Proof using Bytes_range.
  intros H0. pose proof BLK_CNT_range. constructor; simpl; auto; try lia.
  - exists [], (replicate (Z.to_nat BLK_CNT) zero_header). split; reflexivity.
  - rewrite length_replicate. lia.
  - apply Forall_replicate. repeat split; simpl; try word_lia.
Qed.

(** *** Sending *)

(** The state between [Alloc] and [Push]: the reserved header follows the log. *)
Definition Reserved (sz : Z) q l : Prop :=
  Rep q l /\ exists pre h post,
    blk_ q = pre ++ wires (entries l) ++ h :: post
    /\ read_idx_ q = zlen pre
    /\ size h = sz
    /\ blocks sizeof_MsgHeader sz <= 1 + zlen post.

Lemma Alloc_header_rep sz q l :
  Rep q l -> in_u16 sz -> 0 < sz ->
  write_idx_ q + blocks sizeof_MsgHeader sz <= BLK_CNT ->
  exists q', Alloc_header sz q = Ret (q', Some (write_idx_ q')) /\ Reserved sz q' l.
Proof.
  intros HR Hsz Hpos Hroom. pose proof (rep_bounds q l HR) as B.
  pose proof (blocks_pos sizeof_MsgHeader sz ltac:(reflexivity) Hpos).
  destruct HR as [(pre & post & E & Er) Hs Hw Hsd Hst Hh Hm Hq Ha].
  assert (L : zlen pre + zlen (wires (entries l)) + zlen post = BLK_CNT).
  { rewrite <- Hs, E, !length_app. lia. }
  destruct post as [|h post]; [simpl in L; lia|]. cbn [length] in L.
  unfold Alloc_header. rewrite E, !app_assoc.
  rewrite ld_app by (rewrite length_app; lia). simpl.
  rewrite st_app by (rewrite length_app; lia). simpl.
  rewrite <- app_assoc. ret_exists. split; [reflexivity|].
  set (h' := mkHeader sz (msg_type h) (ack_seq h)).
  assert (Hh' : Forall hdr_ok (pre ++ wires (entries l) ++ h' :: post)).
  { rewrite E, !Forall_app, Forall_cons_iff in Hh. rewrite !Forall_app, Forall_cons_iff.
    destruct Hh as (H1 & H2 & (_ & ? & ?) & H3).
    refine (conj H1 (conj H2 (conj _ H3))). apply hdr_ok_intro; assumption. }
  split.
  - constructor; simpl; auto; [eauto|]. rewrite !length_app. cbn [length]. lia.
  - exists pre, h', post. simpl. repeat split; auto. lia.
Qed.

(** [Alloc] compacts the queue when the tail is too short, and keeps the log. *)
Lemma Alloc_room sz q l :
  Rep q l -> 0 <= sz -> sz + sizeof_MsgHeader < 2 ^ 16 ->
  spec_room Bytes ToLittleEndian sz l = true ->
  exists q', Alloc Bytes sz q = Ret (q', Some (write_idx_ q'))
    /\ Reserved (sz + sizeof_MsgHeader) q' l.
Proof using Bytes_range.
  unfold sizeof_MsgHeader. intros HR Hsz Hlt Hroom. pose proof (rep_bounds q l HR) as B.
  pose proof BLK_CNT_range as BC. unfold spec_room, sizeof_MsgHeader in Hroom. apply Z.leb_le in Hroom.
  pose proof (blocks_bounds 8 (sz + 8) ltac:(lia)).
  assert (Hu : in_u16 (sz + 8)) by word_lia.
  unfold Alloc, sizeof_MsgHeader. rewrite (u16_id (sz + 8) Hu).
  rewrite (u32_id (blocks 8 (sz + 8))) by word_lia.
  rewrite (u32_id (BLK_CNT - write_idx_ q)) by word_lia.
  case_test; [|apply Alloc_header_rep; auto with bounds; unfold sizeof_MsgHeader; lia].
  pose proof (rep_write _ _ _ _ HR).
  rewrite (u32_id (BLK_CNT - _ + _)) by word_lia. case_test; [lia|].
  rewrite (u32_id (write_idx_ q - read_idx_ q)) by word_lia.
  rewrite (u32_id (send_idx_ q - read_idx_ q)) by word_lia.
  destruct HR as [(pre & post & E & Er) Hs Hw Hsd Hst Hh Hm Hq Ha].
  destruct (memmove_front pre (wires (entries l)) post (read_idx_ q) (write_idx_ q - read_idx_ q))
    as (post' & Emv & Lp & HP); [lia | lia|].
  rewrite E, Emv. simpl.
  apply Alloc_header_rep; simpl; auto; unfold sizeof_MsgHeader; try lia.
  rewrite E in Hs, Hh. rewrite !length_app in Hs.
  constructor; simpl; auto; try lia.
  - exists [], post'. split; [reflexivity | reflexivity].
  - rewrite length_app. lia.
  - rewrite Forall_app. split; [apply wires_hdr_ok; exact Hm | apply HP; exact Hh].
Qed.

(** No room: [nullptr], and nothing changes. *)
Lemma Alloc_full sz q l :
  Rep q l -> 0 <= sz -> sz + sizeof_MsgHeader < 2 ^ 16 ->
  spec_room Bytes ToLittleEndian sz l = false ->
  Alloc Bytes sz q = Ret (q, None).
Proof using Bytes_range.
  unfold sizeof_MsgHeader. intros HR Hsz Hlt Hroom. pose proof (rep_bounds q l HR) as B.
  pose proof BLK_CNT_range as BC. unfold spec_room, sizeof_MsgHeader in Hroom. apply Z.leb_gt in Hroom.
  pose proof (blocks_bounds 8 (sz + 8) ltac:(lia)). pose proof (rep_write _ _ _ _ HR).
  unfold Alloc, sizeof_MsgHeader. rewrite (u16_id (sz + 8)) by word_lia.
  rewrite (u32_id (blocks 8 (sz + 8))) by word_lia.
  rewrite (u32_id (BLK_CNT - write_idx_ q)) by word_lia.
  rewrite (u32_id (BLK_CNT - _ + _)) by word_lia.
  case_test; [|lia]. case_test; [reflexivity | lia].
Qed.

(** Filling the reserved message and submitting it appends it to the log. *)
Lemma Fill_Push sz ty body q l :
  Reserved (sz + sizeof_MsgHeader) q l ->
  0 <= sz -> sz + sizeof_MsgHeader < 2 ^ 16 -> in_u16 ty -> Forall hdr_ok body ->
  1 + zlen body = blocks sizeof_MsgHeader (sz + sizeof_MsgHeader) ->
  exists q', (q1 ← Fill (write_idx_ q) ty body q; Push ToLittleEndian q1) = Ret q'
    /\ Rep q' (spec_send sz ty body l).
Proof using Bytes_range.
  intros (HR & pre & h & post & E & Er & Esz & Hroom) Hsz Hlt Hty Hbody Hlen.
  pose proof (rep_bounds q l HR) as B. pose proof BLK_CNT_range as BC.
  destruct HR as [_ Hs Hw Hsd Hst Hh Hm [Hq1 Hq2] [Ha1 Ha2]].
  assert (Hu : in_u16 (sz + sizeof_MsgHeader)) by (unfold sizeof_MsgHeader in *; word_lia).
  (* split the free space at the end of the body *)
  assert (Hp : exists b post', post = b ++ post' /\ length b = length body).
  { exists (take (length body) post), (drop (length body) post).
    rewrite take_drop, length_take. split; [reflexivity | lia]. }
  destruct Hp as (b & post' & -> & Lb).
  unfold Fill. rewrite E, app_assoc. rewrite ld_app by (rewrite length_app; lia). simpl.
  rewrite st_app by (rewrite length_app; lia). simpl.
  set (h1 := mkHeader (size h) ty (ack_seq h)).
  change (h1 :: b ++ post') with ([h1] ++ b ++ post'). rewrite app_assoc.
  rewrite write_at_app by (rewrite ?length_app; cbn [length]; lia). simpl.
  rewrite <- app_assoc. cbn [app].
  unfold Push. cbn [with_blk blk_ write_idx_ read_idx_ send_idx_ read_seq_num_ ack_seq_num_].
  rewrite ld_app by (rewrite length_app; lia). cbn [mbind res_bind].
  rewrite st_app by (rewrite length_app; lia). cbn [mbind res_bind].
  set (m := mkMsg (mkHeader (sz + sizeof_MsgHeader) ty (my_ack l)) body).
  assert (Hmok : msg_ok m) by (split; [apply hdr_ok_intro; assumption | auto]).
  assert (Eb : (pre ++ wires (entries l))
                 ++ ConvertByteOrder ToLittleEndian (mkHeader (size h1) (msg_type h1) (ack_seq_num_ q))
                 :: body ++ post'
               = pre ++ wires (entries (spec_send sz ty body l)) ++ post').
  { cbn [spec_send entries]. rewrite wires_app, <- !app_assoc. do 2 f_equal.
    unfold h1. cbn [size msg_type PTCPQueueSpec.wires flat_map PTCPQueueSpec.wire m_hdr m_body app].
    rewrite app_nil_r, Ha1. congruence. }
  assert (Ls : zlen pre + zlen (wires (entries l)) + 1 + zlen body + zlen post' = BLK_CNT).
  { rewrite <- Hs, E. autorewrite with len in *. lia. }
  assert (Es1 : size h1 = sz + sizeof_MsgHeader) by exact Esz.
  rewrite Eb, Es1, <- Hlen, (u32_id (1 + zlen body)) by word_lia.
  assert (Lw : zlen (wires (entries (spec_send sz ty body l)))
               = zlen (wires (entries l)) + (1 + zlen body)).
  { cbn [spec_send entries]. rewrite wires_app, length_app, wires_cons. cbn [PTCPQueueSpec.wires flat_map].
    rewrite app_nil_r. cbn [PTCPQueueSpec.wire m_body length]. lia. }
  rewrite (u32_id (write_idx_ q + _)) by word_lia.
  ret_exists. split; [reflexivity|].
  set (es := entries (spec_send sz ty body l)) in *.
  constructor; cbn [blk_ write_idx_ read_idx_ send_idx_ read_seq_num_ ack_seq_num_]; fold es;
    try (split; assumption); try (cbn [spec_send sent]; lia).
  - exists pre, post'. split; [reflexivity | exact Er].
  - rewrite !length_app. lia.
  - rewrite E, !Forall_app, Forall_cons_iff, Forall_app in Hh.
    destruct Hh as (H1 & H2 & _ & _ & H3). rewrite !Forall_app. refine (conj H1 (conj _ H3)).
    apply wires_hdr_ok, Forall_app. auto.
  - apply Forall_app. auto.
Qed.

(** *** Handing blocks to the socket *)
Lemma Sendout_rep n q l :
  Rep q l -> 0 <= n -> sent l + n <= zlen (wires (entries l)) ->
  Rep (Sendout n q) (spec_sendout n l).
Proof using Bytes_range.
  intros HR Hn Hle. pose proof (rep_bounds q l HR) as B. pose proof BLK_CNT_range.
  destruct HR as [HL Hs Hw Hsd Hst Hh Hm Hq Ha].
  constructor; simpl; auto; [rewrite u32_id by word_lia|]; lia.
Qed.

(** What [GetSendable] exposes is the part of the log not sent yet. *)
Lemma GetSendable_rep q l :
  Rep q l ->
  GetSendable q = (send_idx_ q, zlen (wires (entries l)) - sent l)
  /\ read_at (blk_ q) (send_idx_ q) (zlen (wires (entries l)) - sent l)
     = Ret (drop (Z.to_nat (sent l)) (wires (entries l))).
Proof using Bytes_range.
  intros HR. pose proof (rep_bounds q l HR) as B. pose proof BLK_CNT_range.
  destruct HR as [(pre & post & E & Er) Hs Hw Hsd Hst _ _ _ _].
  unfold GetSendable. rewrite s32_u32, s32_id by lia. split; [f_equal; lia|].
  rewrite E, <- (take_drop (Z.to_nat (sent l)) (wires (entries l))) at 1.
  rewrite <- (app_assoc (take _ _)), app_assoc.
  apply read_at_app; rewrite ?length_app, ?length_take, ?length_drop; lia.
Qed.

Lemma MyAck_incr_rep q l : Rep q l -> Rep (MyAck_incr q) (spec_pop l).
Proof.
  intros [HL Hs Hw Hsd Hst Hh Hm Hq [Ha1 Ha2]]. constructor; simpl; auto.
  rewrite Ha1. split; [reflexivity | apply u32_in].
Qed.

(** *** Acknowledgement *)
(** The queue after [Ack] when messages are acknowledged: they are dropped,
    and an empty queue starts over at the front of the array. *)
Definition Ack_result (s : Z) q l : PTCPQueue :=
  let r := read_idx_ q + zlen (wires (take (Z.to_nat (spec_acked s l)) (entries l))) in
  if r =? write_idx_ q then mkQueue (blk_ q) 0 0 0 s (ack_seq_num_ q)
  else mkQueue (blk_ q) (write_idx_ q) r (send_idx_ q) s (ack_seq_num_ q).

Lemma Ack_eval s q l :
  Rep q l -> in_u32 s -> 0 < spec_acked s l <= zlen (entries l) ->
  Ack ToLittleEndian s q = Ret (Ack_result s q l).
Proof using Bytes_range.
  intros HR Hs Hd. pose proof (rep_bounds q l HR) as B. pose proof BLK_CNT_range.
  destruct HR as [(pre & post & E & Er) Hsz Hw _ _ _ Hm [Hq1 Hq2] _].
  unfold Ack, Ack_result, Ack_fuel. rewrite Hq1. fold (spec_acked s l). case_test; [lia|].
  assert (Hu : u32 (s - first_seq l) = spec_acked s l) by (unfold spec_acked in *; word_lia).
  rewrite Hu. set (k := Z.to_nat (spec_acked s l)) in *.
  rewrite (wires_split ToLittleEndian k (entries l)), <- app_assoc in E.
  rewrite (Ack_loop_drop ToLittleEndian (take k (entries l)) _ _ _ _ _ E Er); auto.
  - cbn [mbind res_bind blk_ read_idx_ write_idx_ send_idx_ read_seq_num_ ack_seq_num_].
    case_test; reflexivity.
  - lia.
  - apply Forall_take. exact Hm.
  - intros Hnil. apply (f_equal length) in Hnil. rewrite length_take in Hnil. simpl in Hnil. lia.
  - rewrite length_take. lia.
  - rewrite length_take, Hq1. word_lia.
Qed.

Lemma Ack_result_rep s q l :
  Rep q l -> in_u32 s -> 0 < spec_acked s l <= zlen (entries l) ->
  zlen (wires (take (Z.to_nat (spec_acked s l)) (entries l))) <= sent l ->
  Rep (Ack_result s q l) (spec_ack s l).
Proof using Bytes_range.
  intros [(pre & post & E & Er) Hsz Hw Hsd Hst Hh Hm [Hq1 Hq2] Ha] Hs Hd Hsent.
  unfold Ack_result, spec_ack. destruct (Z.leb_spec (spec_acked s l) 0) as [?|_]; [lia|].
  set (k := Z.to_nat (spec_acked s l)) in *.
  pose proof (wires_split ToLittleEndian k (entries l)) as Ew. rewrite Ew in E, Hw, Hst.
  rewrite length_app in Hw, Hst. case_test.
  - assert (En : wires (drop k (entries l)) = []) by (apply length_zero_iff_nil; lia).
    constructor; cbn [blk_ write_idx_ read_idx_ send_idx_ read_seq_num_ ack_seq_num_ entries first_seq sent my_ack];
      rewrite ?En; auto using Forall_drop; cbn [length] in *; try lia.
    exists [], (blk_ q). split; reflexivity.
  - constructor; cbn [blk_ write_idx_ read_idx_ send_idx_ read_seq_num_ ack_seq_num_ entries first_seq sent my_ack];
      auto using Forall_drop; try lia.
    exists (pre ++ wires (take k (entries l))), post. rewrite E, <- !app_assoc, length_app.
    split; [reflexivity | lia].
Qed.

Lemma Ack_old s q l :
  Rep q l -> spec_acked s l <= 0 -> Ack ToLittleEndian s q = Ret q /\ spec_ack s l = l.
Proof.
  intros [_ _ _ _ _ _ _ [Hq _] _] Hd. unfold Ack, spec_ack. rewrite Hq.
  fold (spec_acked s l). destruct (Z.leb_spec (spec_acked s l) 0); [auto | lia].
Qed.

(** An acknowledgement of messages the socket has taken. *)
Lemma Ack_rep s q l :
  Rep q l -> in_u32 s -> spec_acked s l <= zlen (entries l) ->
  zlen (wires (take (Z.to_nat (spec_acked s l)) (entries l))) <= sent l ->
  exists q', Ack ToLittleEndian s q = Ret q' /\ Rep q' (spec_ack s l).
Proof using Bytes_range.
  intros HR Hs Hle Hsent. destruct (Z.le_gt_cases (spec_acked s l) 0) as [Hd|Hd].
  - destruct (Ack_old s q l HR Hd) as [-> ->]. eauto.
  - exists (Ack_result s q l). split; [apply Ack_eval | apply Ack_result_rep]; auto; lia.
Qed.

Definition set_send (n : Z) q : PTCPQueue :=
  mkQueue (blk_ q) (write_idx_ q) (read_idx_ q) (read_idx_ q + n)
          (read_seq_num_ q) (ack_seq_num_ q).
Definition set_sent (n : Z) l : log := mkLog (entries l) (first_seq l) n (my_ack l).

Lemma set_send_rep n q l :
  Rep q l -> 0 <= n <= zlen (wires (entries l)) -> Rep (set_send n q) (set_sent n l).
Proof. intros [HL Hs Hw Hsd Hst Hh Hm Hq Ha] Hn. constructor; simpl; auto. Qed.

(** At login the peer may acknowledge anything in the queue; what is left is
    sent again from its start. *)
Lemma LoginAck_rep s q l :
  Rep q l -> in_u32 s -> spec_acked s l <= zlen (entries l) ->
  exists q', LoginAck ToLittleEndian s q = Ret q' /\ Rep q' (spec_login_ack s l).
Proof using Bytes_range.
  intros HR Hs Hle. pose proof (rep_bounds q l HR) as B. unfold LoginAck, spec_login_ack.
  destruct (Z.le_gt_cases (spec_acked s l) 0) as [Hd|Hd].
  - destruct (Ack_old s q l HR Hd) as [-> ->]. simpl. eexists. split; [reflexivity|].
    rewrite <- (Z.add_0_r (read_idx_ q)) at 2. apply (set_send_rep 0 q l HR). lia.
  - rewrite (Ack_eval s q l) by (auto; lia). cbn [mbind res_bind]. eexists. split; [reflexivity|].
    set (w := zlen (wires (entries l))).
    assert (HR' : Rep (set_send w q) (set_sent w l)) by (apply set_send_rep; [exact HR | lia]).
    apply (Ack_result_rep s) in HR'; auto.
    + pose proof (rep_bounds _ _ HR') as B'. apply (set_send_rep 0) in HR'; [|lia].
      replace (mkQueue _ _ _ _ _ _) with (set_send 0 (Ack_result s (set_send w q) (set_sent w l))).
      { replace (mkLog _ _ _ _) with (set_sent 0 (spec_ack s (set_sent w l))); [exact HR'|].
        unfold set_sent, spec_ack. cbn [entries first_seq spec_acked my_ack sent].
        change (spec_acked s (mkLog _ _ _ _)) with (spec_acked s l). case_test; reflexivity. }
      unfold set_send, Ack_result. cbn [write_idx_ read_idx_ blk_ ack_seq_num_].
      change (spec_acked s (set_sent w l)) with (spec_acked s l). cbn [entries set_sent].
      case_test; cbn; rewrite ?Z.add_0_r; reflexivity.
    + change (spec_acked s (set_sent w l)) with (spec_acked s l).
      cbn [entries set_sent sent]. unfold w.
      pose proof (wires_split ToLittleEndian (Z.to_nat (spec_acked s l)) (entries l)) as Ew.
      apply (f_equal length) in Ew. rewrite length_app in Ew. lia.
Qed.
End Refinement.
