(* ===== verification/PTCPQueueProps.v ===== *)
(** * What a PTCPQueue guarantees

    Runs of the queue refine runs of the log of PTCPQueueSpec.v, the
    acknowledgement arithmetic is exact across the wrap of the sequence
    numbers, and a file that passes [SanityCheckAndGetSeq] holds a log. *)

From S2P Require Import Prelude Endian MsgHeader PTCPQueue PTCPQueueSpec.
Local Open Scope Z_scope.

(** ** The sanity check *)
Section Sanity.
Context {platform : Platform}.
Context (ToLittleEndian : bool).
Abbreviation wires := (wires ToLittleEndian).
Implicit Types (q : PTCPQueue).

(** The test the loop makes on each message. *)
Definition ack_fine (my_ack : Z) (m : msg) : bool :=
  0 <=? s32 (u32 (my_ack - ack_seq (m_hdr m))).

Lemma Sanity_loop_wires ms : forall fuel q pre rest e,
  blk_ q = pre ++ wires ms ++ rest -> zlen (blk_ q) < 2 ^ 32 ->
  write_idx_ q = zlen pre + zlen (wires ms) -> Forall msg_ok ms ->
  (length ms < fuel)%nat -> in_u32 e ->
  Sanity_loop ToLittleEndian fuel q (zlen pre) e
  = Ret (if forallb (ack_fine (ack_seq_num_ q)) ms
         then Some (write_idx_ q, u32 (e + zlen ms)) else None).
Proof.
  induction ms as [|m ms IH]; intros [|fuel] q pre rest e E Hlen Hw Hok Hf He;
    try (cbn [length] in Hf; lia); cbn [Sanity_loop].
  - cbn [PTCPQueueSpec.wires flat_map length forallb] in *. case_test; [lia|].
    rewrite Z.add_0_r, u32_id by exact He. do 3 f_equal. lia.
  - apply Forall_cons_iff in Hok as [Hm Hms].
    pose proof (zlen_wire ToLittleEndian m Hm) as Lm. destruct Hm as (Hh & Hb & Hl).
    rewrite wires_cons in E. unfold PTCPQueueSpec.wire in E. cbn [app] in E.
    rewrite wires_cons, length_app in Hw.
    assert (L : zlen pre + zlen (wire ToLittleEndian m) + zlen (wires ms) + zlen rest
                = zlen (blk_ q)).
    { rewrite E. unfold PTCPQueueSpec.wire. autorewrite with len. lia. }
    assert (0 < zlen (wire ToLittleEndian m)) by (cbn [PTCPQueueSpec.wire length]; lia).
    case_test; [|lia]. rewrite E at 1. rewrite ld_app by reflexivity. cbn [mbind res_bind].
    rewrite ConvertByteOrder_involutive, <- Lm by exact Hh. cbn [forallb].
    unfold ack_fine at 1. rewrite Z.leb_antisym. case_test; [reflexivity|]. cbn [negb andb].
    rewrite u32_id by word_lia.
    replace (zlen pre + zlen (wire ToLittleEndian m))
      with (zlen (pre ++ wire ToLittleEndian m)) by (rewrite length_app; lia).
    rewrite (IH fuel q _ rest); auto with bounds.
    + rewrite u32_add_l. replace (e + 1 + zlen ms) with (e + zlen (m :: ms)) by (cbn [length]; lia).
      reflexivity.
    + rewrite E. unfold PTCPQueueSpec.wire. rewrite <- !app_assoc. reflexivity.
    + rewrite length_app. lia.
    + cbn [length] in Hf. lia.
Qed.

(** A header of size zero: the loop does not advance. *)
Lemma Sanity_loop_zero q idx h :
  in_u32 idx -> idx < write_idx_ q -> ld (blk_ q) idx = Ret h ->
  Convert ToLittleEndian 2 (size h) = 0 ->
  0 <= s32 (u32 (ack_seq_num_ q - Convert ToLittleEndian 4 (ack_seq h))) ->
  forall fuel e, Sanity_loop ToLittleEndian fuel q idx e = NoFuel.
Proof.
  intros Hi Hw Hld Hz Ha fuel. induction fuel as [|fuel IH]; intros e; [reflexivity|].
  cbn [Sanity_loop]. case_test; [|lia]. rewrite Hld. cbn [mbind res_bind].
  unfold ConvertByteOrder. cbn [ack_seq size]. case_test; [lia|].
  rewrite Hz. change (blocks sizeof_MsgHeader 0) with 0. rewrite Z.add_0_r, u32_id by exact Hi.
  apply IH.
Qed.

(** Every file the check accepts holds well-formed messages, back to back. *)
Lemma Sanity_loop_sound fuel : forall q idx e e',
  zlen (blk_ q) < 2 ^ 31 -> Forall hdr_ok (blk_ q) -> write_idx_ q <= zlen (blk_ q) ->
  in_u32 idx -> in_u32 e ->
  Sanity_loop ToLittleEndian fuel q idx e = Ret (Some (write_idx_ q, e')) ->
  exists pre ms rest,
    blk_ q = pre ++ wires ms ++ rest /\ zlen pre = idx
    /\ write_idx_ q = idx + zlen (wires ms) /\ Forall msg_ok ms
    /\ forallb (ack_fine (ack_seq_num_ q)) ms = true /\ e' = u32 (e + zlen ms).
Proof.
  induction fuel as [|fuel IH]; intros q idx e e' Hlen Hok Hw Hi He H; [discriminate H|].
  cbn [Sanity_loop] in H. destruct (Z.ltb_spec idx (write_idx_ q)) as [Hlt|Hge].
  2:{ injection H as H1 H2. exists (take (Z.to_nat idx) (blk_ q)), [], (drop (Z.to_nat idx) (blk_ q)).
      cbn. rewrite take_drop, length_take. unfold in_u32 in *.
      repeat split; auto; try lia. subst e'. rewrite Z.add_0_r, u32_id by exact He. reflexivity. }
  unfold in_u32 in Hi. destruct (ld_inb (blk_ q) idx ltac:(lia)) as [h Hh].
  rewrite Hh in H. cbn [mbind res_bind] in H.
  destruct (Z.ltb_spec (s32 (u32 (ack_seq_num_ q - ack_seq (ConvertByteOrder ToLittleEndian h)))) 0)
    as [|Hack]; [discriminate H|].
  apply ld_Ret in Hh as [_ Hh]. pose proof (Forall_lookup_1 _ _ _ _ Hok Hh) as Hhok.
  set (h' := ConvertByteOrder ToLittleEndian h) in *.
  assert (Hh'ok : hdr_ok h') by (apply ConvertByteOrder_ok; exact Hhok).
  pose proof Hh'ok as (Hs & _ & _). pose proof Hs as [Hs0 Hs1].
  destruct (Z.eq_dec (size h') 0) as [Hz|Hz].
  { exfalso. revert H. rewrite Hz. change (blocks sizeof_MsgHeader 0) with 0.
    rewrite Z.add_0_r, u32_id by (unfold in_u32; lia).
    assert (Hld : ld (blk_ q) idx = Ret h) by (apply ld_Ret; split; [lia | exact Hh]).
    rewrite (Sanity_loop_zero q idx h Hi Hlt Hld Hz Hack). discriminate. }
  pose proof (msg_blocks_bounds (size h') Hs ltac:(lia)) as Bb.
  rewrite u32_id in H by (unfold in_u32; lia).
  apply IH in H as (pre & ms & rest & E & Ep & Ew & Hms & Hacks & ->); auto with bounds.
  (* the entry at [idx] is the header and the blocks up to the next entry *)
  set (n := Z.to_nat (blocks sizeof_MsgHeader (size h') - 1)) in *.
  assert (Hpre : pre = take (Z.to_nat idx) (blk_ q)
                       ++ h :: take n (drop (S (Z.to_nat idx)) (blk_ q))).
  { assert (Epre : pre = take (length pre) (blk_ q)) by (rewrite E, take_app_length; reflexivity).
    rewrite Epre. replace (length pre) with (Z.to_nat idx + S n)%nat by lia.
    rewrite <- take_take_drop. f_equal. rewrite (drop_S _ _ _ Hh). reflexivity. }
  assert (Lb : length (take n (drop (S (Z.to_nat idx)) (blk_ q))) = n).
  { apply (f_equal length) in Hpre. rewrite length_app, length_take in Hpre. cbn [length] in Hpre.
    lia. }
  set (body := take n (drop (S (Z.to_nat idx)) (blk_ q))) in *.
  assert (Ewire : wire ToLittleEndian (mkMsg h' body) = h :: body).
  { unfold PTCPQueueSpec.wire. cbn [m_hdr m_body]. unfold h'.
    rewrite ConvertByteOrder_involutive by exact Hhok. reflexivity. }
  exists (take (Z.to_nat idx) (blk_ q)), (mkMsg h' body :: ms), rest.
  rewrite wires_cons, Ewire. repeat split.
  - rewrite E at 1. rewrite Hpre at 1. rewrite <- !app_assoc. reflexivity.
  - rewrite length_take. lia.
  - rewrite length_app. cbn [length]. rewrite Lb. lia.
  - constructor; [|exact Hms]. split; [exact Hh'ok|]. cbn [m_body m_hdr].
    split; [apply Forall_take, Forall_drop; exact Hok|]. rewrite Lb. lia.
  - cbn [forallb]. rewrite Hacks, andb_true_r. apply Z.leb_le. exact Hack.
  - rewrite u32_add_l. cbn [length]. f_equal. lia.
Qed.

(** The fuel is enough unless some block the loop can stop at has size zero. *)
Lemma Sanity_loop_total fuel : forall q idx e,
  zlen (blk_ q) < 2 ^ 31 -> Forall hdr_ok (blk_ q) -> write_idx_ q <= zlen (blk_ q) ->
  (forall h, h ∈ blk_ q -> Convert ToLittleEndian 2 (size h) <> 0) ->
  in_u32 idx -> Z.max 0 (write_idx_ q - idx) < Z.of_nat fuel ->
  exists r, Sanity_loop ToLittleEndian fuel q idx e = Ret r.
Proof.
  induction fuel as [|fuel IH]; intros q idx e Hlen Hok Hw Hnz Hi Hf; unfold in_u32 in *.
  - lia.
  - cbn [Sanity_loop]. case_test; [|eauto].
    destruct (ld_inb (blk_ q) idx ltac:(lia)) as [h Hh]. rewrite Hh. cbn [mbind res_bind].
    case_test; [eauto|]. apply ld_Ret in Hh as [_ Hh].
    pose proof (Hnz h ltac:(apply list_elem_of_lookup; eauto)) as Hz.
    destruct (ConvertByteOrder_ok ToLittleEndian h (Forall_lookup_1 _ _ _ _ Hok Hh)) as (Hs & _).
    cbn [ConvertByteOrder size] in *. pose proof Hs as [Hs0 Hs1].
    pose proof (msg_blocks_bounds _ Hs ltac:(lia)) as Bb. rewrite u32_id by (unfold in_u32; lia).
    apply IH; auto; unfold in_u32; lia.
Qed.
End Sanity.

(** ** Runs

    The commands are what the rest of the library does to a queue: a user
    message (Alloc, fill, Push), the two halves of SendPending, the
    acknowledgements of the peer, and the count of consumed messages. *)
Inductive cmd : Type :=
| CSend (size ty : Z) (body : list MsgHeader)
| CSendable
| CSendout (n : Z)
| CAck (s : Z)
| CLoginAck (s : Z)
| CPop
| CGetSeq.

Inductive out : Type :=
| ODone
| OFull
| OBlocks (bs : list MsgHeader)
| OSeq (r : option (Z * Z)).

Section Runs.
Context {platform : Platform}.
Context (Bytes : Z) (ToLittleEndian : bool).
Implicit Types (q : PTCPQueue) (l : log) (c : cmd).

Definition exec c q : res (PTCPQueue * out) :=
  match c with
  | CSend size ty body =>
      r ← Alloc Bytes size q;
      match r with
      | (q, None) => Ret (q, OFull)
      | (q, Some header) =>
          q ← Fill header ty body q;
          q ← Push ToLittleEndian q;
          Ret (q, ODone)
      end
  | CSendable =>
      let '(p, blk_sz) := GetSendable q in
      bs ← read_at (blk_ q) p blk_sz;
      Ret (q, OBlocks bs)
  | CSendout n => Ret (Sendout n q, ODone)
  | CAck s => q ← Ack ToLittleEndian s q; Ret (q, ODone)
  | CLoginAck s => q ← LoginAck ToLittleEndian s q; Ret (q, ODone)
  | CPop => Ret (MyAck_incr q, ODone)
  | CGetSeq => r ← SanityCheckAndGetSeq ToLittleEndian q; Ret (q, OSeq r)
  end.

Definition spec_exec c l : log * out :=
  match c with
  | CSend size ty body =>
      if spec_room Bytes ToLittleEndian size l then (spec_send size ty body l, ODone)
      else (l, OFull)
  | CSendable => (l, OBlocks (drop (Z.to_nat (sent l)) (wires ToLittleEndian (entries l))))
  | CSendout n => (spec_sendout n l, ODone)
  | CAck s => (spec_ack ToLittleEndian s l, ODone)
  | CLoginAck s => (spec_login_ack ToLittleEndian s l, ODone)
  | CPop => (spec_pop l, ODone)
  | CGetSeq => (l, OSeq (spec_seq l))
  end.

(** What the library assumes of its callers: a message fits in [uint16_t], its
    body has the size announced; the socket takes no more than was offered;
    the peer acknowledges only messages of the queue, and while connected only
    messages the socket has taken. *)
Definition legal c l : Prop :=
  match c with
  | CSend size ty body =>
      0 <= size /\ size + sizeof_MsgHeader < 2 ^ 16 /\ in_u16 ty /\ Forall hdr_ok body
      /\ 1 + zlen body = blocks sizeof_MsgHeader (size + sizeof_MsgHeader)
  | CSendout n => 0 <= n /\ sent l + n <= zlen (wires ToLittleEndian (entries l))
  | CAck s =>
      in_u32 s /\ spec_acked s l <= zlen (entries l)
      /\ zlen (wires ToLittleEndian (take (Z.to_nat (spec_acked s l)) (entries l))) <= sent l
  | CLoginAck s => in_u32 s /\ spec_acked s l <= zlen (entries l)
  | CSendable | CPop | CGetSeq => True
  end.

Fixpoint run (cs : list cmd) q : res (PTCPQueue * list out) :=
  match cs with
  | [] => Ret (q, [])
  | c :: cs =>
      r ← exec c q;
      let '(q, o) := r in
      r ← run cs q;
      let '(q, os) := r in
      Ret (q, o :: os)
  end.

Fixpoint spec_run (cs : list cmd) l : log * list out :=
  match cs with
  | [] => (l, [])
  | c :: cs =>
      let '(l, o) := spec_exec c l in
      let '(l, os) := spec_run cs l in
      (l, o :: os)
  end.

Fixpoint legal_run (cs : list cmd) l : Prop :=
  match cs with
  | [] => True
  | c :: cs => legal c l /\ legal_run cs (fst (spec_exec c l))
  end.

(** The messages a run submits: those [Alloc] had room for. *)
Fixpoint submitted (cs : list cmd) l : list msg :=
  match cs with
  | [] => []
  | c :: cs =>
      match c, snd (spec_exec c l) with
      | CSend size ty body, ODone =>
          [mkMsg (mkHeader (size + sizeof_MsgHeader) ty (my_ack l)) body]
      | _, _ => []
      end ++ submitted cs (fst (spec_exec c l))
  end.
End Runs.

Section RunLemmas.
Context {platform : Platform}.
Context (Bytes : Z) (ToLittleEndian : bool).
Context (Bytes_range : 0 <= Bytes < 2 ^ 32).
Abbreviation Rep := (Rep Bytes ToLittleEndian).
Abbreviation exec := (exec Bytes ToLittleEndian).
Abbreviation spec_exec := (spec_exec Bytes ToLittleEndian).
Abbreviation run := (run Bytes ToLittleEndian).
Abbreviation spec_run := (spec_run Bytes ToLittleEndian).
Abbreviation legal_run := (legal_run Bytes ToLittleEndian).
Implicit Types (q : PTCPQueue) (l : log) (c : cmd).

Lemma SanityCheck_rep q l :
  Rep q l -> SanityCheckAndGetSeq ToLittleEndian q = Ret (spec_seq l).
Proof using Bytes_range.
  intros HR. pose proof (rep_bounds Bytes ToLittleEndian q l HR) as B.
  pose proof (BLK_CNT_range Bytes Bytes_range).
  destruct HR as [(pre & post & E & Er) Hs Hw _ _ _ Hm [Hq1 Hq2] [Ha1 Ha2]].
  unfold SanityCheckAndGetSeq, Sanity_fuel. rewrite Er at 2.
  rewrite (Sanity_loop_wires ToLittleEndian (entries l) _ q pre post); auto; try lia.
  2:{ rewrite Hq1. exact Hq2. }
  cbn [mbind res_bind]. unfold spec_seq. rewrite Ha1, Hq1. unfold ack_fine.
  destruct (forallb _ _); [|reflexivity]. rewrite Z.eqb_refl. reflexivity.
Qed.

(** One command of the queue is one operation of the log. *)
Lemma exec_rep c q l :
  Rep q l -> legal ToLittleEndian c l ->
  exists q', exec c q = Ret (q', snd (spec_exec c l)) /\ Rep q' (fst (spec_exec c l)).
Proof using Bytes_range.
  intros HR HL. destruct c as [size ty body| |n|s|s| |]; cbn [exec spec_exec legal] in *.
  - destruct HL as (H0 & H1 & H2 & H3 & H4).
    destruct (spec_room Bytes ToLittleEndian size l) eqn:Hroom.
    + destruct (Alloc_room Bytes ToLittleEndian Bytes_range size q l) as (q1 & -> & Hres); auto.
      destruct (Fill_Push Bytes ToLittleEndian Bytes_range size ty body q1 l) as (q2 & E & HR2); auto.
      apply bind_Ret in E as (q3 & EF & EP). cbn [mbind res_bind].
      rewrite EF. cbn [mbind res_bind]. rewrite EP. eauto.
    + rewrite (Alloc_full Bytes ToLittleEndian Bytes_range size q l) by auto. eauto.
  - destruct (GetSendable_rep Bytes ToLittleEndian Bytes_range q l HR) as [-> ->]. eauto.
  - destruct HL. eauto using Sendout_rep.
  - destruct HL as (H0 & H1 & H2).
    destruct (Ack_rep Bytes ToLittleEndian Bytes_range s q l) as (q' & -> & HR'); auto. eauto.
  - destruct HL as (H0 & H1).
    destruct (LoginAck_rep Bytes ToLittleEndian Bytes_range s q l) as (q' & -> & HR'); auto. eauto.
  - eauto using MyAck_incr_rep.
  - rewrite (SanityCheck_rep q l HR). eauto.
Qed.

Lemma run_rep cs : forall q l,
  Rep q l -> legal_run cs l ->
  exists q', run cs q = Ret (q', snd (spec_run cs l)) /\ Rep q' (fst (spec_run cs l)).
Proof using Bytes_range.
  induction cs as [|c cs IH]; intros q l HR HL; cbn [run spec_run legal_run] in *; [eauto|].
  destruct HL as [HLc HLcs]. destruct (exec_rep c q l HR HLc) as (q1 & -> & HR1).
  destruct (spec_exec c l) as [l1 o]. cbn [fst snd mbind res_bind] in *.
  destruct (IH q1 l1 HR1 HLcs) as (q2 & -> & HR2). cbn [mbind res_bind].
  destruct (spec_run cs l1). eauto.
Qed.

End RunLemmas.

Section LogLemmas.
Context {platform : Platform}.
Context (Bytes : Z) (ToLittleEndian : bool).
Abbreviation spec_exec := (spec_exec Bytes ToLittleEndian).
Abbreviation spec_run := (spec_run Bytes ToLittleEndian).
Abbreviation legal_run := (legal_run Bytes ToLittleEndian).
Implicit Types (l : log) (c : cmd).

(** The log after a run is what was submitted, minus an acknowledged prefix. *)
Lemma spec_exec_entries c l :
  in_u32 (first_seq l) -> legal ToLittleEndian c l ->
  exists k, (k <= length (entries l))%nat
    /\ entries (fst (spec_exec c l))
       = drop k (entries l) ++ submitted Bytes ToLittleEndian [c] l
    /\ first_seq (fst (spec_exec c l)) = u32 (first_seq l + Z.of_nat k).
Proof.
  intros Hf HL.
  assert (K0 : u32 (first_seq l + Z.of_nat 0) = first_seq l).
  { rewrite Z.add_0_r. apply u32_id. exact Hf. }
  assert (KA : forall s, in_u32 s -> spec_acked s l <= zlen (entries l) ->
    exists k, (k <= length (entries l))%nat
      /\ entries (spec_ack ToLittleEndian s l) = drop k (entries l)
      /\ first_seq (spec_ack ToLittleEndian s l) = u32 (first_seq l + Z.of_nat k)).
  { intros s Hs Hle. unfold spec_ack. case_test; [exists 0%nat; split; [lia|]; auto|].
    exists (Z.to_nat (spec_acked s l)). cbn [entries first_seq]. split; [lia | split; [auto|]].
    unfold spec_acked in *. word_lia. }
  destruct c as [size ty body| |n|s|s| |]; cbn [spec_exec submitted legal] in *;
    try (exists 0%nat; cbn; rewrite ?app_nil_r; split; [lia | auto]; fail).
  - exists 0%nat. destruct (spec_room _ _ _ _); cbn; rewrite ?app_nil_r; split; try lia; auto.
  - cbn. setoid_rewrite app_nil_r. apply KA; tauto.
  - cbn. setoid_rewrite app_nil_r. apply KA; tauto.
Qed.

Lemma spec_run_entries cs : forall l,
  in_u32 (first_seq l) -> legal_run cs l ->
  exists k, (k <= length (entries l ++ submitted Bytes ToLittleEndian cs l))%nat
    /\ entries (fst (spec_run cs l))
       = drop k (entries l ++ submitted Bytes ToLittleEndian cs l)
    /\ first_seq (fst (spec_run cs l)) = u32 (first_seq l + Z.of_nat k).
Proof.
  induction cs as [|c cs IH]; intros l Hf HL; cbn [spec_run legal_run] in *.
  - exists 0%nat. cbn. rewrite app_nil_r, Z.add_0_r, u32_id by exact Hf. split; [lia | auto].
  - destruct HL as [HLc HLcs].
    destruct (spec_exec_entries c l Hf HLc) as (k1 & L1 & E1 & F1).
    destruct (IH (fst (spec_exec c l))) as (k2 & L2 & E2 & F2); auto.
    { rewrite F1. apply u32_in. }
    rewrite E1 in L2, E2. rewrite F1 in F2. cbn [submitted] in *. rewrite app_nil_r in *.
    exists (k1 + k2)%nat. destruct (spec_exec c l) as [l1 o]. cbn [fst snd] in *.
    destruct (spec_run cs l1) as [l2 os]. cbn [fst snd] in *.
    rewrite !length_app, length_drop in *. split; [lia|]. split.
    + rewrite E2, <- app_assoc, <- drop_drop, (drop_app_le (entries l)) by lia. reflexivity.
    + rewrite F2, u32_add_l. f_equal. lia.
Qed.
End LogLemmas.

(** ** Theorems *)
Definition empty_log : log := mkLog [] 0 0 0.

Section Theorems.
Context {platform : Platform}.
Context (Bytes : Z) (ToLittleEndian : bool).
Context (Bytes_range : 0 <= Bytes < 2 ^ 32).
Abbreviation Rep := (Rep Bytes ToLittleEndian).
Abbreviation wires := (wires ToLittleEndian).
Implicit Types (q : PTCPQueue) (l : log).

(** C1. Whatever legal commands a new send queue executes, it never fails, gives the results
    of the abstract log, and its array holds, between read_idx_ and write_idx_, exactly the
    blocks of the submitted messages that are not acknowledged yet (all but the first k), in
    order and with headers in wire order; read_seq_num_ is k modulo 2^32 and read_idx_ <=
    send_idx_ <= write_idx_. *)
Theorem queue_retains_unacked cs :
  legal_run Bytes ToLittleEndian cs empty_log ->
  exists q' k pre post,
    run Bytes ToLittleEndian cs (zero_queue Bytes)
    = Ret (q', snd (spec_run Bytes ToLittleEndian cs empty_log))
    /\ (k <= length (submitted Bytes ToLittleEndian cs empty_log))%nat
    /\ blk_ q' = pre ++ wires (drop k (submitted Bytes ToLittleEndian cs empty_log)) ++ post
    /\ read_idx_ q' = zlen pre
    /\ write_idx_ q' = read_idx_ q'
         + zlen (wires (drop k (submitted Bytes ToLittleEndian cs empty_log)))
    /\ read_seq_num_ q' = u32 (Z.of_nat k)
    /\ read_idx_ q' <= send_idx_ q' <= write_idx_ q'.
Proof using Bytes_range.
  intros HL. assert (Z0 : in_u32 0) by word_lia.
  destruct (run_rep Bytes ToLittleEndian Bytes_range cs (zero_queue Bytes) empty_log) as (q' & Er & HR);
    [apply rep_zero; assumption | exact HL |].
  destruct (spec_run_entries Bytes ToLittleEndian cs empty_log Z0 HL) as (k & Lk & Ek & Fk).
  pose proof (rep_bounds _ _ _ _ HR) as B.
  destruct HR as [(pre & post & E & Ep) _ Hw _ _ _ _ [Hq _] _].
  cbn [empty_log entries first_seq app] in *. rewrite Ek in *.
  exists q', k, pre, post. rewrite Hq. intuition.
Qed.

(** C22. Alloc succeeds exactly when the unacknowledged messages and the new one fit the
    array, wherever the free space is: it compacts if need be, keeps the content, and the
    blocks it reserves are inside the array. *)
Theorem Alloc_spec size q l :
  Rep q l -> 0 <= size -> size + sizeof_MsgHeader < 2 ^ 16 ->
  if zlen (wires (entries l)) + blocks sizeof_MsgHeader (size + sizeof_MsgHeader) <=? BLK_CNT Bytes
  then exists q', Alloc Bytes size q = Ret (q', Some (write_idx_ q')) /\ Rep q' l
         /\ write_idx_ q' + blocks sizeof_MsgHeader (size + sizeof_MsgHeader) <= zlen (blk_ q')
  else Alloc Bytes size q = Ret (q, None).
Proof using Bytes_range.
  intros HR H0 H1. fold (spec_room Bytes ToLittleEndian size l).
  destruct (spec_room Bytes ToLittleEndian size l) eqn:E.
  - destruct (Alloc_room Bytes ToLittleEndian Bytes_range size q l HR H0 H1 E)
      as (q' & Ea & HR' & pre & h & post & Eb & Er & _ & Hlen).
    exists q'. split; [exact Ea | split; [exact HR'|]].
    rewrite (rep_write _ _ _ _ HR'), Eb, !length_app. cbn [length]. lia.
  - apply (Alloc_full Bytes ToLittleEndian Bytes_range size q l HR H0 H1 E).
Qed.

(** C23. Acknowledging k messages that were sent removes exactly the first k, also when the
    sequence number wraps around, and keeps the others and what of them was sent. *)
Theorem Ack_exact k q l :
  Rep q l -> (k <= length (entries l))%nat ->
  zlen (wires (take k (entries l))) <= sent l ->
  exists q', Ack ToLittleEndian (u32 (first_seq l + Z.of_nat k)) q = Ret q'
    /\ Rep q' (mkLog (drop k (entries l)) (u32 (first_seq l + Z.of_nat k))
                     (sent l - zlen (wires (take k (entries l)))) (my_ack l)).
Proof using Bytes_range.
  intros HR Hk Hs. pose proof (rep_bounds _ _ _ _ HR). pose proof (BLK_CNT_range Bytes Bytes_range).
  pose proof (rep_seq _ _ _ _ HR) as [_ Hf].
  assert (Ea : spec_acked (u32 (first_seq l + Z.of_nat k)) l = Z.of_nat k).
  { unfold spec_acked. rewrite u32_sub_l, s32_u32, s32_id by lia. lia. }
  destruct (Ack_rep Bytes ToLittleEndian Bytes_range (u32 (first_seq l + Z.of_nat k)) q l)
    as (q' & E & HR'); rewrite ?Ea, ?Nat2Z.id; auto using u32_in; [lia|].
  exists q'. split; [exact E|]. revert HR'. unfold spec_ack. rewrite Ea, Nat2Z.id. case_test; [|auto].
  replace k with 0%nat by lia. destruct l. cbn. rewrite !Z.add_0_r, Z.sub_0_r, u32_id by exact Hf.
  auto.
Qed.

(** An acknowledgement at most 2^31 - 1 behind the current one, modulo 2^32, changes
    nothing. *)
Theorem Ack_stale k q :
  in_u32 (read_seq_num_ q) -> 0 <= k < 2 ^ 31 ->
  Ack ToLittleEndian (u32 (read_seq_num_ q - k)) q = Ret q.
Proof.
  intros Hq Hk. unfold Ack. rewrite u32_sub_l, s32_u32, s32_id by lia.
  case_test; [reflexivity | lia].
Qed.

(** After a login, GetSendable offers exactly the blocks of every message the peer has
    not acknowledged, from the start of the first of them, even those handed to the previous
    socket. *)
Theorem login_resends_all s q l :
  Rep q l -> in_u32 s -> spec_acked s l <= zlen (entries l) ->
  exists q' p n, LoginAck ToLittleEndian s q = Ret q'
    /\ GetSendable q' = (p, n)
    /\ read_at (blk_ q') p n
       = Ret (wires (drop (Z.to_nat (Z.max 0 (spec_acked s l))) (entries l))).
Proof using Bytes_range.
  intros HR Hs Hle.
  destruct (LoginAck_rep Bytes ToLittleEndian Bytes_range s q l HR Hs Hle) as (q' & E & HR').
  destruct (GetSendable_rep Bytes ToLittleEndian Bytes_range q' _ HR') as [Eg Em].
  eexists q', _, _. split; [exact E | split; [exact Eg|]]. rewrite Em.
  unfold spec_login_ack, spec_ack. case_test; cbn [sent entries drop].
  - rewrite Z.max_l by lia. reflexivity.
  - rewrite Z.max_r by lia. reflexivity.
Qed.

(** C32. When SanityCheckAndGetSeq accepts a queue file whose indices are inside the array,
    the file represents a log: whole messages between read_idx_ and write_idx_, numbered
    from seq_start to seq_end. *)
Theorem SanityCheck_sound q a b :
  zlen (blk_ q) = BLK_CNT Bytes -> Forall hdr_ok (blk_ q) -> write_idx_ q <= BLK_CNT Bytes ->
  in_u32 (read_idx_ q) -> in_u32 (read_seq_num_ q) -> in_u32 (ack_seq_num_ q) ->
  SanityCheckAndGetSeq ToLittleEndian q = Ret (Some (a, b)) ->
  exists ms, Rep (set_send 0 q) (mkLog ms a 0 (ack_seq_num_ q)) /\ b = u32 (a + zlen ms).
Proof using Bytes_range.
  intros Hs Hh Hw Hr Hq Ha H. pose proof (BLK_CNT_range Bytes Bytes_range).
  unfold SanityCheckAndGetSeq in H. apply bind_Ret in H as ([[idx e]|] & HL & H); [|discriminate H].
  destruct (Z.eqb_spec idx (write_idx_ q)) as [->|]; [|discriminate H]. injection H as <- <-.
  apply Sanity_loop_sound in HL as (pre & ms & rest & E & Ep & Ew & Hms & _ & ->); auto; try lia.
  exists ms. split; [|reflexivity].
  constructor; cbn [set_send blk_ write_idx_ read_idx_ send_idx_ read_seq_num_ ack_seq_num_
                    entries first_seq sent my_ack]; auto; try lia.
  exists pre, rest. split; [exact E | lia].
Qed.

(** C33. SanityCheckAndGetSeq returns on every file whose indices are inside the array and
    none of whose blocks starts with a zero size. *)
Theorem SanityCheck_total q :
  zlen (blk_ q) = BLK_CNT Bytes -> Forall hdr_ok (blk_ q) -> write_idx_ q <= BLK_CNT Bytes ->
  in_u32 (read_idx_ q) ->
  (forall h, h ∈ blk_ q -> Convert ToLittleEndian 2 (size h) <> 0) ->
  exists r, SanityCheckAndGetSeq ToLittleEndian q = Ret r.
Proof using Bytes_range.
  intros Hs Hh Hw Hr Hnz. pose proof (BLK_CNT_range Bytes Bytes_range).
  destruct (Sanity_loop_total ToLittleEndian (Sanity_fuel q) q (read_idx_ q) (read_seq_num_ q))
    as (r & E); auto; try lia; [unfold Sanity_fuel; lia|].
  unfold SanityCheckAndGetSeq. rewrite E. cbn [mbind res_bind].
  destruct r as [[idx e]|]; [destruct (negb _)|]; eauto.
Qed.

(** C34. On a file whose header at read_idx_ < write_idx_ has a zero size, the loop of
    SanityCheckAndGetSeq never ends, whatever fuel it has, if the ack_seq of that header
    passes the test that it is not too new; if it is too new, the check returns false. *)
Theorem SanityCheck_zero_size_hangs q h :
  in_u32 (read_idx_ q) -> read_idx_ q < write_idx_ q -> ld (blk_ q) (read_idx_ q) = Ret h ->
  Convert ToLittleEndian 2 (size h) = 0 ->
  let ahead := s32 (u32 (ack_seq_num_ q - Convert ToLittleEndian 4 (ack_seq h))) in
  (0 <= ahead -> forall fuel, Sanity_loop ToLittleEndian fuel q (read_idx_ q) (read_seq_num_ q) = NoFuel)
  /\ (ahead < 0 -> SanityCheckAndGetSeq ToLittleEndian q = Ret None).
Proof.
  intros Hr Hw Hh Hz ahead. split; intros Ha.
  - intros fuel. apply (Sanity_loop_zero ToLittleEndian q (read_idx_ q) h); auto.
  - unfold SanityCheckAndGetSeq, Sanity_fuel. cbn [Sanity_loop]. case_test; [|lia].
    rewrite Hh. cbn [mbind res_bind]. unfold ConvertByteOrder. cbn [ack_seq]. fold ahead.
    case_test; [reflexivity | lia].
Qed.
End Theorems.

(** ** The theorems at a concrete queue

    Eight blocks, on a little-endian host whose wire is big-endian. *)
Section Witnesses.
#[local] Instance little_host : Platform := true.

Definition small : Z := 64.
Lemma small_range : 0 <= small < 2 ^ 32.
Proof. concrete. Qed.

Definition a_block : MsgHeader := mkHeader 1 2 3.
Definition a_run : list cmd :=
  [CSend 5 7 [a_block]; CSendable; CSendout 2; CAck 1; CSend 0 1 []; CPop; CSend 8 2 [a_block];
   CSendout 1; CLoginAck 1; CGetSeq].
(** The queue after it, with two messages, and the log it represents. *)
Definition a_queue : PTCPQueue :=
  match run small false a_run (zero_queue small) with
  | Ret (q, _) => q
  | _ => zero_queue small
  end.
Definition a_log : log := fst (spec_run small false a_run empty_log).

Lemma a_run_legal : legal_run small false a_run empty_log.
Proof. concrete. Qed.
Lemma a_queue_rep : Rep small false a_queue a_log.
Proof.
  destruct (run_rep small false small_range a_run (zero_queue small) empty_log) as (q' & E & HR).
  - apply rep_zero; [apply small_range | concrete].
  - apply a_run_legal.
  - unfold a_queue. rewrite E. exact HR.
Qed.

Lemma queue_retains_unacked_witness :
  legal_run small false a_run empty_log
  /\ exists q' k pre post,
    run small false a_run (zero_queue small)
    = Ret (q', snd (spec_run small false a_run empty_log))
    /\ (k <= length (submitted small false a_run empty_log))%nat
    /\ blk_ q' = pre ++ wires false (drop k (submitted small false a_run empty_log)) ++ post
    /\ read_idx_ q' = zlen pre
    /\ write_idx_ q' = read_idx_ q'
         + zlen (wires false (drop k (submitted small false a_run empty_log)))
    /\ read_seq_num_ q' = u32 (Z.of_nat k)
    /\ read_idx_ q' <= send_idx_ q' <= write_idx_ q'.
Proof. split; [exact a_run_legal | exact (queue_retains_unacked small false small_range a_run a_run_legal)]. Defined.

Lemma Alloc_spec_witness :
  exists q', Alloc small 3 a_queue = Ret (q', Some (write_idx_ q')) /\ Rep small false q' a_log
    /\ write_idx_ q' + blocks sizeof_MsgHeader (3 + sizeof_MsgHeader) <= zlen (blk_ q').
Proof.
  refine (Alloc_spec small false small_range 3 a_queue a_log a_queue_rep _ _); concrete.
Defined.

(** The same messages with the last sequence number before the wrap, all of them
    sent but the last block. *)
Definition wrapping_queue : PTCPQueue :=
  Sendout 2 (mkQueue (blk_ a_queue) (write_idx_ a_queue) (read_idx_ a_queue) (send_idx_ a_queue)
                     (2 ^ 32 - 1) (ack_seq_num_ a_queue)).
Definition wrapping_log : log :=
  spec_sendout 2 (mkLog (entries a_log) (2 ^ 32 - 1) (sent a_log) (my_ack a_log)).
Lemma wrapping_queue_rep : Rep small false wrapping_queue wrapping_log.
Proof.
  apply Sendout_rep; [apply small_range | | lia | concrete].
  destruct a_queue_rep as [HL Hs Hw Hsd Hst Hh Hm Hq Ha]. constructor; cbn [entries first_seq sent my_ack]; auto.
  split; [reflexivity | concrete].
Qed.

Lemma Ack_exact_witness :
  (1 <= length (entries wrapping_log))%nat /\ u32 (first_seq wrapping_log + Z.of_nat 1) = 0
  /\ exists q', Ack false (u32 (first_seq wrapping_log + Z.of_nat 1)) wrapping_queue = Ret q'
    /\ Rep small false q' (mkLog (drop 1 (entries wrapping_log)) (u32 (first_seq wrapping_log + Z.of_nat 1))
                  (sent wrapping_log - zlen (wires false (take 1 (entries wrapping_log)))) (my_ack wrapping_log)).
Proof.
  split; [concrete|]. split; [reflexivity|].
  refine (Ack_exact small false small_range 1 wrapping_queue wrapping_log wrapping_queue_rep _ _); concrete.
Defined.

Lemma Ack_stale_witness : Ack false (u32 (read_seq_num_ a_queue - 3)) a_queue = Ret a_queue.
Proof. refine (Ack_stale false 3 a_queue _ _); concrete. Defined.

Lemma login_resends_all_witness :
  exists q' p n, LoginAck false 2 a_queue = Ret q' /\ GetSendable q' = (p, n)
    /\ read_at (blk_ q') p n
       = Ret (wires false (drop (Z.to_nat (Z.max 0 (spec_acked 2 a_log))) (entries a_log))).
Proof.
  refine (login_resends_all small false small_range 2 a_queue a_log a_queue_rep _ _); concrete.
Defined.

Lemma SanityCheck_sound_witness :
  exists ms, Rep small false (set_send 0 a_queue) (mkLog ms 1 0 (ack_seq_num_ a_queue))
    /\ 3 = u32 (1 + zlen ms).
Proof.
  refine (SanityCheck_sound small false small_range a_queue 1 3 _ _ _ _ _ _ _);
    [reflexivity | apply a_queue_rep | concrete .. | vm_compute; reflexivity].
Defined.

Lemma SanityCheck_total_witness :
  exists r, SanityCheckAndGetSeq false (mkQueue (replicate 8 (mkHeader 2048 0 0)) 3 0 0 0 0) = Ret r.
Proof.
  refine (SanityCheck_total small false small_range _ _ _ _ _ _);
    [reflexivity | apply Forall_replicate; concrete | concrete | concrete |].
  intros h Hh. apply elem_of_replicate in Hh as [-> _]. vm_compute. congruence.
Defined.

(** A file of zeros whose indices were damaged, and one where the first header
    acknowledges a message that this side never got. *)
Definition zeros_file : PTCPQueue := mkQueue (replicate 8 zero_header) 3 0 0 0 0.
Definition too_new_file : PTCPQueue := mkQueue (replicate 8 (mkHeader 0 0 1)) 3 0 0 0 0.
Lemma SanityCheck_zero_size_hangs_witness :
  Sanity_loop false 5000 zeros_file 0 0 = NoFuel /\ SanityCheckAndGetSeq false too_new_file = Ret None.
Proof.
  split.
  - refine (proj1 (SanityCheck_zero_size_hangs false zeros_file zero_header _ _ _ _) _ 5000%nat); (concrete || reflexivity).
  - refine (proj2 (SanityCheck_zero_size_hangs false too_new_file (mkHeader 0 0 1) _ _ _ _) _); (concrete || reflexivity).
Defined.
End Witnesses.
