(* ===== verification/SPSCVarQueue.v ===== *)
(** * The shared-memory ring (src/tcpshm/spsc_varq.h)

    [SPSCVarQueue] is a ring of 64-byte blocks shared by one writing and one
    reading process.  [write_idx] and [read_idx] count blocks and are never
    reduced modulo the ring, only modulo [2^32].  A message occupies whole
    blocks and never wraps: when the end of the ring is too short for it, the
    writer leaves a header of size 0 there, which tells the reader to rewind.

    This file has the operations as the two processes call them, and the
    atomic steps they consist of, which interleave; SPSCProps.v has the
    invariant and the theorems. *)

From stdpp Require Import relations.
From S2P Require Import Prelude Endian MsgHeader.
Local Open Scope Z_scope.

(** [struct Block]: a header, and the other 56 bytes of the cache line. *)
Record Block : Type := mkBlock { header : MsgHeader; line : list Z }.
Definition sizeof_Block : Z := 64.

Definition set_size (b : Block) (sz : Z) : Block :=
  mkBlock (mkHeader sz (msg_type (header b)) (ack_seq (header b))) (line b).
Definition blk_size (b : Block) : Z := size (header b).

Record SPSCVarQueue : Type := mkRing {
  blk : list Block;
  write_idx : Z;
  read_idx_cach : Z;  (* used only by writing thread *)
  read_idx : Z
}.

Section Ring.
Context (Bytes : Z).
Definition BLK_CNT : Z := Bytes / sizeof_Block.

Definition with_blk (q : SPSCVarQueue) (b : list Block) : SPSCVarQueue :=
  mkRing b (write_idx q) (read_idx_cach q) (read_idx q).
Definition with_write_idx (q : SPSCVarQueue) (w : Z) : SPSCVarQueue :=
  mkRing (blk q) w (read_idx_cach q) (read_idx q).
Definition with_cach (q : SPSCVarQueue) (c : Z) : SPSCVarQueue :=
  mkRing (blk q) (write_idx q) c (read_idx q).
Definition with_read_idx (q : SPSCVarQueue) (r : Z) : SPSCVarQueue :=
  mkRing (blk q) (write_idx q) (read_idx_cach q) r.

(** [blk[idx % BLK_CNT]] *)
Definition ld_blk (q : SPSCVarQueue) (idx : Z) : res Block := ld (blk q) (idx mod BLK_CNT).
(** [blk[idx % BLK_CNT].header.size = sz] *)
Definition st_size (q : SPSCVarQueue) (idx sz : Z) : res SPSCVarQueue :=
  b ← ld_blk q idx;
  bs ← st (blk q) (idx mod BLK_CNT) (set_size b sz);
  Ret (with_blk q bs).

(** ** Local computations of [Alloc] *)
Definition Alloc_blk_sz (sz : Z) : Z := u32 (blocks sizeof_Block sz).
Definition padding_sz (w : Z) : Z := u32 (BLK_CNT - w mod BLK_CNT).
Definition rewind (sz w : Z) : bool := padding_sz w <? Alloc_blk_sz sz.
Definition min_read_idx (sz w : Z) : Z :=
  u32 (w + Alloc_blk_sz sz + (if rewind sz w then padding_sz w else 0) - BLK_CNT).
(** [(int)(read_idx_cach - min_read_idx) < 0] *)
Definition too_full (sz w r : Z) : bool := s32 (u32 (r - min_read_idx sz w)) <? 0.

(** ** The operations *)

(** The rest of [Alloc] once there is room: rewind, reserve the header. *)
Definition Alloc_commit (sz : Z) (q : SPSCVarQueue) : res (SPSCVarQueue * option Z) :=
  let w := write_idx q in
  q ← (if rewind sz w then
         q ← st_size q w 0;
         Ret (with_write_idx q (u32 (w + padding_sz w)))
       else Ret q);
  let w := write_idx q in
  q ← st_size q w sz;
  Ret (q, Some (w mod BLK_CNT)).

(** The pointer returned is an index of [blk]; [None] is [nullptr]. *)
Definition Alloc (size : Z) (q : SPSCVarQueue) : res (SPSCVarQueue * option Z) :=
  let sz := u16 (size + sizeof_MsgHeader) in
  let w := write_idx q in
  if too_full sz w (read_idx_cach q) then
    let q := with_cach q (read_idx q) in
    if too_full sz w (read_idx_cach q) then Ret (q, None)
    else Alloc_commit sz q
  else Alloc_commit sz q.

Definition Push (q : SPSCVarQueue) : res SPSCVarQueue :=
  let w := write_idx q in
  b ← ld_blk q w;
  Ret (with_write_idx q (u32 (w + u32 (blocks sizeof_Block (blk_size b))))).

Definition Front (q : SPSCVarQueue) : res (SPSCVarQueue * option Z) :=
  let w := write_idx q in
  let r := read_idx q in
  if r =? w then Ret (q, None)
  else
    b ← ld_blk q r;
    if blk_size b =? 0 then
      let r := u32 (r + (BLK_CNT - r mod BLK_CNT)) in
      let q := with_read_idx q r in
      if r =? w then Ret (q, None) else Ret (q, Some (r mod BLK_CNT))
    else Ret (q, Some (r mod BLK_CNT)).

Definition Pop (q : SPSCVarQueue) : res SPSCVarQueue :=
  let r := read_idx q in
  b ← ld_blk q r;
  Ret (with_read_idx q (u32 (r + u32 (blocks sizeof_Block (blk_size b))))).

(** [memset(shm_sendq_, 0, sizeof(SHMQ))]: also the content of a new mapping. *)
Definition zero_ring : SPSCVarQueue :=
  mkRing (replicate (Z.to_nat BLK_CNT) (mkBlock (mkHeader 0 0 0) (replicate 56 0))) 0 0 0.
End Ring.

(** ** The two processes, access by access

    Each action makes at most one access to memory the other process can reach:
    a load or a store of an index, or of a block.  The writing process may stop
    between any two of them, and so may the reading one. *)

(** Where the writing process is: nothing reserved; [Alloc] has seen enough
    room; the rewind marker is written; the header is to be reserved; the user
    holds the pointer.  [sz] is the size with the header. *)
Inductive writer : Type :=
| WIdle
| WChecked (sz : Z)
| WMarked (sz : Z)
| WReserve (sz : Z)
| WUser (sz : Z).

(** Where the reading process is: no message in hand; [Front] has loaded
    [write_idx] as [w]; it has seen a rewind marker; it returned a message. *)
Inductive reader : Type :=
| RIdle
| RLoaded (w : Z)
| RRewind (w : Z)
| RHave.

(** [pushed] and [popped] record the content of the messages, for the theorems. *)
Record machine : Type := mkMachine {
  ring : SPSCVarQueue;
  wpc : writer;
  rpc : reader;
  pushed : list (list Block);
  popped : list (list Block)
}.

Inductive action : Type :=
| AAlloc (size : Z)          (* Alloc up to the test; loads read_idx if the cache is too old *)
| AMark                      (* blk[..].header.size = 0, or the reservation if no rewind *)
| ARewind                    (* write_idx.store after the marker *)
| AReserve                   (* header.size = size *)
| AWrite (i : Z) (b : Block) (* the user writes block i of the message *)
| APush                      (* write_idx.store *)
| ALoad                      (* Front: write_idx.load *)
| ASize                      (* Front: read the size at read_idx *)
| ARRewind                   (* Front: read_idx.store *)
| APop.                      (* Pop: read_idx.store *)

Section Machine.
Context (Bytes : Z).
Abbreviation BLK_CNT := (BLK_CNT Bytes).

Definition writer_to (m : machine) (q : res SPSCVarQueue) (w : writer) : res machine :=
  q ← q; Ret (mkMachine q w (rpc m) (pushed m) (popped m)).
Definition reader_to (m : machine) (q : SPSCVarQueue) (r : reader) : machine :=
  mkMachine q (wpc m) r (pushed m) (popped m).

(** The content of the message whose header is at [idx]. *)
Definition content (q : SPSCVarQueue) (idx : Z) : res (list Block) :=
  b ← ld_blk Bytes q idx;
  read_at (blk q) (idx mod BLK_CNT) (u32 (blocks sizeof_Block (blk_size b))).

(** Sizes a user may ask for. *)
Definition size_ok (size : Z) : bool := (0 <=? size) && (size + sizeof_MsgHeader <? 2 ^ 16).

Definition do_alloc (size : Z) (m : machine) : res machine :=
  let q := ring m in
  let sz := u16 (size + sizeof_MsgHeader) in
  if too_full Bytes sz (write_idx q) (read_idx_cach q) then
    let q := with_cach q (read_idx q) in
    if too_full Bytes sz (write_idx q) (read_idx_cach q)
    then writer_to m (Ret q) WIdle else writer_to m (Ret q) (WChecked sz)
  else writer_to m (Ret q) (WChecked sz).

Definition do_push (m : machine) : res machine :=
  let q := ring m in
  c ← content q (write_idx q);
  q ← Push Bytes q;
  Ret (mkMachine q WIdle (rpc m) (pushed m ++ [c]) (popped m)).

Definition do_load (m : machine) : machine :=
  let q := ring m in
  reader_to m q (if read_idx q =? write_idx q then RIdle else RLoaded (write_idx q)).

Definition do_pop (m : machine) : res machine :=
  let q := ring m in
  c ← content q (read_idx q);
  q ← Pop Bytes q;
  Ret (mkMachine q (wpc m) RIdle (pushed m) (popped m ++ [c])).

(** [None]: the action is not what its process does next. *)
Definition step (a : action) (m : machine) : option (res machine) :=
  let q := ring m in
  match a, wpc m, rpc m with
  | AAlloc size, WIdle, _ => if size_ok size then Some (do_alloc size m) else None
  | AMark, WChecked sz, _ =>
      Some (if rewind Bytes sz (write_idx q)
            then writer_to m (st_size Bytes q (write_idx q) 0) (WMarked sz)
            else writer_to m (st_size Bytes q (write_idx q) sz) (WUser sz))
  | ARewind, WMarked sz, _ =>
      let w := write_idx q in
      Some (writer_to m (Ret (with_write_idx q (u32 (w + padding_sz Bytes w)))) (WReserve sz))
  | AReserve, WReserve sz, _ => Some (writer_to m (st_size Bytes q (write_idx q) sz) (WUser sz))
  | AWrite i b, WUser sz, _ =>
      if (0 <=? i) && (i <? Alloc_blk_sz sz) && ((0 <? i) || (blk_size b =? sz))
      then Some (writer_to m (bs ← st (blk q) (write_idx q mod BLK_CNT + i) b;
                              Ret (with_blk q bs)) (WUser sz))
      else None
  | APush, WUser sz, _ => Some (do_push m)
  | ALoad, _, RIdle => Some (Ret (do_load m))
  | ALoad, _, RHave => Some (Ret (do_load m))
  | ASize, _, RLoaded w =>
      Some (b ← ld_blk Bytes q (read_idx q);
            Ret (reader_to m q (if blk_size b =? 0 then RRewind w else RHave)))
  | ARRewind, _, RRewind w =>
      let r := read_idx q in
      let r := u32 (r + (BLK_CNT - r mod BLK_CNT)) in
      Some (Ret (reader_to m (with_read_idx q r) (if r =? w then RIdle else RHave)))
  | APop, _, RHave => Some (do_pop m)
  | _, _, _ => None
  end.

Definition machine_step (m m' : machine) : Prop := exists a, step a m = Some (Ret m').
Definition machine_init : machine := mkMachine (zero_ring Bytes) WIdle RIdle [] [].
Definition reachable (m : machine) : Prop := rtc machine_step machine_init m.

Fixpoint steps (acts : list action) (m : machine) : option (res machine) :=
  match acts with
  | [] => Some (Ret m)
  | a :: acts =>
      match step a m with
      | Some (Ret m) => steps acts m
      | r => r
      end
  end.
End Machine.
