(* ===== verification/SPSCProps.v ===== *)
(** * What the shared-memory ring guarantees

    The invariant of the interleaved accesses of SPSCVarQueue.v, and its
    consequences: no access is out of bounds, no unread block is overwritten,
    the messages come out whole, once each, in the order they were pushed. *)

From stdpp Require Import relations.
From S2P Require Import Prelude Endian MsgHeader SPSCVarQueue.
Local Open Scope Z_scope.

(** ** The ring as a sequence of segments

    Between the reading and the writing position, both counted without wrap,
    the ring holds messages, and the padding left at its end by a rewind. *)
Inductive seg : Type := SMsg (m : list Block) | SPad.

Definition msgs (ss : list seg) : list (list Block) :=
  flat_map (fun s => match s with SMsg m => [m] | SPad => [] end) ss.

(** A message is as long as its header says. *)
Definition msg_shape (m : list Block) : Prop :=
  match m with
  | [] => False
  | b :: _ => 0 < blk_size b < 2 ^ 16 /\ zlen m = blocks sizeof_Block (blk_size b)
  end.

Section Covers.
Context (N : Z) (N_pos : 0 < N).
Implicit Types (bl : list Block) (X Y R W V : Z).

(** The block at unbounded index [X]. *)
Definition at_ bl X : option Block := bl !! Z.to_nat (X mod N).

Inductive covers (bl : list Block) : Z -> list seg -> Z -> Prop :=
| cov_nil R : covers bl R [] R
| cov_msg R m ss W :
    msg_shape m -> R mod N + zlen m <= N ->
    (forall i, (i < length m)%nat -> at_ bl (R + Z.of_nat i) = m !! i) ->
    covers bl (R + zlen m) ss W ->
    covers bl R (SMsg m :: ss) W
| cov_pad R b ss W :
    0 < R mod N -> at_ bl R = Some b -> blk_size b = 0 ->
    covers bl (R + (N - R mod N)) ss W ->
    covers bl R (SPad :: ss) W.

Lemma mod_range X : 0 <= X mod N < N.
Proof using N_pos. apply Z.mod_pos_bound. exact N_pos. Qed.

Lemma mod_shift X k : 0 <= k -> X mod N + k < N -> (X + k) mod N = X mod N + k.
Proof using N_pos.
  intros Hk Hlt. pose proof (mod_range X). rewrite Z.add_mod by lia.
  rewrite (Z.mod_small k) by lia. apply Z.mod_small. lia.
Qed.

Lemma mod_pad X : (X + (N - X mod N)) mod N = 0.
Proof using N_pos.
  rewrite (Z.div_mod X N) at 1 by lia.
  replace (N * (X / N) + X mod N + (N - X mod N)) with ((X / N + 1) * N) by lia.
  apply Z.mod_mul. lia.
Qed.

Lemma mod_inj X Y : - N < X - Y < N -> X mod N = Y mod N -> X = Y.
Proof using N_pos.
  intros Hd E. pose proof (Z.div_mod X N ltac:(lia)). pose proof (Z.div_mod Y N ltac:(lia)).
  assert (Hq : N * (X / N - Y / N) = X - Y) by lia.
  assert (X / N - Y / N = 0) by nia. nia.
Qed.

Lemma at_lt bl X : zlen bl = N -> exists b, at_ bl X = Some b.
Proof using N_pos. intros L. pose proof (mod_range X). apply lookup_lt_is_Some_2. lia. Qed.

(** A store at [X] is seen at [X], and nowhere else within one turn of the ring. *)
Lemma at_store bl X b : zlen bl = N -> at_ (<[Z.to_nat (X mod N) := b]> bl) X = Some b.
Proof using N_pos. intros L. pose proof (mod_range X). apply list_lookup_insert_eq. lia. Qed.

Lemma at_store_ne bl X Y b :
  Y <> X -> - N < X - Y < N -> at_ (<[Z.to_nat (X mod N) := b]> bl) Y = at_ bl Y.
Proof using N_pos.
  intros Hne Hd. unfold at_. apply list_lookup_insert_ne.
  pose proof (mod_range X). pose proof (mod_range Y). intros E.
  apply Hne. symmetry. apply mod_inj; [exact Hd | lia].
Qed.

Lemma msg_shape_pos m : msg_shape m -> 1 <= zlen m <= 1024.
Proof.
  destruct m as [|b m]; [intros []|]. intros ([H0 H1] & ->).
  unfold blocks, sizeof_Block. word_lia.
Qed.

Lemma covers_le bl R ss W : covers bl R ss W -> R <= W.
Proof using N_pos.
  induction 1 as [| R m ss W Hm _ _ _ IH | R b ss W _ _ _ _ IH]; [lia| |].
  - apply msg_shape_pos in Hm. lia.
  - pose proof (mod_range R). lia.
Qed.

(** Only the blocks between the two positions matter. *)
Lemma covers_ext bl bl' R ss W :
  covers bl R ss W -> (forall Y, R <= Y < W -> at_ bl' Y = at_ bl Y) -> covers bl' R ss W.
Proof using N_pos.
  induction 1 as [| R m ss W Hm Hf Hc Hr IH | R b ss W Hp Ha Hz Hr IH]; intros E.
  - constructor.
  - pose proof (covers_le _ _ _ _ Hr). apply cov_msg; auto.
    + intros i Hi. rewrite <- Hc by exact Hi. apply E. lia.
    + apply IH. intros Y HY. apply E. lia.
  - pose proof (covers_le _ _ _ _ Hr). pose proof (mod_range R).
    apply (cov_pad _ _ b); auto.
    + rewrite E by lia. exact Ha.
    + apply IH. intros Y HY. apply E. lia.
Qed.

Lemma covers_app bl R s1 V s2 W : covers bl R s1 V -> covers bl V s2 W -> covers bl R (s1 ++ s2) W.
Proof. induction 1; intros; simpl; [assumption | |]; econstructor; eauto. Qed.

(** The messages the ring can hold at once fit in it. *)
Lemma msgs_app s1 s2 : msgs (s1 ++ s2) = msgs s1 ++ msgs s2.
Proof. apply flat_map_app. Qed.

(** Reading the blocks of a message from memory. *)
Lemma read_message bl X (m : list Block) :
  zlen bl = N -> X mod N + zlen m <= N ->
  (forall i, (i < length m)%nat -> at_ bl (X + Z.of_nat i) = m !! i) ->
  read_at bl (X mod N) (zlen m) = Ret m.
Proof using N_pos.
  intros L Hf Hc. pose proof (mod_range X). unfold read_at.
  destruct (_ && _) eqn:B; [|lia]. f_equal. rewrite Nat2Z.id. apply list_eq. intros i.
  destruct (decide (i < length m)%nat) as [Hi|Hi].
  - rewrite lookup_take_lt, lookup_drop, <- Hc by exact Hi. unfold at_. f_equal.
    rewrite mod_shift by lia. lia.
  - rewrite lookup_take_ge, lookup_ge_None_2 by lia. reflexivity.
Qed.
End Covers.

(** ** The invariant *)
Section Invariant.
Context (Bytes : Z) (Bytes_range : 0 <= Bytes < 2 ^ 32).
(** [static_assert(BLK_CNT && std::has_single_bit(BLK_CNT))] *)
Context (single_bit : exists k, 0 <= k /\ BLK_CNT Bytes = 2 ^ k).
Abbreviation N := (BLK_CNT Bytes).
Abbreviation covers := (covers N).
Abbreviation at_ := (at_ N).
Implicit Types (bl : list Block) (q : SPSCVarQueue) (m : machine) (ss : list seg).

Lemma N_range : 0 < N <= 2 ^ 26.
Proof using Bytes_range single_bit.
  destruct single_bit as (k & Hk & E). pose proof (Z.pow_pos_nonneg 2 k ltac:(lia) Hk).
  split; [lia|]. unfold SPSCVarQueue.BLK_CNT, sizeof_Block. word_lia.
Qed.

(** The ring divides the range of the indices, so they may wrap. *)
Lemma u32_mod X : (u32 X) mod N = X mod N.
Proof using Bytes_range single_bit.
  pose proof N_range as HN. destruct single_bit as (k & Hk & E).
  assert (k <= 26) by (apply (Z.pow_le_mono_r_iff 2); lia).
  unfold u32. apply Z.mod_mod_divide.
  exists (2 ^ (32 - k)). rewrite E, <- Z.pow_add_r by lia. f_equal. lia.
Qed.

Definition asz (sz : Z) : Z := blocks sizeof_Block sz.
(** The blocks a message of size [sz] takes at [W], padding included. *)
Definition need (sz W : Z) : Z :=
  asz sz + (if N - W mod N <? asz sz then N - W mod N else 0).
Definition sz_ok (sz : Z) : Prop := 0 < sz < 2 ^ 16.

Lemma asz_range sz : sz_ok sz -> 1 <= asz sz <= 1024.
Proof using Type. clear. unfold sz_ok, asz, blocks, sizeof_Block. intros. word_lia. Qed.

Lemma Alloc_blk_sz_eq sz : sz_ok sz -> Alloc_blk_sz sz = asz sz.
Proof using Type.
  clear. intros H. pose proof (asz_range sz H). unfold Alloc_blk_sz. apply u32_id.
  fold (asz sz). unfold in_u32. lia.
Qed.

Lemma padding_sz_eq W : padding_sz Bytes (u32 W) = N - W mod N.
Proof using Bytes_range single_bit.
  pose proof N_range. pose proof (mod_range N ltac:(lia) W).
  unfold padding_sz. rewrite u32_mod. apply u32_id. unfold in_u32. lia.
Qed.

Lemma rewind_eq sz W : sz_ok sz -> rewind Bytes sz (u32 W) = (N - W mod N <? asz sz).
Proof using Bytes_range single_bit.
  intros H. unfold rewind. rewrite padding_sz_eq, Alloc_blk_sz_eq by exact H. reflexivity.
Qed.

(** The comparison of the wrapped indices is the comparison of the positions. *)
Lemma too_full_eq sz W C :
  sz_ok sz -> W - N <= C <= W ->
  too_full Bytes sz (u32 W) (u32 C) = (C + N <? W + need sz W).
Proof using Bytes_range single_bit.
  intros Hsz HC. pose proof N_range. pose proof (mod_range N ltac:(lia) W).
  pose proof (asz_range sz Hsz).
  unfold too_full, min_read_idx. rewrite rewind_eq, padding_sz_eq, Alloc_blk_sz_eq by exact Hsz.
  replace (u32 W + asz sz + _ - N) with (u32 W + (need sz W - N)) by (unfold need; lia).
  rewrite u32_add_l, s32_dist; unfold need; case_test; lia.
Qed.

(** *** Writer and reader *)
Definition writer_inv bl (C W : Z) (w : writer) : Prop :=
  match w with
  | WIdle => True
  | WChecked sz => sz_ok sz /\ W + need sz W <= C + N
  | WMarked sz =>
      sz_ok sz /\ W + need sz W <= C + N /\ N - W mod N < asz sz
      /\ exists b, at_ bl W = Some b /\ blk_size b = 0
  | WReserve sz => sz_ok sz /\ W + asz sz <= C + N /\ W mod N + asz sz <= N
  | WUser sz =>
      sz_ok sz /\ W + asz sz <= C + N /\ W mod N + asz sz <= N
      /\ exists b, at_ bl W = Some b /\ blk_size b = sz
  end.

(** [Front] works with the [write_idx] it loaded: a boundary [V] between segments. *)
Definition loaded_inv bl (R W : Z) ss (w : Z) (P : list seg -> Prop) : Prop :=
  exists V s1 s2, w = u32 V /\ ss = s1 ++ s2 /\ covers bl R s1 V /\ V <= W /\ P s1.

Definition reader_inv bl (R W : Z) ss (r : reader) : Prop :=
  match r with
  | RIdle => True
  | RLoaded w => loaded_inv bl R W ss w (fun s1 => s1 <> [])
  | RRewind w => loaded_inv bl R W ss w (fun s1 => exists s, s1 = SPad :: s)
  | RHave => exists c s, ss = SMsg c :: s
  end.

Record ring_inv q (C R W : Z) ss : Prop := {
  ri_len : zlen (blk q) = N;
  ri_write : write_idx q = u32 W;
  ri_read : read_idx q = u32 R;
  ri_cach : read_idx_cach q = u32 C;
  ri_order : 0 <= C <= R /\ W <= C + N;
  ri_covers : covers (blk q) R ss W
}.

Definition inv m : Prop :=
  exists C R W ss,
    ring_inv (ring m) C R W ss
    /\ pushed m = popped m ++ msgs ss
    /\ writer_inv (blk (ring m)) C W (wpc m)
    /\ reader_inv (blk (ring m)) R W ss (rpc m).

Lemma inv_init : inv (machine_init Bytes).
Proof using Bytes_range single_bit.
  pose proof N_range. exists 0, 0, 0, []. repeat split; simpl; try lia; try constructor.
  rewrite length_replicate. lia.
Qed.

Lemma ri_le q C R W ss : ring_inv q C R W ss -> 0 <= C <= R /\ R <= W <= C + N /\ W - N <= C <= W.
Proof using Bytes_range single_bit.
  intros H. pose proof N_range. pose proof (covers_le N ltac:(lia) _ _ _ _ (ri_covers _ _ _ _ _ H)).
  pose proof (ri_order _ _ _ _ _ H). lia.
Qed.

(** *** Memory accesses of the two processes *)
Lemma ld_blk_at q X b : zlen (blk q) = N -> at_ (blk q) X = Some b -> ld_blk Bytes q (u32 X) = Ret b.
Proof using Bytes_range single_bit.
  intros L Hb. pose proof N_range. unfold ld_blk. rewrite u32_mod.
  apply ld_Ret. split; [apply mod_range; lia | exact Hb].
Qed.

Lemma st_at bl X k b :
  zlen bl = N -> 0 <= k -> X mod N + k < N ->
  st bl (X mod N + k) b = Ret (<[Z.to_nat ((X + k) mod N) := b]> bl).
Proof using Bytes_range single_bit.
  intros L Hk Hlt. pose proof N_range. pose proof (mod_range N ltac:(lia) X).
  unfold st. rewrite mod_shift by lia. destruct (_ && _) eqn:B; [reflexivity | lia].
Qed.

(** A store by the writer, past [W] and within one turn of [C], is not seen by
    the reader. *)
Lemma writer_store q C R W ss r X b :
  ring_inv q C R W ss -> reader_inv (blk q) R W ss r -> W <= X < C + N ->
  ring_inv (with_blk q (<[Z.to_nat (X mod N) := b]> (blk q))) C R W ss
  /\ reader_inv (<[Z.to_nat (X mod N) := b]> (blk q)) R W ss r.
Proof using Bytes_range single_bit.
  intros HI Hr HX. pose proof N_range as HN. pose proof (ri_le _ _ _ _ _ HI) as Ho.
  assert (Hext : forall s V, covers (blk q) R s V -> V <= W ->
                             covers (<[Z.to_nat (X mod N) := b]> (blk q)) R s V).
  { intros s V Hc HV. apply (covers_ext N ltac:(lia) (blk q)); [exact Hc|].
    intros Y HY. apply at_store_ne; lia. }
  destruct HI as [L Hw Hrd Hc Hord Hcov]. split.
  - constructor; simpl; auto; [rewrite length_insert; exact L | apply Hext; [exact Hcov | lia]].
  - destruct r; simpl in *; auto;
      destruct Hr as (V & s1 & s2 & ? & ? & ? & ? & ?); exists V, s1, s2; auto.
Qed.

Lemma st_size_at q X b sz :
  zlen (blk q) = N -> at_ (blk q) X = Some b ->
  st_size Bytes q (u32 X) sz = Ret (with_blk q (<[Z.to_nat (X mod N) := set_size b sz]> (blk q))).
Proof using Bytes_range single_bit.
  intros L Hb. pose proof N_range. pose proof (mod_range N ltac:(lia) X).
  unfold st_size. rewrite (ld_blk_at q X b) by assumption. cbn [mbind res_bind].
  pose proof (st_at (blk q) X 0 (set_size b sz) L ltac:(lia) ltac:(lia)) as E.
  rewrite !Z.add_0_r in E. rewrite u32_mod, E. reflexivity.
Qed.

(** *** Preservation, action by action *)

(** The goal of each case: the action returns, and the invariant holds again. *)
Abbreviation preserved o := (exists m', o = Some (Ret m') /\ inv m').

Lemma do_alloc_inv size m C R W ss :
  size_ok size = true -> ring_inv (ring m) C R W ss -> pushed m = popped m ++ msgs ss ->
  reader_inv (blk (ring m)) R W ss (rpc m) ->
  preserved (Some (do_alloc Bytes size m)).
Proof using Bytes_range single_bit.
  intros Hs HI Hg Hr. pose proof (ri_le _ _ _ _ _ HI) as Ho.
  unfold size_ok, sizeof_MsgHeader in Hs. apply andb_true_iff in Hs as [Hs1 Hs2].
  assert (Hsz : sz_ok (u16 (size + sizeof_MsgHeader))).
  { unfold sz_ok, sizeof_MsgHeader. rewrite u16_id; unfold in_u16; lia. }
  unfold do_alloc. set (sz := u16 _) in *.
  rewrite (ri_write _ _ _ _ _ HI), (ri_cach _ _ _ _ _ HI), too_full_eq by (auto; lia). case_test.
  - cbn [with_cach read_idx_cach write_idx read_idx].
    rewrite (ri_write _ _ _ _ _ HI), (ri_read _ _ _ _ _ HI), too_full_eq by (auto; lia).
    assert (HI' : ring_inv (with_cach (ring m) (u32 R)) R R W ss).
    { destruct HI. constructor; simpl; auto; lia. }
    case_test; (eexists; split; [reflexivity|]; exists R, R, W, ss; simpl; auto 6).
  - eexists. split; [reflexivity|]. exists C, R, W, ss. simpl. auto 6.
Qed.

(** [st_size] by the writer at [W]. *)
Lemma writer_st_size m C R W ss sz :
  ring_inv (ring m) C R W ss -> reader_inv (blk (ring m)) R W ss (rpc m) -> W < C + N ->
  exists q', st_size Bytes (ring m) (write_idx (ring m)) sz = Ret q'
    /\ ring_inv q' C R W ss /\ reader_inv (blk q') R W ss (rpc m)
    /\ exists b, at_ (blk q') W = Some b /\ blk_size b = sz.
Proof using Bytes_range single_bit.
  intros HI Hr HW. pose proof N_range as HN. pose proof (ri_len _ _ _ _ _ HI) as L.
  destruct (at_lt N ltac:(lia) (blk (ring m)) W L) as [b Hb].
  rewrite (ri_write _ _ _ _ _ HI), (st_size_at _ _ b) by assumption.
  destruct (writer_store _ C R W ss (rpc m) W (set_size b sz) HI Hr ltac:(lia)) as [HI' Hr'].
  eexists. split; [reflexivity|]. split; [exact HI' | split; [exact Hr'|]].
  exists (set_size b sz). split; [apply at_store; [lia | exact L] | reflexivity].
Qed.

Lemma do_mark_inv sz m C R W ss :
  ring_inv (ring m) C R W ss -> pushed m = popped m ++ msgs ss ->
  writer_inv (blk (ring m)) C W (WChecked sz) -> reader_inv (blk (ring m)) R W ss (rpc m) ->
  preserved (Some (if rewind Bytes sz (write_idx (ring m))
            then writer_to m (st_size Bytes (ring m) (write_idx (ring m)) 0) (WMarked sz)
            else writer_to m (st_size Bytes (ring m) (write_idx (ring m)) sz) (WUser sz))).
Proof using Bytes_range single_bit.
  intros HI Hg [Hsz Hn] Hr. pose proof N_range as HN. pose proof (asz_range sz Hsz).
  pose proof (mod_range N ltac:(lia) W). unfold need in Hn.
  assert (HW : W < C + N) by (destruct (N - W mod N <? asz sz); lia).
  assert (Ew : rewind Bytes sz (write_idx (ring m)) = (N - W mod N <? asz sz)).
  { rewrite (ri_write _ _ _ _ _ HI). apply rewind_eq. exact Hsz. }
  rewrite Ew.
  destruct (Z.ltb_spec (N - W mod N) (asz sz)) as [Hlt|Hge].
  - destruct (writer_st_size m C R W ss 0 HI Hr HW) as (q' & -> & HI' & Hr' & Hb).
    eexists. split; [reflexivity|]. exists C, R, W, ss. simpl. repeat (split; auto).
    unfold need. case_test; lia.
  - destruct (writer_st_size m C R W ss sz HI Hr HW) as (q' & -> & HI' & Hr' & Hb).
    eexists. split; [reflexivity|]. exists C, R, W, ss. simpl. repeat (split; auto); lia.
Qed.

Lemma do_reserve_inv sz m C R W ss :
  ring_inv (ring m) C R W ss -> pushed m = popped m ++ msgs ss ->
  writer_inv (blk (ring m)) C W (WReserve sz) -> reader_inv (blk (ring m)) R W ss (rpc m) ->
  preserved (Some (writer_to m (st_size Bytes (ring m) (write_idx (ring m)) sz) (WUser sz))).
Proof using Bytes_range single_bit.
  intros HI Hg (Hsz & Hn & Hf) Hr. pose proof (asz_range sz Hsz).
  destruct (writer_st_size m C R W ss sz HI Hr ltac:(lia)) as (q' & -> & HI' & Hr' & Hb).
  eexists. split; [reflexivity|]. exists C, R, W, ss. simpl. repeat (split; auto); lia.
Qed.

(** The user writes a block of its message. *)
Lemma do_write_inv i b sz m C R W ss :
  ring_inv (ring m) C R W ss -> pushed m = popped m ++ msgs ss ->
  writer_inv (blk (ring m)) C W (WUser sz) -> reader_inv (blk (ring m)) R W ss (rpc m) ->
  0 <= i < Alloc_blk_sz sz -> 0 < i \/ blk_size b = sz ->
  preserved (Some (writer_to m (bs ← st (blk (ring m)) (write_idx (ring m) mod N + i) b;
                                Ret (with_blk (ring m) bs)) (WUser sz))).
Proof using Bytes_range single_bit.
  intros HI Hg (Hsz & Hn & Hf & b0 & Hb0 & Hb0s) Hr Hi Hb. pose proof N_range as HN.
  rewrite Alloc_blk_sz_eq in Hi by exact Hsz. pose proof (ri_len _ _ _ _ _ HI) as L.
  pose proof (ri_le _ _ _ _ _ HI) as Ho.
  rewrite (ri_write _ _ _ _ _ HI), u32_mod, st_at by (auto; lia). cbn [mbind res_bind].
  destruct (writer_store _ C R W ss (rpc m) (W + i) b HI Hr ltac:(lia)) as [HI' Hr'].
  eexists. split; [reflexivity|]. exists C, R, W, ss. simpl. repeat (split; auto); try lia.
  destruct (Z.eq_dec i 0) as [->|Hi0].
  - exists b. rewrite Z.add_0_r. split; [apply at_store; [lia | exact L] | lia].
  - exists b0. rewrite at_store_ne by lia. auto.
Qed.

(** More segments at the end do not disturb the reader. *)
Lemma reader_inv_extend bl R W W' ss x r :
  reader_inv bl R W ss r -> W <= W' -> reader_inv bl R W' (ss ++ x) r.
Proof using Type.
  clear. destruct r; simpl; auto.
  - intros (V & s1 & s2 & Ew & Es & Hc & HV & HP) HW. exists V, s1, (s2 ++ x).
    rewrite Es, <- app_assoc. repeat split; auto; lia.
  - intros (V & s1 & s2 & Ew & Es & Hc & HV & HP) HW. exists V, s1, (s2 ++ x).
    rewrite Es, <- app_assoc. repeat split; auto; lia.
  - intros (c & s & ->) _. exists c, (s ++ x). reflexivity.
Qed.

(** The writer publishes up to [W'], the reader consumes up to [R']. *)
Lemma ring_inv_publish q C R W W' ss x :
  ring_inv q C R W ss -> covers (blk q) W x W' -> W' <= C + N ->
  ring_inv (with_write_idx q (u32 W')) C R W' (ss ++ x).
Proof.
  intros [] Hx HW. constructor; simpl; auto; [lia|]. apply (covers_app N _ _ _ W); assumption.
Qed.

Lemma ring_inv_consume q C R R' W ss ss' :
  ring_inv q C R W ss -> covers (blk q) R' ss' W -> R <= R' ->
  ring_inv (with_read_idx q (u32 R')) C R' W ss'.
Proof. intros [] Hx HR. constructor; simpl; auto; lia. Qed.

Lemma do_rewind_inv sz m C R W ss :
  ring_inv (ring m) C R W ss -> pushed m = popped m ++ msgs ss ->
  writer_inv (blk (ring m)) C W (WMarked sz) -> reader_inv (blk (ring m)) R W ss (rpc m) ->
  preserved (Some (writer_to m
    (Ret (with_write_idx (ring m)
       (u32 (write_idx (ring m) + padding_sz Bytes (write_idx (ring m)))))) (WReserve sz))).
Proof using Bytes_range single_bit.
  intros HI Hg (Hsz & Hn & Hlt & b & Hb & Hz) Hr. pose proof N_range as HN.
  pose proof (asz_range sz Hsz). pose proof (mod_range N ltac:(lia) W).
  pose proof (ri_le _ _ _ _ _ HI) as Ho. unfold need in Hn.
  destruct (Z.ltb_spec (N - W mod N) (asz sz)); [|lia].
  rewrite (ri_write _ _ _ _ _ HI), padding_sz_eq, u32_add_l.
  eexists. split; [reflexivity|]. exists C, R, (W + (N - W mod N)), (ss ++ [SPad]).
  split; [|split; [|split]]; cbn [ring wpc rpc pushed popped writer_inv].
  - apply (ring_inv_publish _ _ _ W); [exact HI | | lia].
    apply (cov_pad _ _ _ b); auto; [lia | constructor].
  - rewrite msgs_app, app_nil_r. exact Hg.
  - split; [exact Hsz | split; [lia|]]. rewrite mod_pad; lia.
  - apply (reader_inv_extend _ _ W); [exact Hr | lia].
Qed.

(** Reading a message from memory through its header. *)
Lemma content_at q X c :
  zlen (blk q) = N -> msg_shape c -> X mod N + zlen c <= N ->
  (forall i, (i < length c)%nat -> at_ (blk q) (X + Z.of_nat i) = c !! i) ->
  content Bytes q (u32 X) = Ret c
  /\ exists b, ld_blk Bytes q (u32 X) = Ret b /\ u32 (blocks sizeof_Block (blk_size b)) = zlen c
               /\ blk_size b <> 0.
Proof using Bytes_range single_bit.
  intros L Hs Hf Hc. pose proof N_range. pose proof (msg_shape_pos c Hs) as Lc.
  destruct c as [|b c]; [destruct Hs|]. pose proof (Hc 0%nat ltac:(simpl; lia)) as H0.
  rewrite Z.add_0_r in H0. simpl in H0. destruct Hs as [Hb Hlen].
  assert (Eb : ld_blk Bytes q (u32 X) = Ret b) by (apply ld_blk_at; assumption).
  assert (El : u32 (blocks sizeof_Block (blk_size b)) = zlen (b :: c)).
  { rewrite <- Hlen. apply u32_id. unfold in_u32. lia. }
  unfold content. rewrite Eb. cbn [mbind res_bind]. rewrite El, u32_mod. split.
  - apply (read_message N); auto. lia.
  - exists b. repeat split; auto; lia.
Qed.

(** The message in the blocks the writer reserved. *)
Lemma reserved_message bl W b :
  zlen bl = N -> sz_ok (blk_size b) -> at_ bl W = Some b -> W mod N + asz (blk_size b) <= N ->
  exists c, msg_shape c /\ zlen c = asz (blk_size b)
    /\ forall i, (i < length c)%nat -> at_ bl (W + Z.of_nat i) = c !! i.
Proof using Bytes_range single_bit.
  intros L Hsz Hb Hf. pose proof N_range. pose proof (mod_range N ltac:(lia) W).
  pose proof (asz_range _ Hsz).
  set (c := take (Z.to_nat (asz (blk_size b))) (drop (Z.to_nat (W mod N)) bl)).
  assert (Lc : zlen c = asz (blk_size b)) by (unfold c; rewrite length_take, length_drop; lia).
  assert (Hc : forall i, (i < length c)%nat -> at_ bl (W + Z.of_nat i) = c !! i).
  { intros i Hi. unfold c. rewrite lookup_take_lt, lookup_drop by lia. unfold SPSCProps.at_.
    f_equal. rewrite mod_shift by lia. lia. }
  exists c. refine (conj _ (conj Lc Hc)). pose proof (Hc 0%nat ltac:(lia)) as Hh.
  rewrite Z.add_0_r, Hb in Hh. destruct c as [|b' c']; [discriminate Hh|].
  injection Hh as <-. split; [exact Hsz | exact Lc].
Qed.

Lemma do_push_inv sz m C R W ss :
  ring_inv (ring m) C R W ss -> pushed m = popped m ++ msgs ss ->
  writer_inv (blk (ring m)) C W (WUser sz) -> reader_inv (blk (ring m)) R W ss (rpc m) ->
  preserved (Some (do_push Bytes m)).
Proof using Bytes_range single_bit.
  intros HI Hg (Hsz & Hn & Hf & b & Hb & <-) Hr. pose proof (asz_range _ Hsz).
  pose proof (ri_len _ _ _ _ _ HI) as L. pose proof (ri_le _ _ _ _ _ HI) as Ho.
  destruct (reserved_message _ W b L Hsz Hb Hf) as (c & Hs & Lc & Hc).
  destruct (content_at (ring m) W c L Hs ltac:(lia) Hc) as (Ec & b' & Eb' & Es & _).
  unfold do_push, Push. rewrite (ri_write _ _ _ _ _ HI), Ec, Eb'. cbn [mbind res_bind].
  rewrite Es, u32_add_l.
  eexists. split; [reflexivity|]. exists C, R, (W + zlen c), (ss ++ [SMsg c]).
  split; [|split; [|split]]; cbn [ring wpc rpc pushed popped writer_inv].
  - apply (ring_inv_publish _ _ _ W); [exact HI | | lia].
    apply cov_msg; auto; [lia | constructor].
  - rewrite msgs_app, Hg, <- app_assoc. reflexivity.
  - exact I.
  - apply (reader_inv_extend _ _ W); [exact Hr | lia].
Qed.

Lemma do_load_inv m C R W ss :
  ring_inv (ring m) C R W ss -> pushed m = popped m ++ msgs ss ->
  writer_inv (blk (ring m)) C W (wpc m) -> preserved (Some (Ret (do_load m))).
Proof using Bytes_range single_bit.
  intros HI Hg Hw. pose proof (ri_le _ _ _ _ _ HI) as Ho. pose proof N_range.
  eexists. split; [reflexivity|]. exists C, R, W, ss.
  unfold do_load, reader_to. cbn [ring wpc rpc pushed popped]. repeat (split; auto).
  rewrite (ri_write _ _ _ _ _ HI), (ri_read _ _ _ _ _ HI). case_test; [exact I|].
  exists W, ss, []. rewrite app_nil_r. repeat split; auto; [apply HI | lia|].
  intros ->. pose proof (ri_covers _ _ _ _ _ HI) as Hc. inversion Hc. congruence.
Qed.

Lemma do_size_inv w m C R W ss :
  ring_inv (ring m) C R W ss -> pushed m = popped m ++ msgs ss ->
  writer_inv (blk (ring m)) C W (wpc m) -> reader_inv (blk (ring m)) R W ss (RLoaded w) ->
  preserved (Some (b ← ld_blk Bytes (ring m) (read_idx (ring m));
                   Ret (reader_to m (ring m) (if blk_size b =? 0 then RRewind w else RHave)))).
Proof using Bytes_range single_bit.
  intros HI Hg Hw (V & s1 & s2 & -> & -> & Hc & HV & Hne). pose proof (ri_len _ _ _ _ _ HI) as L.
  rewrite (ri_read _ _ _ _ _ HI). inversion Hc as [| R0 c s1' V0 Hs Hf Hm Hrest | R0 b s1' V0 Hp Hb Hz Hrest];
    subst; [congruence | |].
  - destruct (content_at (ring m) R c L Hs Hf Hm) as (_ & b & -> & _ & Hnz). cbn [mbind res_bind].
    apply Z.eqb_neq in Hnz. rewrite Hnz. eexists. split; [reflexivity|].
    exists C, R, W, ((SMsg c :: s1') ++ s2). cbn. repeat (split; auto). eauto.
  - rewrite (ld_blk_at _ _ b) by assumption. cbn [mbind res_bind]. rewrite Hz.
    eexists. split; [reflexivity|]. exists C, R, W, ((SPad :: s1') ++ s2).
    cbn [ring wpc rpc pushed popped reader_to reader_inv]. repeat (split; auto).
    exists V, (SPad :: s1'), s2. repeat split; eauto.
Qed.

Lemma covers_app_inv bl R s1 s2 V W :
  covers bl R s1 V -> covers bl R (s1 ++ s2) W -> covers bl V s2 W.
Proof using Type.
  clear. intros H. revert W. induction H; intros W' H'; simpl in H'; auto;
    inversion H'; subst; auto.
Qed.

(** After a rewind the reader is at the start of the ring, where no padding is. *)
Lemma do_rrewind_inv w m C R W ss :
  ring_inv (ring m) C R W ss -> pushed m = popped m ++ msgs ss ->
  writer_inv (blk (ring m)) C W (wpc m) -> reader_inv (blk (ring m)) R W ss (RRewind w) ->
  let r := u32 (read_idx (ring m) + (N - read_idx (ring m) mod N)) in
  preserved (Some (Ret (reader_to m (with_read_idx (ring m) r) (if r =? w then RIdle else RHave)))).
Proof using Bytes_range single_bit.
  intros HI Hg Hw (V & s1 & s2 & -> & -> & Hc & HV & s & ->) r. pose proof N_range as HN.
  pose proof (ri_le _ _ _ _ _ HI) as Ho. pose proof (mod_range N ltac:(lia) R).
  pose proof (ri_covers _ _ _ _ _ HI) as HW.
  assert (Er : r = u32 (R + (N - R mod N))).
  { unfold r. rewrite (ri_read _ _ _ _ _ HI), u32_mod, u32_add_l. reflexivity. }
  inversion Hc as [| | R0 b s0 V0 Hp Hb Hz Hrest]; subst R0 s0 V0.
  inversion HW as [| | R0 b0 s0 V0 _ _ _ Hrest']; subst R0 s0 V0.
  pose proof (covers_le N ltac:(lia) _ _ _ _ Hrest) as Hle.
  eexists. split; [reflexivity|]. exists C, (R + (N - R mod N)), W, (s ++ s2).
  rewrite Er. unfold reader_to. cbn [ring wpc rpc pushed popped]. split; [|split; [|split]].
  - apply (ring_inv_consume _ _ R _ _ ((SPad :: s) ++ s2)); [exact HI | exact Hrest' | lia].
  - exact Hg.
  - exact Hw.
  - case_test; [exact I|]. inversion Hrest as [| R0 c s0 V0 |? ? ? ? Hp' _ _ _]; subst.
    + congruence.
    + exists c, (s0 ++ s2). reflexivity.
    + rewrite mod_pad in Hp' by lia. lia.
Qed.

Lemma do_pop_inv m C R W ss :
  ring_inv (ring m) C R W ss -> pushed m = popped m ++ msgs ss ->
  writer_inv (blk (ring m)) C W (wpc m) -> reader_inv (blk (ring m)) R W ss RHave ->
  preserved (Some (do_pop Bytes m)).
Proof using Bytes_range single_bit.
  intros HI Hg Hw (c & s & ->). pose proof (ri_len _ _ _ _ _ HI) as L.
  pose proof (ri_covers _ _ _ _ _ HI) as HW.
  inversion HW as [| R0 c0 s0 V0 Hs Hf Hm Hrest |]; subst R0 c0 s0 V0.
  pose proof (msg_shape_pos c Hs).
  destruct (content_at (ring m) R c L Hs Hf Hm) as (Ec & b & Eb & El & _).
  unfold do_pop, Pop. rewrite (ri_read _ _ _ _ _ HI), Ec, Eb. cbn [mbind res_bind].
  rewrite El, u32_add_l. eexists. split; [reflexivity|]. exists C, (R + zlen c), W, s.
  cbn [ring wpc rpc pushed popped]. split; [|split; [|split]].
  - apply (ring_inv_consume _ _ R _ _ (SMsg c :: s)); [exact HI | exact Hrest | lia].
  - rewrite Hg, <- app_assoc. reflexivity.
  - exact Hw.
  - exact I.
Qed.

(** *** Every step returns and keeps the invariant *)
Lemma step_inv a m o : inv m -> step Bytes a m = Some o -> preserved (Some o).
Proof using Bytes_range single_bit.
  intros (C & R & W & ss & HI & Hg & Hw & Hr) Hs. rewrite <- Hs.
  unfold step in *. destruct a as [size| | | |i b| | | | |].
  - destruct (wpc m); try discriminate. destruct (size_ok size) eqn:Hsz; [|discriminate].
    eapply do_alloc_inv; eauto.
  - destruct (wpc m); try discriminate. eapply do_mark_inv; eauto.
  - destruct (wpc m); try discriminate. eapply do_rewind_inv; eauto.
  - destruct (wpc m); try discriminate. eapply do_reserve_inv; eauto.
  - destruct (wpc m); try discriminate. destruct (_ && _) eqn:E; [|discriminate].
    eapply do_write_inv; eauto; lia.
  - destruct (wpc m); try discriminate. eapply do_push_inv; eauto.
  - assert (Hp : preserved (Some (Ret (do_load m)))) by (eapply do_load_inv; eauto).
    destruct (wpc m), (rpc m); try discriminate Hs; exact Hp.
  - assert (Hp : forall w, rpc m = RLoaded w -> preserved (Some (b ← ld_blk Bytes (ring m) (read_idx (ring m));
                   Ret (reader_to m (ring m) (if blk_size b =? 0 then RRewind w else RHave))))).
    { intros w E. rewrite E in Hr. eapply do_size_inv; eauto. }
    destruct (wpc m), (rpc m); try discriminate Hs; apply Hp; reflexivity.
  - assert (Hp : forall w, rpc m = RRewind w -> let r := u32 (read_idx (ring m) + (N - read_idx (ring m) mod N)) in
      preserved (Some (Ret (reader_to m (with_read_idx (ring m) r) (if r =? w then RIdle else RHave))))).
    { intros w E. rewrite E in Hr. eapply do_rrewind_inv; eauto. }
    destruct (wpc m), (rpc m); try discriminate Hs; apply Hp; reflexivity.
  - assert (Hp : rpc m = RHave -> preserved (Some (do_pop Bytes m))).
    { intros E. rewrite E in Hr. eapply do_pop_inv; eauto. }
    destruct (wpc m), (rpc m); try discriminate Hs; apply Hp; reflexivity.
Qed.

Lemma reachable_inv m : reachable Bytes m -> inv m.
Proof using Bytes_range single_bit.
  unfold reachable. intros H. remember (machine_init Bytes) as m0 eqn:E.
  assert (H0 : inv m0) by (rewrite E; exact inv_init). clear E.
  induction H as [|m0 m1 m2 [a Ha] _ IH]; [exact H0|]. apply IH.
  destruct (step_inv a m0 _ H0 Ha) as (m' & [=<-] & Hm'). exact Hm'.
Qed.
End Invariant.
