(* ===== verification/SPSCTheorems.v ===== *)
(** * Theorems on the shared-memory ring

    Safety and FIFO order of the interleaved machine of SPSCVarQueue.v, when
    [Alloc] and [Front] succeed, and the correspondence between the operations
    as functions and as sequences of accesses. *)

From stdpp Require Import relations.
From S2P Require Import Prelude Endian MsgHeader SPSCVarQueue SPSCProps.
Local Open Scope Z_scope.

Section Theorems.
Context (Bytes : Z) (Bytes_range : 0 <= Bytes < 2 ^ 32).
Context (single_bit : exists k, 0 <= k /\ BLK_CNT Bytes = 2 ^ k).
Abbreviation N := (BLK_CNT Bytes).
Implicit Types (q : SPSCVarQueue) (m : machine).

(** The reader's actions, whatever the writer is doing. *)
Lemma step_ALoad m : rpc m = RIdle -> step Bytes ALoad m = Some (Ret (do_load m)).
Proof using Type. intros E. unfold step. rewrite E. destruct (wpc m); reflexivity. Qed.

Lemma step_ASize w m b :
  rpc m = RLoaded w -> ld_blk Bytes (ring m) (read_idx (ring m)) = Ret b ->
  step Bytes ASize m = Some (Ret (reader_to m (ring m) (if blk_size b =? 0 then RRewind w else RHave))).
Proof using Type. intros E Eb. unfold step. rewrite E, Eb. destruct (wpc m); reflexivity. Qed.

Lemma step_ARRewind w m :
  rpc m = RRewind w ->
  let r := u32 (read_idx (ring m) + (N - read_idx (ring m) mod N)) in
  step Bytes ARRewind m
  = Some (Ret (reader_to m (with_read_idx (ring m) r) (if r =? w then RIdle else RHave))).
Proof using Type. intros E. unfold step. rewrite E. destruct (wpc m); reflexivity. Qed.

Lemma covers_blocks bl R ss W : covers N bl R ss W -> zlen (concat (msgs ss)) <= W - R.
Proof using Bytes_range single_bit.
  pose proof (N_range Bytes Bytes_range single_bit).
  induction 1 as [| R c ss W Hs Hf Hc Hr IH | R b ss W Hp Hb Hz Hr IH]; cbn [msgs flat_map app].
  - simpl. lia.
  - cbn [concat]. rewrite length_app. unfold msgs in IH. lia.
  - pose proof (mod_range N ltac:(lia) R). unfold msgs in IH. lia.
Qed.

(** The positions of the indices, from the indices. *)
Lemma used_blocks q C R W ss :
  ring_inv Bytes q C R W ss -> u32 (write_idx q - read_idx q) = W - R.
Proof using Bytes_range single_bit.
  intros HI. pose proof (ri_le Bytes Bytes_range single_bit _ _ _ _ _ HI).
  pose proof (N_range Bytes Bytes_range single_bit).
  rewrite (ri_write _ _ _ _ _ _ HI), (ri_read _ _ _ _ _ _ HI), u32_sub_l, u32_sub_r.
  apply u32_id. unfold in_u32. lia.
Qed.

(** C4. In every reachable state of the writing and the reading process interleaved access
    by access, the contents popped are a prefix of the contents pushed, and those in flight
    occupy at most BLK_CNT blocks: the shared-memory ring is a FIFO that neither loses,
    duplicates nor alters a message. *)
Theorem ring_fifo m :
  reachable Bytes m ->
  exists in_flight, pushed m = popped m ++ in_flight /\ zlen (concat in_flight) <= N.
Proof using Bytes_range single_bit.
  intros H. apply (reachable_inv Bytes Bytes_range single_bit) in H as (C & R & W & ss & HI & Hg & _).
  pose proof (ri_le Bytes Bytes_range single_bit _ _ _ _ _ HI).
  exists (msgs ss). split; [exact Hg|].
  pose proof (covers_blocks _ _ _ _ (ri_covers _ _ _ _ _ _ HI)). lia.
Qed.

(** C11. No access of either process, in any reachable interleaving, is outside the ring. *)
Theorem ring_memory_safe a m o :
  reachable Bytes m -> step Bytes a m = Some o -> exists m', o = Ret m'.
Proof using Bytes_range single_bit.
  intros H Hs. apply (reachable_inv Bytes Bytes_range single_bit) in H.
  destruct (step_inv Bytes Bytes_range single_bit a m o H Hs) as (m' & [=->] & _). eauto.
Qed.

(** C28. The message the reader holds is the oldest one not popped, and its blocks have the
    content the writer pushed, whatever the writer does meanwhile. *)
Theorem ring_front_stable m :
  reachable Bytes m -> rpc m = RHave ->
  exists c, pushed m !! length (popped m) = Some c
    /\ content Bytes (ring m) (read_idx (ring m)) = Ret c.
Proof using Bytes_range single_bit.
  intros H Hp. apply (reachable_inv Bytes Bytes_range single_bit) in H as (C & R & W & ss & HI & Hg & _ & Hr).
  rewrite Hp in Hr. destruct Hr as (c & s & ->). exists c. split.
  - rewrite Hg, lookup_app_r, Nat.sub_diag by lia. reflexivity.
  - pose proof (ri_covers _ _ _ _ _ _ HI) as Hc.
    inversion Hc as [| R0 c0 s0 V0 Hs Hf Hm _ |]; subst R0 c0 s0 V0.
    rewrite (ri_read _ _ _ _ _ _ HI).
    apply (content_at Bytes Bytes_range single_bit); auto. apply HI.
Qed.

(** If a message was pushed and not popped, the next call of Front returns one, over a
    rewind marker or not. *)
Theorem Front_finds m :
  reachable Bytes m -> rpc m = RIdle -> pushed m <> popped m ->
  exists m', (steps Bytes [ALoad; ASize] m = Some (Ret m')
              \/ steps Bytes [ALoad; ASize; ARRewind] m = Some (Ret m'))
    /\ rpc m' = RHave /\ popped m' = popped m.
Proof using Bytes_range single_bit.
  intros H Hp Hne. pose proof (N_range Bytes Bytes_range single_bit) as HN.
  apply (reachable_inv Bytes Bytes_range single_bit) in H as (C & R & W & ss & HI & Hg & _ & _).
  pose proof (ri_le Bytes Bytes_range single_bit _ _ _ _ _ HI) as Ho.
  pose proof (mod_range N ltac:(lia) R) as HR.
  destruct HI as [L Hw Hr _ _ Hc].
  assert (Hlt : forall ss' R', covers N (blk (ring m)) R' ss' W -> msgs ss' <> [] -> R' < W).
  { intros ss' R' Hc' Hn'. pose proof (covers_blocks _ _ _ _ Hc').
    pose proof (covers_le N ltac:(lia) _ _ _ _ Hc').
    inversion Hc' as [| R0 c s0 V0 Hs | R0 b s0 V0 Hp0 _ _ Hrest]; subst; [destruct Hn'; reflexivity | |].
    - apply msg_shape_pos in Hs. cbn [msgs flat_map app concat] in *. rewrite length_app in *. lia.
    - pose proof (covers_le N ltac:(lia) _ _ _ _ Hrest). pose proof (mod_range N ltac:(lia) R'). lia. }
  assert (Hms : msgs ss <> []) by (intros E; rewrite E, app_nil_r in Hg; congruence).
  pose proof (Hlt _ _ Hc Hms) as HRW.
  cbn [steps]. rewrite step_ALoad by exact Hp.
  assert (El : do_load m = reader_to m (ring m) (RLoaded (u32 W))).
  { unfold do_load. rewrite Hr, Hw. destruct (Z.eqb_spec (u32 R) (u32 W)) as [E|_]; [word_lia|].
    reflexivity. }
  rewrite El.
  inversion Hc as [| R0 c s0 V0 Hs Hf Hm Hrest | R0 b s0 V0 Hp0 Hb Hz Hrest]; subst; [destruct Hms; reflexivity | |].
  - destruct (content_at Bytes Bytes_range single_bit (ring m) R c L Hs Hf Hm) as (_ & b & Eb & _ & Hnz).
    apply Z.eqb_neq in Hnz. rewrite <- Hr in Eb.
    rewrite (step_ASize (u32 W) _ b) by (reflexivity || exact Eb). rewrite Hnz.
    eexists. split; [left; reflexivity | auto].
  - pose proof (ld_blk_at Bytes Bytes_range single_bit _ _ b L Hb) as Eb. rewrite <- Hr in Eb.
    rewrite (step_ASize (u32 W) _ b) by (reflexivity || exact Eb). rewrite Hz.
    pose proof (Hlt _ _ Hrest Hms) as HRW'.
    rewrite (step_ARRewind (u32 W)) by reflexivity. unfold reader_to. cbn [ring wpc rpc Z.eqb].
    assert (En : (u32 (u32 R + (N - u32 R mod N)) =? u32 W) = false).
    { apply Z.eqb_neq. rewrite (u32_mod Bytes Bytes_range single_bit), u32_add_l. word_lia. }
    rewrite Hr, En. eexists. split; [right; reflexivity | auto].
Qed.

(** The blocks a message of [sz] bytes takes when the writer is at [w]. *)
Definition room_needed (sz w : Z) : Z :=
  Alloc_blk_sz sz + (if rewind Bytes sz w then padding_sz Bytes w else 0).

Lemma size_ok_sz size : size_ok size = true -> sz_ok (u16 (size + sizeof_MsgHeader)).
Proof using Type.
  clear. unfold size_ok, sz_ok, sizeof_MsgHeader. intros H. apply andb_true_iff in H as [? ?].
  rewrite u16_id; unfold in_u16; lia.
Qed.

Lemma room_needed_eq sz W : sz_ok sz -> room_needed sz (u32 W) = need Bytes sz W.
Proof using Bytes_range single_bit.
  intros H. unfold room_needed, need.
  rewrite (rewind_eq Bytes Bytes_range single_bit), (padding_sz_eq Bytes Bytes_range single_bit),
    Alloc_blk_sz_eq by exact H. reflexivity.
Qed.

Lemma Alloc_outcome size m :
  reachable Bytes m -> wpc m = WIdle -> size_ok size = true ->
  let sz := u16 (size + sizeof_MsgHeader) in
  let q := ring m in
  exists m', step Bytes (AAlloc size) m = Some (Ret m')
    /\ wpc m' = if N <? u32 (write_idx q - read_idx q) + room_needed sz (write_idx q)
                then WIdle else WChecked sz.
Proof using Bytes_range single_bit.
  intros H Hp Hs sz q. apply (reachable_inv Bytes Bytes_range single_bit) in H as (C & R & W & ss & HI & _).
  pose proof (size_ok_sz size Hs) as Hsz. fold sz in Hsz.
  pose proof (ri_le Bytes Bytes_range single_bit _ _ _ _ _ HI) as Ho.
  unfold q. rewrite (used_blocks _ _ _ _ _ HI), (ri_write _ _ _ _ _ _ HI), room_needed_eq by exact Hsz.
  unfold step. rewrite Hp, Hs. unfold do_alloc. fold sz.
  rewrite (ri_write _ _ _ _ _ _ HI), (ri_cach _ _ _ _ _ _ HI).
  rewrite (too_full_eq Bytes Bytes_range single_bit) by (auto; lia).
  destruct (Z.ltb_spec (C + N) (W + need Bytes sz W)).
  - cbn [with_cach read_idx_cach write_idx].
    rewrite (ri_write _ _ _ _ _ _ HI), (ri_read _ _ _ _ _ _ HI).
    rewrite (too_full_eq Bytes Bytes_range single_bit) by (auto; lia).
    destruct (Z.ltb_spec (R + N) (W + need Bytes sz W)), (Z.ltb_spec N (W - R + need Bytes sz W));
      try lia; (eexists; split; [reflexivity | reflexivity]).
  - destruct (Z.ltb_spec N (W - R + need Bytes sz W)); [lia|].
    eexists; split; [reflexivity | reflexivity].
Qed.

(** C29. Alloc of the ring succeeds exactly when the blocks used, those of the message and
    the padding of a rewind fit BLK_CNT, in arithmetic modulo 2^32, stale cache of the read
    index or not. *)
Theorem ring_Alloc_exact size m :
  reachable Bytes m -> wpc m = WIdle -> size_ok size = true ->
  let sz := size + sizeof_MsgHeader in
  let q := ring m in
  exists m', step Bytes (AAlloc size) m = Some (Ret m')
    /\ (wpc m' = WIdle <-> N < u32 (write_idx q - read_idx q) + room_needed sz (write_idx q)).
Proof using Bytes_range single_bit.
  intros H Hp Hs sz q. destruct (Alloc_outcome size m H Hp Hs) as (m' & E & Ew).
  assert (Esz : u16 (size + sizeof_MsgHeader) = sz).
  { unfold size_ok in Hs. apply u16_id. unfold in_u16, sizeof_MsgHeader in *. lia. }
  rewrite Esz in Ew. exists m'. split; [exact E|]. rewrite Ew. fold q. case_test; split; intros; try lia; congruence.
Qed.

(** A ring whose reader has caught up accepts any message of at most half of its
    blocks, wherever the indices are. *)
Theorem drained_ring_accepts size m :
  reachable Bytes m -> wpc m = WIdle -> size_ok size = true ->
  read_idx (ring m) = write_idx (ring m) ->
  2 * blocks sizeof_Block (size + sizeof_MsgHeader) <= N ->
  exists m', step Bytes (AAlloc size) m = Some (Ret m')
    /\ wpc m' = WChecked (size + sizeof_MsgHeader).
Proof using Bytes_range single_bit.
  intros H Hp Hs He Hb. destruct (Alloc_outcome size m H Hp Hs) as (m' & E & Ew).
  assert (Esz : u16 (size + sizeof_MsgHeader) = size + sizeof_MsgHeader).
  { unfold size_ok in Hs. apply u16_id. unfold in_u16, sizeof_MsgHeader in *. lia. }
  pose proof (size_ok_sz size Hs) as Hsz. rewrite Esz in *.
  apply (reachable_inv Bytes Bytes_range single_bit) in H as (C & R & W & ss & HI & _).
  pose proof (asz_range _ Hsz). pose proof (N_range Bytes Bytes_range single_bit).
  pose proof (mod_range N ltac:(lia) W).
  exists m'. split; [exact E|]. rewrite Ew, He, Z.sub_diag, (ri_write _ _ _ _ _ _ HI), room_needed_eq by exact Hsz.
  unfold need. fold (asz (size + sizeof_MsgHeader)) in Hb. change (u32 0) with 0.
  destruct (Z.ltb_spec (N - W mod N) (asz (size + sizeof_MsgHeader)));
    case_test; (reflexivity || lia).
Qed.
End Theorems.

(** ** Operations and accesses *)
Section Operations.
Context (Bytes : Z).
Implicit Types (q : SPSCVarQueue) (m : machine).

(** What the other process and the records see of an operation: nothing. *)
Definition same_writer m m' : Prop :=
  wpc m' = wpc m /\ pushed m' = pushed m /\ popped m' = popped m.
Definition same_reader m m' : Prop :=
  rpc m' = rpc m /\ pushed m' = pushed m /\ popped m' = popped m.

Lemma Front_steps m q' p :
  rpc m = RIdle -> Front Bytes (ring m) = Ret (q', p) ->
  exists acts m', steps Bytes acts m = Some (Ret m') /\ ring m' = q'
    /\ rpc m' = match p with Some _ => RHave | None => RIdle end /\ same_writer m m'.
Proof.
  intros Hp HF. unfold Front in HF.
  pose proof (step_ALoad Bytes m Hp) as E1. unfold do_load in E1.
  destruct (Z.eqb_spec (read_idx (ring m)) (write_idx (ring m))) as [Ee|Ene].
  - injection HF as <- <-. eexists [ALoad], _. cbn [steps]. rewrite E1.
    split; [reflexivity | repeat split].
  - apply bind_Ret in HF as (b & Eb & HF).
    set (m1 := reader_to m (ring m) (RLoaded (write_idx (ring m)))) in *.
    pose proof (step_ASize Bytes (write_idx (ring m)) m1 b eq_refl Eb) as E2.
    destruct (blk_size b =? 0).
    + pose proof (step_ARRewind Bytes (write_idx (ring m))
                    (reader_to m1 (ring m1) (RRewind (write_idx (ring m)))) eq_refl) as E3.
      eexists [ALoad; ASize; ARRewind], _. cbn [steps]. rewrite E1, E2, E3.
      split; [reflexivity|]. cbn [m1 reader_to ring] in *. destruct (_ =? _);
        injection HF as <- <-; repeat split.
    + injection HF as <- <-. eexists [ALoad; ASize], _. cbn [steps]. rewrite E1, E2.
      split; [reflexivity | repeat split].
Qed.

(** Front as a function is a sequence of the reader's atomic steps with the same
    result. *)
Theorem Front_is_steps m q' p :
  rpc m = RIdle -> Front Bytes (ring m) = Ret (q', p) ->
  exists acts m', steps Bytes acts m = Some (Ret m') /\ ring m' = q'
    /\ rpc m' = match p with Some _ => RHave | None => RIdle end /\ same_writer m m'.
Proof. exact (Front_steps m q' p). Qed.

Lemma Alloc_steps size m q' p :
  wpc m = WIdle -> size_ok size = true -> Alloc Bytes size (ring m) = Ret (q', p) ->
  exists acts m', steps Bytes acts m = Some (Ret m') /\ ring m' = q'
    /\ wpc m' = match p with
               | Some _ => WUser (size + sizeof_MsgHeader)
               | None => WIdle
               end /\ same_reader m m'.
Proof.
  intros Hp Hs HA.
  assert (Esz : u16 (size + sizeof_MsgHeader) = size + sizeof_MsgHeader).
  { unfold size_ok in Hs. apply u16_id. unfold in_u16, sizeof_MsgHeader in *. lia. }
  unfold Alloc in HA. rewrite Esz in HA. set (sz := size + sizeof_MsgHeader) in *.
  assert (Hc : forall q, Alloc_commit Bytes sz q = Ret (q', p) ->
    exists acts m', steps Bytes acts (mkMachine q (WChecked sz) (rpc m) (pushed m) (popped m))
      = Some (Ret m') /\ ring m' = q'
    /\ wpc m' = match p with Some _ => WUser sz | None => WIdle end /\ same_reader m m').
  { intros q HC. unfold Alloc_commit in HC. apply bind_Ret in HC as (q1 & E1 & HC).
    apply bind_Ret in HC as (q2 & E2 & [= <- <-]).
    destruct (rewind Bytes sz (write_idx q)) eqn:Er.
    - apply bind_Ret in E1 as (q3 & E3 & [= <-]). eexists [AMark; ARewind; AReserve], _.
      cbn [steps]. unfold step at 1. cbn [wpc ring]. rewrite Er, E3. cbn.
      assert (Ew : write_idx q3 = write_idx q).
      { unfold st_size in E3. apply bind_Ret in E3 as (? & _ & E3).
        apply bind_Ret in E3 as (? & _ & [= <-]). reflexivity. }
      rewrite Ew. cbn in E2. rewrite E2. cbn. split; [reflexivity | repeat split].
    - injection E1 as <-. eexists [AMark], _. cbn [steps]. unfold step. cbn [wpc ring].
      rewrite Er, E2. cbn. split; [reflexivity | repeat split]. }
  assert (Ea : step Bytes (AAlloc size) m = Some (do_alloc Bytes size m))
    by (unfold step; rewrite Hp, Hs; reflexivity).
  unfold do_alloc in Ea. fold sz in Ea. rewrite Esz in Ea.
  destruct (too_full _ _ _ (read_idx_cach (ring m))).
  - destruct (too_full _ _ _ _).
    + injection HA as <- <-. eexists [AAlloc size], _. cbn [steps]. rewrite Ea. cbn.
      split; [reflexivity | repeat split].
    + destruct (Hc _ HA) as (acts & m' & Hst & Hm'). exists (AAlloc size :: acts), m'.
      cbn [steps]. rewrite Ea. auto.
  - destruct (Hc _ HA) as (acts & m' & Hst & Hm'). exists (AAlloc size :: acts), m'.
    cbn [steps]. rewrite Ea. auto.
Qed.

(** Alloc as a function is a sequence of the writer's atomic steps with the same
    result. *)
Theorem Alloc_is_steps size m q' p :
  wpc m = WIdle -> size_ok size = true -> Alloc Bytes size (ring m) = Ret (q', p) ->
  exists acts m', steps Bytes acts m = Some (Ret m') /\ ring m' = q'
    /\ wpc m' = match p with
               | Some _ => WUser (size + sizeof_MsgHeader)
               | None => WIdle
               end /\ same_reader m m'.
Proof. exact (Alloc_steps size m q' p). Qed.
End Operations.

(** ** The theorems at a concrete ring

    Four blocks of 64 bytes; the second message does not fit behind the first
    one, so the run rewinds. *)
Section Witnesses.
Definition four_blocks : Z := 256.
Lemma four_range : 0 <= four_blocks < 2 ^ 32.
Proof. concrete. Qed.
Lemma four_single_bit : exists k, 0 <= k /\ BLK_CNT four_blocks = 2 ^ k.
Proof. exists 2. concrete. Qed.

Lemma steps_reachable acts : forall m m',
  reachable four_blocks m -> steps four_blocks acts m = Some (Ret m') -> reachable four_blocks m'.
Proof.
  induction acts as [|a acts IH]; intros m m' Hr H; cbn [steps] in H; [congruence|].
  destruct (step four_blocks a m) as [[m1| |]|] eqn:E; try discriminate H.
  apply (IH m1); [|exact H]. eapply rtc_r; [exact Hr|]. exists a. exact E.
Qed.

Definition after (acts : list action) : machine :=
  match steps four_blocks acts (machine_init four_blocks) with
  | Some (Ret m) => m
  | _ => machine_init four_blocks
  end.
Lemma after_reachable acts : reachable four_blocks (after acts).
Proof.
  unfold after. destruct (steps _ _ _) as [[m| |]|] eqn:E; try apply rtc_refl.
  eapply steps_reachable; [apply rtc_refl | exact E].
Qed.

Definition send_one (size : Z) : list action := [AAlloc size; AMark; APush].
Definition receive_one : list action := [ALoad; ASize; APop].
(** Three blocks sent and received, then two more, which rewind. *)
Definition a_trace : list action :=
  send_one 150 ++ receive_one ++ [AAlloc 100; AMark; ALoad; ARewind; AReserve; APush].
(** The same, the reader holding the second message. *)
Definition a_trace_front : list action := a_trace ++ [ALoad; ASize; ARRewind].

Lemma ring_fifo_witness :
  exists in_flight, pushed (after a_trace) = popped (after a_trace) ++ in_flight
    /\ zlen (concat in_flight) <= BLK_CNT four_blocks.
Proof.
  exact (ring_fifo four_blocks four_range four_single_bit (after a_trace) (after_reachable a_trace)).
Defined.

Lemma ring_memory_safe_witness :
  exists m', step four_blocks ARRewind (after (a_trace ++ [ALoad; ASize])) = Some (Ret m').
Proof.
  destruct (step four_blocks ARRewind (after (a_trace ++ [ALoad; ASize]))) as [o|] eqn:E;
    [|vm_compute in E; discriminate E].
  destruct (ring_memory_safe four_blocks four_range four_single_bit ARRewind
              (after (a_trace ++ [ALoad; ASize])) o (after_reachable _) E) as [m' ->].
  exists m'. reflexivity.
Defined.

Lemma ring_front_stable_witness :
  exists c, pushed (after a_trace_front) !! length (popped (after a_trace_front)) = Some c
    /\ content four_blocks (ring (after a_trace_front)) (read_idx (ring (after a_trace_front))) = Ret c.
Proof.
  refine (ring_front_stable four_blocks four_range four_single_bit (after a_trace_front)
            (after_reachable _) _). vm_compute. reflexivity.
Defined.

Lemma Front_finds_witness :
  exists m', (steps four_blocks [ALoad; ASize] (after a_trace) = Some (Ret m')
              \/ steps four_blocks [ALoad; ASize; ARRewind] (after a_trace) = Some (Ret m'))
    /\ rpc m' = RHave /\ popped m' = popped (after a_trace).
Proof.
  refine (Front_finds four_blocks four_range four_single_bit (after a_trace) (after_reachable _) _ _);
    [vm_compute; reflexivity | vm_compute; discriminate].
Defined.

Lemma ring_Alloc_exact_witness :
  exists m', step four_blocks (AAlloc 40) (after a_trace) = Some (Ret m')
    /\ (wpc m' = WIdle <->
        BLK_CNT four_blocks
        < u32 (write_idx (ring (after a_trace)) - read_idx (ring (after a_trace)))
          + room_needed four_blocks (40 + sizeof_MsgHeader) (write_idx (ring (after a_trace)))).
Proof.
  refine (ring_Alloc_exact four_blocks four_range four_single_bit 40 (after a_trace)
            (after_reachable _) _ _); vm_compute; reflexivity.
Defined.

Lemma drained_ring_accepts_witness :
  exists m', step four_blocks (AAlloc 100) (after (send_one 150 ++ receive_one)) = Some (Ret m')
    /\ wpc m' = WChecked (100 + sizeof_MsgHeader).
Proof.
  refine (drained_ring_accepts four_blocks four_range four_single_bit 100
            (after (send_one 150 ++ receive_one)) (after_reachable _) _ _ _ _);
    vm_compute; try reflexivity; discriminate.
Defined.

Lemma Front_is_steps_witness :
  exists acts m', steps four_blocks acts (after a_trace) = Some (Ret m')
    /\ ring m' = with_read_idx (ring (after a_trace)) 4 /\ rpc m' = RHave
    /\ same_writer (after a_trace) m'.
Proof.
  refine (Front_is_steps four_blocks (after a_trace) (with_read_idx (ring (after a_trace)) 4)
            (Some 0) _ _); vm_compute; reflexivity.
Defined.

Lemma Alloc_is_steps_witness :
  exists acts m', steps four_blocks acts (after (send_one 150)) = Some (Ret m')
    /\ ring m' = with_cach (ring (after (send_one 150))) 0 /\ wpc m' = WIdle
    /\ same_reader (after (send_one 150)) m'.
Proof.
  refine (Alloc_is_steps four_blocks 100 (after (send_one 150))
            (with_cach (ring (after (send_one 150))) 0) None _ _ _); vm_compute; reflexivity.
Defined.
End Witnesses.
