(* ===== verification/Conf.v ===== *)
(** * Configuration and system interface

    [Conf] is the configuration struct every class of the library takes as a
    template parameter; [ServerConf] and [ClientConf] are the ones of the example
    programs.  [Sockets] is what the library uses of the operating system
    through src/tcpshm/os.h; its laws are the documented behaviour of the
    system calls, and the theorems on connections are proved against them. *)

From S2P Require Import Prelude Endian.
Local Open Scope Z_scope.

Class Conf : Type := mkConf {
  NameSize : Z;
  ShmQueueSize : Z;
  ToLittleEndian : bool;
  TcpQueueSize : Z;
  TcpRecvBufInitSize : Z;
  TcpRecvBufMaxSize : Z;
  TcpNoDelay : bool;
  NewConnectionTimeout : Z;
  ConnectionTimeout : Z;
  HeartBeatInverval : Z
}.

(** The [static_assert]s of the classes, the ranges of the [uint32_t] constants,
    and that the size of a login message fits the [uint16_t] of its header. *)
Class ConfOk (conf : Conf) : Prop := {
  conf_queue : 0 <= TcpQueueSize < 2 ^ 32 /\ TcpQueueSize mod 8 = 0;
  conf_recv : 0 < TcpRecvBufInitSize <= TcpRecvBufMaxSize /\ TcpRecvBufMaxSize < 2 ^ 31;
  conf_recv_align : TcpRecvBufInitSize mod 8 = 0 /\ TcpRecvBufMaxSize mod 8 = 0;
  conf_shm : 0 <= ShmQueueSize < 2 ^ 32
             /\ exists k, 0 <= k /\ ShmQueueSize / 64 = 2 ^ k;
  conf_name : 1 < NameSize < 2 ^ 14
}.

Definition NanoInSecond : Z := 1000000000.

(** server.cpp *)
Definition ServerConf : Conf :=
  mkConf 16 (1024 * 1024) true 3000 1000 2000 true
         (3 * NanoInSecond) (10 * NanoInSecond) (3 * NanoInSecond).
(** client.cpp; it has no [NewConnectionTimeout], which only servers use *)
Definition ClientConf : Conf :=
  mkConf 16 (1024 * 1024) true 2000 1000 2000 true
         0 (10 * NanoInSecond) (3 * NanoInSecond).

#[export] Instance ServerConf_ok : ConfOk ServerConf.
Proof. constructor; repeat split; try (vm_compute; congruence). exists 14. split; vm_compute; congruence. Qed.
#[export] Instance ClientConf_ok : ConfOk ClientConf.
Proof. constructor; repeat split; try (vm_compute; congruence). exists 14. split; vm_compute; congruence. Qed.

(** ** Sockets *)
Definition INVALID_TCP_SOCKET : Z := -1.
Definition TCP_ERR_AGAIN : Z := 11.  (* EAGAIN *)

(** A call takes the state [W] of the system and returns it with its result.
    [tcp_recv] and [tcp_readv] return the value of the call and the bytes they
    stored; [tcp_readv] is given the lengths of the buffers it fills in turn.
    [uninit] is the value a byte of fresh memory happens to have. *)
Class Sockets (W : Type) : Type := {
  tcp_send : Z -> list Z -> W -> Z * W;
  tcp_recv : Z -> Z -> W -> Z * list Z * W;
  tcp_readv : Z -> list Z -> W -> Z * list Z * W;
  tcp_close : Z -> W -> W;
  tcp_get_last_error : W -> Z;
  uninit : Z
}.

(** send(2): the number of bytes taken, at most the number asked for, or -1; a
    send of some bytes does not take zero.  [outbox fd w] is what was sent. *)
Class SendLaws (W : Type) {S : Sockets W} : Type := {
  outbox : Z -> W -> list Z;
  send_law fd bs w n w' :
    tcp_send fd bs w = (n, w') ->
    -1 <= n <= zlen bs /\ (bs <> [] -> n <> 0)
    /\ outbox fd w' = outbox fd w ++ take (Z.to_nat n) bs
}.

(** recv(2), readv(2): the number of bytes stored, at most the number asked for,
    or -1, which is all a closed descriptor gives.  [inbox fd w] is what the
    peer sent and is not read yet: a call takes a prefix of it, of any length. *)
Class RecvLaws (W : Type) {S : Sockets W} : Type := {
  inbox : Z -> W -> list Z;
  recv_law fd len w n bs w' :
    0 <= len -> tcp_recv fd len w = (n, bs, w') ->
    -1 <= n <= len /\ Forall in_byte bs /\ zlen bs = Z.max 0 n
    /\ inbox fd w = bs ++ inbox fd w';
  readv_law fd lens w n bs w' :
    Forall (fun x => 0 <= x) lens -> tcp_readv fd lens w = (n, bs, w') ->
    -1 <= n <= foldr Z.add 0 lens /\ Forall in_byte bs /\ zlen bs = Z.max 0 n
    /\ inbox fd w = bs ++ inbox fd w';
  recv_closed len w n bs w' :
    tcp_recv INVALID_TCP_SOCKET len w = (n, bs, w') ->
    n = -1 /\ forall fd, inbox fd w' = inbox fd w;
  readv_closed lens w n bs w' :
    tcp_readv INVALID_TCP_SOCKET lens w = (n, bs, w') ->
    n = -1 /\ forall fd, inbox fd w' = inbox fd w;
  send_inbox fd bs w n w' :
    tcp_send fd bs w = (n, w') -> forall fd', inbox fd' w' = inbox fd' w;
  uninit_law : in_byte uninit
}.

(** ** A scripted system, on which the definitions can be run

    There is one connection.  [script] holds the outcomes of the next calls,
    [output] what was sent. *)
Inductive io_event : Type :=
| EvSend (n : Z)              (* takes n bytes, at least 1, at most what is offered *)
| EvRecv (bs : list Z)        (* delivers these bytes; none is end of file *)
| EvError (errno : Z).

Record world : Type := mkWorld {
  script : list io_event;
  output : list Z;
  errno : Z;
  closed : list Z
}.

Definition script_send (fd : Z) (bs : list Z) (w : world) : Z * world :=
  match script w with
  | EvSend n :: evs =>
      let n := Z.to_nat (Z.max 1 n) in
      (zlen (take n bs), mkWorld evs (output w ++ take n bs) (errno w) (closed w))
  | EvError e :: evs => (-1, mkWorld evs (output w) e (closed w))
  | _ => (-1, mkWorld (script w) (output w) TCP_ERR_AGAIN (closed w))
  end.

Definition to_byte (b : Z) : Z := b mod 256.

(** What does not fit stays for the next call; a closed descriptor is EBADF. *)
Definition script_recv (fd : Z) (len : Z) (w : world) : Z * list Z * world :=
  if fd =? INVALID_TCP_SOCKET then (-1, [], mkWorld (script w) (output w) 9 (closed w))
  else
    match script w with
    | EvRecv bs :: evs =>
        let got := take (Z.to_nat len) (to_byte <$> bs) in
        let rest := drop (Z.to_nat len) bs in
        (zlen got, got,
         mkWorld (if zlen rest =? 0 then evs else EvRecv rest :: evs) (output w) (errno w) (closed w))
    | EvError e :: evs => (-1, [], mkWorld evs (output w) e (closed w))
    | _ => (-1, [], mkWorld (script w) (output w) TCP_ERR_AGAIN (closed w))
    end.

#[export] Instance scripted : Sockets world := {
  tcp_send := script_send;
  tcp_recv := script_recv;
  tcp_readv fd lens w := script_recv fd (foldr Z.add 0 lens) w;
  tcp_close fd w := mkWorld (script w) (output w) (errno w) (fd :: closed w);
  tcp_get_last_error := errno;
  uninit := 205
}.

Definition event_bytes (e : io_event) : list Z :=
  match e with EvRecv bs => to_byte <$> bs | _ => [] end.
Definition script_inbox (fd : Z) (w : world) : list Z :=
  if fd =? INVALID_TCP_SOCKET then [] else concat (event_bytes <$> script w).

Lemma to_byte_in bs : Forall in_byte (to_byte <$> bs).
Proof. apply Forall_fmap, Forall_true. intros b. apply Z.mod_pos_bound. lia. Qed.

Lemma script_recv_law fd len w n bs w' :
  0 <= len -> script_recv fd len w = (n, bs, w') ->
  -1 <= n <= len /\ Forall in_byte bs /\ zlen bs = Z.max 0 n
  /\ script_inbox fd w = bs ++ script_inbox fd w'.
Proof.
  intros Hlen. unfold script_recv, script_inbox.
  destruct (Z.eqb_spec fd INVALID_TCP_SOCKET) as [->|Hfd].
  - intros [= <- <- <-]. simpl. repeat split; try lia. constructor.
  - destruct (script w) as [|[n0|bs0|e] evs] eqn:E; intros [= <- <- <-]; cbn [script]; rewrite ?E;
      try (repeat split; try (simpl; lia); constructor).
    split; [rewrite length_take; lia | split; [apply Forall_take, to_byte_in | split; [lia|]]].
    case_test.
    + assert (drop (Z.to_nat len) bs0 = []) as Hd by (destruct (drop _ _); [reflexivity | simpl in *; lia]).
      simpl. rewrite <- (take_drop (Z.to_nat len) (to_byte <$> bs0)) at 1.
      rewrite <- fmap_drop, Hd. simpl. rewrite app_nil_r. reflexivity.
    + simpl. rewrite app_assoc, fmap_drop, take_drop. reflexivity.
Qed.

Lemma script_recv_closed len w n bs w' :
  script_recv INVALID_TCP_SOCKET len w = (n, bs, w') ->
  n = -1 /\ forall fd, script_inbox fd w' = script_inbox fd w.
Proof. intros [= <- <- <-]. split; reflexivity. Qed.

#[export] Instance scripted_send : SendLaws world.
Proof.
  refine {| outbox fd w := output w |}. intros fd bs w n w'. simpl. unfold script_send.
  destruct (script w) as [|[n0|bs0|e] evs]; intros [= <- <-]; cbn [output];
    try (split; [lia | split; [lia | simpl; rewrite app_nil_r; reflexivity]]).
  rewrite length_take. split; [lia|]. split.
  - destruct bs; [congruence|]. cbn [length]. lia.
  - f_equal. rewrite Nat2Z.id. destruct (decide (Z.to_nat (Z.max 1 n0) <= length bs)%nat).
    + rewrite Nat.min_l by lia. reflexivity.
    + rewrite Nat.min_r by lia. rewrite !take_ge by lia. reflexivity.
Defined.

#[export] Instance scripted_recv : RecvLaws world.
Proof.
  refine {| inbox := script_inbox |}; simpl.
  - apply script_recv_law.
  - intros fd lens w n bs w' Hl H. apply script_recv_law in H; [exact H|].
    clear H. induction Hl as [|x l Hx _ IH]; simpl in *; lia.
  - apply script_recv_closed.
  - intros lens w. apply script_recv_closed.
  - intros fd bs w n w' H fd'. unfold script_inbox. case_test; [reflexivity|].
    unfold script_send in H. destruct (script w) as [|[m|bs0|e] evs] eqn:E;
      injection H as _ <-; cbn [script]; rewrite ?E; reflexivity.
  - unfold in_byte. lia.
Defined.
