(* ===== verification/PTCPConn.v ===== *)
(** * A TCP connection (class PTCPConnection of src/tcpshm/ptcp_conn.h)

    The connection sends the blocks of its [PTCPQueue] and cuts the bytes it
    receives into messages, in a buffer that it compacts and expands.  When the
    messages go through shared memory it has no queue ([q_ == nullptr]) and the
    socket carries heartbeats only.

    Every operation takes the connection and the state of the system, and
    returns them with its result; [UB] is an access outside the receive buffer
    or the queue, or through a null [q_]. *)

From Stdlib Require Import String.
From S2P Require Import Prelude Endian MsgHeader PTCPQueue Conf.
Local Open Scope string_scope.
Local Open Scope Z_scope.

(** [HeartbeatMsg::msg_type] *)
Definition Heartbeat_type : Z := 0.

Record PTCPConnection : Type := mkConn {
  q_ : option PTCPQueue;  (* may be mmaped to file *)
  sockfd_ : Z;
  fd_to_close_ : Z;
  close_reason_ : string;
  close_errno_ : Z;
  recvbuf_ : list Z;
  recvbuf_size_ : Z;
  writeidx_ : Z;
  nextmsg_idx_ : Z;
  readidx_ : Z;
  recv_time_ : Z;
  send_time_ : Z;
  now_ : Z;
  hbmsg_ : MsgHeader;
  last_my_ack_ : Z
}.

(** ** Assignments to fields *)
Definition set_q (q : option PTCPQueue) (c : PTCPConnection) : PTCPConnection :=
  mkConn q (sockfd_ c) (fd_to_close_ c) (close_reason_ c) (close_errno_ c) (recvbuf_ c)
    (recvbuf_size_ c) (writeidx_ c) (nextmsg_idx_ c) (readidx_ c) (recv_time_ c) (send_time_ c)
    (now_ c) (hbmsg_ c) (last_my_ack_ c).
Definition set_fds (sock to_close : Z) (c : PTCPConnection) : PTCPConnection :=
  mkConn (q_ c) sock to_close (close_reason_ c) (close_errno_ c) (recvbuf_ c)
    (recvbuf_size_ c) (writeidx_ c) (nextmsg_idx_ c) (readidx_ c) (recv_time_ c) (send_time_ c)
    (now_ c) (hbmsg_ c) (last_my_ack_ c).
Definition set_close (reason : string) (sys_errno : Z) (c : PTCPConnection) : PTCPConnection :=
  mkConn (q_ c) INVALID_TCP_SOCKET (fd_to_close_ c) reason sys_errno (recvbuf_ c)
    (recvbuf_size_ c) (writeidx_ c) (nextmsg_idx_ c) (readidx_ c) (recv_time_ c) (send_time_ c)
    (now_ c) (hbmsg_ c) (last_my_ack_ c).
Definition set_buf (buf : list Z) (sz : Z) (c : PTCPConnection) : PTCPConnection :=
  mkConn (q_ c) (sockfd_ c) (fd_to_close_ c) (close_reason_ c) (close_errno_ c) buf
    sz (writeidx_ c) (nextmsg_idx_ c) (readidx_ c) (recv_time_ c) (send_time_ c)
    (now_ c) (hbmsg_ c) (last_my_ack_ c).
Definition set_idx (w n r : Z) (c : PTCPConnection) : PTCPConnection :=
  mkConn (q_ c) (sockfd_ c) (fd_to_close_ c) (close_reason_ c) (close_errno_ c) (recvbuf_ c)
    (recvbuf_size_ c) w n r (recv_time_ c) (send_time_ c)
    (now_ c) (hbmsg_ c) (last_my_ack_ c).
Definition set_times (recv send now : Z) (c : PTCPConnection) : PTCPConnection :=
  mkConn (q_ c) (sockfd_ c) (fd_to_close_ c) (close_reason_ c) (close_errno_ c) (recvbuf_ c)
    (recvbuf_size_ c) (writeidx_ c) (nextmsg_idx_ c) (readidx_ c) recv send
    now (hbmsg_ c) (last_my_ack_ c).
Definition set_hbmsg (h : MsgHeader) (c : PTCPConnection) : PTCPConnection :=
  mkConn (q_ c) (sockfd_ c) (fd_to_close_ c) (close_reason_ c) (close_errno_ c) (recvbuf_ c)
    (recvbuf_size_ c) (writeidx_ c) (nextmsg_idx_ c) (readidx_ c) (recv_time_ c) (send_time_ c)
    (now_ c) h (last_my_ack_ c).
Definition set_last_my_ack (a : Z) (c : PTCPConnection) : PTCPConnection :=
  mkConn (q_ c) (sockfd_ c) (fd_to_close_ c) (close_reason_ c) (close_errno_ c) (recvbuf_ c)
    (recvbuf_size_ c) (writeidx_ c) (nextmsg_idx_ c) (readidx_ c) (recv_time_ c) (send_time_ c)
    (now_ c) (hbmsg_ c) a.

Section PTCPConnection.
Context {platform : Platform} {conf : Conf} {W : Type} {sockets : Sockets W}.
Implicit Types (c : PTCPConnection) (w : W).

(** The constructor, with the initialisers of the members. *)
Definition PTCPConnection_init : PTCPConnection :=
  mkConn None INVALID_TCP_SOCKET INVALID_TCP_SOCKET "nil" 0 [] 0 0 0 0 0 0 0
    (ConvertByteOrder ToLittleEndian (mkHeader sizeof_MsgHeader Heartbeat_type 0)) 0.

(** [q_->f()] *)
Definition deref c : res PTCPQueue := match q_ c with Some q => Ret q | None => UB end.

Definition IsClosed c : bool := sockfd_ c =? INVALID_TCP_SOCKET.
Definition UseShm c : bool := match q_ c with None => true | Some _ => false end.

Definition Close (reason : string) (sys_errno : Z) c : PTCPConnection :=
  if IsClosed c then c else set_close reason sys_errno c.
Definition RequestClose c : PTCPConnection := Close "Request close" 0 c.

Definition TryCloseFd c w : bool * PTCPConnection * W :=
  if (sockfd_ c =? INVALID_TCP_SOCKET) && negb (fd_to_close_ c =? INVALID_TCP_SOCKET)
  then (true, set_fds (sockfd_ c) INVALID_TCP_SOCKET c, tcp_close (fd_to_close_ c) w)
  else (false, c, w).

Definition GetCloseReason c : string * Z := (close_reason_ c, close_errno_ c).

(** The mapping of the file is [file] (my_mmap), [None] when it fails. *)
Definition OpenFile (file : option PTCPQueue) c : bool * PTCPConnection :=
  match q_ c with
  | Some _ => (true, c)
  | None => match file with
            | None => (false, c)
            | Some q => (true, set_q (Some q) c)
            end
  end.

(** [(local_ack_seq, local_seq_start, local_seq_end)] *)
Definition GetSeq c : res (Z * option (Z * Z)) :=
  q ← deref c;
  r ← SanityCheckAndGetSeq ToLittleEndian q;
  Ret (MyAck q, r).

Definition Reset c : res PTCPConnection :=
  q ← deref c;
  Ret (set_q (Some (zero_queue TcpQueueSize)) c).

(** ** Sending *)

(** How the loop of [SendPending] ends: [size] bytes are left, or a send failed. *)
Inductive send_end : Type :=
| SendLeft (size : Z)
| SendFailed (err : Z).

(** [p .. p+size) = bs]: what is left to send. *)
Fixpoint send_loop (fuel : nat) (fd : Z) (bs : list Z) w : res (send_end * W) :=
  match fuel with
  | O => NoFuel
  | S fuel =>
      let size := zlen bs in
      let '(sent, w) := tcp_send fd bs w in
      if sent <? 0 then
        let err := tcp_get_last_error w in
        if negb (err =? TCP_ERR_AGAIN) || negb (Z.land size 7 =? 0)
        then Ret (SendFailed err, w) else Ret (SendLeft size, w)
      else
        let size := u32 (size - sent) in
        if 0 <? size then send_loop fuel fd (drop (Z.to_nat sent) bs) w
        else Ret (SendLeft size, w)
  end.

(** Every round of the loop but the last sends at least a byte. *)
Definition send_fuel (bs : list Z) : nat := S (length bs).

Definition SendPending c w : res (bool * PTCPConnection * W) :=
  if IsClosed c then Ret (false, c, w)
  else
    q ← deref c;
    let '(p, blk_sz) := GetSendable q in
    if blk_sz =? 0 then Ret (false, c, w)
    else
      blks ← read_at (blk_ q) p blk_sz;
      let bs := blks_bytes blks in
      r ← send_loop (send_fuel bs) (sockfd_ c) bs w;
      match r with
      | (SendFailed err, w) => Ret (false, Close "Send error" err c, w)
      | (SendLeft size, w) =>
          let sent_blk := blk_sz - Z.shiftr size 3 in
          if 0 <? sent_blk then
            Ret (true, set_q (Some (Sendout sent_blk q))
                         (set_times (recv_time_ c) (now_ c) (now_ c) c), w)
          else Ret (true, c, w)
      end.

Definition Alloc (size : Z) c : res (option Z * PTCPConnection) :=
  q ← deref c;
  r ← PTCPQueue.Alloc TcpQueueSize size q;
  let '(q, p) := r in
  Ret (p, set_q (Some q) c).

Definition Push c w : res (PTCPConnection * W) :=
  q ← deref c;
  q ← PTCPQueue.Push ToLittleEndian q;
  r ← SendPending (set_q (Some q) c) w;
  let '(_, c, w) := r in
  Ret (c, w).

Definition PushMore c : res PTCPConnection :=
  q ← deref c;
  q ← PTCPQueue.Push ToLittleEndian q;
  Ret (set_q (Some q) c).

(** The end of [SendHB]: send the heartbeat message itself. *)
Definition SendHB_msg c w : PTCPConnection * W :=
  let '(sent, w) := tcp_send (sockfd_ c) (hdr_bytes native_little (hbmsg_ c)) w in
  if (sent <? 0) && (tcp_get_last_error w =? TCP_ERR_AGAIN) then (c, w)
  else if negb (sent =? sizeof_MsgHeader) then
    (Close "Send error" (if sent <? 0 then tcp_get_last_error w else 0) c, w)
  else (set_times (recv_time_ c) (now_ c) (now_ c) c, w).

Definition SendHB (now : Z) c w : res (PTCPConnection * W) :=
  let c := set_times (recv_time_ c) (send_time_ c) now c in
  if now_ c - send_time_ c <? HeartBeatInverval then Ret (c, w)
  else
    match q_ c with
    | None => Ret (SendHB_msg c w)
    | Some _ =>
        r ← SendPending c w;
        let '(b, c, w) := r in
        if (b : bool) then Ret (c, w)
        else
          q ← deref c;
          let h := mkHeader (size (hbmsg_ c)) (msg_type (hbmsg_ c))
                     (Convert ToLittleEndian 4 (MyAck q)) in
          Ret (SendHB_msg (set_hbmsg h c) w)
    end.

(** ** Receiving *)

Definition stackbuf_size : Z := 65536.

Definition allow_expand c : bool :=
  let writable := u32 (recvbuf_size_ c - writeidx_ c) in
  u32 (u32 (writable + readidx_ c) * 2) <? recvbuf_size_ c.
Definition extra_size c : Z :=
  Z.min stackbuf_size
    (u32 (readidx_ c + (if allow_expand c then u32 (TcpRecvBufMaxSize - recvbuf_size_ c) else 0))).

(** Everything consumed: start over at the front of the buffer. *)
Definition rewind_buf c : PTCPConnection :=
  if (0 <? readidx_ c) && (readidx_ c =? writeidx_ c) then set_idx 0 0 0 c else c.

(** Read into the free tail of the buffer and, if there may be room later,
    into [stackbuf]: [recv] or [readv]. *)
Definition recv_some (writable extra : Z) c w : Z * list Z * W :=
  if extra =? 0 then tcp_recv (sockfd_ c) writable w
  else tcp_readv (sockfd_ c) [writable; extra] w.

(** [ret <= 0]: the connection times out, fails or is closed by the peer. *)
Definition recv_none (ret : Z) c w : PTCPConnection :=
  if ret <? 0 then
    let err := tcp_get_last_error w in
    if err =? TCP_ERR_AGAIN then
      if ConnectionTimeout <? now_ c - recv_time_ c then Close "Timeout" 0 c else c
    else Close "Read error" err c
  else Close "Remote close" 0 c.

(** The size of the expanded buffer. *)
Definition newbufsize (ret : Z) c : Z :=
  Z.min TcpRecvBufMaxSize
    (Z.max (u32 (recvbuf_size_ c * 2))
           (Z.land (u32 (writeidx_ c - readidx_ c + ret + 7)) (u32 (-8)))).

(** Move what is not consumed to the front, in place or to a larger buffer,
    and append the bytes of [stackbuf]. *)
Definition compact (stack : list Z) c : res PTCPConnection :=
  let keep := recvbuf_size_ c - readidx_ c in
  buf ← memmove (recvbuf_ c) 0 (readidx_ c) keep;
  buf ← write_at buf keep stack;
  Ret (set_buf buf (recvbuf_size_ c) c).
Definition expand (ret : Z) (stack : list Z) c : res PTCPConnection :=
  let keep := recvbuf_size_ c - readidx_ c in
  let n := newbufsize ret c in
  old ← read_at (recvbuf_ c) (readidx_ c) keep;
  buf ← write_at (replicate (Z.to_nat n) uninit) 0 old;
  buf ← write_at buf keep stack;
  Ret (set_buf buf n c).

(** Returns the number of bytes read, which the caller adds to [writeidx_]. *)
Definition DoRecv c w : res (Z * PTCPConnection * W) :=
  let c := rewind_buf c in
  let writable := u32 (recvbuf_size_ c - writeidx_ c) in
  let extra := extra_size c in
  if u32 (writable + extra) =? 0 then Ret (0, c, w)
  else
    let '(ret, bs, w) := recv_some writable extra c w in
    if ret <=? 0 then Ret (0, recv_none ret c w, w)
    else
      buf ← write_at (recvbuf_ c) (writeidx_ c) (take (Z.to_nat writable) bs);
      let stack := drop (Z.to_nat writable) bs in
      let c := set_times (now_ c) (send_time_ c) (now_ c) (set_buf buf (recvbuf_size_ c) c) in
      if ret <=? writable then Ret (ret, c, w)
      else
        c ← (if ret <=? u32 (writable + readidx_ c) then compact stack c else expand ret stack c);
        Ret (ret, set_idx (u32 (writeidx_ c - readidx_ c)) (u32 (nextmsg_idx_ c - readidx_ c)) 0 c, w).

(** [(MsgHeader * ) &recvbuf_[idx]], read and converted in place. *)
Definition header_at c (idx : Z) : res MsgHeader :=
  bs ← read_at (recvbuf_ c) idx sizeof_MsgHeader;
  Ret (bytes_hdr native_little bs).
Definition convert_at c (idx : Z) : res PTCPConnection :=
  h ← header_at c idx;
  buf ← write_at (recvbuf_ c) idx (hdr_bytes native_little (ConvertByteOrder ToLittleEndian h));
  Ret (set_buf buf (recvbuf_size_ c) c).

(** [(header->size + 7) & -8] *)
Definition msg_size (h : MsgHeader) : Z := Z.land (size h + 7) (-8).

(** The first loop of [Front]: skip heartbeats; [Some p] is [return header].
    The fuel is the number of bytes between the two indices. *)
Fixpoint skip_loop (fuel : nat) c : res (option Z * PTCPConnection) :=
  match fuel with
  | O => NoFuel
  | S fuel =>
      if nextmsg_idx_ c =? readidx_ c then Ret (None, c)
      else
        h ← header_at c (readidx_ c);
        if msg_type h =? Heartbeat_type then
          skip_loop fuel (set_idx (writeidx_ c) (nextmsg_idx_ c)
                                  (u32 (readidx_ c + sizeof_MsgHeader)) c)
        else
          q ← deref c;
          if last_my_ack_ c =? MyAck q then Ret (None, c)
          else Ret (Some (readidx_ c), set_last_my_ack (MyAck q) c)
  end.

(** The second loop of [Front]: cut the bytes received into messages.
    [true] is the early [return nullptr] after a message that is too large. *)
Fixpoint cut_loop (fuel : nat) (old_writeidx : Z) c : res (bool * PTCPConnection) :=
  match fuel with
  | O => NoFuel
  | S fuel =>
      if u32 (writeidx_ c - nextmsg_idx_ c) <? 8 then Ret (false, c)
      else
        c ← (if old_writeidx - nextmsg_idx_ c <? 8 then convert_at c (nextmsg_idx_ c) else Ret c);
        header ← header_at c (nextmsg_idx_ c);
        q ← deref c;
        q ← PTCPQueue.Ack ToLittleEndian (ack_seq header) q;
        let c := set_q (Some q) c in
        let msg_size := msg_size header in
        if TcpRecvBufMaxSize <? msg_size then
          Ret (true, Close "Msg size larger than recv buf max size" 0 c)
        else if u32 (writeidx_ c - nextmsg_idx_ c) <? msg_size then Ret (false, c)
        else
          let readidx :=
            if (msg_type header =? Heartbeat_type) && (readidx_ c =? nextmsg_idx_ c)
            then u32 (readidx_ c + msg_size) else readidx_ c in
          cut_loop fuel old_writeidx
            (set_idx (writeidx_ c) (u32 (nextmsg_idx_ c + msg_size)) readidx c)
  end.

Definition skip_fuel c : nat := S (Z.to_nat (nextmsg_idx_ c - readidx_ c)).
Definition cut_fuel c : nat := S (Z.to_nat (writeidx_ c - nextmsg_idx_ c)).

(** The pointer returned is an index of [recvbuf_]; [None] is [nullptr]. *)
Definition Front c w : res (option Z * PTCPConnection * W) :=
  if UseShm c then
    r ← DoRecv c w;
    let '(_, c, w) := r in
    Ret (None, c, w)
  else
    r ← skip_loop (skip_fuel c) c;
    match r with
    | (Some p, c) => Ret (Some p, c, w)
    | (None, c) =>
        r ← DoRecv c w;
        let '(len, c, w) := r in
        r ← (if len =? 0 then Ret (false, c)
             else
               let old_writeidx := writeidx_ c in
               let c := set_idx (u32 (writeidx_ c + len)) (nextmsg_idx_ c) (readidx_ c) c in
               cut_loop (cut_fuel c) old_writeidx c);
        let '(too_large, c) := r in
        if too_large : bool then Ret (None, c, w)
        else if negb (readidx_ c =? nextmsg_idx_ c) then Ret (Some (readidx_ c), c, w)
        else Ret (None, c, w)
    end.

Definition Pop c : res PTCPConnection :=
  h ← header_at c (readidx_ c);
  let c := set_idx (writeidx_ c) (nextmsg_idx_ c) (u32 (readidx_ c + msg_size h)) c in
  q ← deref c;
  Ret (set_q (Some (MyAck_incr q)) c).

(** ** Opening and releasing *)

Definition Open (sock_fd remote_ack_seq now : Z) c w : res (PTCPConnection * W) :=
  let c := set_times now now now (set_idx 0 0 0 (set_fds sock_fd sock_fd c)) in
  r ← match q_ c with
      | None => Ret (c, w)
      | Some q =>
          q ← LoginAck ToLittleEndian remote_ack_seq q;
          r ← SendPending (set_q (Some q) c) w;
          let '(_, c, w) := r in
          Ret (c, w)
      end;
  let '(c, w) := r in
  if recvbuf_size_ c =? 0 then
    Ret (set_buf (replicate (Z.to_nat TcpRecvBufInitSize) uninit) TcpRecvBufInitSize c, w)
  else Ret (c, w).

(** [my_munmap] leaves the queue in the file: it is returned. *)
Definition Release c w : option PTCPQueue * PTCPConnection * W :=
  let '(_, c, w) := TryCloseFd (Close "Release" 0 c) w in
  (q_ c, set_q None c, w).
End PTCPConnection.
