(* ===== verification/PTCPRecv.v ===== *)
(** * The receive buffer of a connection

    [DoRecv] reads into the tail of the buffer and, when that is short, into a
    stack buffer, after which it moves the bytes that are not consumed to the
    front of the same or of a larger buffer.  Whatever it does, the bytes that
    were not consumed are followed by the bytes received. *)

From S2P Require Import Prelude Endian MsgHeader PTCPQueue Conf PTCPConn.
Local Open Scope Z_scope.

(** ** The invariant of the buffer *)
Section Buffer.
Context {conf : Conf}.
Implicit Types (c : PTCPConnection) (U bs : list Z).

(** [U] is what was received and not consumed: it lies at [readidx_]. *)
Definition holds c U : Prop :=
  exists A F, recvbuf_ c = A ++ U ++ F /\ zlen A = readidx_ c.

Record buf_ok c : Prop := {
  bo_len : zlen (recvbuf_ c) = recvbuf_size_ c;
  bo_idx : 0 <= readidx_ c <= nextmsg_idx_ c /\ nextmsg_idx_ c <= writeidx_ c;
  bo_max : writeidx_ c <= recvbuf_size_ c <= TcpRecvBufMaxSize;
  bo_bytes : Forall in_byte (recvbuf_ c)
}.

Lemma holds_exists c : buf_ok c ->
  exists U, holds c U /\ zlen U = writeidx_ c - readidx_ c.
Proof.
  intros [L Hi Hm _]. exists (take (Z.to_nat (writeidx_ c - readidx_ c)) (drop (Z.to_nat (readidx_ c)) (recvbuf_ c))).
  split; [|rewrite length_take, length_drop; lia].
  exists (take (Z.to_nat (readidx_ c)) (recvbuf_ c)),
    (drop (Z.to_nat (writeidx_ c - readidx_ c)) (drop (Z.to_nat (readidx_ c)) (recvbuf_ c))).
  rewrite !take_drop. split; [reflexivity|]. rewrite length_take. lia.
Qed.

(** [U] is determined by its length. *)
Lemma holds_inj c U U' : holds c U -> holds c U' -> length U = length U' -> U = U'.
Proof.
  intros (A & F & E & L) (A' & F' & E' & L') Hl. rewrite E in E'.
  apply app_inj_1 in E' as [-> E']; [|lia]. apply app_inj_1 in E' as [-> _]; auto.
Qed.
End Buffer.

(** Bytes of a split buffer. *)
Lemma Forall_app3 {A} (P : A -> Prop) xs ys zs :
  Forall P (xs ++ ys ++ zs) <-> Forall P xs /\ Forall P ys /\ Forall P zs.
Proof. rewrite !Forall_app. reflexivity. Qed.

Lemma write_tail {A} (pre ys xs : list A) i :
  i = zlen pre -> zlen xs <= zlen ys ->
  exists ys', write_at (pre ++ ys) i xs = Ret (pre ++ xs ++ ys')
    /\ zlen ys' = zlen ys - zlen xs
    /\ forall P, Forall P ys -> Forall P ys'.
Proof.
  intros Hi Hl. exists (drop (length xs) ys). split; [|split].
  - rewrite <- (take_drop (length xs) ys) at 1. apply write_at_app; [exact Hi|].
    rewrite length_take. lia.
  - rewrite length_drop. lia.
  - intros P HP. apply Forall_drop. exact HP.
Qed.

Lemma memmove_keep {A} (pre body : list A) r n :
  r = zlen pre -> n = zlen body ->
  exists rest, memmove (pre ++ body) 0 r n = Ret (body ++ rest)
    /\ zlen rest = zlen pre /\ forall P, Forall P (pre ++ body) -> Forall P rest.
Proof.
  intros Hr Hn. destruct (memmove_front pre body [] r n Hr Hn) as (rest & E & L & HP).
  rewrite app_nil_r in *. exists rest. split; [exact E | split; [simpl in L; lia | exact HP]].
Qed.

Section DoRecv.
Context {conf : Conf} {conf_ok : ConfOk conf}.
Context {W : Type} {sockets : Sockets W} {laws : RecvLaws W}.
Implicit Types (c : PTCPConnection) (w : W) (U bs : list Z).

(** *** Moving the unconsumed bytes to the front *)

(** The buffer after the first part of the bytes was read: it is full. *)
Definition full_buf c U b1 : Prop :=
  exists A, recvbuf_ c = A ++ U ++ b1 /\ zlen A = readidx_ c
    /\ zlen (recvbuf_ c) = recvbuf_size_ c /\ Forall in_byte (recvbuf_ c)
    /\ recvbuf_size_ c <= TcpRecvBufMaxSize.

(** What the buffer holds afterwards, at its front. *)
Definition moved c c' U bs : Prop :=
  exists F, recvbuf_ c' = (U ++ bs) ++ F /\ zlen (recvbuf_ c') = recvbuf_size_ c'
    /\ recvbuf_size_ c <= recvbuf_size_ c' <= TcpRecvBufMaxSize
    /\ Forall in_byte (recvbuf_ c')
    /\ exists buf, c' = set_buf buf (recvbuf_size_ c') c.

Lemma compact_spec c U b1 stack :
  full_buf c U b1 -> zlen stack <= readidx_ c -> Forall in_byte stack ->
  exists c', compact stack c = Ret c' /\ moved c c' U (b1 ++ stack).
Proof using Type.
  intros (A & E & LA & L & Hb & Hm) Hs Hst. unfold compact. rewrite E.
  assert (Lk : recvbuf_size_ c - readidx_ c = zlen (U ++ b1)).
  { rewrite <- L, E, !length_app. lia. }
  destruct (memmove_keep A (U ++ b1) (readidx_ c) (recvbuf_size_ c - readidx_ c)) as (rest & -> & Lr & HP);
    [lia | exact Lk |].
  cbn [mbind res_bind].
  destruct (write_tail (U ++ b1) rest stack (recvbuf_size_ c - readidx_ c)) as (rest' & -> & Lr' & HP');
    [exact Lk | lia |].
  cbn [mbind res_bind]. eexists. split; [reflexivity|]. exists rest'.
  cbn [recvbuf_ recvbuf_size_ set_buf].
  assert (Hrest : Forall in_byte rest) by (apply HP; rewrite <- E; exact Hb).
  rewrite E, !Forall_app in Hb. split; [rewrite <- !app_assoc; reflexivity|].
  split; [|split; [lia | split; [|eexists; reflexivity]]].
  - rewrite <- L, E. rewrite !length_app in *. lia.
  - rewrite !Forall_app. intuition.
Qed.

(** The expanded buffer is large enough, and no larger than the limit. *)
Lemma newbufsize_ok ret c :
  0 <= readidx_ c <= writeidx_ c -> writeidx_ c <= recvbuf_size_ c <= TcpRecvBufMaxSize ->
  0 < ret -> writeidx_ c - readidx_ c + ret <= TcpRecvBufMaxSize ->
  writeidx_ c - readidx_ c + ret <= newbufsize ret c <= TcpRecvBufMaxSize
  /\ recvbuf_size_ c <= newbufsize ret c.
Proof using conf_ok.
  intros Hi Hm Hr Hle. destruct conf_recv as [Hi0 Hmax].
  unfold newbufsize. rewrite (u32_id (recvbuf_size_ c * 2)) by word_lia.
  rewrite (u32_id (_ + 7)) by word_lia.
  set (x := writeidx_ c - readidx_ c + ret + 7) in *.
  assert (El : Z.land x (u32 (-8)) = 8 * (x / 8)).
  { replace (u32 (-8)) with (Z.ldiff (Z.ones 32) (Z.ones 3)) by reflexivity.
    rewrite Z.ldiff_land, Z.land_assoc, Z.land_ones, <- Z.ldiff_land by lia.
    rewrite Z.mod_small by (unfold x; lia). rewrite Z.ldiff_ones_r by lia.
    rewrite Z.shiftr_div_pow2, Z.shiftl_mul_pow2 by lia. change (2 ^ 3) with 8. ring. }
  rewrite El. unfold x. clear El x. Z.div_mod_to_equations. lia.
Qed.

Lemma expand_spec c U b1 ret stack :
  full_buf c U b1 -> 0 <= readidx_ c -> writeidx_ c = readidx_ c + zlen U ->
  ret = zlen (b1 ++ stack) -> 0 < ret -> zlen U + ret <= TcpRecvBufMaxSize ->
  Forall in_byte stack ->
  exists c', expand ret stack c = Ret c' /\ moved c c' U (b1 ++ stack).
Proof using conf_ok laws.
  intros (A & E & LA & L & Hb & Hm) Hr0 Hw Hret Hpos Hle Hst. unfold expand.
  assert (Lk : recvbuf_size_ c - readidx_ c = zlen (U ++ b1)).
  { rewrite <- L, E, !length_app. lia. }
  assert (Hsz : zlen A + zlen U + zlen b1 = recvbuf_size_ c).
  { rewrite <- L, E, !length_app. lia. }
  destruct (newbufsize_ok ret c) as [[Hn1 Hn2] Hn3]; try lia.
  rewrite E, <- (app_nil_r (U ++ b1)).
  rewrite (read_at_app A (U ++ b1) []) by (rewrite ?app_nil_r; lia). cbn [mbind res_bind].
  set (n := newbufsize ret c) in *.
  rewrite length_app in Hret.
  destruct (write_tail [] (replicate (Z.to_nat n) uninit) (U ++ b1) 0) as (f1 & Ew & Lf1 & HP1);
    [reflexivity | rewrite length_replicate, length_app; lia |].
  cbn [app] in Ew. rewrite Ew. cbn [mbind res_bind]. rewrite length_replicate in Lf1.
  destruct (write_tail (U ++ b1) f1 stack (recvbuf_size_ c - readidx_ c)) as (f2 & -> & Lf2 & HP2);
    [exact Lk | rewrite length_app in *; lia |].
  cbn [mbind res_bind]. eexists. split; [reflexivity|]. exists f2.
  cbn [recvbuf_ recvbuf_size_ set_buf]. rewrite E, !Forall_app in Hb.
  split; [rewrite <- !app_assoc; reflexivity|].
  split; [rewrite !length_app in *; lia | split; [lia | split; [|eexists; reflexivity]]].
  rewrite !Forall_app. repeat split; try tauto. apply HP2, HP1, Forall_replicate, uninit_law.
Qed.

(** *** One call of [DoRecv] *)

(** [c'] is [c] after [bs] was received; the caller still has to add its
    length to [writeidx_]. *)
Record received c c' U bs : Prop := {
  rcv_ok : buf_ok c';
  rcv_holds : holds c' (U ++ bs);
  rcv_len : writeidx_ c' - readidx_ c' = zlen U;
  rcv_next : nextmsg_idx_ c' - readidx_ c' = nextmsg_idx_ c - readidx_ c;
  rcv_room : writeidx_ c' + zlen bs <= recvbuf_size_ c'
}.

(** The fields that receiving leaves alone; the socket may get closed. *)
Definition same_queue c c' : Prop :=
  q_ c' = q_ c /\ last_my_ack_ c' = last_my_ack_ c /\ hbmsg_ c' = hbmsg_ c
  /\ (sockfd_ c' = sockfd_ c \/ IsClosed c' = true).

Lemma Close_same reason e c :
  let c' := Close reason e c in
  recvbuf_ c' = recvbuf_ c /\ recvbuf_size_ c' = recvbuf_size_ c /\ writeidx_ c' = writeidx_ c
  /\ nextmsg_idx_ c' = nextmsg_idx_ c /\ readidx_ c' = readidx_ c
  /\ same_queue c c' /\ IsClosed c' = true.
Proof using Type.
  unfold Close, same_queue, IsClosed. destruct (sockfd_ c =? INVALID_TCP_SOCKET) eqn:E; simpl; tauto.
Qed.

Lemma rewind_buf_spec c U :
  buf_ok c -> holds c U -> zlen U = writeidx_ c - readidx_ c ->
  received c (rewind_buf c) U [] /\ same_queue c (rewind_buf c)
  /\ sockfd_ (rewind_buf c) = sockfd_ c.
Proof using Type.
  intros Hok (A & F & E & LA) HU. unfold rewind_buf. destruct (_ && _) eqn:B.
  - assert (U = []) as -> by (destruct U; [reflexivity | simpl in HU; lia]).
    split; [|split; [repeat split; tauto | reflexivity]]. destruct Hok as [L Hi Hm Hb]. split; simpl in *; try lia.
    + split; simpl; try assumption; lia.
    + exists [], (recvbuf_ c). split; reflexivity.
  - split; [|split; [repeat split; tauto | reflexivity]].
    split; simpl; try lia; [assumption | | destruct Hok; lia].
    rewrite app_nil_r. exists A, F. tauto.
Qed.

(** What [DoRecv] asks the socket for. *)
Lemma request_bounds c : buf_ok c ->
  u32 (recvbuf_size_ c - writeidx_ c) = recvbuf_size_ c - writeidx_ c
  /\ 0 <= extra_size c <= readidx_ c + (TcpRecvBufMaxSize - recvbuf_size_ c).
Proof using conf_ok.
  intros [L Hi Hm _]. pose proof conf_recv as [_ Hmax].
  assert (Hw : u32 (recvbuf_size_ c - writeidx_ c) = recvbuf_size_ c - writeidx_ c)
    by (apply u32_id; word_lia).
  split; [exact Hw|]. unfold extra_size, stackbuf_size.
  destruct (allow_expand c); rewrite ?(u32_id (_ - _)) by word_lia;
    rewrite u32_id by word_lia; lia.
Qed.

Lemma recv_some_spec c w writable extra ret bs w' fd :
  0 <= writable -> 0 <= extra -> (sockfd_ c = fd \/ IsClosed c = true) ->
  recv_some writable extra c w = (ret, bs, w') ->
  -1 <= ret <= writable + extra /\ Forall in_byte bs
  /\ zlen bs = Z.max 0 ret /\ inbox fd w = bs ++ inbox fd w'
  /\ (0 < ret -> sockfd_ c = fd).
Proof using Type.
  intros Hw He Hfd. unfold recv_some, IsClosed in *.
  destruct Hfd as [<-|Hcl].
  - case_test; intros H.
    + apply recv_law in H as (H1 & H2 & H3 & H4); [|assumption]. repeat split; auto; lia.
    + apply readv_law in H as (H1 & H2 & H3 & H4); [|repeat constructor; assumption].
      simpl in H1. repeat split; auto; lia.
  - apply Z.eqb_eq in Hcl. rewrite Hcl. case_test; intros H; pose proof H as H0.
    + apply recv_closed in H as [-> HI]. apply recv_law in H0 as (H1 & H2 & H3 & H4); [|assumption].
      assert (bs = []) as -> by (destruct bs; [reflexivity | simpl in H3; lia]).
      repeat split; auto; try lia. simpl. symmetry. apply HI.
    + apply readv_closed in H as [-> HI].
      apply readv_law in H0 as (H1 & H2 & H3 & H4); [|repeat constructor; assumption].
      assert (bs = []) as -> by (destruct bs; [reflexivity | simpl in H3; lia]).
      repeat split; auto; try lia. simpl. symmetry. apply HI.
Qed.

Lemma recv_none_spec ret c w U :
  received c c U [] ->
  received c (recv_none ret c w) U [] /\ same_queue c (recv_none ret c w).
Proof using Type.
  assert (Hkeep : forall c', (c' = c \/ exists r e, c' = Close r e c) -> received c c U [] ->
            received c c' U [] /\ same_queue c c').
  { intros c' [->|(r & e & ->)] H; [split; [exact H | repeat split; tauto]|].
    destruct (Close_same r e c) as (E1 & E2 & E3 & E4 & E5 & E6 & _). split; [|exact E6].
    destruct H as [[L Hi Hm Hb] (A & F & E & LA) Hl Hn Hr].
    split; rewrite ?E1, ?E2, ?E3, ?E4, ?E5; auto.
    - split; rewrite ?E1, ?E2, ?E3, ?E4, ?E5; auto.
    - exists A, F. rewrite E1, E5. tauto. }
  intros H. apply Hkeep; [|exact H]. unfold recv_none. repeat case_test; eauto.
Qed.

(** The bytes fit behind the others. *)
Lemma store_fits c U bs now' recv' :
  received c c U [] -> Forall in_byte bs -> writeidx_ c + zlen bs <= recvbuf_size_ c ->
  exists buf, write_at (recvbuf_ c) (writeidx_ c) bs = Ret buf
    /\ received c (set_times recv' (send_time_ c) now' (set_buf buf (recvbuf_size_ c) c)) U bs.
Proof using Type.
  intros [[L Hi Hm Hb] (A & F & E & LA) Hl Hn Hr] Hbs Hfit. rewrite app_nil_r in E.
  assert (HLF : zlen F = recvbuf_size_ c - writeidx_ c) by (rewrite <- L, E, !length_app; lia).
  assert (HF : Forall in_byte A /\ Forall in_byte U /\ Forall in_byte F)
    by (rewrite E, Forall_app3 in Hb; exact Hb).
  destruct (write_tail (A ++ U) F bs (writeidx_ c)) as (F' & Ew & LF' & HP);
    [rewrite length_app; lia | lia |].
  rewrite <- app_assoc in Ew. rewrite <- E in Ew. eexists. split; [exact Ew|].
  split; simpl; try lia.
  - split; simpl; try lia.
    + rewrite !length_app in *. lia.
    + rewrite !Forall_app. intuition.
  - exists A, F'. split; [rewrite <- !app_assoc; reflexivity | exact LA].
Qed.

(** They do not: the first of them fill the buffer, the others are in [stackbuf]. *)
Lemma store_moves c U bs b1 stack now' recv' :
  received c c U [] -> Forall in_byte bs -> bs = b1 ++ stack ->
  zlen b1 = recvbuf_size_ c - writeidx_ c -> 0 < zlen stack ->
  zlen U + zlen bs <= TcpRecvBufMaxSize ->
  exists buf c', write_at (recvbuf_ c) (writeidx_ c) b1 = Ret buf
    /\ (let c1 := set_times recv' (send_time_ c) now' (set_buf buf (recvbuf_size_ c) c) in
        (if zlen bs <=? recvbuf_size_ c - writeidx_ c + readidx_ c then compact stack c1
         else expand (zlen bs) stack c1) = Ret c')
    /\ received c (set_idx (u32 (writeidx_ c' - readidx_ c')) (u32 (nextmsg_idx_ c' - readidx_ c')) 0 c') U bs
    /\ same_queue c c' /\ sockfd_ c' = sockfd_ c.
Proof using conf_ok laws.
  intros [[L Hi Hm Hb] (A & F & E & LA) Hl Hn Hr] Hbs -> Hb1 Hst Hmax. rewrite app_nil_r in E.
  pose proof conf_recv as [_ HM]. rewrite length_app in Hmax.
  assert (HLF : zlen F = recvbuf_size_ c - writeidx_ c) by (rewrite <- L, E, !length_app; lia).
  rewrite E, !Forall_app in Hb. rewrite Forall_app in Hbs.
  assert (Ew : write_at (recvbuf_ c) (writeidx_ c) b1 = Ret (A ++ U ++ b1)).
  { destruct (write_tail (A ++ U) F b1 (writeidx_ c)) as (F' & Ew & LF' & _);
      [rewrite length_app; lia | lia |].
    destruct F'; [|simpl in LF'; lia]. rewrite app_nil_r, <- !app_assoc, <- E in Ew. exact Ew. }
  set (c1 := set_times recv' (send_time_ c) now' (set_buf (A ++ U ++ b1) (recvbuf_size_ c) c)).
  assert (Hfull : full_buf c1 U b1).
  { exists A. subst c1. simpl. rewrite !length_app, !Forall_app in *. intuition lia. }
  assert (exists c', (if zlen (b1 ++ stack) <=? recvbuf_size_ c - writeidx_ c + readidx_ c
            then compact stack c1 else expand (zlen (b1 ++ stack)) stack c1) = Ret c'
            /\ moved c1 c' U (b1 ++ stack)) as (c' & Ec & Hmv).
  { rewrite length_app. case_test.
    - apply compact_spec; [exact Hfull | subst c1; simpl; lia | tauto].
    - apply expand_spec; try (subst c1; simpl; lia); [exact Hfull | rewrite length_app; lia | tauto]. }
  exists (A ++ U ++ b1), c'. split; [exact Ew | split; [exact Ec|]].
  destruct Hmv as (F' & E' & L' & Hs' & Hb' & buf' & Ec').
  assert (Eidx : writeidx_ c' = writeidx_ c /\ nextmsg_idx_ c' = nextmsg_idx_ c
                 /\ readidx_ c' = readidx_ c /\ q_ c' = q_ c /\ last_my_ack_ c' = last_my_ack_ c
                 /\ hbmsg_ c' = hbmsg_ c /\ sockfd_ c' = sockfd_ c)
    by (rewrite Ec'; repeat split).
  destruct Eidx as (E1 & E2 & E3 & E4 & E5 & E6 & E7).
  change (recvbuf_size_ c1) with (recvbuf_size_ c) in Hs'.
  pose proof (f_equal length E') as EL. rewrite !length_app in EL.
  split; [|split; [split; auto | assumption]].
  rewrite E1, E2, E3, !u32_id by word_lia.
  split; simpl; try lia.
  - split; simpl; try lia. assumption.
  - exists [], F'. split; [exact E' | reflexivity].
  - rewrite length_app. lia.
Qed.

Lemma DoRecv_spec c w U fd :
  buf_ok c -> holds c U -> zlen U = writeidx_ c - readidx_ c ->
  (sockfd_ c = fd \/ IsClosed c = true) ->
  exists bs c' w', DoRecv c w = Ret (zlen bs, c', w')
    /\ received c c' U bs /\ inbox fd w = bs ++ inbox fd w'
    /\ same_queue c c' /\ (0 < zlen bs -> sockfd_ c' = fd).
Proof using conf_ok laws.
  intros Hok HU HlU Hfd. unfold DoRecv.
  destruct (rewind_buf_spec c U Hok HU HlU) as (Hrc & Hsq & Hsock).
  set (c0 := rewind_buf c) in *.
  assert (Hr0 : received c0 c0 U []) by (destruct Hrc; split; auto).
  assert (Hgoal : forall bs c' (w' : W), received c0 c' U bs -> same_queue c0 c' ->
            received c c' U bs /\ same_queue c c').
  { intros bs c' w' [H1 H2 H3 H4 H5] (S1 & S2 & S3 & S4). destruct Hrc as [_ _ _ N _].
    split; [split; auto; lia|]. destruct Hsq as (T1 & T2 & T3 & _).
    repeat split; try congruence; rewrite <- Hsock; exact S4. }
  assert (Hfd0 : sockfd_ c0 = fd \/ IsClosed c0 = true) by (unfold IsClosed in *; rewrite Hsock; exact Hfd).
  destruct (request_bounds c0 (rcv_ok _ _ _ _ Hr0)) as [Ewr Hex]. rewrite Ewr.
  pose proof conf_recv as [_ HM]. pose proof Hr0 as [[L Hi Hm Hb] _ Hl Hn _].
  rewrite (u32_id (_ + _)) by word_lia.
  destruct (Z.eqb_spec (recvbuf_size_ c0 - writeidx_ c0 + extra_size c0) 0) as [E0|N0].
  { exists [], c0, w. split; [reflexivity|].
    split; [exact Hrc | split; [reflexivity | split; [exact Hsq | simpl; lia]]]. }
  destruct (recv_some _ _ c0 w) as [[ret bs] w'] eqn:ER.
  apply (recv_some_spec _ _ _ _ _ _ _ fd) in ER as (Hret & Hbs & Lbs & HI & Hlive); [|lia|lia|exact Hfd0].
  case_test.
  { assert (bs = []) as -> by (destruct bs; [reflexivity | simpl in Lbs; lia]).
    destruct (recv_none_spec ret c0 w' U Hr0) as [H1 H2].
    exists [], (recv_none ret c0 w'), w'. split; [reflexivity|].
    destruct (Hgoal [] _ w' H1 H2) as [G1 G2].
    split; [exact G1 | split; [exact HI | split; [exact G2 | simpl; lia]]]. }
  assert (ret = zlen bs) as -> by lia.
  case_test.
  - rewrite take_ge by lia.
    destruct (store_fits c0 U bs (now_ c0) (now_ c0) Hr0 Hbs) as (buf & -> & H1); [lia|].
    cbn [mbind res_bind]. eexists bs, _, w'. split; [reflexivity|].
    destruct (Hgoal bs _ w' H1) as [G1 G2]; [repeat split; tauto|].
    split; [exact G1 | split; [exact HI | split; [exact G2 | simpl; intros; apply Hlive; lia]]].
  - destruct (store_moves c0 U bs (take (Z.to_nat (recvbuf_size_ c0 - writeidx_ c0)) bs)
                (drop (Z.to_nat (recvbuf_size_ c0 - writeidx_ c0)) bs) (now_ c0) (now_ c0)
                Hr0 Hbs) as (buf & c' & Ew & Ec & H1 & H2 & H3);
      rewrite ?take_drop, ?length_take, ?length_drop; try lia; [reflexivity|].
    rewrite Ew. cbn [mbind res_bind]. cbn [readidx_ recvbuf_size_ set_times set_buf] in *.
    rewrite (u32_id (recvbuf_size_ c0 - writeidx_ c0 + readidx_ c0)) by word_lia.
    cbv zeta in Ec. rewrite Ec. cbn [mbind res_bind].
    eexists bs, _, w'. split; [reflexivity|].
    destruct (Hgoal bs _ w' H1) as [G1 G2]; [exact H2|].
    split; [exact G1 | split; [exact HI | split; [exact G2 | simpl; intros; rewrite H3; apply Hlive; lia]]].
Qed.
End DoRecv.
