(* ===== verification/PTCPFraming.v ===== *)
(** * Frames in the byte stream of a connection

    The peer sends messages one after the other, each a header in wire order and
    a body padded to 8 bytes.  The socket delivers the bytes in pieces of any
    length; [Front] cuts them back into messages, converting each header in place
    once its 8 bytes are there.  The theorems say that the user sees the messages
    the peer sent, in order, whole, without the heartbeats, however the stream is
    cut into pieces. *)

From S2P Require Import Prelude Endian MsgHeader PTCPQueue Conf PTCPConn PTCPRecv.
Local Open Scope Z_scope.

(** ** Messages on the wire and in the buffer *)

(** A message with its header in host order. *)
Record frame : Type := mkFrame { fhdr : MsgHeader; fbody : list Z }.

(** [msg_size] of a message is its size rounded up to blocks. *)
Lemma msg_size_blocks h : msg_size h = 8 * blocks sizeof_MsgHeader (size h).
Proof.
  unfold msg_size, blocks, sizeof_MsgHeader.
  replace (-8) with (Z.lnot (Z.ones 3)) by reflexivity.
  rewrite <- Z.ldiff_land, Z.ldiff_ones_r, Z.shiftr_div_pow2, Z.shiftl_mul_pow2 by lia.
  change (2 ^ 3) with 8. replace (size h + 8 - 1) with (size h + 7) by lia. lia.
Qed.

Lemma msg_size_bounds h : size h <= msg_size h < size h + 8.
Proof.
  rewrite msg_size_blocks. pose proof (blocks_bounds 8 (size h)). unfold sizeof_MsgHeader. lia.
Qed.

Section Frames.
Context {platform : Platform} {conf : Conf}.
Implicit Types (f : frame) (fs : list frame) (t : list Z).

Definition fsize f : Z := msg_size (fhdr f).
Definition is_hb f : bool := msg_type (fhdr f) =? Heartbeat_type.

(** What a peer that follows the protocol sends. *)
Definition frame_ok f : Prop :=
  hdr_ok (fhdr f) /\ Forall in_byte (fbody f) /\ zlen (fbody f) = fsize f - 8
  /\ 8 <= size (fhdr f) /\ fsize f <= TcpRecvBufMaxSize
  /\ (is_hb f = true -> size (fhdr f) = 8).

(** Its bytes on the wire, and in the buffer once the header is converted. *)
Definition raw f : list Z :=
  hdr_bytes native_little (ConvertByteOrder ToLittleEndian (fhdr f)) ++ fbody f.
Definition img f : list Z := hdr_bytes native_little (fhdr f) ++ fbody f.
Definition raws fs : list Z := flat_map raw fs.
Definition imgs fs : list Z := flat_map img fs.

(** The header at the front of bytes of the wire, and the bytes in the buffer:
    the header is converted as soon as it is complete. *)
Definition header_of t : MsgHeader :=
  ConvertByteOrder ToLittleEndian (bytes_hdr native_little (take 8 t)).
Definition conv t : list Z :=
  if zlen t <? 8 then t else hdr_bytes native_little (header_of t) ++ drop 8 t.
(** Not yet a whole message. *)
Definition partial t : Prop := zlen t < 8 \/ zlen t < msg_size (header_of t).

(** The user does not see heartbeats: those in front are skipped. *)
Fixpoint strip fs : list frame :=
  match fs with
  | [] => []
  | f :: fs' => if is_hb f then strip fs' else fs
  end.
Definition visible fs : list frame := List.filter (fun f => negb (is_hb f)) fs.

(** The acknowledgements messages carry, applied to the queue. *)
Fixpoint ack_all fs (q : PTCPQueue) : res PTCPQueue :=
  match fs with
  | [] => Ret q
  | f :: fs => q ← Ack ToLittleEndian (ack_seq (fhdr f)) q; ack_all fs q
  end.

(** *** Basic facts *)
Lemma fsize_pos f : frame_ok f -> 8 <= fsize f < 2 ^ 17.
Proof using Type.
  intros ([Hs _] & _ & _ & H8 & _). pose proof (msg_size_bounds (fhdr f)). unfold fsize. word_lia.
Qed.
Lemma zlen_raw f : frame_ok f -> zlen (raw f) = fsize f.
Proof using Type. intros (_ & _ & L & _). unfold raw. rewrite length_app, length_hdr_bytes. lia. Qed.
Lemma zlen_img f : frame_ok f -> zlen (img f) = fsize f.
Proof using Type. intros (_ & _ & L & _). unfold img. rewrite length_app, length_hdr_bytes. lia. Qed.
Lemma raw_bytes f : frame_ok f -> Forall in_byte (raw f).
Proof using Type. intros (_ & Hb & _). unfold raw. rewrite Forall_app. auto using hdr_bytes_in_byte. Qed.

Lemma imgs_app xs ys : imgs (xs ++ ys) = imgs xs ++ imgs ys.
Proof using Type. apply flat_map_app. Qed.
Lemma imgs_cons f fs : imgs (f :: fs) = img f ++ imgs fs.
Proof using Type. reflexivity. Qed.
Lemma imgs_length fs : Forall frame_ok fs -> zlen fs <= zlen (imgs fs).
Proof using Type.
  induction 1 as [|f l Hf _ IH]; [simpl; lia|]. rewrite imgs_cons, length_app. cbn [length].
  pose proof (zlen_img f Hf). pose proof (fsize_pos f Hf). lia.
Qed.
Lemma imgs_one f : imgs [f] = img f.
Proof using Type. apply app_nil_r. Qed.
Lemma imgs_nil fs : Forall frame_ok fs -> zlen (imgs fs) = 0 -> fs = [].
Proof using Type.
  intros H L. destruct H as [|f fs Hf _]; [reflexivity|]. cbn [imgs flat_map] in L.
  pose proof (zlen_img f Hf). pose proof (fsize_pos f Hf). unfold imgs in L. cbn [flat_map] in L.
  rewrite length_app in L. lia.
Qed.

Lemma header_of_raw f r : frame_ok f -> header_of (raw f ++ r) = fhdr f.
Proof using Type.
  intros (Hh & _). unfold header_of, raw. rewrite <- app_assoc.
  rewrite (take_app_length' _ _ 8) by (rewrite length_hdr_bytes; reflexivity).
  rewrite <- (app_nil_r (hdr_bytes _ _)), bytes_hdr_bytes by auto with bounds.
  apply ConvertByteOrder_involutive. exact Hh.
Qed.
Lemma header_of_app t bs : 8 <= zlen t -> header_of (t ++ bs) = header_of t.
Proof using Type. intros. unfold header_of. rewrite take_app_le by lia. reflexivity. Qed.
Lemma header_of_ok t : Forall in_byte t -> 8 <= zlen t -> hdr_ok (header_of t).
Proof using Type.
  intros Hb L. apply ConvertByteOrder_ok, bytes_hdr_ok; [apply Forall_take; exact Hb|].
  rewrite length_take. lia.
Qed.

Lemma conv_short t : zlen t < 8 -> conv t = t.
Proof using Type. intros. unfold conv. case_test; [reflexivity | lia]. Qed.
Lemma conv_app t bs : 8 <= zlen t -> conv (t ++ bs) = conv t ++ bs.
Proof using Type.
  intros. unfold conv. rewrite length_app. repeat case_test; try lia.
  rewrite header_of_app, drop_app_le, app_assoc by lia. reflexivity.
Qed.
Lemma conv_raw f r : frame_ok f -> conv (raw f ++ r) = img f ++ r.
Proof using Type.
  intros Hf. pose proof (fsize_pos f Hf). unfold conv. rewrite length_app. pose proof (zlen_raw f Hf).
  case_test; [lia|]. rewrite header_of_raw by exact Hf. unfold raw, img. rewrite <- !app_assoc. f_equal.
  apply drop_app_length'. rewrite length_hdr_bytes. reflexivity.
Qed.
Lemma length_conv t : length (conv t) = length t.
Proof using Type.
  unfold conv. case_test; [reflexivity|]. rewrite length_app, length_hdr_bytes, length_drop. lia.
Qed.
Lemma conv_bytes t : Forall in_byte t -> Forall in_byte (conv t).
Proof using Type.
  intros H. unfold conv. case_test; [exact H|]. rewrite Forall_app.
  split; [apply hdr_bytes_in_byte | apply Forall_drop; exact H].
Qed.
Lemma conv_header t : Forall in_byte t -> 8 <= zlen t ->
  bytes_hdr native_little (take 8 (conv t)) = header_of t.
Proof using Type.
  intros Hb L. unfold conv. case_test; [lia|].
  rewrite (take_app_length' _ _ 8) by (rewrite length_hdr_bytes; reflexivity).
  rewrite <- (app_nil_r (hdr_bytes _ _)). apply bytes_hdr_bytes, header_of_ok; assumption.
Qed.

(** The bytes of a stream begin with those of its first message. *)
Lemma first_frame f t fut rest :
  frame_ok f -> t ++ fut = raw f ++ rest ->
  (8 <= zlen t -> header_of t = fhdr f)
  /\ (fsize f <= zlen t -> exists t', t = raw f ++ t' /\ t' ++ fut = rest).
Proof using Type.
  intros Hf E. pose proof (fsize_pos f Hf). pose proof (zlen_raw f Hf) as LR. split.
  - intros H8. rewrite <- (header_of_raw f rest Hf), <- E. symmetry. apply header_of_app. exact H8.
  - intros Hs. exists (drop (length (raw f)) t). split.
    + rewrite <- (take_drop (length (raw f)) t) at 1. f_equal.
      apply (f_equal (take (length (raw f)))) in E. rewrite take_app_le in E by lia.
      rewrite E, take_app_length. reflexivity.
    + apply (f_equal (drop (length (raw f)))) in E. rewrite drop_app_le in E by lia.
      rewrite E, drop_app_length. reflexivity.
Qed.
Lemma raws_cons f fs : raws (f :: fs) = raw f ++ raws fs.
Proof using Type. reflexivity. Qed.

(** Some messages, and bytes after them, the first of which are [t]: of a message
    whose header is in [t] the rest is missing. *)
Definition gap t (coming : list frame) : Prop :=
  zlen t < 8 \/ exists f rest, coming = f :: rest /\ zlen t < fsize f.

Lemma partial_gap t fut coming :
  t ++ fut = raws coming -> Forall frame_ok coming -> partial t <-> gap t coming.
Proof using Type.
  intros E HF. destruct (Z.le_gt_cases 8 (zlen t)) as [H8|H8]; [|split; intros _; left; exact H8].
  destruct HF as [|f rest Hf _].
  { apply app_nil in E as [-> _]. simpl in H8. lia. }
  destruct (first_frame f t fut (raws rest) Hf E) as [Hh _]. specialize (Hh H8).
  unfold partial, gap. rewrite Hh. fold (fsize f).
  split; (intros [?|H]; [lia|]); [eauto|]. destruct H as (f' & r' & [= <- <-] & H). auto.
Qed.

(** What follows the messages of the peer: a header that announces a message too
    large for any buffer, whatever comes after it; or nothing. *)
Definition oversize t : Prop :=
  8 <= zlen t /\ Forall in_byte t /\ TcpRecvBufMaxSize < msg_size (header_of t).

Lemma raws_bytes fs : Forall frame_ok fs -> Forall in_byte (raws fs).
Proof using Type.
  induction 1 as [|f fs Hf _ IH]; [constructor|]. unfold raws. cbn [flat_map]. rewrite Forall_app.
  auto using raw_bytes.
Qed.

Lemma strip_strip_app xs ys : strip (strip xs ++ ys) = strip (xs ++ ys).
Proof using Type.
  induction xs as [|x xs IH]; [reflexivity|]. simpl. destruct (is_hb x) eqn:E; [exact IH|].
  simpl. rewrite E. reflexivity.
Qed.
Lemma strip_idem xs : strip (strip xs) = strip xs.
Proof using Type. pose proof (strip_strip_app xs []) as H. rewrite !app_nil_r in H. exact H. Qed.
Lemma strip_head fs f fs' : strip fs = f :: fs' -> is_hb f = false.
Proof using Type.
  induction fs as [|g fs IH]; simpl; [discriminate|].
  destruct (is_hb g) eqn:E; [exact IH | congruence].
Qed.
Lemma strip_ok fs : Forall frame_ok fs -> Forall frame_ok (strip fs).
Proof using Type.
  induction 1 as [|f fs Hf H IH]; [constructor|]. simpl. destruct (is_hb f); [exact IH|].
  constructor; assumption.
Qed.
Lemma visible_strip fs : visible (strip fs) = visible fs.
Proof using Type.
  unfold visible. induction fs as [|f fs IH]; [reflexivity|]. simpl.
  destruct (is_hb f) eqn:E; simpl; [exact IH | rewrite E; reflexivity].
Qed.
Lemma visible_app xs ys : visible (xs ++ ys) = visible xs ++ visible ys.
Proof using Type. apply List.filter_app. Qed.

(** *** Acknowledgements *)

(** A message whose header was read twice acknowledges nothing new. *)
Lemma Ack_loop_end fuel s q q' : Ack_loop ToLittleEndian fuel s q = Ret q' -> read_seq_num_ q' = s.
Proof using Type.
  revert q. induction fuel as [|fuel IH]; intros q H; [discriminate H|]. cbn [Ack_loop] in H.
  apply bind_Ret in H as (h & _ & H). cbn [read_seq_num_] in H.
  destruct (Z.eqb_spec (u32 (read_seq_num_ q + 1)) s) as [E|]; [|exact (IH _ H)].
  injection H as <-. exact E.
Qed.
Lemma Ack_twice s q q' : Ack ToLittleEndian s q = Ret q' -> Ack ToLittleEndian s q' = Ret q'.
Proof using Type.
  unfold Ack at 1. destruct (s32 (u32 (s - read_seq_num_ q)) <=? 0) eqn:E.
  - intros [= <-]. unfold Ack. rewrite E. reflexivity.
  - intros H. apply bind_Ret in H as (q1 & HL & H). apply Ack_loop_end in HL.
    assert (Hs : read_seq_num_ q' = s) by (destruct (_ =? _); injection H as <-; exact HL).
    unfold Ack. rewrite Hs, Z.sub_diag. reflexivity.
Qed.
Lemma ack_all_twice f rest q q1 qN :
  Ack ToLittleEndian (ack_seq (fhdr f)) q = Ret q1 -> ack_all (f :: rest) q = Ret qN ->
  ack_all (f :: rest) q1 = Ret qN /\ ack_all rest q1 = Ret qN.
Proof using Type.
  intros H HA. cbn [ack_all] in *. rewrite H in HA. rewrite (Ack_twice _ _ _ H).
  cbn [mbind res_bind] in *. auto.
Qed.

(** Acknowledging and consuming do not interfere. *)
Lemma Ack_loop_MyAck fuel s q :
  Ack_loop ToLittleEndian fuel s (MyAck_incr q)
  = (q ← Ack_loop ToLittleEndian fuel s q; Ret (MyAck_incr q)).
Proof using Type.
  revert q. induction fuel as [|fuel IH]; intros q; [reflexivity|]. cbn [Ack_loop].
  cbn [MyAck_incr blk_ read_idx_ write_idx_ send_idx_ read_seq_num_ ack_seq_num_].
  destruct (ld _ _) as [h| |]; try reflexivity. cbn [mbind res_bind].
  case_test; [reflexivity|]. rewrite <- IH. reflexivity.
Qed.
Lemma Ack_MyAck s q :
  Ack ToLittleEndian s (MyAck_incr q) = (q ← Ack ToLittleEndian s q; Ret (MyAck_incr q)).
Proof using Type.
  unfold Ack, Ack_fuel. change (read_seq_num_ (MyAck_incr q)) with (read_seq_num_ q).
  case_test; [reflexivity|]. rewrite Ack_loop_MyAck.
  destruct (Ack_loop _ _ _ _) as [q1| |]; try reflexivity. cbn.
  case_test; reflexivity.
Qed.
Lemma ack_all_MyAck fs q qN :
  ack_all fs q = Ret qN -> ack_all fs (MyAck_incr q) = Ret (MyAck_incr qN).
Proof using Type.
  revert q. induction fs as [|f fs IH]; intros q H; cbn [ack_all] in *; [congruence|].
  rewrite Ack_MyAck. destruct (Ack _ _ _) as [q1| |]; try discriminate H. cbn in *. apply IH. exact H.
Qed.
End Frames.
