(* ===== verification/PTCPFront.v ===== *)
(** * Front and Pop cut the stream into the messages of the peer *)

From Stdlib Require Import String.
From S2P Require Import Prelude Endian MsgHeader PTCPQueue Conf PTCPConn PTCPRecv PTCPFraming.
Local Open Scope Z_scope.

Section Front.
Context {platform : Platform} {conf : Conf} {conf_ok : ConfOk conf}.
Context {W : Type} {sockets : Sockets W} {laws : RecvLaws W}.
Implicit Types (c : PTCPConnection) (w : W) (f : frame) (fs coming : list frame) (t Y : list Z).

(** The whole messages [fs] lie at [readidx_], then the bytes [Y]. *)
Record cutting c fs Y : Prop := {
  cu_buf : buf_ok c;
  cu_holds : holds c (imgs fs ++ Y);
  cu_frames : Forall frame_ok fs;
  cu_next : nextmsg_idx_ c = readidx_ c + zlen (imgs fs);
  cu_write : writeidx_ c = nextmsg_idx_ c + zlen Y
}.

Lemma cutting_bounds c fs Y : cutting c fs Y ->
  0 <= readidx_ c /\ writeidx_ c <= recvbuf_size_ c < 2 ^ 31 /\ Forall in_byte Y.
Proof using conf_ok.
  intros [[L Hi Hm Hb] (A & F & E & _) _ _ _]. pose proof conf_recv as [_ HM].
  rewrite E, !Forall_app in Hb. repeat split; try lia. tauto.
Qed.

(** Only the buffer and the indices matter. *)
Lemma cutting_ext c c' fs Y :
  recvbuf_ c' = recvbuf_ c -> recvbuf_size_ c' = recvbuf_size_ c -> writeidx_ c' = writeidx_ c ->
  nextmsg_idx_ c' = nextmsg_idx_ c -> readidx_ c' = readidx_ c ->
  cutting c fs Y -> cutting c' fs Y.
Proof using Type.
  intros E1 E2 E3 E4 E5 [[L Hi Hm Hb] (A & F & E & LA) Hf Hn Hw].
  split; rewrite ?E1, ?E2, ?E3, ?E4, ?E5; auto.
  - split; rewrite ?E1, ?E2, ?E3, ?E4, ?E5; auto.
  - exists A, F. rewrite E1, E5. auto.
Qed.

(** *** Headers in the buffer *)
Lemma cutting_read c fs Y p n X Z0 :
  cutting c fs Y -> imgs fs ++ Y = X ++ Z0 -> p = readidx_ c + zlen X -> 0 <= n <= zlen Z0 ->
  read_at (recvbuf_ c) p n = Ret (take (Z.to_nat n) Z0).
Proof using Type.
  intros [_ (A & F & E & LA) _ _ _] EX -> Hn. rewrite E, EX.
  replace (A ++ (X ++ Z0) ++ F) with ((A ++ X) ++ take (Z.to_nat n) Z0 ++ (drop (Z.to_nat n) Z0 ++ F))
    by (rewrite (app_assoc (take _ _)), take_drop, <- !app_assoc; reflexivity).
  apply read_at_app; [rewrite length_app; lia | rewrite length_take; lia].
Qed.

Lemma header_at_next c fs Y : cutting c fs Y -> 8 <= zlen Y ->
  header_at c (nextmsg_idx_ c) = Ret (bytes_hdr native_little (take 8 Y)).
Proof using Type.
  intros H L. unfold header_at, sizeof_MsgHeader.
  rewrite (cutting_read c fs Y _ 8 (imgs fs) Y H) by (try apply (cu_next _ _ _ H); auto; lia).
  reflexivity.
Qed.

Lemma header_at_read c f fs Y : cutting c (f :: fs) Y -> header_at c (readidx_ c) = Ret (fhdr f).
Proof using Type.
  intros H. unfold header_at, sizeof_MsgHeader.
  pose proof (cu_frames _ _ _ H) as HF. apply Forall_cons_iff in HF as [Hf _].
  pose proof (fsize_pos f Hf). pose proof (zlen_img f Hf).
  rewrite (cutting_read c (f :: fs) Y _ 8 [] (img f ++ imgs fs ++ Y) H).
  - cbn [mbind res_bind]. destruct Hf as (Hh & _). f_equal. unfold img. rewrite <- app_assoc.
    rewrite (take_app_length' _ _ (Z.to_nat 8)) by (rewrite length_hdr_bytes; reflexivity).
    rewrite <- (app_nil_r (hdr_bytes _ _)). apply bytes_hdr_bytes. exact Hh.
  - cbn [imgs flat_map app]. rewrite <- app_assoc. reflexivity.
  - simpl. lia.
  - rewrite length_app. lia.
Qed.

Lemma convert_at_next c fs Y : cutting c fs Y -> 8 <= zlen Y ->
  exists buf, convert_at c (nextmsg_idx_ c) = Ret (set_buf buf (recvbuf_size_ c) c)
    /\ cutting (set_buf buf (recvbuf_size_ c) c) fs (conv Y).
Proof using conf_ok.
  intros H L. pose proof (cutting_bounds _ _ _ H) as (_ & _ & HbY).
  unfold convert_at. rewrite (header_at_next c fs Y H L). cbn [mbind res_bind].
  fold (header_of Y). destruct H as [[Lb Hi Hm Hb] (A & F & E & LA) Hf Hn Hw].
  exists (A ++ (imgs fs ++ conv Y) ++ F).
  assert (Ew : write_at (recvbuf_ c) (nextmsg_idx_ c) (hdr_bytes native_little (header_of Y))
               = Ret (A ++ (imgs fs ++ conv Y) ++ F)).
  { rewrite E. unfold conv. case_test; [lia|].
    rewrite <- (take_drop 8 Y) at 1. rewrite <- !app_assoc, !(app_assoc A).
    apply write_at_app; [rewrite length_app; lia | rewrite length_take, length_hdr_bytes; lia]. }
  rewrite Ew. split; [reflexivity|]. split; cbn; auto.
  - split; cbn; auto; [|rewrite E, !Forall_app in Hb; rewrite !Forall_app; intuition; apply conv_bytes; assumption].
    rewrite <- Lb, E, !length_app, length_conv. reflexivity.
  - exists A, F. auto.
  - rewrite length_conv. exact Hw.
Qed.

(** *** Moving the indices *)

(** A whole message was cut; a heartbeat is skipped when it is the first. *)
Lemma cut_advance c fs f Y :
  cutting c fs (img f ++ Y) -> frame_ok f -> strip fs = fs ->
  cutting (set_idx (writeidx_ c) (u32 (nextmsg_idx_ c + fsize f))
             (if (msg_type (fhdr f) =? Heartbeat_type) && (readidx_ c =? nextmsg_idx_ c)
              then u32 (readidx_ c + fsize f) else readidx_ c) c) (strip (fs ++ [f])) Y.
Proof using conf_ok.
  intros H Hf Hs. pose proof (cutting_bounds _ _ _ H) as (Hr0 & Hw0 & _).
  destruct H as [[Lb Hi Hm Hb] (A & F & E & LA) HF Hn Hw].
  pose proof (fsize_pos f Hf). pose proof (zlen_img f Hf). rewrite length_app in Hw.
  rewrite !u32_id by word_lia. fold (is_hb f).
  destruct (Z.eqb_spec (readidx_ c) (nextmsg_idx_ c)) as [Ee|Ne].
  - apply imgs_nil in HF as ->; [|lia]. cbn [app strip imgs flat_map] in *. destruct (is_hb f); cbn [andb].
    + split; cbn; try lia; [split; cbn; try assumption; lia | | constructor].
      exists (A ++ img f), F. cbn. split; [rewrite E, <- !app_assoc; reflexivity | rewrite length_app; lia].
    + split; cbn; rewrite ?app_nil_r; try lia; [split; cbn; try assumption; lia | | constructor; auto].
      exists A, F. split; [exact E | exact LA].
  - rewrite andb_false_r. destruct fs as [|g fs]; [cbn in Hn; lia|].
    assert (Es : strip ((g :: fs) ++ [f]) = (g :: fs) ++ [f])
      by (cbn [app strip]; rewrite (strip_head _ _ _ Hs); reflexivity).
    rewrite Es. split; cbn [recvbuf_ recvbuf_size_ writeidx_ nextmsg_idx_ readidx_ set_idx].
    + split; cbn; try assumption; lia.
    + exists A, F. rewrite imgs_app, imgs_one, <- (app_assoc (imgs _)). split; [exact E | exact LA].
    + rewrite Forall_app. auto.
    + rewrite imgs_app, imgs_one, length_app. lia.
    + lia.
Qed.

(** The first message is consumed. *)
Lemma pop_advance c f fs Y :
  cutting c (f :: fs) Y ->
  cutting (set_idx (writeidx_ c) (nextmsg_idx_ c) (u32 (readidx_ c + fsize f)) c) fs Y.
Proof using conf_ok.
  intros H. pose proof (cutting_bounds _ _ _ H) as (Hr0 & Hw0 & _).
  destruct H as [[Lb Hi Hm Hb] (A & F & E & LA) HF Hn Hw].
  apply Forall_cons_iff in HF as [Hf HF]. pose proof (fsize_pos f Hf). pose proof (zlen_img f Hf).
  unfold imgs in Hn, E. cbn [flat_map] in Hn, E. fold (imgs fs) in Hn, E. rewrite length_app in Hn.
  rewrite u32_id by word_lia. split; cbn; try assumption; try lia.
  - split; cbn; try assumption; lia.
  - exists (A ++ img f), F. cbn. split; [rewrite E, <- !app_assoc; reflexivity | rewrite length_app; lia].
Qed.

(** *** The loops *)
Lemma skip_loop_spec fuel : forall c fs Y q,
  cutting c fs Y -> q_ c = Some q -> (length fs < fuel)%nat ->
  exists r c', skip_loop fuel c = Ret (r, c') /\ cutting c' (strip fs) Y
    /\ q_ c' = Some q /\ sockfd_ c' = sockfd_ c
    /\ match r with Some p => p = readidx_ c' /\ strip fs <> [] | None => True end.
Proof using conf_ok.
  induction fuel as [|fuel IH]; intros c fs Y q H Hq Hf; [lia|]. cbn [skip_loop].
  pose proof (cu_next _ _ _ H) as Hn. destruct fs as [|f fs].
  - case_test; [|cbn in Hn; lia]. eexists None, c. auto.
  - pose proof (cu_frames _ _ _ H) as HF. apply Forall_cons_iff in HF as [Hfo _].
    pose proof (fsize_pos f Hfo). pose proof (zlen_img f Hfo).
    unfold imgs in Hn. cbn [flat_map] in Hn. rewrite length_app in Hn.
    case_test; [lia|]. rewrite (header_at_read c f fs Y H). cbn [mbind res_bind strip].
    fold (is_hb f). destruct (is_hb f) eqn:Ehb.
    + pose proof (pop_advance c f fs Y H) as H'.
      assert (Es : fsize f = sizeof_MsgHeader).
      { destruct Hfo as (_ & _ & _ & _ & _ & Hsz). unfold fsize.
        rewrite msg_size_blocks, (Hsz Ehb). reflexivity. }
      rewrite Es in H'. apply (IH _ fs Y q) in H' as (r & c' & Ec & Hc & Hq' & Hs' & Hr);
        [|exact Hq | cbn [length] in Hf; lia].
      exists r, c'. auto.
    + unfold deref. rewrite Hq. cbn [mbind res_bind]. case_test.
      * eexists None, c. auto.
      * eexists (Some _), _. split; [reflexivity|]. cbn. repeat split; auto; try discriminate;
          eapply cutting_ext; try exact H; reflexivity.
Qed.

(** The end of the stream: nothing, or a header that is too large and whose
    acknowledgement [qN] accepts. *)
Definition ending (tail : list Z) (qN : PTCPQueue) : Prop :=
  tail = [] \/ oversize tail /\ exists qB, Ack ToLittleEndian (ack_seq (header_of tail)) qN = Ret qB.

(** The connection [c'] after the connection [c] met that header. *)
Definition too_large (tail : list Z) (qN : PTCPQueue) c c' : Prop :=
  (exists qB, Ack ToLittleEndian (ack_seq (header_of tail)) qN = Ret qB /\ q_ c' = Some qB)
  /\ IsClosed c' = true
  /\ (IsClosed c = false -> GetCloseReason c' = ("Msg size larger than recv buf max size"%string, 0)).

(** How the loop ends: the rest of a message is missing, or the message is too
    large. *)
Definition cut_end (b : bool) c c' t' coming' tail qN : Prop :=
  if b then oversize tail /\ coming' = [] /\ 8 <= zlen t' /\ too_large tail qN c c'
  else gap t' coming' /\ sockfd_ c' = sockfd_ c
       /\ exists q', q_ c' = Some q' /\ ack_all coming' q' = Ret qN.

Lemma Close_spec reason e c :
  q_ (Close reason e c) = q_ c /\ IsClosed (Close reason e c) = true
  /\ (IsClosed c = false -> GetCloseReason (Close reason e c) = (reason, e)).
Proof using Type. unfold Close. destruct (IsClosed c) eqn:E; repeat split; auto; discriminate. Qed.

(** The header at [nextmsg_idx_] is converted, in whichever round it was read. *)
Lemma converted_next old c fs Y t : cutting c fs Y -> 8 <= zlen t -> Forall in_byte t ->
  Y = (if old - nextmsg_idx_ c <? 8 then t else conv t) ->
  exists buf, (if old - nextmsg_idx_ c <? 8 then convert_at c (nextmsg_idx_ c) else Ret c)
      = Ret (set_buf buf (recvbuf_size_ c) c)
    /\ cutting (set_buf buf (recvbuf_size_ c) c) fs (conv t)
    /\ header_at (set_buf buf (recvbuf_size_ c) c) (nextmsg_idx_ c) = Ret (header_of t).
Proof using conf_ok.
  intros H L Hb EY.
  assert (exists buf, (if old - nextmsg_idx_ c <? 8 then convert_at c (nextmsg_idx_ c) else Ret c)
            = Ret (set_buf buf (recvbuf_size_ c) c)
          /\ cutting (set_buf buf (recvbuf_size_ c) c) fs (conv t)) as (buf & E & H1).
  { revert EY. case_test; intros ->.
    - apply convert_at_next; [exact H | lia].
    - exists (recvbuf_ c). split; [destruct c; reflexivity|].
      eapply cutting_ext; try exact H; reflexivity. }
  exists buf. split; [exact E|]. split; [exact H1|].
  rewrite <- (conv_header t Hb L). apply (header_at_next (set_buf buf (recvbuf_size_ c) c) fs (conv t) H1).
  rewrite length_conv. exact L.
Qed.

Lemma cut_loop_spec fuel : forall old c fs Y t fut coming tail q qN,
  cutting c fs Y -> strip fs = fs -> ending tail qN ->
  Y = (if old - nextmsg_idx_ c <? 8 then t else conv t) ->
  (old - nextmsg_idx_ c < 8 \/ exists f rest, coming = f :: rest /\ old - nextmsg_idx_ c < fsize f) ->
  t ++ fut = raws coming ++ tail -> Forall frame_ok coming ->
  q_ c = Some q -> ack_all coming q = Ret qN -> writeidx_ c - nextmsg_idx_ c < Z.of_nat fuel ->
  exists b c' t' new coming', cut_loop fuel old c = Ret (b, c')
    /\ cutting c' (strip (fs ++ new)) (conv t')
    /\ coming = new ++ coming' /\ t' ++ fut = raws coming' ++ tail
    /\ cut_end b c c' t' coming' tail qN.
Proof using conf_ok.
  induction fuel as [|fuel IH]; intros old c fs Y t fut coming tail q qN H Hs Htl EY Hold Et HF Hq HA Hf.
  { pose proof (cu_write _ _ _ H). lia. }
  pose proof (cutting_bounds _ _ _ H) as (Hr0 & Hw0 & _). pose proof (cu_write _ _ _ H) as Hw.
  assert (LY : zlen Y = zlen t) by (rewrite EY; case_test; rewrite ?length_conv; reflexivity).
  pose proof (cu_next _ _ _ H) as Hn.
  cbn [cut_loop]. rewrite !(u32_id (writeidx_ c - nextmsg_idx_ c)) by word_lia.
  case_test.
  { (* less than a header *)
    exists false, c, t, [], coming. rewrite app_nil_r, Hs.
    split; [reflexivity|]. split; [|split; [reflexivity | split; [exact Et|]]].
    - assert (conv t = Y) as -> by (rewrite EY; case_test; rewrite conv_short by lia; reflexivity).
      exact H.
    - split; [left; lia | split; [reflexivity | eauto]]. }
  assert (Hb : Forall in_byte t).
  { assert (Hb : Forall in_byte (raws coming ++ tail)).
    { apply Forall_app. split; [exact (raws_bytes _ HF)|]. destruct Htl as [->|[[_ [? _]] _]]; [constructor | assumption]. }
    rewrite <- Et, Forall_app in Hb. tauto. }
  destruct (converted_next old c fs Y t H ltac:(lia) Hb EY) as (buf & -> & H1 & Hhd).
  cbn [mbind res_bind]. set (c1 := set_buf buf (recvbuf_size_ c) c) in *.
  change (nextmsg_idx_ c1) with (nextmsg_idx_ c). rewrite Hhd.
  cbn [mbind res_bind]. unfold deref. change (q_ c1) with (q_ c). rewrite Hq. cbn [mbind res_bind].
  destruct HF as [|f rest Hfo Hrest].
  { (* the message is too large *)
    destruct Htl as [->|[Hov (qB & EqB)]].
    { apply app_nil in Et as [-> _]. simpl in LY. lia. }
    cbn [raws flat_map app] in Et. cbn [ack_all] in HA. injection HA as ->.
    rewrite <- (header_of_app t fut), Et, EqB by lia. cbn [mbind res_bind].
    destruct Hov as (H8 & Hbt & Hbig). case_test; [|lia].
    eexists true, _, t, [], []. rewrite app_nil_r, Hs. split; [reflexivity|]. split; [|split; [reflexivity|]].
    { eapply cutting_ext; try exact H1; unfold Close; destruct (IsClosed _); reflexivity. }
    split; [exact Et|]. split; [split; auto|]. split; [reflexivity|]. split; [lia|].
    destruct (Close_spec "Msg size larger than recv buf max size" 0 (set_q (Some qB) c1)) as (Cq & Cc & Cr).
    split; [exists qB; split; [exact EqB | exact Cq] | split; [exact Cc | exact Cr]]. }
  destruct (first_frame f t fut (raws rest ++ tail) Hfo) as [Hh Hcut]; [rewrite app_assoc; exact Et|].
  rewrite Hh by lia.
  pose proof HA as HA0. cbn [ack_all] in HA0. apply bind_Ret in HA0 as (q1 & Eq1 & _). rewrite Eq1.
  destruct (ack_all_twice _ _ _ _ _ Eq1 HA) as [HA1 HA2]. cbn [mbind res_bind].
  fold (fsize f). pose proof (fsize_pos f Hfo) as Hsz.
  assert (Hmax : fsize f <= TcpRecvBufMaxSize) by apply Hfo.
  destruct (Z.ltb_spec TcpRecvBufMaxSize (fsize f)) as [?|_]; [lia|].
  cbn [writeidx_ nextmsg_idx_ readidx_ set_q]. change (writeidx_ c1) with (writeidx_ c).
  change (nextmsg_idx_ c1) with (nextmsg_idx_ c). change (readidx_ c1) with (readidx_ c).
  rewrite (u32_id (writeidx_ c - nextmsg_idx_ c)) by word_lia. case_test.
  { (* the rest of the message is missing *)
    exists false, (set_q (Some q1) c1), t, [], (f :: rest). rewrite app_nil_r, Hs.
    split; [reflexivity|]. split; [eapply cutting_ext; try exact H1; reflexivity|].
    split; [reflexivity|]. split; [exact Et|].
    split; [right; exists f, rest; split; [reflexivity | lia] | split; [reflexivity | eauto]]. }
  destruct Hcut as (t1 & -> & Et1); [lia|]. rewrite conv_raw in H1 by exact Hfo.
  assert (Hcu2 : cutting (set_q (Some q1) c1) fs (img f ++ t1))
    by (eapply cutting_ext; try exact H1; reflexivity).
  apply cut_advance in Hcu2; [|exact Hfo | exact Hs].
  cbn [writeidx_ nextmsg_idx_ readidx_ set_q] in Hcu2. change (writeidx_ c1) with (writeidx_ c) in Hcu2.
  change (nextmsg_idx_ c1) with (nextmsg_idx_ c) in Hcu2. change (readidx_ c1) with (readidx_ c) in Hcu2.
  assert (En : u32 (nextmsg_idx_ c + fsize f) = nextmsg_idx_ c + fsize f) by (apply u32_id; word_lia).
  rewrite En in *.
  assert (Hold' : old - (nextmsg_idx_ c + fsize f) < 0).
  { destruct Hold as [?|(f' & r' & [= <- <-] & ?)]; lia. }
  destruct (IH old _ (strip (fs ++ [f])) t1 t1 fut rest tail q1 qN Hcu2) as
    (b & c' & t' & new & coming' & Ec & Hc & -> & Et' & Hend); auto.
  - apply strip_idem.
  - cbn [nextmsg_idx_ set_idx]. case_test; [reflexivity | lia].
  - left. cbn [nextmsg_idx_ set_idx]. lia.
  - cbn [nextmsg_idx_ writeidx_ set_idx]. lia.
  - exists b, c', t', (f :: new), coming'. split; [exact Ec|].
    rewrite strip_strip_app, <- app_assoc in Hc. split; [exact Hc|]. split; [reflexivity|]. split; [exact Et' | exact Hend].
Qed.

(** *** One call of [Front] *)

(** The state of a connection while it receives: [fs] are the messages in the
    buffer that are not consumed, [t] the bytes behind them, [coming] the
    messages [t] and the socket's bytes make up, and [qN] the queue once all
    their acknowledgements are applied. *)
Record receiving (fd : Z) c w fs t coming (qN : PTCPQueue) : Prop := {
  rv_cut : cutting c fs (conv t);
  rv_partial : partial t;
  rv_coming : Forall frame_ok coming;
  rv_stream : t ++ inbox fd w = raws coming;
  rv_queue : exists q, q_ c = Some q /\ ack_all coming q = Ret qN;
  rv_sock : sockfd_ c = fd \/ IsClosed c = true
}.

Lemma received_cutting c c' fs Y bs :
  cutting c fs Y -> received c c' (imgs fs ++ Y) bs ->
  let c2 := set_idx (u32 (writeidx_ c' + zlen bs)) (nextmsg_idx_ c') (readidx_ c') c' in
  cutting c2 fs (Y ++ bs) /\ writeidx_ c' - nextmsg_idx_ c' = zlen Y.
Proof using conf_ok.
  intros H [[L Hi Hm Hb] (A & F & E & LA) Hl Hnx Hroom]. pose proof conf_recv as [_ HM].
  destruct H as [[L0 Hi0 Hm0 Hb0] _ HF Hn Hw]. rewrite length_app in Hl.
  rewrite u32_id by word_lia. split; [|lia].
  split; cbn; rewrite ?length_app; try lia.
  - split; cbn; try assumption; lia.
  - exists A, F. cbn. rewrite E, <- !app_assoc. auto.
  - assumption.
Qed.

Lemma conv_received t bs : conv t ++ bs = (if zlen t <? 8 then t ++ bs else conv (t ++ bs)).
Proof using Type. case_test; [rewrite conv_short by lia | rewrite conv_app by lia]; reflexivity. Qed.

(** The same when the stream ends in [tail] after the messages. *)
Record stream_of (tail : list Z) (fd : Z) c w fs t coming (qN : PTCPQueue) : Prop := {
  sm_cut : cutting c fs (conv t);
  sm_gap : gap t coming;
  sm_coming : Forall frame_ok coming;
  sm_stream : t ++ inbox fd w = raws coming ++ tail;
  sm_queue : exists q, q_ c = Some q /\ ack_all coming q = Ret qN;
  sm_sock : sockfd_ c = fd \/ IsClosed c = true
}.

Lemma receiving_stream fd c w fs t coming qN :
  receiving fd c w fs t coming qN <-> stream_of [] fd c w fs t coming qN.
Proof using Type.
  split; intros [Hc Hp HF Et Hq Hs]; split; rewrite ?app_nil_r in *; auto;
    apply (partial_gap t (inbox fd w) coming); auto.
Qed.

(** [Front] met the header at the end of the stream: the messages before it stay
    in the buffer, in front of the bytes [t'] from that header on. *)
Definition met_oversize tail fd c c' (w' : W) (p : option Z) t' coming' qN : Prop :=
  p = None /\ oversize tail /\ coming' = [] /\ 8 <= zlen t' /\ t' ++ inbox fd w' = tail
  /\ too_large tail qN c c' /\ (fd <> INVALID_TCP_SOCKET -> IsClosed c = false).

Definition front_ptr c fs : option Z := match fs with [] => None | _ :: _ => Some (readidx_ c) end.

Lemma cutting_ptr c fs Y : cutting c fs Y ->
  (if negb (readidx_ c =? nextmsg_idx_ c) then Some (readidx_ c) else None) = front_ptr c fs.
Proof using Type.
  intros H. pose proof (cu_next _ _ _ H) as Hn. destruct fs as [|f fs].
  - cbn in *. rewrite Z.add_0_r in Hn. rewrite Hn, Z.eqb_refl. reflexivity.
  - cbn [front_ptr]. destruct (Z.eqb_spec (readidx_ c) (nextmsg_idx_ c)) as [E|]; [|reflexivity].
    exfalso. assert (f :: fs = []) as Hnil; [|discriminate Hnil]. apply imgs_nil; [apply H | lia].
Qed.

Lemma Front_stream tail fd c w fs t coming qN :
  ending tail qN -> stream_of tail fd c w fs t coming qN ->
  exists p c' w' t' new coming', Front c w = Ret (p, c', w') /\ coming = new ++ coming'
    /\ cutting c' (strip (fs ++ new)) (conv t')
    /\ (p = front_ptr c' (strip (fs ++ new)) /\ stream_of tail fd c' w' (strip (fs ++ new)) t' coming' qN
        \/ met_oversize tail fd c c' w' p t' coming' qN).
Proof using conf_ok.
  intros Htl [Hc Hp HF Et (q & Hq & HA) Hs]. unfold Front, UseShm. rewrite Hq.
  pose proof (cu_next _ _ _ Hc) as Hn.
  destruct (skip_loop_spec (skip_fuel c) c fs (conv t) q Hc Hq) as (r & c1 & Ec1 & Hc1 & Hq1 & Hs1 & Hr).
  { pose proof (imgs_length fs (cu_frames _ _ _ Hc)). unfold skip_fuel. lia. }
  rewrite Ec1. cbn [mbind res_bind].
  assert (Hfd1 : sockfd_ c1 = fd \/ IsClosed c1 = true) by (unfold IsClosed in *; rewrite Hs1; exact Hs).
  destruct r as [p|].
  { (* a message is waiting *)
    destruct Hr as [-> Hne]. exists (Some (readidx_ c1)), c1, w, t, [], coming. rewrite app_nil_r.
    split; [reflexivity|]. split; [reflexivity|]. split; [exact Hc1|]. left.
    split; [destruct (strip fs); [congruence | reflexivity]|]. split; auto. eauto. }
  set (fs1 := strip fs) in *.
  destruct (DoRecv_spec c1 w (imgs fs1 ++ conv t) fd) as (bs & c2 & w2 & Ed & Hrc & HI & (Sq & _ & _ & Ss) & Hlive);
    [apply Hc1 | apply Hc1 | rewrite length_app; destruct Hc1; lia | exact Hfd1 |].
  rewrite Ed. cbn [mbind res_bind].
  assert (Hfd2 : sockfd_ c2 = fd \/ IsClosed c2 = true).
  { destruct Ss as [Ss|Ss]; [unfold IsClosed in *; rewrite Ss; exact Hfd1 | auto]. }
  rewrite HI in Et.
  destruct (received_cutting c1 c2 fs1 (conv t) bs Hc1 Hrc) as [Hcut HlenY].
  rewrite length_conv in HlenY.
  destruct (Z.eqb_spec (zlen bs) 0) as [E0|N0].
  { (* nothing was read *)
    assert (bs = []) as -> by (destruct bs; [reflexivity | simpl in E0; lia]).
    cbn [mbind res_bind]. rewrite app_nil_r in Hcut.
    assert (Hcut2 : cutting c2 fs1 (conv t)).
    { eapply cutting_ext; try exact Hcut; cbn; try reflexivity.
      destruct Hrc as [[L Hi Hm Hb] _ _ _ _]. pose proof conf_recv as [_ HM].
      rewrite Z.add_0_r. symmetry. apply u32_id. word_lia. }
    exists (front_ptr c2 fs1), c2, w2, t, [], coming. rewrite app_nil_r. fold fs1.
    rewrite <- (cutting_ptr c2 fs1 _ Hcut2). split; [destruct (negb _); reflexivity|].
    split; [reflexivity|]. split; [exact Hcut2|]. left. split; [reflexivity|].
    split; auto. exists q. rewrite Sq. auto. }
  (* the bytes are cut *)
  set (c3 := set_idx (u32 (writeidx_ c2 + zlen bs)) (nextmsg_idx_ c2) (readidx_ c2) c2) in *.
  destruct (cut_loop_spec (cut_fuel c3) (writeidx_ c2) c3 fs1 (conv t ++ bs) (t ++ bs) (inbox fd w2)
              coming tail q qN) as (b & c' & t' & new & coming' & Ec & Hc' & -> & Et' & Hend); auto.
  - apply strip_idem.
  - change (nextmsg_idx_ c3) with (nextmsg_idx_ c2). rewrite HlenY. apply conv_received.
  - change (nextmsg_idx_ c3) with (nextmsg_idx_ c2). rewrite HlenY. exact Hp.
  - rewrite <- app_assoc. exact Et.
  - cbn. rewrite Sq. exact Hq1.
  - unfold cut_fuel. lia.
  - cbn [mbind res_bind]. rewrite Ec. cbn [mbind res_bind].
    unfold fs1 in Hc'. rewrite strip_strip_app in Hc'.
    destruct b.
    + destruct Hend as (Hov & -> & H8 & HqB & Hcl & Hreason).
      exists None, c', w2, t', new, []. split; [reflexivity|]. split; [reflexivity|]. split; [exact Hc'|]. right.
      specialize (Hlive ltac:(lia)).
      assert (Hopen : fd <> INVALID_TCP_SOCKET -> IsClosed c = false /\ IsClosed c3 = false).
      { intros Hfd. unfold IsClosed in *. change (sockfd_ c3) with (sockfd_ c2).
        destruct Ss as [Ss|Ss]; [rewrite <- Hs1, <- Ss, Hlive; lia | lia]. }
      split; [reflexivity|]. split; [exact Hov|]. split; [reflexivity|]. split; [exact H8|].
      split; [exact Et'|]. split; [|intros Hfd; apply Hopen, Hfd].
      split; [exact HqB|]. split; [exact Hcl|]. intros Ho. apply Hreason, Hopen.
      unfold IsClosed in *. lia.
    + destruct Hend as (Hg & Hs' & Hq'). apply Forall_app in HF as [_ HF].
      exists (front_ptr c' (strip (fs ++ new))), c', w2, t', new, coming'.
      rewrite <- (cutting_ptr c' (strip (fs ++ new)) _ Hc'). split; [destruct (negb _); reflexivity|].
      split; [reflexivity|]. split; [exact Hc'|]. left. split; [reflexivity|].
      split; auto. unfold IsClosed in *. rewrite Hs'. exact Hfd2.
Qed.

Lemma Front_spec fd c w fs t coming qN :
  receiving fd c w fs t coming qN ->
  exists c' w' t' new coming', Front c w = Ret (front_ptr c' (strip (fs ++ new)), c', w')
    /\ receiving fd c' w' (strip (fs ++ new)) t' coming' qN /\ coming = new ++ coming'.
Proof using conf_ok.
  rewrite receiving_stream. intros H.
  destruct (Front_stream [] fd c w fs t coming qN (or_introl eq_refl) H)
    as (p & c' & w' & t' & new & coming' & E & Ec & _ & [[-> H']|(_ & Hov & _)]).
  - exists c', w', t', new, coming'. rewrite receiving_stream. auto.
  - destruct Hov as [H8 _]. cbn in H8. lia.
Qed.

(** *** Front and Pop *)
Lemma Pop_spec fd c w f fs t coming qN :
  receiving fd c w (f :: fs) t coming qN ->
  exists c', Pop c = Ret c' /\ receiving fd c' w fs t coming (MyAck_incr qN).
Proof using conf_ok.
  intros [Hc Hp HF Et (q & Hq & HA) Hs]. unfold Pop.
  rewrite (header_at_read c f fs _ Hc). cbn [mbind res_bind]. unfold deref. cbn [q_ set_idx].
  rewrite Hq. cbn [mbind res_bind]. eexists. split; [reflexivity|].
  split; auto.
  - eapply cutting_ext; [..|exact (pop_advance c f fs _ Hc)]; reflexivity.
  - eexists. split; [reflexivity|]. apply ack_all_MyAck. exact HA.
Qed.

(** The message at the pointer [Front] returned. *)
Definition read_msg c (p : Z) : res frame :=
  h ← header_at c p;
  bs ← read_at (recvbuf_ c) p (msg_size h);
  Ret (mkFrame h (drop 8 bs)).

Lemma read_msg_front c f fs Y : cutting c (f :: fs) Y -> read_msg c (readidx_ c) = Ret f.
Proof using Type.
  intros H. unfold read_msg. rewrite (header_at_read c f fs Y H). cbn [mbind res_bind].
  pose proof (cu_frames _ _ _ H) as HF. apply Forall_cons_iff in HF as [Hf _].
  pose proof (fsize_pos f Hf). pose proof (zlen_img f Hf). fold (fsize f).
  rewrite (cutting_read c (f :: fs) Y _ (fsize f) [] (img f ++ imgs fs ++ Y) H).
  - cbn [mbind res_bind]. rewrite (take_app_length' _ _ (Z.to_nat (fsize f))) by lia.
    unfold img. rewrite (drop_app_length' _ _ 8) by (rewrite length_hdr_bytes; reflexivity).
    destruct f. reflexivity.
  - cbn [imgs flat_map app]. rewrite <- app_assoc. reflexivity.
  - simpl. lia.
  - rewrite length_app. lia.
Qed.

(** The loop of a user that polls the connection [n] times, handling every
    message it gets (client.cpp, OnServerMsg; server.cpp, OnClientMsg). *)
Fixpoint poll (n : nat) c w : res (list frame * PTCPConnection * W) :=
  match n with
  | O => Ret ([], c, w)
  | S n =>
      r ← Front c w;
      match r with
      | (None, c, w) => poll n c w
      | (Some p, c, w) =>
          m ← read_msg c p;
          c ← Pop c;
          r ← poll n c w;
          let '(ms, c, w) := r in
          Ret (m :: ms, c, w)
      end
  end.

Lemma poll_spec n : forall fd c w fs t coming qN,
  receiving fd c w fs t coming qN ->
  exists ms c' w' fs' t' coming' qN', poll n c w = Ret (ms, c', w')
    /\ receiving fd c' w' fs' t' coming' qN'
    /\ ms ++ visible (fs' ++ coming') = visible (fs ++ coming)
    /\ Nat.iter (length ms) MyAck_incr qN = qN'.
Proof using conf_ok.
  induction n as [|n IH]; intros fd c w fs t coming qN H; cbn [poll].
  { exists [], c, w, fs, t, coming, qN. auto. }
  destruct (Front_spec fd c w fs t coming qN H) as (c1 & w1 & t1 & new & coming1 & -> & H1 & ->).
  cbn [mbind res_bind].
  assert (Ev : visible (fs ++ new ++ coming1) = visible (strip (fs ++ new) ++ coming1)).
  { rewrite app_assoc, !(visible_app _ coming1), visible_strip. reflexivity. }
  rewrite Ev. destruct (strip (fs ++ new)) as [|f fs1] eqn:Es; cbn [front_ptr].
  - apply (IH _ _ _ _ _ _ _ H1).
  - rewrite (read_msg_front c1 f fs1 _ (rv_cut _ _ _ _ _ _ _ H1)). cbn [mbind res_bind].
    destruct (Pop_spec _ _ _ _ _ _ _ _ H1) as (c2 & -> & H2). cbn [mbind res_bind].
    destruct (IH _ _ _ _ _ _ _ H2) as (ms & c' & w' & fs' & t' & coming' & qN' & -> & H3 & E3 & I3).
    cbn [mbind res_bind]. exists (f :: ms), c', w', fs', t', coming', qN'.
    split; [reflexivity|]. split; [exact H3|]. split; [|rewrite <- I3, <- Nat.iter_succ_r; reflexivity].
    pose proof (strip_head _ _ _ Es) as Hf.
    cbn [app visible List.filter]. rewrite Hf. cbn [negb]. f_equal. exact E3.
Qed.

(** Once nothing is coming, every call of [Front] delivers a message as long as
    there is one in the buffer. *)
Lemma poll_drains m : forall fd c w fs t qN,
  receiving fd c w fs t [] qN -> (length (visible fs) <= m)%nat ->
  exists c' w', poll m c w = Ret (visible fs, c', w')
    /\ q_ c' = Some (Nat.iter (length (visible fs)) MyAck_incr qN).
Proof using conf_ok.
  induction m as [|m IH]; intros fd c w fs t qN H L; cbn [poll].
  { destruct (visible fs) eqn:Ev; [|simpl in L; lia]. exists c, w. split; [reflexivity|].
    destruct (rv_queue _ _ _ _ _ _ _ H) as (q & Hq & [= ->]). exact Hq. }
  destruct (Front_spec fd c w fs t [] qN H) as (c1 & w1 & t1 & new & coming1 & -> & H1 & Ec).
  symmetry in Ec. apply app_nil in Ec as [-> ->]. rewrite app_nil_r in *. cbn [mbind res_bind].
  rewrite <- (visible_strip fs) in *. destruct (strip fs) as [|f fs1] eqn:Es; cbn [front_ptr].
  - apply (IH fd c1 w1 [] t1 qN H1). simpl. lia.
  - rewrite (read_msg_front c1 f fs1 _ (rv_cut _ _ _ _ _ _ _ H1)). cbn [mbind res_bind].
    destruct (Pop_spec _ _ _ _ _ _ _ _ H1) as (c2 & -> & H2). cbn [mbind res_bind].
    pose proof (strip_head _ _ _ Es) as Hf. cbn [visible List.filter] in L |- *. rewrite Hf in L |- *.
    cbn [negb length] in L |- *. fold (visible fs1) in L |- *.
    destruct (IH fd c2 w1 fs1 t1 (MyAck_incr qN) H2) as (c' & w' & -> & Hq'); [lia|].
    exists c', w'. split; [reflexivity|]. rewrite Hq', Nat.iter_succ_r. reflexivity.
Qed.
End Front.
