(* ===== verification/PTCPSend.v ===== *)
(** * The sending side of a connection, heartbeats and closing

    [SendPending] offers the socket the blocks that are not sent yet, and counts
    the whole blocks it took; a block that was cut in two can only be an error,
    for the peer would not find the next header.  Everything is stated on the
    bytes the socket accepted ([outbox]) and on the log the queue implements. *)

From Stdlib Require Import String.
From S2P Require Import Prelude Endian MsgHeader PTCPQueue PTCPQueueSpec Conf PTCPConn.
Local Open Scope Z_scope.

Section Send.
Context {platform : Platform} {conf : Conf} {conf_ok : ConfOk conf}.
Context {W : Type} {sockets : Sockets W} {laws : SendLaws W}.
Implicit Types (c : PTCPConnection) (w : W) (q : PTCPQueue) (l : log).
Abbreviation wires := (wires ToLittleEndian).
Abbreviation Rep := (Rep TcpQueueSize ToLittleEndian).

Lemma queue_range : 0 <= TcpQueueSize < 2 ^ 32.
Proof using conf_ok. apply conf_queue. Qed.

(** Calls of [tcp_send] in a row, each offering what is left of [bs] and taking
    some of it, until [rest] is left. *)
Inductive sends (fd : Z) : list Z -> W -> list Z -> W -> Prop :=
| sends_end bs w : sends fd bs w bs w
| sends_more bs w n w1 rest w' :
    tcp_send fd bs w = (n, w1) -> 0 < n -> sends fd (drop (Z.to_nat n) bs) w1 rest w' ->
    sends fd bs w rest w'.

Lemma sends_outbox fd bs w rest w' : sends fd bs w rest w' ->
  exists k, (k <= length bs)%nat /\ rest = drop k bs /\ outbox fd w' = outbox fd w ++ take k bs.
Proof using Type.
  induction 1 as [bs w|bs w n w1 rest w' E Hn _ (k & Hk & -> & Ho)].
  - exists 0%nat. rewrite app_nil_r. auto with lia.
  - apply send_law in E as (Hle & _ & Hob). rewrite length_drop in Hk. exists (Z.to_nat n + k)%nat.
    split; [lia|]. split; [apply drop_drop|]. rewrite Ho, Hob, <- app_assoc. f_equal. apply take_take_drop.
Qed.

(** The socket was offered all of [bs]: it took everything, or a call that offered
    the [rest] failed. *)
Definition offered (fd : Z) (bs : list Z) w (rest : list Z) w' : Prop :=
  exists w1, sends fd bs w rest w1
    /\ (rest = [] /\ w' = w1 \/ rest <> [] /\ tcp_send fd rest w1 = (-1, w')).

(** It may be tried again: nothing is left, or the socket is full and no block was
    cut in two. *)
Definition may_retry (rest : list Z) w : Prop :=
  rest = [] \/ tcp_get_last_error w = TCP_ERR_AGAIN /\ zlen rest mod 8 = 0.

Lemma offered_outbox fd bs w rest w' : offered fd bs w rest w' ->
  exists k, (k <= length bs)%nat /\ rest = drop k bs /\ outbox fd w' = outbox fd w ++ take k bs.
Proof using Type.
  intros (w1 & Hs & Hr). apply sends_outbox in Hs as (k & Hk & Er & Ho). exists k.
  split; [exact Hk|]. split; [exact Er|]. destruct Hr as [[_ ->]|[_ E]]; [exact Ho|].
  apply send_law in E as (_ & _ & ->). rewrite Ho, app_nil_r. reflexivity.
Qed.

(** The loop ends after it offered everything to the socket; unless the send failed
    it ends at a block boundary. *)
Lemma send_loop_spec fuel : forall fd bs w,
  bs <> [] -> zlen bs < 2 ^ 32 -> (length bs < fuel)%nat ->
  exists r w' rest, send_loop fuel fd bs w = Ret (r, w') /\ offered fd bs w rest w'
    /\ match r with
       | SendLeft size => size = zlen rest /\ size mod 8 = 0 /\ may_retry rest w'
       | SendFailed err => err = tcp_get_last_error w' /\ ~ may_retry rest w'
       end.
Proof using laws.
  induction fuel as [|fuel IH]; intros fd bs w Hne Hlen Hf; [lia|]. cbn [send_loop].
  destruct (tcp_send fd bs w) as [n w1] eqn:E. pose proof (send_law _ _ _ _ _ E) as (Hn & Hpos & _).
  specialize (Hpos Hne). case_test.
  - replace n with (-1) in E by lia.
    assert (Hoff : offered fd bs w bs w1) by (exists w; split; [constructor | auto]).
    destruct (_ || _) eqn:Eb; (eexists _, w1, bs; split; [reflexivity | split; [exact Hoff|]]).
    + split; [reflexivity|]. intros [?|[He Hm]]; [contradiction|].
      change 7 with (Z.ones 3) in Eb. rewrite Z.land_ones in Eb by lia. change (2 ^ 3) with 8 in Eb. lia.
    + change 7 with (Z.ones 3) in Eb. rewrite Z.land_ones in Eb by lia.
      change (2 ^ 3) with 8 in Eb. split; [reflexivity|]. split; [lia|]. right. lia.
  - rewrite u32_id by word_lia. case_test.
    + destruct (IH fd (drop (Z.to_nat n) bs) w1) as (r & w' & rest & Er & (w2 & Hs & Hend) & Hr).
      { intros E0. apply (f_equal length) in E0. rewrite length_drop in E0. cbn [length] in E0. lia. }
      { rewrite length_drop. lia. }
      { rewrite length_drop. lia. }
      exists r, w', rest. split; [exact Er|]. split; [|exact Hr].
      exists w2. split; [|exact Hend]. apply (sends_more fd bs w n w1 rest w2 E); [lia | exact Hs].
    + eexists (SendLeft (zlen bs - n)), w1, []. split; [reflexivity|].
      split; [|split; [simpl; lia | split; [replace (zlen bs - n) with 0 by lia; reflexivity | left; reflexivity]]].
      exists w1. split; [|auto]. apply (sends_more fd bs w n w1 [] w1 E); [lia|].
      rewrite drop_ge by lia. constructor.
Qed.

(** The blocks of the log that are not sent. *)
Definition pending l : list MsgHeader := drop (Z.to_nat (sent l)) (wires (entries l)).

Lemma blks_bytes_take n xs : take (8 * n) (blks_bytes xs) = blks_bytes (take n xs).
Proof using Type.
  rewrite <- (take_drop n xs) at 1. rewrite blks_bytes_app.
  destruct (decide (n <= length xs)%nat) as [Hn|Hn].
  - apply take_app_length'. rewrite length_blks_bytes, length_take. lia.
  - rewrite (take_ge xs), (drop_ge xs) by lia. cbn. rewrite app_nil_r.
    apply take_ge. rewrite length_blks_bytes. lia.
Qed.

Lemma blks_bytes_drop n xs : drop (8 * n) (blks_bytes xs) = blks_bytes (drop n xs).
Proof using Type.
  rewrite <- (take_drop n xs) at 1. rewrite blks_bytes_app.
  destruct (decide (n <= length xs)%nat) as [Hn|Hn].
  - apply drop_app_length'. rewrite length_blks_bytes, length_take. lia.
  - rewrite (drop_ge xs) by lia. rewrite take_ge by lia. cbn. rewrite app_nil_r.
    apply drop_ge. rewrite length_blks_bytes. lia.
Qed.

(** What one call of [SendPending] may do to an open connection. *)
Inductive sent_outcome c w q l : bool * PTCPConnection * W -> Prop :=
| sent_nothing :
    pending l = [] -> sent_outcome c w q l (false, c, w)
| sent_blocks n c' w' :
    pending l <> [] -> (n <= length (pending l))%nat ->
    offered (sockfd_ c) (blks_bytes (pending l)) w (blks_bytes (drop n (pending l))) w' ->
    may_retry (blks_bytes (drop n (pending l))) w' ->
    outbox (sockfd_ c) w' = outbox (sockfd_ c) w ++ blks_bytes (take n (pending l)) ->
    c' = (if (n =? 0)%nat then c
          else set_q (Some (Sendout (Z.of_nat n) q)) (set_times (recv_time_ c) (now_ c) (now_ c) c)) ->
    sent_outcome c w q l (true, c', w')
| sent_error rest w' :
    pending l <> [] ->
    offered (sockfd_ c) (blks_bytes (pending l)) w rest w' -> ~ may_retry rest w' ->
    sent_outcome c w q l (false, Close "Send error" (tcp_get_last_error w') c, w').

Lemma SendPending_spec c w q l :
  IsClosed c = false -> q_ c = Some q -> Rep q l ->
  exists r, SendPending c w = Ret r /\ sent_outcome c w q l r.
Proof using conf_ok.
  intros Ho Hq HR. unfold SendPending, deref. rewrite Ho, Hq. cbn [mbind res_bind].
  destruct (GetSendable_rep TcpQueueSize ToLittleEndian queue_range q l HR) as [-> Hrd].
  pose proof (rep_bounds _ _ _ _ HR) as B. pose proof (rep_sent _ _ _ _ HR) as Bs.
  pose proof (BLK_CNT_range TcpQueueSize queue_range) as Bc.
  assert (HL : zlen (pending l) = zlen (wires (entries l)) - sent l)
    by (unfold pending; rewrite length_drop; lia).
  rewrite Hrd. fold (pending l). case_test.
  { eexists. split; [reflexivity|]. apply sent_nothing.
    destruct (pending l); [reflexivity | simpl in *; lia]. }
  assert (Hne : pending l <> []) by (intros E; rewrite E in HL; simpl in HL; lia).
  cbn [mbind res_bind].
  destruct (send_loop_spec (send_fuel (blks_bytes (pending l))) (sockfd_ c) (blks_bytes (pending l)) w)
    as (r & w' & rest & -> & Hoff & Hr).
  { intros E. apply (f_equal length) in E. rewrite length_blks_bytes in E. cbn [length] in E. lia. }
  { rewrite length_blks_bytes. lia. }
  { unfold send_fuel. lia. }
  cbn [mbind res_bind]. destruct r as [size|err].
  - destruct Hr as (-> & Hmod & Hretry). pose proof (offered_outbox _ _ _ _ _ Hoff) as (k & Hk & Er & Hout).
    rewrite length_blks_bytes in Hk. pose proof (f_equal length Er) as Lr. rewrite length_drop, length_blks_bytes in Lr.
    assert (exists n, k = (8 * n)%nat) as [nb Ek].
    { exists (Z.to_nat (Z.of_nat k / 8)). clear - Hk Lr Hmod. Z.div_mod_to_equations. lia. }
    subst k. rewrite blks_bytes_take in Hout. rewrite blks_bytes_drop in Er. subst rest.
    assert (Es : Z.shiftr (zlen (blks_bytes (drop nb (pending l)))) 3 = zlen (pending l) - Z.of_nat nb).
    { rewrite Z.shiftr_div_pow2 by lia. change (2 ^ 3) with 8. Z.div_mod_to_equations. lia. }
    rewrite Es. replace (_ - (_ - Z.of_nat nb)) with (Z.of_nat nb) by lia.
    eexists. split; [|eapply (sent_blocks c w q l nb); [exact Hne | lia | exact Hoff | exact Hretry | exact Hout | reflexivity]].
    destruct nb; [reflexivity|]. case_test; [reflexivity | lia].
  - destruct Hr as [-> Hfail]. eexists. split; [reflexivity|]. eapply sent_error; eassumption.
Qed.

(** The fields sending leaves alone. *)
Definition same_receive c c' : Prop :=
  recvbuf_ c' = recvbuf_ c /\ recvbuf_size_ c' = recvbuf_size_ c /\ writeidx_ c' = writeidx_ c
  /\ nextmsg_idx_ c' = nextmsg_idx_ c /\ readidx_ c' = readidx_ c /\ recv_time_ c' = recv_time_ c
  /\ hbmsg_ c' = hbmsg_ c /\ now_ c' = now_ c.

(** The queue afterwards represents the log, with the [n] blocks that were sent. *)
Lemma SendPending_effect c w q l :
  IsClosed c = false -> q_ c = Some q -> Rep q l ->
  exists b c' w' q' n rest, SendPending c w = Ret (b, c', w')
    /\ q_ c' = Some q' /\ Rep q' (spec_sendout n l) /\ 0 <= n <= zlen (pending l)
    /\ offered (sockfd_ c) (blks_bytes (pending l)) w rest w'
    /\ (IsClosed c' = false ->
        b = negb (zlen (pending l) =? 0)
        /\ rest = blks_bytes (drop (Z.to_nat n) (pending l)) /\ may_retry rest w'
        /\ outbox (sockfd_ c) w'
           = outbox (sockfd_ c) w ++ blks_bytes (take (Z.to_nat n) (pending l)))
    /\ (IsClosed c' = true -> b = false /\ n = 0 /\ ~ may_retry rest w'
        /\ GetCloseReason c' = ("Send error"%string, tcp_get_last_error w'))
    /\ same_receive c c'.
Proof using conf_ok.
  intros Ho Hq HR. destruct (SendPending_spec c w q l Ho Hq HR) as ([[b c'] w'] & E & Hout).
  pose proof (spec_sendout_0 l) as Hs0. pose proof (rep_sent _ _ _ _ HR) as Bs.
  exists b, c', w'. inversion Hout as [Hp|n c0 w0 Hp Hle Hoff Hretry Hob Ec|rest w0 Hp Hoff Hfail]; subst.
  - exists q, 0, []. rewrite Hs0, Hp, app_nil_r. split; [exact E|]. split; [exact Hq|]. split; [exact HR|].
    split; [simpl; lia|]. split; [exists w'; split; [constructor | auto]|].
    split; [intros _; repeat split; left; reflexivity | split; [congruence | repeat split]].
  - destruct n as [|m]; cbn [Nat.eqb] in *.
    + exists q, 0, (blks_bytes (pending l)). rewrite Hs0. split; [exact E|]. do 2 (split; [assumption|]). split; [lia|].
      split; [exact Hoff|]. split; [|split; [congruence | repeat split]]. intros _.
      split; [destruct (pending l); [congruence | reflexivity]|]. split; [reflexivity | split; [exact Hretry | exact Hob]].
    + exists (Sendout (Z.of_nat (S m)) q), (Z.of_nat (S m)), (blks_bytes (drop (S m) (pending l))).
      split; [exact E|]. split; [reflexivity|]. split.
      { unfold pending in Hle. rewrite length_drop in Hle.
        apply Sendout_rep; auto; try apply queue_range; lia. }
      split; [lia|]. split; [exact Hoff|]. rewrite Nat2Z.id. split; [|split; [|repeat split]].
      2:{ intros Hc. change (IsClosed c = true) in Hc. congruence. }
      intros _. split; [destruct (pending l); [congruence | reflexivity]|].
      split; [reflexivity | split; [exact Hretry | exact Hob]].
  - exists q, 0, rest. rewrite Hs0. split; [exact E|]. unfold Close. rewrite Ho. cbn [q_ set_close].
    split; [exact Hq|]. split; [exact HR|]. split; [lia|]. split; [exact Hoff|]. split; [discriminate|].
    split; [auto | repeat split].
Qed.
End Send.
