(* ===== verification/PTCPConnTheorems.v ===== *)
(** * What a connection promises

    Sending: the socket gets the blocks of the log, whole and in order, a
    heartbeat when nothing was sent for long, and everything unacknowledged again
    after a reconnection.  Receiving: the user gets the messages of the peer,
    whole and in order, between hosts of any byte order.  Closing: once. *)

From Stdlib Require Import String.
From S2P Require Import Prelude Endian MsgHeader PTCPQueue PTCPQueueSpec Conf PTCPConn.
From S2P Require Import PTCPRecv PTCPFraming PTCPFront PTCPSend.
Local Open Scope Z_scope.

(** ** Sending *)
Section Sending.
Context {platform : Platform} {conf : Conf} {conf_ok : ConfOk conf}.
Context {W : Type} {sockets : Sockets W} {laws : SendLaws W}.
Implicit Types (c : PTCPConnection) (w : W) (q : PTCPQueue) (l : log).
Abbreviation wires := (wires ToLittleEndian).
Abbreviation Rep := (Rep TcpQueueSize ToLittleEndian).


(** *** Heartbeats *)

(** The heartbeat message of a connection is one, in wire order. *)
Definition hb_ok c : Prop :=
  exists a, in_u32 a
    /\ hbmsg_ c = ConvertByteOrder ToLittleEndian (mkHeader sizeof_MsgHeader Heartbeat_type a).

Lemma hb_with_ack c a : hb_ok c -> in_u32 a ->
  mkHeader (size (hbmsg_ c)) (msg_type (hbmsg_ c)) (Convert ToLittleEndian 4 a)
  = ConvertByteOrder ToLittleEndian (mkHeader sizeof_MsgHeader Heartbeat_type a).
Proof using Type. intros (a0 & _ & ->) _. reflexivity. Qed.

Lemma hb_bytes a : in_u32 a ->
  hdr_bytes native_little (ConvertByteOrder ToLittleEndian (mkHeader sizeof_MsgHeader Heartbeat_type a))
  = hdr_bytes ToLittleEndian (mkHeader sizeof_MsgHeader Heartbeat_type a).
Proof using Type.
  intros Ha. apply ConvertByteOrder_bytes. apply hdr_ok_intro; [| |exact Ha];
    unfold in_u16, sizeof_MsgHeader, Heartbeat_type; lia.
Qed.

(** What became of the heartbeat: sent whole, refused by a full socket, or cut or
    failed, which closes the connection.  [n] is what [tcp_send] returned. *)
Definition hb_outcome (now n : Z) w' c c' : Prop :=
  n = sizeof_MsgHeader /\ IsClosed c' = false /\ send_time_ c' = now
  \/ n = -1 /\ tcp_get_last_error w' = TCP_ERR_AGAIN /\ IsClosed c' = false /\ send_time_ c' = send_time_ c
  \/ n <> sizeof_MsgHeader /\ ~ (n = -1 /\ tcp_get_last_error w' = TCP_ERR_AGAIN) /\ IsClosed c' = true
     /\ GetCloseReason c' = ("Send error"%string, if n <? 0 then tcp_get_last_error w' else 0).

Lemma SendHB_msg_spec c w :
  IsClosed c = false ->
  exists c' w' n, SendHB_msg c w = (c', w')
    /\ tcp_send (sockfd_ c) (hdr_bytes native_little (hbmsg_ c)) w = (n, w')
    /\ q_ c' = q_ c /\ hbmsg_ c' = hbmsg_ c /\ hb_outcome (now_ c) n w' c c'.
Proof using laws.
  intros Ho. unfold SendHB_msg, hb_outcome, Close. rewrite Ho.
  destruct (tcp_send _ _ w) as [n w'] eqn:E. apply send_law in E as (Hn & _ & _).
  destruct (_ && _) eqn:Ea; [|destruct (negb _) eqn:Eb]; (eexists _, w', n; split; [reflexivity|]);
    (split; [reflexivity|]); (split; [reflexivity|]); (split; [reflexivity|]).
  - right; left. auto with lia.
  - right; right. split; [lia|]. split; [lia|]. split; reflexivity.
  - left. split; [lia | split; [exact Ho | reflexivity]].
Qed.

(** C30. With nothing pending, SendHB leaves the socket alone before HeartBeatInverval has
    passed since the last send; after it, it offers the socket one heartbeat of 8 bytes in
    wire order with the current acknowledgement: if the socket takes it whole that is the
    time of the last send, if the socket is full nothing changes, and a cut or failed send
    closes the connection with that reason. *)
Theorem SendHB_heartbeat now c w q l :
  IsClosed c = false -> q_ c = Some q -> Rep q l -> hb_ok c -> pending l = [] ->
  exists c' w', SendHB now c w = Ret (c', w') /\ hb_ok c' /\ q_ c' = Some q
    /\ (now - send_time_ c < HeartBeatInverval ->
        w' = w /\ IsClosed c' = false /\ send_time_ c' = send_time_ c)
    /\ (HeartBeatInverval <= now - send_time_ c ->
        let hb := hdr_bytes ToLittleEndian (mkHeader sizeof_MsgHeader Heartbeat_type (ack_seq_num_ q)) in
        exists n, tcp_send (sockfd_ c) hb w = (n, w')
          /\ outbox (sockfd_ c) w' = outbox (sockfd_ c) w ++ take (Z.to_nat n) hb
          /\ hb_outcome now n w' c c').
Proof using conf_ok.
  intros Ho Hq HR Hhb Hp. unfold SendHB. cbn [now_ send_time_ set_times q_]. case_test.
  { eexists _, w. split; [reflexivity|]. split; [exact Hhb|]. split; [exact Hq|]. split; [auto | lia]. }
  rewrite Hq. set (c1 := set_times (recv_time_ c) (send_time_ c) now c).
  destruct (SendPending_spec c1 w q l Ho Hq HR) as ([[b c2] w2] & -> & Hout).
  assert ((b, c2, w2) = (false, c1, w)) as [= -> -> ->] by (inversion Hout; congruence).
  cbn [mbind res_bind]. unfold deref. change (q_ c1) with (q_ c). rewrite Hq. cbn [mbind res_bind].
  assert (Ha : in_u32 (MyAck q)).
  { unfold MyAck. destruct (rep_ack _ _ _ _ HR) as [-> ?]. assumption. }
  rewrite (hb_with_ack c1 (MyAck q) Hhb Ha).
  set (c2 := set_hbmsg _ c1).
  destruct (SendHB_msg_spec c2 w) as (c' & w' & n & -> & Es & Hq' & Hh' & Hend); [exact Ho|].
  exists c', w'. split; [reflexivity|]. split.
  { exists (MyAck q). split; [exact Ha | rewrite Hh'; reflexivity]. }
  split; [rewrite Hq'; exact Hq|]. split; [lia|]. intros _.
  cbn [c2 hbmsg_ set_hbmsg] in Es. rewrite hb_bytes in Es by exact Ha.
  exists n. split; [exact Es|]. split; [apply (send_law _ _ _ _ _ Es) | exact Hend].
Qed.

(** *** Opening *)

Lemma Open_effect fd ack now c w q l :
  fd <> INVALID_TCP_SOCKET -> q_ c = Some q -> Rep q l ->
  in_u32 ack -> spec_acked ack l <= zlen (entries l) ->
  let l1 := spec_login_ack ToLittleEndian ack l in
  let left := wires (entries l1) in
  exists c' w' q' n rest, Open fd ack now c w = Ret (c', w')
    /\ q_ c' = Some q' /\ Rep q' (spec_sendout n l1) /\ 0 <= n <= zlen left
    /\ offered fd (blks_bytes left) w rest w'
    /\ (IsClosed c' = false ->
        rest = blks_bytes (drop (Z.to_nat n) left) /\ may_retry rest w'
        /\ outbox fd w' = outbox fd w ++ blks_bytes (take (Z.to_nat n) left))
    /\ (IsClosed c' = true -> n = 0 /\ ~ may_retry rest w'
        /\ GetCloseReason c' = ("Send error"%string, tcp_get_last_error w'))
    /\ readidx_ c' = 0 /\ nextmsg_idx_ c' = 0 /\ writeidx_ c' = 0
    /\ recv_time_ c' = now /\ recvbuf_size_ c' <> 0.
Proof using conf_ok.
  intros Hfd Hq HR Hack Hle l1 left. unfold Open.
  set (c1 := set_times _ _ _ _). change (q_ c1) with (q_ c). rewrite Hq. cbn [mbind res_bind].
  destruct (LoginAck_rep _ _ queue_range ack q l HR Hack Hle) as (q1 & -> & HR1).
  fold l1 in HR1. cbn [mbind res_bind]. set (c2 := set_q (Some q1) c1).
  assert (Ho : IsClosed c2 = false) by (unfold IsClosed; cbn; lia).
  destruct (SendPending_effect c2 w q1 l1 Ho eq_refl HR1)
    as (b & c3 & w3 & q3 & n & rest & -> & Eq3 & HR3 & Hn & Hoff & Hopen & Hclosed & Hs).
  destruct Hs as (_ & S1 & S2 & S3 & S4 & S5 & _). cbn [mbind res_bind].
  assert (Hfin : exists c', (if recvbuf_size_ c3 =? 0
              then Ret (set_buf (replicate (Z.to_nat TcpRecvBufInitSize) uninit) TcpRecvBufInitSize c3, w3)
              else Ret (c3, w3)) = Ret (c', w3)
            /\ q_ c' = q_ c3 /\ IsClosed c' = IsClosed c3 /\ readidx_ c' = readidx_ c3
            /\ nextmsg_idx_ c' = nextmsg_idx_ c3 /\ writeidx_ c' = writeidx_ c3
            /\ recv_time_ c' = recv_time_ c3 /\ GetCloseReason c' = GetCloseReason c3 /\ recvbuf_size_ c' <> 0).
  { pose proof conf_recv as [Hi _]. case_test; eexists; (split; [reflexivity|]); cbn; auto 10 with lia. }
  destruct Hfin as (c' & -> & F1 & F2 & F3 & F4 & F5 & F6 & F7 & F8). exists c', w3, q3, n, rest.
  rewrite F1, F2, F3, F4, F5, F6, F7, S2, S3, S4, S5.
  split; [reflexivity|]. split; [exact Eq3|]. split; [exact HR3|]. split; [exact Hn|]. split; [exact Hoff|].
  split; [apply Hopen | split; [apply Hclosed | repeat split; assumption]].
Qed.

(** C12. Opening a connection on a queue, with an acknowledgement inside the queue, drops
    what the peer has, rewinds the send index and offers the socket everything left from its
    first block, until the socket took it all or failed to take the rest: the blocks it took
    count as sent if it was full at the end of a block, and any other failure closes the
    connection and counts nothing. The receive buffer starts empty. *)
Theorem Open_resumes fd ack now c w q l :
  fd <> INVALID_TCP_SOCKET -> q_ c = Some q -> Rep q l ->
  in_u32 ack -> spec_acked ack l <= zlen (entries l) ->
  let l1 := spec_login_ack ToLittleEndian ack l in
  let left := wires (entries l1) in
  exists c' w' q' n rest, Open fd ack now c w = Ret (c', w')
    /\ q_ c' = Some q' /\ Rep q' (spec_sendout n l1) /\ 0 <= n <= zlen left
    /\ offered fd (blks_bytes left) w rest w'
    /\ (IsClosed c' = false ->
        rest = blks_bytes (drop (Z.to_nat n) left) /\ may_retry rest w'
        /\ outbox fd w' = outbox fd w ++ blks_bytes (take (Z.to_nat n) left))
    /\ (IsClosed c' = true -> n = 0 /\ ~ may_retry rest w'
        /\ GetCloseReason c' = ("Send error"%string, tcp_get_last_error w'))
    /\ readidx_ c' = 0 /\ nextmsg_idx_ c' = 0 /\ writeidx_ c' = 0
    /\ recv_time_ c' = now /\ recvbuf_size_ c' <> 0.
Proof using conf_ok. exact (Open_effect fd ack now c w q l). Qed.

(** *** Closing *)

(** An open descriptor is not released; the first Close fixes the reason, later ones
    change nothing, and TryCloseFd then closes the descriptor exactly once. *)
Theorem closed_once reason e reason' e' c w :
  IsClosed c = false -> fd_to_close_ c <> INVALID_TCP_SOCKET ->
  let c1 := Close reason e c in
  TryCloseFd c w = (false, c, w)
  /\ IsClosed c1 = true /\ GetCloseReason c1 = (reason, e) /\ Close reason' e' c1 = c1
  /\ exists c2, TryCloseFd c1 w = (true, c2, tcp_close (fd_to_close_ c) w)
       /\ GetCloseReason c2 = (reason, e)
       /\ forall w', TryCloseFd c2 w' = (false, c2, w').
Proof using Type.
  intros Ho Hfd c1. unfold c1, Close. rewrite Ho. unfold TryCloseFd, IsClosed in *. rewrite Ho. cbn.
  apply Z.eqb_neq in Hfd. rewrite Hfd. cbn. repeat split. eexists. repeat split.
Qed.
End Sending.

(** ** Receiving *)
Section Receiving.
Context {platform : Platform} {conf : Conf} {conf_ok : ConfOk conf}.
Context {W : Type} {sockets : Sockets W} {laws : RecvLaws W}.
Implicit Types (c : PTCPConnection) (w : W) (fs coming : list frame) (t : list Z).

(** DoRecv never leaves its buffers, whichever of its three branches it takes: the
    bytes that were not consumed are followed by the bytes the socket gave, in order, in a
    buffer no larger than TcpRecvBufMaxSize with room for them, and the next message index
    moves with them. *)
Theorem DoRecv_keeps_order fd c w U :
  buf_ok c -> holds c U -> zlen U = writeidx_ c - readidx_ c -> sockfd_ c = fd ->
  exists bs c' w', DoRecv c w = Ret (zlen bs, c', w')
    /\ inbox fd w = bs ++ inbox fd w' /\ holds c' (U ++ bs)
    /\ writeidx_ c' - readidx_ c' = zlen U
    /\ nextmsg_idx_ c' - readidx_ c' = nextmsg_idx_ c - readidx_ c
    /\ writeidx_ c' + zlen bs <= recvbuf_size_ c' <= TcpRecvBufMaxSize
    /\ zlen (recvbuf_ c') = recvbuf_size_ c' /\ q_ c' = q_ c.
Proof using conf_ok laws.
  intros Hok HU HL Hfd.
  destruct (DoRecv_spec c w U fd Hok HU HL (or_introl Hfd))
    as (bs & c' & w' & E & [[L Hi Hm _] Hh Hl Hn Hr] & HI & (Hq & _) & _).
  exists bs, c', w'. auto 12 with lia.
Qed.

(** C27. One call of Front cuts exactly the messages completed by the bytes it received,
    converts each header once, applies their acknowledgements, skips leading heartbeats, and
    returns the first message that is not consumed, which is never a heartbeat, or nullptr
    if there is none. *)
Theorem Front_cuts_frames fd c w fs t coming qN :
  receiving fd c w fs t coming qN ->
  exists p c' w' new coming' t', Front c w = Ret (p, c', w')
    /\ coming = new ++ coming'
    /\ receiving fd c' w' (strip (fs ++ new)) t' coming' qN
    /\ match strip (fs ++ new) with
       | [] => p = None
       | f :: _ => exists idx, p = Some idx /\ read_msg c' idx = Ret f /\ is_hb f = false
       end.
Proof using conf_ok laws.
  intros H. destruct (Front_spec fd c w fs t coming qN H) as (c' & w' & t' & new & coming' & E & H' & Ec).
  exists (front_ptr c' (strip (fs ++ new))), c', w', new, coming', t'.
  split; [exact E|]. split; [exact Ec|]. split; [exact H'|].
  destruct (strip (fs ++ new)) as [|f fs'] eqn:Es; [reflexivity|].
  exists (readidx_ c'). split; [reflexivity|]. split; [|exact (strip_head _ _ _ Es)].
  exact (read_msg_front c' f fs' _ (rv_cut _ _ _ _ _ _ _ H')).
Qed.

(** A connection that was just opened. *)
Lemma receiving_start fd c w coming q qN :
  sockfd_ c = fd -> q_ c = Some q -> ack_all coming q = Ret qN ->
  zlen (recvbuf_ c) = recvbuf_size_ c -> recvbuf_size_ c <= TcpRecvBufMaxSize ->
  Forall in_byte (recvbuf_ c) -> readidx_ c = 0 -> nextmsg_idx_ c = 0 -> writeidx_ c = 0 ->
  Forall frame_ok coming -> inbox fd w = raws coming ->
  receiving fd c w [] [] coming qN.
Proof using conf_ok.
  intros Hfd Hq HA L Hmax Hb Hr Hn Hw HF HI. split; auto.
  - change (conv []) with (@nil Z).
    split; cbn; try lia; [split; auto; lia | | constructor].
    exists [], (recvbuf_ c). split; [reflexivity | simpl; lia].
  - left. simpl. lia.
  - eauto.
Qed.

(** When the socket has nothing left, nothing is stuck in the buffer. *)
Lemma gap_drained t tail coming :
  gap t coming -> t = raws coming ++ tail -> Forall frame_ok coming -> zlen tail < 8 /\ coming = [].
Proof using Type.
  intros [L|(f & rest & -> & L)] -> HF.
  - rewrite length_app in L. destruct HF as [|f rest Hf _]; [simpl in L; split; [lia | reflexivity]|].
    rewrite raws_cons, length_app in L. pose proof (zlen_raw f Hf). pose proof (fsize_pos f Hf). lia.
  - apply Forall_cons_iff in HF as [Hf _]. rewrite raws_cons, !length_app in L. pose proof (zlen_raw f Hf). lia.
Qed.

Lemma receiving_drained fd c w fs t coming qN :
  receiving fd c w fs t coming qN -> inbox fd w = [] -> coming = [].
Proof using conf_ok.
  rewrite receiving_stream. intros [_ Hg HF Et _ _] HI. rewrite HI, app_nil_r in Et.
  apply (gap_drained t [] coming Hg Et HF).
Qed.

(** C2. However the socket cuts the stream of a well-behaved peer into pieces, a user that
    calls Front n times and pops every message gets, whole and in order, a prefix of the
    messages the peer sent without its heartbeats, and the others are in the buffer or still
    to come; nothing is lost: once the socket is drained every message was cut and every
    acknowledgement applied, and as many more calls as there are messages left deliver all
    of them, after which the queue has counted every message of the peer. *)
Theorem messages_in_order n fd c w fs t coming qN :
  receiving fd c w fs t coming qN ->
  exists ms c' w' fs' t' coming', poll n c w = Ret (ms, c', w')
    /\ ms ++ visible (fs' ++ coming') = visible (fs ++ coming)
    /\ receiving fd c' w' fs' t' coming' (Nat.iter (length ms) MyAck_incr qN)
    /\ (inbox fd w' = [] ->
        coming' = [] /\ q_ c' = Some (Nat.iter (length ms) MyAck_incr qN)
        /\ forall m, (length (visible fs') <= m)%nat ->
           exists c'' w'', poll m c' w' = Ret (visible fs', c'', w'')
             /\ ms ++ visible fs' = visible (fs ++ coming)
             /\ q_ c'' = Some (Nat.iter (length (visible (fs ++ coming))) MyAck_incr qN)).
Proof using conf_ok laws.
  intros H. destruct (poll_spec n fd c w fs t coming qN H)
    as (ms & c' & w' & fs' & t' & coming' & qN' & E & H' & Ev & <-).
  exists ms, c', w', fs', t', coming'. split; [exact E|]. split; [exact Ev|]. split; [exact H'|].
  intros HI. pose proof (receiving_drained _ _ _ _ _ _ _ H' HI) as ->. rewrite app_nil_r in Ev.
  split; [reflexivity|]. split.
  { destruct (rv_queue _ _ _ _ _ _ _ H') as (q' & Hq' & [= ->]). exact Hq'. }
  intros m Hm. destruct (poll_drains m fd c' w' fs' t' _ H' Hm) as (c'' & w'' & Em & Hq'').
  exists c'', w''. split; [exact Em|]. split; [exact Ev|].
  rewrite Hq'', <- Ev, length_app, Nat.add_comm, Nat.iter_add. reflexivity.
Qed.

(** C31. When the peer's messages are followed by a header that announces more than
    TcpRecvBufMaxSize, and that header was not complete before, a call of Front either meets
    that header or leaves the socket with bytes to read and behaves as if the header were
    not there; if it meets it, Front returns nullptr and the connection is closed with that
    reason, after the acknowledgements of all the messages and of that header were applied,
    with the messages that are not consumed still in the buffer. *)
Theorem oversize_message_closes tail fd c w fs t coming qN qB :
  fd <> INVALID_TCP_SOCKET -> oversize tail -> Ack ToLittleEndian (ack_seq (header_of tail)) qN = Ret qB ->
  stream_of tail fd c w fs t coming qN ->
  exists p c' w' t' new coming', Front c w = Ret (p, c', w') /\ coming = new ++ coming'
    /\ cutting c' (strip (fs ++ new)) (conv t')
    /\ ((p = None /\ coming' = [] /\ 8 <= zlen t' /\ t' ++ inbox fd w' = tail
         /\ q_ c' = Some qB /\ IsClosed c = false /\ IsClosed c' = true
         /\ GetCloseReason c' = ("Msg size larger than recv buf max size"%string, 0))
        \/ (p = front_ptr c' (strip (fs ++ new)) /\ inbox fd w' <> []
            /\ stream_of tail fd c' w' (strip (fs ++ new)) t' coming' qN)).
Proof using conf_ok laws.
  intros Hfd Hov HA H. assert (Htl : ending tail qN) by (right; eauto).
  destruct (Front_stream tail fd c w fs t coming qN Htl H) as (p & c' & w' & t' & new & coming' & E & Ec & Hcut & Hend).
  exists p, c', w', t', new, coming'. split; [exact E|]. split; [exact Ec|]. split; [exact Hcut|].
  destruct Hend as [[Ep H']|(Ep & _ & Enil & H8 & Et & ((q & EA & Hq) & Hcl & Hr) & Hop)]; [right | left].
  - split; [exact Ep|]. split; [|exact H']. intros HI. destruct H' as [_ Hg HF Et _ _].
    rewrite HI, app_nil_r in Et. destruct Hov as [H8 _]. pose proof (gap_drained t' tail coming' Hg Et HF). lia.
  - specialize (Hop Hfd). do 4 (split; [assumption|]). split; [rewrite Hq; congruence|]. auto.
Qed.
End Receiving.

(** ** From one host to another *)
Section Transfer.
Context {conf : Conf} {conf_ok : ConfOk conf}.

(** The message of a queue entry, its body as the bytes in the sender's memory. *)
Definition frame_of (sender : Platform) (m : msg) : frame :=
  mkFrame (m_hdr m) (@blks_bytes sender (m_body m)).

(** A message the receiver accepts. *)
Definition fits (m : msg) : Prop :=
  msg_ok m /\ 8 <= size (m_hdr m) /\ msg_size (m_hdr m) <= TcpRecvBufMaxSize
  /\ (msg_type (m_hdr m) = Heartbeat_type -> size (m_hdr m) = 8).

Lemma blks_bytes_in_byte (p : Platform) bs : Forall in_byte (blks_bytes bs).
Proof using Type.
  induction bs as [|b bs IH]; [constructor|]. unfold blks_bytes in *. cbn [flat_map].
  rewrite Forall_app. auto using hdr_bytes_in_byte.
Qed.

Lemma frame_of_ok sender m : fits m -> frame_ok (frame_of sender m).
Proof using Type.
  intros ((Hh & Hb & Hl) & H8 & Hmax & Hhb). unfold frame_ok, frame_of, fsize, is_hb. cbn [fhdr fbody].
  split; [exact Hh|]. split; [apply blks_bytes_in_byte|].
  split; [rewrite length_blks_bytes, msg_size_blocks; unfold sizeof_MsgHeader in *; lia|].
  split; [exact H8|]. split; [exact Hmax|]. intros E. apply Hhb. lia.
Qed.

(** The blocks of a message are the same bytes for both hosts. *)
Lemma wire_bytes (sender receiver : Platform) m :
  msg_ok m ->
  @blks_bytes sender (@wire sender ToLittleEndian m) = @raw receiver conf (frame_of sender m).
Proof using Type.
  intros (Hh & _). unfold wire, raw, frame_of, blks_bytes. cbn [flat_map fhdr fbody].
  rewrite !ConvertByteOrder_bytes by exact Hh. reflexivity.
Qed.

Lemma wires_bytes (sender receiver : Platform) ms :
  Forall msg_ok ms ->
  @blks_bytes sender (@wires sender ToLittleEndian ms)
  = @raws receiver conf (frame_of sender <$> ms).
Proof using Type.
  induction 1 as [|m ms Hm _ IH]; [reflexivity|].
  rewrite (wires_cons (platform:=sender)), blks_bytes_app, IH, (wire_bytes sender receiver m Hm).
  reflexivity.
Qed.

Context {W : Type} {sockets : Sockets W} {laws : RecvLaws W}.

(** C5. Messages that a host of one byte order has in its queue, sent as the bytes of the
    queue's blocks, are what a host of any byte order reads: polling yields in order a
    prefix of the same headers and body bytes. *)
Theorem transfer (sender receiver : Platform) n fd c w q qN ms :
  Forall fits ms ->
  inbox fd w = @blks_bytes sender (@wires sender ToLittleEndian ms) ->
  sockfd_ c = fd -> q_ c = Some q -> @ack_all receiver conf (frame_of sender <$> ms) q = Ret qN ->
  zlen (recvbuf_ c) = recvbuf_size_ c -> recvbuf_size_ c <= TcpRecvBufMaxSize ->
  Forall in_byte (recvbuf_ c) -> readidx_ c = 0 -> nextmsg_idx_ c = 0 -> writeidx_ c = 0 ->
  exists got c' w' rest, @poll receiver conf W sockets n c w = Ret (got, c', w')
    /\ got ++ rest = visible (frame_of sender <$> ms).
Proof using conf_ok laws.
  intros Hms HI Hfd Hq HA L Hmax Hb Hr Hn Hw.
  assert (Hok : Forall msg_ok ms) by (eapply Forall_impl; [|exact Hms]; intros m (? & _); assumption).
  rewrite (wires_bytes sender receiver ms Hok) in HI.
  assert (HF : Forall frame_ok (frame_of sender <$> ms)).
  { apply Forall_fmap. eapply Forall_impl; [|exact Hms]. intros m. apply frame_of_ok. }
  pose proof (receiving_start (platform:=receiver) fd c w _ q qN Hfd Hq HA L Hmax Hb Hr Hn Hw HF HI) as H.
  destruct (poll_spec n fd c w [] [] _ qN H) as (got & c' & w' & fs' & _ & coming' & _ & E & _ & Ev & _).
  exists got, c', w', (visible (fs' ++ coming')). auto.
Qed.
End Transfer.

(** ** The theorems at a concrete connection

    The configuration of server.cpp on a little-endian host, with a scripted
    socket. *)
Section Witnesses.
#[local] Instance host : Platform := true.
#[local] Existing Instance ServerConf.

Definition a_body : list MsgHeader := [mkHeader 1 2 3].
(** A queue with a message of two blocks that nothing was sent of. *)
Definition sending_queue : PTCPQueue :=
  match PTCPQueue.Alloc TcpQueueSize 8 (zero_queue TcpQueueSize) with
  | Ret (q, Some p) =>
      match (q ← Fill p 5 a_body q; PTCPQueue.Push ToLittleEndian q) with Ret q => q | _ => q end
  | _ => zero_queue TcpQueueSize
  end.
Definition sending_log : log := spec_send 8 5 a_body (mkLog [] 0 0 0).

Lemma idle_queue_rep : Rep TcpQueueSize ToLittleEndian (zero_queue TcpQueueSize) (mkLog [] 0 0 0).
Proof. apply rep_zero; [apply queue_range | concrete]. Qed.

Lemma sending_queue_rep : Rep TcpQueueSize ToLittleEndian sending_queue sending_log.
Proof.
  destruct (Alloc_room TcpQueueSize ToLittleEndian queue_range 8 (zero_queue TcpQueueSize) (mkLog [] 0 0 0)
              idle_queue_rep) as (q1 & E1 & HR1); try concrete.
  destruct (Fill_Push TcpQueueSize ToLittleEndian queue_range 8 5 a_body q1 (mkLog [] 0 0 0) HR1)
    as (q2 & E2 & HR2); try concrete.
  unfold sending_queue. rewrite E1, E2. exact HR2.
Qed.

Definition a_fd : Z := 7.
Definition conn_with (q : PTCPQueue) : PTCPConnection :=
  set_buf (replicate 1000 205) 1000 (set_q (Some q) (set_fds a_fd a_fd PTCPConnection_init)).
Definition world_of (evs : list io_event) : world := mkWorld evs [] 0 [].


Lemma SendHB_heartbeat_witness :
  exists c' w', SendHB (4 * NanoInSecond) (conn_with (zero_queue TcpQueueSize)) (world_of [EvSend 8]) = Ret (c', w')
    /\ hb_ok c' /\ q_ c' = Some (zero_queue TcpQueueSize)
    /\ outbox a_fd w' = hdr_bytes ToLittleEndian (mkHeader 8 0 0)
    /\ IsClosed c' = false /\ send_time_ c' = 4 * NanoInSecond.
Proof.
  destruct (SendHB_heartbeat (4 * NanoInSecond) (conn_with (zero_queue TcpQueueSize)) (world_of [EvSend 8])
              (zero_queue TcpQueueSize) (mkLog [] 0 0 0) eq_refl eq_refl idle_queue_rep) as (c' & w' & E & Hhb & Hq & _ & H);
    [exists 0; concrete | reflexivity |].
  destruct H as (n & Es & Ho & Hend); [concrete|]. exists c', w'.
  injection Es as <- <-. destruct Hend as [(_ & Hc & Ht)|[[? _]|[? _]]]; [|discriminate|contradiction].
  do 3 (split; [assumption|]). split; [exact Ho | split; assumption].
Defined.

(** Two blocks to send again, of which the socket takes one and is then full. *)
Definition reopened : res (PTCPConnection * world) :=
  Open a_fd 0 5 (set_q (Some sending_queue) PTCPConnection_init) (world_of [EvSend 8; EvError 11]).
Definition unsent : list MsgHeader := wires ToLittleEndian (entries (spec_login_ack ToLittleEndian 0 sending_log)).
Lemma length_unsent : length unsent = 2%nat.
Proof. vm_compute. reflexivity. Qed.
Lemma reopened_run c w : reopened = Ret (c, w) -> IsClosed c = false /\ length (outbox a_fd w) = 8%nat.
Proof.
  intros E. assert (match reopened with
                    | Ret (c, w) => IsClosed c = false /\ length (outbox a_fd w) = 8%nat
                    | _ => False
                    end) as H by (vm_compute; split; reflexivity).
  rewrite E in H. exact H.
Qed.

Lemma Open_resumes_witness :
  exists c' w' q' n rest, reopened = Ret (c', w') /\ q_ c' = Some q'
    /\ Rep TcpQueueSize ToLittleEndian q' (spec_sendout n (spec_login_ack ToLittleEndian 0 sending_log))
    /\ offered a_fd (blks_bytes unsent) (world_of [EvSend 8; EvError 11]) rest w'
    /\ IsClosed c' = false /\ n = 1 /\ outbox a_fd w' = blks_bytes (take 1 unsent).
Proof.
  destruct (Open_resumes a_fd 0 5 (set_q (Some sending_queue) PTCPConnection_init) (world_of [EvSend 8; EvError 11])
              sending_queue sending_log) as (c' & w' & q' & n & rest & E & Hq & HR & Hn & Hoff & Hopen & _);
    [concrete | reflexivity | apply sending_queue_rep | concrete | concrete |].
  fold unsent in *. destruct (reopened_run c' w' E) as [Hc L]. destruct (Hopen Hc) as (_ & _ & Ho).
  change (outbox a_fd (world_of _)) with (@nil Z) in Ho. cbn [app] in Ho.
  assert (n = 1) as ->.
  { rewrite Ho, length_blks_bytes, length_take, length_unsent in L. lia. }
  exists c', w', q', 1, rest. do 6 (split; [assumption || reflexivity|]). exact Ho.
Defined.

Definition closed_conn : PTCPConnection := Close "Timeout" 0 (conn_with sending_queue).
Lemma closed_once_witness :
  TryCloseFd (conn_with sending_queue) (world_of []) = (false, conn_with sending_queue, world_of [])
  /\ IsClosed closed_conn = true /\ GetCloseReason closed_conn = ("Timeout"%string, 0)
  /\ Close "Release" 1 closed_conn = closed_conn
  /\ exists c2, TryCloseFd closed_conn (world_of []) = (true, c2, mkWorld [] [] 0 [a_fd])
       /\ GetCloseReason c2 = ("Timeout"%string, 0)
       /\ forall w', TryCloseFd c2 w' = (false, c2, w').
Proof.
  refine (closed_once "Timeout" 0 "Release" 1 (conn_with sending_queue) (world_of []) _ _);
    [reflexivity | concrete].
Defined.

(** *** Receiving: two messages with a heartbeat between them, in three pieces *)
Definition two_msgs : list msg :=
  [mkMsg (mkHeader 16 5 0) a_body; mkMsg (mkHeader 8 0 0) []; mkMsg (mkHeader 13 6 0) [mkHeader 9 9 9]].
Definition two_frames : list frame := frame_of host <$> two_msgs.
Definition stream_bytes : list Z := blks_bytes (wires ToLittleEndian two_msgs).
Definition in_pieces : world :=
  world_of [EvRecv (take 5 stream_bytes); EvError 11; EvRecv (take 16 (drop 5 stream_bytes));
            EvRecv (drop 21 stream_bytes)].
Definition receiver_conn : PTCPConnection := conn_with (zero_queue TcpQueueSize).

Lemma two_msgs_fit : Forall fits two_msgs.
Proof. concrete. Qed.
Lemma buffer_bytes : Forall in_byte (recvbuf_ receiver_conn).
Proof. apply Forall_replicate. concrete. Qed.

Lemma receiver_receiving : receiving a_fd receiver_conn in_pieces [] [] two_frames (zero_queue TcpQueueSize).
Proof.
  apply (receiving_start a_fd receiver_conn in_pieces two_frames (zero_queue TcpQueueSize));
    try reflexivity; [concrete | apply buffer_bytes |].
  apply Forall_fmap. eapply Forall_impl; [|apply two_msgs_fit]. intros m. apply frame_of_ok.
Qed.

Lemma DoRecv_keeps_order_witness :
  exists bs c' w', DoRecv receiver_conn in_pieces = Ret (zlen bs, c', w')
    /\ inbox a_fd in_pieces = bs ++ inbox a_fd w' /\ holds c' ([] ++ bs)
    /\ writeidx_ c' - readidx_ c' = zlen (@nil Z)
    /\ nextmsg_idx_ c' - readidx_ c' = 0 - 0
    /\ writeidx_ c' + zlen bs <= recvbuf_size_ c' <= TcpRecvBufMaxSize
    /\ zlen (recvbuf_ c') = recvbuf_size_ c' /\ q_ c' = Some (zero_queue TcpQueueSize).
Proof.
  refine (DoRecv_keeps_order a_fd receiver_conn in_pieces [] _ _ _ _); try reflexivity.
  - split; [reflexivity | concrete | concrete | apply buffer_bytes].
  - exists [], (recvbuf_ receiver_conn). split; reflexivity.
Defined.

Lemma Front_cuts_frames_witness :
  exists p c' w' new coming' t', Front receiver_conn in_pieces = Ret (p, c', w')
    /\ two_frames = new ++ coming'
    /\ receiving a_fd c' w' (strip ([] ++ new)) t' coming' (zero_queue TcpQueueSize)
    /\ match strip ([] ++ new) with
       | [] => p = None
       | f :: _ => exists idx, p = Some idx /\ read_msg c' idx = Ret f /\ is_hb f = false
       end.
Proof. exact (Front_cuts_frames _ _ _ _ _ _ _ receiver_receiving). Defined.

Lemma messages_in_order_witness :
  exists ms c' w' fs' t' coming', poll 6 receiver_conn in_pieces = Ret (ms, c', w')
    /\ ms ++ visible (fs' ++ coming') = visible ([] ++ two_frames)
    /\ receiving a_fd c' w' fs' t' coming' (Nat.iter (length ms) MyAck_incr (zero_queue TcpQueueSize))
    /\ (inbox a_fd w' = [] ->
        coming' = [] /\ q_ c' = Some (Nat.iter (length ms) MyAck_incr (zero_queue TcpQueueSize))
        /\ forall m, (length (visible fs') <= m)%nat ->
           exists c'' w'', poll m c' w' = Ret (visible fs', c'', w'')
             /\ ms ++ visible fs' = visible ([] ++ two_frames)
             /\ q_ c'' = Some (Nat.iter (length (visible ([] ++ two_frames))) MyAck_incr (zero_queue TcpQueueSize))).
Proof. exact (messages_in_order 6 _ _ _ _ _ _ _ receiver_receiving). Defined.
Example all_delivered :
  match poll 6 receiver_conn in_pieces with
  | Ret (ms, _, w') => ms = visible two_frames /\ inbox a_fd w' = []
  | _ => False
  end.
Proof. vm_compute. split; reflexivity. Qed.

(** The two messages and a header that announces 3000 bytes, when the limit is 2000. *)
Definition big_header : list Z := hdr_bytes native_little (ConvertByteOrder ToLittleEndian (mkHeader 3000 5 0)).
Definition then_big : world := world_of [EvRecv (stream_bytes ++ big_header)].

Lemma stream_then_big : stream_of big_header a_fd receiver_conn then_big [] [] two_frames (zero_queue TcpQueueSize).
Proof.
  destruct receiver_receiving as [Hc _ HF _ Hq Hs]. split; [exact Hc | left; reflexivity | exact HF | | exact Hq | exact Hs].
  vm_compute. reflexivity.
Qed.

Lemma then_big_read p c w : Front receiver_conn then_big = Ret (p, c, w) -> inbox a_fd w = [].
Proof.
  intros E. assert (match Front receiver_conn then_big with Ret (_, _, w) => inbox a_fd w = [] | _ => False end) as H
    by (vm_compute; reflexivity).
  rewrite E in H. exact H.
Qed.

Lemma oversize_message_closes_witness :
  exists c' w' t', Front receiver_conn then_big = Ret (None, c', w')
    /\ cutting c' (strip two_frames) (conv t') /\ t' = big_header
    /\ q_ c' = Some (zero_queue TcpQueueSize) /\ IsClosed c' = true
    /\ GetCloseReason c' = ("Msg size larger than recv buf max size"%string, 0).
Proof.
  destruct (oversize_message_closes big_header a_fd receiver_conn then_big [] [] two_frames (zero_queue TcpQueueSize)
              (zero_queue TcpQueueSize)) as (p & c' & w' & t' & new & coming' & E & Ec & Hcut & Hend);
    [concrete | split; [concrete | split; [apply hdr_bytes_in_byte | concrete]] | vm_compute; reflexivity
    | apply stream_then_big |].
  pose proof (then_big_read p c' w' E) as HI.
  destruct Hend as [(-> & -> & _ & Et & Hq & _ & Hcl & Hr)|(_ & HN & _)]; [|contradiction].
  rewrite HI, app_nil_r in Et. rewrite app_nil_r in Ec. subst new. cbn [app] in Hcut.
  exists c', w', t'. auto 10.
Defined.

(** The same stream read by a big-endian host. *)
Lemma transfer_witness :
  exists got c' w' rest, @poll false _ _ _ 6 receiver_conn in_pieces = Ret (got, c', w')
    /\ got ++ rest = visible (frame_of host <$> two_msgs).
Proof.
  refine (transfer host false 6 a_fd receiver_conn in_pieces (zero_queue TcpQueueSize)
            (zero_queue TcpQueueSize) two_msgs two_msgs_fit _ eq_refl eq_refl _ eq_refl _ buffer_bytes
            eq_refl eq_refl eq_refl); (vm_compute; reflexivity) || concrete.
Defined.
End Witnesses.
