(* ===== verification/CString.v ===== *)
(** * C strings

    Names are [char] arrays: a list of bytes, of which those before the first
    zero are the string.  This file has what the library uses of <string.h>. *)

From Stdlib Require Import String Ascii.
From S2P Require Import Prelude.
Local Open Scope Z_scope.

(** The bytes of a literal. *)
Definition lit (s : string) : list Z := (fun a => Z.of_nat (nat_of_ascii a)) <$> list_ascii_of_string s.

(** The string an array holds. *)
Fixpoint cstr (a : list Z) : list Z :=
  match a with
  | [] => []
  | b :: a => if b =? 0 then [] else b :: cstr a
  end.

(** [strncpy(dst, src, n)]: at most [n] bytes of the string, then zeros up to [n]. *)
Definition strncpy (dst src : list Z) (n : Z) : res (list Z) :=
  let s := take (Z.to_nat n) (cstr src) in
  write_at dst 0 (s ++ replicate (Z.to_nat n - length s) 0).

(** [strncmp(a, b, n) == 0] *)
Definition strncmp_eq (a b : list Z) (n : Z) : bool :=
  bool_decide (take (Z.to_nat n) (cstr a) = take (Z.to_nat n) (cstr b)).

(** [a[n] = 0] *)
Definition terminate (a : list Z) (n : Z) : res (list Z) := st a n 0.

Lemma cstr_nz a : Forall (fun b => b <> 0) (cstr a).
Proof.
  induction a as [|b a IH]; [constructor|]. simpl. case_test; [constructor | constructor; auto].
Qed.

Lemma cstr_id s : Forall (fun b => b <> 0) s -> cstr s = s.
Proof. induction 1 as [|b s Hb _ IH]; [reflexivity|]. simpl. case_test; [congruence | rewrite IH; reflexivity]. Qed.

Lemma cstr_app_zeros s k : Forall (fun b => b <> 0) s -> cstr (s ++ replicate k 0) = s.
Proof.
  induction 1 as [|b s Hb _ IH]; [destruct k; reflexivity|]. simpl.
  case_test; [congruence | rewrite IH; reflexivity].
Qed.

Lemma length_cstr a : zlen (cstr a) <= zlen a.
Proof. induction a as [|b a IH]; simpl; [lia|]. case_test; simpl; lia. Qed.

(** A whole array is filled. *)
Lemma strncpy_spec dst src n :
  zlen dst = n -> 0 <= n ->
  exists a, strncpy dst src n = Ret a /\ zlen a = n /\ cstr a = take (Z.to_nat n) (cstr src).
Proof.
  intros L Hn. unfold strncpy. set (s := take (Z.to_nat n) (cstr src)).
  assert (Ls : zlen s <= n) by (unfold s; rewrite length_take; lia).
  unfold write_at. rewrite length_app, length_replicate.
  destruct (_ && _) eqn:B; [|lia]. simpl. eexists. split; [reflexivity|].
  rewrite drop_ge by lia. rewrite app_nil_r. split.
  - rewrite length_app, length_replicate. lia.
  - apply cstr_app_zeros. unfold s. apply Forall_take, cstr_nz.
Qed.

Lemma cstr_head a : cstr a = [] <-> a = [] \/ exists t, a = 0 :: t.
Proof.
  destruct a as [|b t]; simpl; [tauto|]. case_test; split; intros H0; eauto.
  - right. exists t. congruence.
  - discriminate H0.
  - destruct H0 as [H0|[t' H0]]; congruence.
Qed.
