(* ===== verification/TcpShmConn.v ===== *)
(** * Connections (class TcpShmConnection of src/tcpshm/tcpshm_conn.h)

    A connection sends its messages through the queue of its TCP connection or,
    when both ends are on one host, through two rings in shared memory; then TCP
    carries only heartbeats.  Queue files and rings belong to the file system and
    outlive the connection: [disk] holds them by name, so that the ring one end
    sends on is the one the other end receives from. *)

From Stdlib Require Import String.
From stdpp Require Import gmap.
From S2P Require Import Prelude Endian MsgHeader PTCPQueue SPSCVarQueue Conf PTCPConn CString.
Local Open Scope Z_scope.

(** ** Files and shared memory (os.h)

    [my_mmap] and [my_mmap_existing]: [None] is success, [Some] is [*error_msg]
    with [nullptr].  OsPosix.v and OsWindows.v have their code.  What is mapped is
    in [disk]; a new file, or shared-memory object, is all zero. *)
Class Mmap (W : Type) : Type := {
  my_mmap : forall (use_shm : bool) (filename : list Z), W -> option string * W;
  my_mmap_existing : forall (use_shm : bool) (filename : list Z), W -> option string * W
}.

Record disk : Type := mkDisk {
  ptcp_files : gmap (list Z) PTCPQueue;
  shm_objects : gmap (list Z) SPSCVarQueue
}.

Definition set_file (name : list Z) (q : PTCPQueue) (d : disk) : disk :=
  mkDisk (<[name := q]> (ptcp_files d)) (shm_objects d).
Definition set_shm (name : list Z) (q : SPSCVarQueue) (d : disk) : disk :=
  mkDisk (ptcp_files d) (<[name := q]> (shm_objects d)).

(** ** The connection *)

(** [shm_sendq_] and [shm_recvq_] are the names of the objects they map;
    [file_] is the file [ptcp_conn_.q_] maps. *)
Record TcpShmConnection : Type := mkTSConn {
  local_name_ : list Z;
  remote_name_ : list Z;  (* char[NameSize] *)
  ptcp_dir_ : list Z;
  ptcp_conn_ : PTCPConnection;
  file_ : list Z;
  shm_sendq_ : option (list Z);
  shm_recvq_ : option (list Z)
}.

Definition set_ptcp (p : PTCPConnection) (c : TcpShmConnection) : TcpShmConnection :=
  mkTSConn (local_name_ c) (remote_name_ c) (ptcp_dir_ c) p (file_ c) (shm_sendq_ c) (shm_recvq_ c).
Definition set_remote (name : list Z) (c : TcpShmConnection) : TcpShmConnection :=
  mkTSConn (local_name_ c) name (ptcp_dir_ c) (ptcp_conn_ c) (file_ c) (shm_sendq_ c) (shm_recvq_ c).
Definition set_shmqs (s r : option (list Z)) (c : TcpShmConnection) : TcpShmConnection :=
  mkTSConn (local_name_ c) (remote_name_ c) (ptcp_dir_ c) (ptcp_conn_ c) (file_ c) s r.
Definition set_mapped (file : list Z) (c : TcpShmConnection) : TcpShmConnection :=
  mkTSConn (local_name_ c) (remote_name_ c) (ptcp_dir_ c) (ptcp_conn_ c) file (shm_sendq_ c) (shm_recvq_ c).

Section TcpShmConnection.
Context {platform : Platform} {conf : Conf} {W : Type} {sockets : Sockets W} {mmap : Mmap W}.
Implicit Types (c : TcpShmConnection) (d : disk) (w : W).

(** The constructor and [init]. *)
Definition TcpShmConnection_init (ptcp_dir local_name : list Z) : TcpShmConnection :=
  mkTSConn local_name (replicate (Z.to_nat NameSize) 0) ptcp_dir PTCPConnection_init [] None None.

Definition GetPtcpFile c : list Z :=
  ptcp_dir_ c ++ lit "/" ++ cstr (local_name_ c) ++ lit "_" ++ cstr (remote_name_ c) ++ lit ".ptcp".
Definition shm_send_file c : list Z :=
  lit "/" ++ cstr (local_name_ c) ++ lit "_" ++ cstr (remote_name_ c) ++ lit ".shm".
Definition shm_recv_file c : list Z :=
  lit "/" ++ cstr (remote_name_ c) ++ lit "_" ++ cstr (local_name_ c) ++ lit ".shm".

Definition TS_IsClosed c : bool := IsClosed (ptcp_conn_ c).
Definition TS_Close c : TcpShmConnection := set_ptcp (RequestClose (ptcp_conn_ c)) c.
Definition TS_GetCloseReason c : string * Z := GetCloseReason (ptcp_conn_ c).

(** An operation of the ring a pointer maps. *)
Definition on_ring {A} (name : list Z) (f : SPSCVarQueue -> res (SPSCVarQueue * A)) d : res (A * disk) :=
  match shm_objects d !! name with
  | None => UB
  | Some q => r ← f q; let '(q, a) := r in Ret (a, set_shm name q d)
  end.
Definition no_result (q : res SPSCVarQueue) : res (SPSCVarQueue * unit) := q ← q; Ret (q, tt).

Definition TS_Alloc (size : Z) c d : res (option Z * TcpShmConnection * disk) :=
  match shm_sendq_ c with
  | Some n => r ← on_ring n (SPSCVarQueue.Alloc ShmQueueSize size) d; let '(p, d) := r in Ret (p, c, d)
  | None => r ← PTCPConn.Alloc size (ptcp_conn_ c); let '(p, t) := r in Ret (p, set_ptcp t c, d)
  end.

Definition TS_Push c d w : res (TcpShmConnection * disk * W) :=
  match shm_sendq_ c with
  | Some n =>
      r ← on_ring n (fun q => no_result (SPSCVarQueue.Push ShmQueueSize q)) d;
      let '(_, d) := r in
      Ret (c, d, w)
  | None => r ← PTCPConn.Push (ptcp_conn_ c) w; let '(t, w) := r in Ret (set_ptcp t c, d, w)
  end.

Definition TS_PushMore c d : res (TcpShmConnection * disk) :=
  match shm_sendq_ c with
  | Some n =>
      r ← on_ring n (fun q => no_result (SPSCVarQueue.Push ShmQueueSize q)) d;
      let '(_, d) := r in
      Ret (c, d)
  | None => t ← PTCPConn.PushMore (ptcp_conn_ c); Ret (set_ptcp t c, d)
  end.

(** [shm_recvq_->Front()] *)
Definition ShmFront c d : res (option Z * disk) :=
  match shm_recvq_ c with
  | Some n => on_ring n (SPSCVarQueue.Front ShmQueueSize) d
  | None => UB
  end.

Definition TS_Front c d w : res (option Z * TcpShmConnection * disk * W) :=
  match shm_recvq_ c with
  | Some n => r ← on_ring n (SPSCVarQueue.Front ShmQueueSize) d; let '(p, d) := r in Ret (p, c, d, w)
  | None => r ← PTCPConn.Front (ptcp_conn_ c) w; let '(p, t, w) := r in Ret (p, set_ptcp t c, d, w)
  end.

Definition TS_Pop c d : res (TcpShmConnection * disk) :=
  match shm_recvq_ c with
  | Some n =>
      r ← on_ring n (fun q => no_result (SPSCVarQueue.Pop ShmQueueSize q)) d;
      let '(_, d) := r in
      Ret (c, d)
  | None => t ← PTCPConn.Pop (ptcp_conn_ c); Ret (set_ptcp t c, d)
  end.

(** What the user does with a message of the ring (client.cpp [Send], server.cpp
    [writeResponse] and [OnClientMsg]): write its blocks, whose first begins with
    the header [Alloc] returned, and read them. *)
Definition ring_fill (p : Z) (bs : list Block) (q : SPSCVarQueue) : res SPSCVarQueue :=
  b ← write_at (blk q) p bs; Ret (SPSCVarQueue.with_blk q b).
Definition ring_read (p : Z) (q : SPSCVarQueue) : res (SPSCVarQueue * list Block) :=
  b ← ld (blk q) p;
  c ← read_at (blk q) p (blocks sizeof_Block (blk_size b));
  Ret (q, c).

(** ** Files *)

(** Mapping an object that does not exist creates it. *)
Definition map_shm (name : list Z) d : disk :=
  match shm_objects d !! name with
  | Some _ => d
  | None => set_shm name (zero_ring ShmQueueSize) d
  end.
Definition map_file (name : list Z) d : PTCPQueue :=
  match ptcp_files d !! name with Some q => q | None => zero_queue TcpQueueSize end.

(** One of the two [if(!shm_xxx_)] blocks: the pointer afterwards, or the error. *)
Definition map_ring (cur : option (list Z)) (name : list Z) d w : (option (list Z) + string) * disk * W :=
  match cur with
  | Some _ => (inl cur, d, w)
  | None =>
      match my_mmap true name w with
      | (None, w) => (inl (Some name), map_shm name d, w)
      | (Some e, w) => (inr e, d, w)
      end
  end.

(** The result is [*error_msg] when it is [false]. *)
Definition TS_OpenFile (use_shm : bool) c d w : option string * TcpShmConnection * disk * W :=
  if use_shm then
    match map_ring (shm_sendq_ c) (shm_send_file c) d w with
    | (inr e, d, w) => (Some e, c, d, w)
    | (inl s, d, w) =>
        let c := set_shmqs s (shm_recvq_ c) c in
        match map_ring (shm_recvq_ c) (shm_recv_file c) d w with
        | (inr e, d, w) => (Some e, c, d, w)
        | (inl r, d, w) => (None, set_shmqs (shm_sendq_ c) r c, d, w)
        end
    end
  else
    match q_ (ptcp_conn_ c) with
    | Some _ => (None, c, d, w)
    | None =>
        match my_mmap false (GetPtcpFile c) w with
        | (Some e, w) => (Some e, set_ptcp (snd (OpenFile None (ptcp_conn_ c))) c, d, w)
        | (None, w) =>
            let q := map_file (GetPtcpFile c) d in
            (None, set_mapped (GetPtcpFile c) (set_ptcp (snd (OpenFile (Some q) (ptcp_conn_ c))) c), d, w)
        end
    end.

(** [None] is [false]; with shared memory the outputs are not written: [Some None]. *)
Definition TS_GetSeq c : res (option (option (Z * (Z * Z)))) :=
  match shm_sendq_ c with
  | Some _ => Ret (Some None)
  | None =>
      r ← GetSeq (ptcp_conn_ c);
      match r with
      | (ack, Some seqs) => Ret (Some (Some (ack, seqs)))
      | (_, None) => Ret None
      end
  end.

Definition TS_Reset c d : res (TcpShmConnection * disk) :=
  match shm_sendq_ c with
  | Some n =>
      match shm_recvq_ c with
      | None => UB
      | Some r => Ret (c, set_shm r (zero_ring ShmQueueSize) (set_shm n (zero_ring ShmQueueSize) d))
      end
  | None => t ← Reset (ptcp_conn_ c); Ret (set_ptcp t c, d)
  end.

(** [remote_name_[0] = 0]; unmapping leaves the content of the queue in the file. *)
Definition TS_Release c d w : res (TcpShmConnection * disk * W) :=
  name ← terminate (remote_name_ c) 0;
  let '(q, t, w) := Release (ptcp_conn_ c) w in
  let d := match q with Some q => set_file (file_ c) q d | None => d end in
  Ret (set_shmqs None None (set_remote name (set_ptcp t c)), d, w).

Definition TS_Open (sock_fd remote_ack_seq now : Z) c w : res (TcpShmConnection * W) :=
  r ← Open sock_fd remote_ack_seq now (ptcp_conn_ c) w;
  let '(t, w) := r in
  Ret (set_ptcp t c, w).

Definition TS_TryCloseFd c w : bool * TcpShmConnection * W :=
  let '(b, t, w) := TryCloseFd (ptcp_conn_ c) w in (b, set_ptcp t c, w).

Definition TcpFront (now : Z) c w : res (option Z * TcpShmConnection * W) :=
  r ← SendHB now (ptcp_conn_ c) w;
  let '(t, w) := r in
  r ← PTCPConn.Front t w;
  let '(p, t, w) := r in
  Ret (p, set_ptcp t c, w).
End TcpShmConnection.

(** A system where mapping always works, over the scripted sockets. *)
#[export] Instance always_mapped : Mmap world := {
  my_mmap _ _ w := (None, w);
  my_mmap_existing _ _ w := (None, w)
}.
