(* ===== verification/RingOps.v ===== *)
(** * The operations of the ring from one call to the next

    Alloc, the user's writes, Push, Front and Pop as whole calls, each a sequence
    of steps of the two processes: they return, and their effect on the messages
    pushed and popped is the one a queue has. *)

From stdpp Require Import relations.
From S2P Require Import Prelude Endian MsgHeader Conf PTCPConn CString TcpShmConn SPSCVarQueue SPSCProps SPSCTheorems.
Local Open Scope Z_scope.

(** Writing a list is writing its elements one after the other. *)
Lemma write_at_cons {A} (l : list A) p x xs :
  write_at l p (x :: xs) = (if p + 1 + zlen xs <=? zlen l then l' ← st l p x; write_at l' (p + 1) xs else UB).
Proof.
  unfold write_at at 1, st. cbn [length].
  destruct (Z.leb_spec (p + 1 + zlen xs) (zlen l)); [|destruct (_ && _) eqn:E; [lia | reflexivity]].
  destruct (Z.leb_spec 0 p); [|reflexivity]. rewrite !andb_true_l.
  destruct (Z.leb_spec (p + Z.of_nat (S (length xs))) (zlen l)); [|lia].
  destruct (Z.ltb_spec p (zlen l)); [|lia]. cbn [mbind res_bind].
  unfold write_at. rewrite length_insert. destruct (_ && _) eqn:E; [|lia]. f_equal.
  replace (Z.to_nat (p + 1)) with (S (Z.to_nat p)) by lia.
  rewrite (take_S_r _ _ x) by (apply list_lookup_insert_eq; lia).
  rewrite take_insert_ge by lia. rewrite <- app_assoc.
  replace (Z.to_nat p + S (length xs))%nat with (S (Z.to_nat p) + length xs)%nat by lia.
  rewrite (drop_insert_lt _ _ (Z.to_nat p)) by lia. reflexivity.
Qed.

Section RingOps.
Context (Bytes : Z) (Bytes_range : 0 <= Bytes < 2 ^ 32).
Context (single_bit : exists k, 0 <= k /\ BLK_CNT Bytes = 2 ^ k).
Abbreviation N := (BLK_CNT Bytes).
Implicit Types (q : SPSCVarQueue) (m : machine).

Lemma inv_step a m m' : inv Bytes m -> step Bytes a m = Some (Ret m') -> inv Bytes m'.
Proof using Bytes_range single_bit.
  intros H E. destruct (step_inv Bytes Bytes_range single_bit a m _ H E) as (m1 & [= <-] & H1). exact H1.
Qed.

Lemma inv_steps acts : forall m m', inv Bytes m -> steps Bytes acts m = Some (Ret m') -> inv Bytes m'.
Proof using Bytes_range single_bit.
  induction acts as [|a acts IH]; intros m m' H E; cbn [steps] in E; [congruence|].
  destruct (step Bytes a m) as [[m1| |]|] eqn:E1; try discriminate E.
  exact (IH m1 m' (inv_step a m m1 H E1) E).
Qed.

Lemma inv_len m : inv Bytes m -> zlen (blk (ring m)) = N.
Proof using Type. intros (C & R & W & ss & HI & _). exact (ri_len _ _ _ _ _ _ HI). Qed.

(** *** Crashes

    Either process may die between two accesses and start again: what it was
    doing is forgotten, the ring is not. *)
Definition restart_writer m : machine := mkMachine (ring m) WIdle (rpc m) (pushed m) (popped m).
Definition restart_reader m : machine := mkMachine (ring m) (wpc m) RIdle (pushed m) (popped m).

Inductive crash_step : machine -> machine -> Prop :=
| crash_go a m m' : step Bytes a m = Some (Ret m') -> crash_step m m'
| crash_writer m : crash_step m (restart_writer m)
| crash_reader m : crash_step m (restart_reader m).

Lemma crash_inv m m' : inv Bytes m -> crash_step m m' -> inv Bytes m'.
Proof using Bytes_range single_bit.
  intros Hi Hs. revert Hi. destruct Hs as [a m0 m1 E | m0 | m0]; intros Hi; [exact (inv_step a m0 m1 Hi E) | |];
    destruct Hi as (C & R & W & ss & HI & Hg & Hw & Hr); exists C, R, W, ss;
    (split; [exact HI|]; split; [exact Hg|]); split; exact I || assumption.
Qed.

Lemma crashes_inv m : rtc crash_step (machine_init Bytes) m -> inv Bytes m.
Proof using Bytes_range single_bit.
  intros H. remember (machine_init Bytes) as m0 eqn:E.
  assert (H0 : inv Bytes m0) by (rewrite E; exact (inv_init Bytes Bytes_range single_bit)). clear E.
  induction H as [|m0 m1 m2 Hs _ IH]; [exact H0|]. apply IH. exact (crash_inv m0 m1 H0 Hs).
Qed.

Lemma inv_fifo m : inv Bytes m ->
  exists in_flight, pushed m = popped m ++ in_flight /\ zlen (concat in_flight) <= N.
Proof using Bytes_range single_bit.
  intros (C & R & W & ss & HI & Hg & _).
  pose proof (ri_le Bytes Bytes_range single_bit _ _ _ _ _ HI).
  exists (msgs ss). split; [exact Hg|].
  pose proof (covers_blocks Bytes Bytes_range single_bit _ _ _ _ (ri_covers _ _ _ _ _ _ HI)). lia.
Qed.

(** C15. If the writing or the reading process dies between any two of its accesses and
    starts again in the middle of nothing, any number of times, the popped contents are
    still a prefix of the pushed ones, those in flight fit the ring, and no access is
    outside it. *)
Theorem ring_survives_crashes m :
  rtc crash_step (machine_init Bytes) m ->
  (exists in_flight, pushed m = popped m ++ in_flight /\ zlen (concat in_flight) <= N)
  /\ forall a o, step Bytes a m = Some o -> exists m', o = Ret m'.
Proof using Bytes_range single_bit.
  intros H. apply crashes_inv in H. split; [exact (inv_fifo m H)|]. intros a o E.
  destruct (step_inv Bytes Bytes_range single_bit a m o H E) as (m' & [= ->] & _). eauto.
Qed.

(** *** Every call returns *)
Lemma ld_blk_total q idx : zlen (blk q) = N -> exists b, ld_blk Bytes q idx = Ret b.
Proof using Bytes_range single_bit.
  intros L. apply ld_inb. rewrite L. apply mod_range. pose proof (N_range Bytes Bytes_range single_bit). lia.
Qed.

Lemma st_size_total q idx sz : zlen (blk q) = N ->
  exists q', st_size Bytes q idx sz = Ret q' /\ zlen (blk q') = N.
Proof using Bytes_range single_bit.
  intros L. destruct (ld_blk_total q idx L) as [b Eb]. unfold st_size. rewrite Eb. cbn [mbind res_bind].
  assert (Hm : 0 <= idx mod N < N)
    by (apply mod_range; pose proof (N_range Bytes Bytes_range single_bit); lia).
  unfold st. destruct (_ && _) eqn:E; [|lia]. eexists. split; [reflexivity|]. simpl.
  rewrite length_insert. exact L.
Qed.

Lemma Alloc_commit_total sz q : zlen (blk q) = N ->
  exists q' w, Alloc_commit Bytes sz q = Ret (q', Some (w mod N)) /\ w = write_idx q'.
Proof using Bytes_range single_bit.
  intros L. unfold Alloc_commit.
  assert (Hfin : forall q0, zlen (blk q0) = N -> exists q' w,
            (q1 ← st_size Bytes q0 (write_idx q0) sz; Ret (q1, Some (write_idx q0 mod N)))
            = Ret (q', Some (w mod N)) /\ w = write_idx q').
  { intros q0 L0. destruct (st_size_total q0 (write_idx q0) sz L0) as (q1 & E & _). rewrite E.
    exists q1, (write_idx q0). split; [reflexivity|]. unfold st_size in E.
    apply bind_Ret in E as (? & _ & E). apply bind_Ret in E as (? & _ & [= <-]). reflexivity. }
  destruct (rewind Bytes sz (write_idx q)).
  - destruct (st_size_total q (write_idx q) 0 L) as (q1 & -> & L1). cbn [mbind res_bind].
    apply (Hfin (with_write_idx q1 _) L1).
  - cbn [mbind res_bind]. apply Hfin. exact L.
Qed.

Lemma Alloc_total size q : zlen (blk q) = N ->
  exists q' p, Alloc Bytes size q = Ret (q', p) /\ (forall i, p = Some i -> i = write_idx q' mod N).
Proof using Bytes_range single_bit.
  intros L. unfold Alloc.
  assert (Hc : forall q0, zlen (blk q0) = N -> exists q' p,
            Alloc_commit Bytes (u16 (size + sizeof_MsgHeader)) q0 = Ret (q', p)
            /\ (forall i, p = Some i -> i = write_idx q' mod N)).
  { intros q0 L0. destruct (Alloc_commit_total (u16 (size + sizeof_MsgHeader)) q0 L0) as (q' & w & -> & ->).
    eexists _, _. split; [reflexivity|]. intros i [= <-]. reflexivity. }
  destruct (too_full _ _ _ (read_idx_cach q)); [|apply Hc; exact L].
  destruct (too_full _ _ _ _); [|apply Hc; exact L].
  eexists _, _. split; [reflexivity | discriminate].
Qed.

Lemma Front_total q : zlen (blk q) = N ->
  exists q' p, Front Bytes q = Ret (q', p) /\ (forall i, p = Some i -> i = read_idx q' mod N).
Proof using Bytes_range single_bit.
  intros L. unfold Front. case_test; [eexists _, _; split; [reflexivity | discriminate]|].
  destruct (ld_blk_total q (read_idx q) L) as [b ->]. cbn [mbind res_bind].
  destruct (blk_size b =? 0).
  - destruct (_ =? _); eexists _, _; (split; [reflexivity|]); [discriminate | intros i [= <-]; reflexivity].
  - eexists _, _. split; [reflexivity | intros i [= <-]; reflexivity].
Qed.

(** When [Front] returns no message the reader has caught up. *)
Lemma Front_None q q' : Front Bytes q = Ret (q', None) -> read_idx q' = write_idx q'.
Proof using Type.
  unfold Front. case_test; [intros [= <-]; assumption|]. intros H.
  apply bind_Ret in H as (b & _ & H). destruct (blk_size b =? 0); [|discriminate H].
  destruct (Z.eqb_spec (u32 (read_idx q + (N - read_idx q mod N))) (write_idx q)); [|discriminate H].
  injection H as <-. assumption.
Qed.

Lemma drained m : inv Bytes m -> read_idx (ring m) = write_idx (ring m) -> pushed m = popped m.
Proof using Bytes_range single_bit.
  intros H E. destruct H as (C & R & W & ss & HI & Hg & _).
  pose proof (used_blocks Bytes Bytes_range single_bit _ _ _ _ _ HI) as Hu.
  rewrite E, Z.sub_diag in Hu. change (u32 0) with 0 in Hu.
  rewrite Hg. enough (msgs ss = []) as -> by apply app_nil_r.
  pose proof (ri_covers _ _ _ _ _ _ HI) as Hc.
  inversion Hc as [R0 | R0 c s0 W0 Hsh Hf Hm Hr | R0 b s0 W0 Hpos Hb Hz Hr]; subst; [reflexivity| |];
    apply covers_le in Hr; try (pose proof (N_range Bytes Bytes_range single_bit); lia).
  - pose proof (msg_shape_pos c Hsh). lia.
  - pose proof (mod_range N ltac:(pose proof (N_range Bytes Bytes_range single_bit); lia) R). lia.
Qed.

(** *** The writer's calls *)

(** Between calls: what the ring holds as a queue of messages. *)
Definition quiet m (sent got : list (list Block)) : Prop :=
  inv Bytes m /\ wpc m = WIdle /\ rpc m = RIdle /\ pushed m = sent /\ popped m = got.

Lemma Alloc_call size m sent got :
  quiet m sent got -> size_ok size = true ->
  exists p m', Alloc Bytes size (ring m) = Ret (ring m', p) /\ inv Bytes m'
    /\ rpc m' = RIdle /\ pushed m' = sent /\ popped m' = got
    /\ match p with
       | Some i => wpc m' = WUser (size + sizeof_MsgHeader) /\ i = write_idx (ring m') mod N
       | None => wpc m' = WIdle
       end.
Proof using Bytes_range single_bit.
  intros (Hr & Hw & Hp & Hs & Hg) Hsz.
  destruct (Alloc_total size (ring m) (inv_len m Hr)) as (q' & p & E & Hi).
  destruct (Alloc_steps Bytes size m q' p Hw Hsz E) as (acts & m' & Est & <- & Hw' & Hrp & Hpu & Hpo).
  exists p, m'. split; [exact E|]. split; [exact (inv_steps acts m m' Hr Est)|].
  rewrite Hrp, Hpu, Hpo. repeat split; auto. destruct p as [i|]; auto.
Qed.

Lemma fill_steps sz bs : forall k m,
  inv Bytes m -> wpc m = WUser sz -> 0 <= k -> k + zlen bs <= Alloc_blk_sz sz ->
  (0 < k \/ match bs with b :: _ => blk_size b = sz | [] => True end) ->
  exists m', inv Bytes m' /\ wpc m' = WUser sz
    /\ write_at (blk (ring m)) (write_idx (ring m) mod N + k) bs = Ret (blk (ring m'))
    /\ ring m' = with_blk (ring m) (blk (ring m'))
    /\ rpc m' = rpc m /\ pushed m' = pushed m /\ popped m' = popped m.
Proof using Bytes_range single_bit.
  induction bs as [|b bs IH]; intros k m Hr Hw Hk Hlen Hb.
  - exists m. split; [exact Hr|]. split; [exact Hw|]. split; [|split; [destruct m as [[]]; reflexivity | auto]].
    pose proof (inv_len m Hr) as L.
    destruct Hr as (C & R & W & ss & HI & _ & Hwi & _).
    rewrite Hw in Hwi. destruct Hwi as (Hsz & _ & Hf & _).
    rewrite (ri_write _ _ _ _ _ _ HI), (u32_mod Bytes Bytes_range single_bit).
    rewrite Alloc_blk_sz_eq in Hlen by exact Hsz.
    pose proof (mod_range N ltac:(pose proof (N_range Bytes Bytes_range single_bit); lia) W).
    unfold write_at. cbn [length] in *. destruct (_ && _) eqn:B; [|lia]. f_equal.
    cbn [app]. rewrite Nat.add_0_r. apply take_drop.
  - cbn [length] in Hlen.
    assert (Es : step Bytes (AWrite k b) m = Some (writer_to m
              (bs ← st (blk (ring m)) (write_idx (ring m) mod N + k) b; Ret (with_blk (ring m) bs)) (WUser sz))).
    { unfold step. rewrite Hw. destruct (_ && _) eqn:B; [reflexivity|]. exfalso. lia. }
    destruct (step_inv Bytes Bytes_range single_bit (AWrite k b) m _
                Hr Es) as (m1 & E1 & _).
    rewrite E1 in Es. pose proof (inv_step _ _ _ Hr Es) as Hr1.
    injection E1 as E1. unfold writer_to in E1. apply bind_Ret in E1 as (q1 & E1 & [= <-]).
    apply bind_Ret in E1 as (bl1 & E1 & [= <-]).
    destruct (IH (k + 1) _ Hr1 eq_refl ltac:(lia) ltac:(lia) ltac:(left; lia))
      as (m2 & H1 & H2 & H3 & H4 & H5 & H6 & H7).
    exists m2. split; [exact H1|]. split; [exact H2|]. cbn [ring blk write_idx with_blk] in *.
    split; [|split; [rewrite H4; reflexivity | auto]].
    rewrite write_at_cons, E1. cbn [mbind res_bind]. rewrite <- H3.
    replace (write_idx (ring m) mod N + k + 1) with (write_idx (ring m) mod N + (k + 1)) by lia.
    case_test; [reflexivity|]. exfalso.
    assert (length bl1 = length (blk (ring m))) as Ll.
    { unfold st in E1. destruct (_ && _); [|discriminate E1]. injection E1 as <-. apply length_insert. }
    unfold write_at in H3. destruct (_ && _) eqn:B in H3; [lia | discriminate H3].
Qed.

(** The blocks written are the content of the message. *)
Lemma content_written q q' idx b bs :
  write_at (blk q) (idx mod N) (b :: bs) = Ret (blk q') ->
  zlen (b :: bs) = u32 (blocks sizeof_Block (blk_size b)) ->
  content Bytes q' idx = Ret (b :: bs).
Proof using Type.
  intros E Hl. unfold write_at in E. destruct (_ && _) eqn:B; [|discriminate E].
  injection E as E. unfold content, ld_blk. rewrite <- E.
  assert (Lt : zlen (take (Z.to_nat (idx mod N)) (blk q)) = idx mod N) by (rewrite length_take; lia).
  cbn [app]. rewrite ld_app by lia. cbn [mbind res_bind].
  apply (read_at_app _ (b :: bs)); lia.
Qed.

Lemma fill_call sz b bs m sent got :
  inv Bytes m -> wpc m = WUser sz -> rpc m = RIdle -> pushed m = sent -> popped m = got ->
  zlen (b :: bs) = Alloc_blk_sz sz -> blk_size b = sz ->
  exists m', ring_fill (write_idx (ring m) mod N) (b :: bs) (ring m) = Ret (ring m')
    /\ inv Bytes m' /\ wpc m' = WUser sz /\ rpc m' = RIdle /\ pushed m' = sent /\ popped m' = got
    /\ content Bytes (ring m') (write_idx (ring m')) = Ret (b :: bs).
Proof using Bytes_range single_bit.
  intros Hr Hw Hp Hs Hg Hl Hb.
  destruct (fill_steps sz (b :: bs) 0 m Hr Hw ltac:(lia) ltac:(lia) (or_intror Hb))
    as (m' & H1 & H2 & H3 & H4 & H5 & H6 & H7).
  rewrite Z.add_0_r in H3. exists m'. unfold ring_fill. rewrite H3. cbn [mbind res_bind].
  split; [f_equal; symmetry; exact H4|]. rewrite H5, H6, H7. repeat (split; [assumption|]).
  assert (Ew : write_idx (ring m') = write_idx (ring m)) by (rewrite H4; reflexivity).
  rewrite Ew. apply (content_written (ring m)); [exact H3|]. rewrite Hl, Hb. reflexivity.
Qed.

Lemma Push_call sz c m sent got :
  inv Bytes m -> wpc m = WUser sz -> rpc m = RIdle -> pushed m = sent -> popped m = got ->
  content Bytes (ring m) (write_idx (ring m)) = Ret c ->
  exists m', Push Bytes (ring m) = Ret (ring m') /\ quiet m' (sent ++ [c]) got.
Proof using Bytes_range single_bit.
  intros Hr Hw Hp Hs Hg Hc.
  assert (Es : step Bytes APush m = Some (do_push Bytes m)) by (unfold step; rewrite Hw; reflexivity).
  destruct (step_inv Bytes Bytes_range single_bit APush m _
              Hr Es) as (m' & E & _).
  rewrite E in Es. pose proof (inv_step _ _ _ Hr Es) as Hr'.
  injection E as E. unfold do_push in E. rewrite Hc in E. cbn [mbind res_bind] in E.
  apply bind_Ret in E as (q' & Eq & [= <-]). rewrite Eq.
  match type of Hr' with inv _ ?x => exists x end. split; [reflexivity|].
  split; [exact Hr'|]. cbn. rewrite Hs. auto.
Qed.

(** *** The reader's calls *)
Lemma Front_call m sent got :
  quiet m sent got ->
  exists p m', Front Bytes (ring m) = Ret (ring m', p) /\ inv Bytes m'
    /\ wpc m' = WIdle /\ pushed m' = sent /\ popped m' = got
    /\ match p with
       | Some i => rpc m' = RHave /\ i = read_idx (ring m') mod N
                   /\ exists c, ring_read i (ring m') = Ret (ring m', c)
                                /\ content Bytes (ring m') (read_idx (ring m')) = Ret c
       | None => rpc m' = RIdle /\ got = sent
       end.
Proof using Bytes_range single_bit.
  intros (Hr & Hw & Hp & Hs & Hg).
  destruct (Front_total (ring m) (inv_len m Hr)) as (q' & p & E & Hi).
  destruct (Front_steps Bytes m q' p Hp E) as (acts & m' & Est & <- & Hp' & Hwp & Hpu & Hpo).
  pose proof (inv_steps acts m m' Hr Est) as Hr'.
  exists p, m'. rewrite Hwp, Hpu, Hpo. repeat (split; [assumption|]).
  destruct p as [i|]; [|split; [exact Hp'|]].
  2:{ rewrite <- Hs, <- Hg, <- Hpu, <- Hpo. symmetry. apply drained; [exact Hr'|].
      exact (Front_None _ _ E). }
  specialize (Hi i eq_refl). split; [exact Hp'|]. split; [exact Hi|].
  destruct Hr' as (C & R & W & ss & HI & _ & _ & Hri).
  rewrite Hp' in Hri. destruct Hri as (c & s & ->).
  pose proof (ri_covers _ _ _ _ _ _ HI) as Hc.
  inversion Hc as [| R0 c0 s0 V0 Hsh Hf Hm _ |]; subst R0 c0 s0 V0.
  destruct (content_at Bytes Bytes_range single_bit (ring m') R c (ri_len _ _ _ _ _ _ HI) Hsh Hf Hm)
    as (Ec & b & Eb & El & _).
  exists c. rewrite (ri_read _ _ _ _ _ _ HI) in *. split; [|exact Ec].
  unfold content in Ec. rewrite Eb in Ec. cbn [mbind res_bind] in Ec. rewrite El in Ec.
  unfold ring_read. rewrite Hi. unfold ld_blk in Eb. rewrite Eb. cbn [mbind res_bind].
  assert (Hlen : blocks sizeof_Block (blk_size b) = zlen c).
  { destruct c as [|b0 c]; [destruct Hsh|]. destruct Hsh as [Hb0 Hl].
    pose proof (Hm 0%nat ltac:(simpl; lia)) as H0. rewrite Z.add_0_r in H0. simpl in H0.
    assert (E0 : ld_blk Bytes (ring m') (u32 R) = Ret b0)
      by (apply (ld_blk_at Bytes Bytes_range single_bit); [apply HI | exact H0]).
    unfold ld_blk in E0. rewrite Eb in E0. injection E0 as ->. lia. }
  rewrite Hlen, Ec. reflexivity.
Qed.

Lemma Pop_call c m sent got :
  inv Bytes m -> wpc m = WIdle -> rpc m = RHave -> pushed m = sent -> popped m = got ->
  content Bytes (ring m) (read_idx (ring m)) = Ret c ->
  exists m', Pop Bytes (ring m) = Ret (ring m') /\ quiet m' sent (got ++ [c]).
Proof using Bytes_range single_bit.
  intros Hr Hw Hp Hs Hg Hc.
  assert (Es : step Bytes APop m = Some (do_pop Bytes m)) by (unfold step; rewrite ?Hw, Hp; reflexivity).
  destruct (step_inv Bytes Bytes_range single_bit APop m _
              Hr Es) as (m' & E & _).
  rewrite E in Es. pose proof (inv_step _ _ _ Hr Es) as Hr'.
  injection E as E. unfold do_pop in E. rewrite Hc in E. cbn [mbind res_bind] in E.
  apply bind_Ret in E as (q' & Eq & [= <-]). rewrite Eq.
  match type of Hr' with inv _ ?x => exists x end. split; [reflexivity|].
  split; [exact Hr'|]. cbn. rewrite Hg. auto.
Qed.

Lemma quiet_fifo m sent got : quiet m sent got ->
  exists in_flight, sent = got ++ in_flight /\ zlen (concat in_flight) <= N.
Proof using Bytes_range single_bit. intros (Hr & _ & _ & <- & <-). exact (inv_fifo m Hr). Qed.

(** A ring on which both processes start again. *)
Lemma quiet_restart m : inv Bytes m -> quiet (restart_reader (restart_writer m)) (pushed m) (popped m).
Proof using Bytes_range single_bit.
  intros H. split; [|repeat split].
  exact (crash_inv _ _ (crash_inv _ _ H (crash_writer m)) (crash_reader _)).
Qed.

Lemma quiet_init : quiet (machine_init Bytes) [] [].
Proof using Bytes_range single_bit. split; [exact (inv_init Bytes Bytes_range single_bit) | repeat split]. Qed.
End RingOps.

(** ** A ring whose writer dies with a message reserved *)
Lemma reachable_crash m :
  reachable four_blocks m -> rtc (crash_step four_blocks) (machine_init four_blocks) m.
Proof.
  unfold reachable. induction 1 as [m|m m1 m2 [a Ha] _ IH]; [apply rtc_refl|].
  eapply rtc_l; [exact (crash_go _ _ _ _ Ha) | exact IH].
Qed.

Definition a_crash : machine :=
  restart_writer (after (send_one 150 ++ [AAlloc 40; AMark])).

Lemma ring_survives_crashes_witness :
  (exists in_flight, pushed a_crash = popped a_crash ++ in_flight
     /\ zlen (concat in_flight) <= BLK_CNT four_blocks)
  /\ forall a o, step four_blocks a a_crash = Some o -> exists m', o = Ret m'.
Proof.
  refine (ring_survives_crashes four_blocks four_range four_single_bit a_crash _).
  eapply rtc_r; [apply reachable_crash, after_reachable | apply crash_writer].
Defined.
