(* ===== verification/RingWait.v ===== *)
(** * Waiting for a message (WaitForData of src/tcpshm/spsc_varq.h)

    The reading process may sleep until the writing one pushes.  [WaitForData] is
    interleaved with the writer access by access, over the machine of
    SPSCVarQueue.v: between the load of [write_idx] and the moment the thread is
    asleep the writer may push, and the notification of that push is for nobody.
    Nothing is missed all the same, because the wait compares the index again. *)

From stdpp Require Import relations.
From S2P Require Import Prelude Endian MsgHeader SPSCVarQueue SPSCProps SPSCTheorems RingOps.
Local Open Scope Z_scope.

(** Where the reading process is in [WaitForData]: outside; [curr_w] is loaded and
    is to be compared with [read_idx]; [wait(curr_w)] is to compare the value; it
    sleeps; it is to load [write_idx] again; the call has returned. *)
Inductive waiting : Type :=
| NotWaiting
| WLoaded (curr_w : Z)
| WTest (curr_w : Z)
| WAsleep (curr_w : Z)
| WReload
| WReturned.

Definition in_call (t : waiting) : bool :=
  match t with NotWaiting | WReturned => false | _ => true end.

(** [notifying]: [Push] has stored [write_idx] and is to call [notify_one]. *)
Record waiting_machine : Type := mkWaiting { base : machine; pc : waiting; notifying : bool }.

Inductive wait_action : Type :=
| WOther (a : action)  (* the writer, or the reader outside the call *)
| WNotify              (* write_idx.notify_one(), in Push *)
| WCall                (* the first load of write_idx *)
| WGo                  (* the next access of the call *)
| WSpurious.           (* a thread that sleeps wakes up for no reason *)

Definition is_writer (a : action) : bool :=
  match a with AAlloc _ | AMark | ARewind | AReserve | AWrite _ _ | APush => true | _ => false end.
Definition is_push (a : action) : bool := match a with APush => true | _ => false end.

(** A thread that is woken compares the value again. *)
Definition wake (t : waiting) : waiting :=
  match t with WAsleep curr_w => WTest curr_w | _ => t end.

Section Waiting.
Context (Bytes : Z).
Implicit Types (s : waiting_machine) (m : machine).

(** The next access of the call. *)
Definition WaitForData_access s : option waiting :=
  let q := ring (base s) in
  match pc s with
  | WLoaded curr_w => Some (if curr_w =? read_idx q then WTest curr_w else WReturned)
  | WTest curr_w => Some (if write_idx q =? curr_w then WAsleep curr_w else WReload)
  | WReload => Some (WLoaded (write_idx q))
  | _ => None
  end.

(** [None]: the action is not what its process does next. *)
Definition wait_step (a : wait_action) s : option (res waiting_machine) :=
  match a with
  | WOther a =>
      if (if is_writer a then notifying s else in_call (pc s)) then None
      else
        match step Bytes a (base s) with
        | Some m =>
            Some (m ← m;
                  Ret (if is_writer a then mkWaiting m (pc s) (is_push a)
                       else mkWaiting m NotWaiting (notifying s)))
        | None => None
        end
  | WNotify => if notifying s then Some (Ret (mkWaiting (base s) (wake (pc s)) false)) else None
  | WCall =>
      match in_call (pc s), rpc (base s) with
      | false, RIdle => Some (Ret (mkWaiting (base s) (WLoaded (write_idx (ring (base s)))) (notifying s)))
      | _, _ => None
      end
  | WGo =>
      match WaitForData_access s with
      | Some t => Some (Ret (mkWaiting (base s) t (notifying s)))
      | None => None
      end
  | WSpurious =>
      match pc s with
      | WAsleep _ => Some (Ret (mkWaiting (base s) (wake (pc s)) (notifying s)))
      | _ => None
      end
  end.

Fixpoint wait_steps (acts : list wait_action) s : option (res waiting_machine) :=
  match acts with
  | [] => Some (Ret s)
  | a :: acts => match wait_step a s with Some (Ret s) => wait_steps acts s | r => r end
  end.
Definition waiting_init : waiting_machine := mkWaiting (machine_init Bytes) NotWaiting false.
Definition waiting_reachable s : Prop := rtc (fun s s' => exists a, wait_step a s = Some (Ret s')) waiting_init s.
End Waiting.

(** ** The writer never takes back what it published *)
Section Writer.
Context (Bytes : Z) (Bytes_range : 0 <= Bytes < 2 ^ 32).
Context (single_bit : exists k, 0 <= k /\ BLK_CNT Bytes = 2 ^ k).
Abbreviation N := (BLK_CNT Bytes).
Implicit Types (m : machine) (s : waiting_machine).

Definition nonempty m : Prop := read_idx (ring m) <> write_idx (ring m).

(** A publication of at least one block, within a turn of the ring. *)
Lemma published_nonempty q C R W ss n :
  ring_inv Bytes q C R W ss -> 1 <= n -> W + n <= C + N -> u32 R <> u32 (W + n).
Proof using Bytes_range single_bit.
  intros HI Hn HW E. pose proof (ri_le Bytes Bytes_range single_bit _ _ _ _ _ HI).
  pose proof (N_range Bytes Bytes_range single_bit). word_lia.
Qed.

Lemma st_size_indices q X sz q' : st_size Bytes q X sz = Ret q' ->
  read_idx q' = read_idx q /\ write_idx q' = write_idx q.
Proof.
  unfold st_size. intros E. apply bind_Ret in E as (? & _ & E).
  apply bind_Ret in E as (? & _ & [= <-]). auto.
Qed.

Lemma Push_nonempty m sz : inv Bytes m -> wpc m = WUser sz ->
  exists m', do_push Bytes m = Ret m' /\ nonempty m' /\ read_idx (ring m') = read_idx (ring m)
    /\ popped m' = popped m /\ exists c, pushed m' = pushed m ++ [c].
Proof using Bytes_range single_bit.
  intros (C & R & W & ss & HI & Hg & Hw & Hr) Ep. rewrite Ep in Hw.
  destruct Hw as (Hsz & Hn & Hf & b & Hb & <-). pose proof (asz_range _ Hsz) as Ha.
  pose proof (ri_len _ _ _ _ _ _ HI) as L.
  destruct (reserved_message Bytes Bytes_range single_bit _ W b L Hsz Hb Hf) as (c & Hs & Lc & Hc).
  destruct (content_at Bytes Bytes_range single_bit (ring m) W c L Hs ltac:(lia) Hc) as (Ec & b' & Eb' & Es & _).
  unfold do_push, Push. rewrite (ri_write _ _ _ _ _ _ HI), Ec, Eb'. cbn [mbind res_bind].
  eexists. split; [reflexivity|]. split; [|eauto]. unfold nonempty.
  cbn [ring with_write_idx read_idx write_idx]. rewrite (ri_read _ _ _ _ _ _ HI), Es, u32_add_l.
  apply (published_nonempty (ring m) C R W ss); [exact HI | lia | lia].
Qed.

Lemma rewind_nonempty m sz : inv Bytes m -> wpc m = WMarked sz ->
  read_idx (ring m) <> u32 (write_idx (ring m) + padding_sz Bytes (write_idx (ring m))).
Proof using Bytes_range single_bit.
  intros (C & R & W & ss & HI & _ & Hw & _) Ep. rewrite Ep in Hw. destruct Hw as (Hsz & Hn & Hlt & _).
  pose proof (mod_range N ltac:(pose proof (N_range Bytes Bytes_range single_bit); lia) W).
  pose proof (asz_range _ Hsz). unfold need in Hn. destruct (Z.ltb_spec (N - W mod N) (asz sz)); [|lia].
  rewrite (ri_write _ _ _ _ _ _ HI), (ri_read _ _ _ _ _ _ HI), padding_sz_eq, u32_add_l by assumption.
  apply (published_nonempty (ring m) C R W ss); [exact HI | lia | lia].
Qed.

(** What a step of the writer leaves alone, and that what it publishes stays. *)
Record writer_keeps (a : action) m m' : Prop := {
  wk_read : read_idx (ring m') = read_idx (ring m);
  wk_popped : popped m' = popped m;
  wk_pushed : pushed m' = pushed m \/ a = APush /\ exists c, pushed m' = pushed m ++ [c];
  wk_write : write_idx (ring m') = write_idx (ring m) \/ nonempty m'
}.

Lemma writer_store_keeps a m (q : res SPSCVarQueue) w m' :
  (forall q', q = Ret q' -> read_idx q' = read_idx (ring m) /\ write_idx q' = write_idx (ring m)) ->
  writer_to m q w = Ret m' -> writer_keeps a m m'.
Proof.
  intros Hq E. unfold writer_to in E. apply bind_Ret in E as (q' & Eq & [= <-]).
  destruct (Hq q' Eq). constructor; cbn; auto.
Qed.

Lemma writer_step a m m' :
  inv Bytes m -> is_writer a = true -> step Bytes a m = Some (Ret m') -> writer_keeps a m m'.
Proof using Bytes_range single_bit.
  intros Hi Ha Hs. unfold step in Hs.
  destruct a; try discriminate Ha; destruct (wpc m) eqn:Ep; try discriminate Hs.
  - destruct (size_ok size); [|discriminate Hs]. injection Hs as Hs. unfold do_alloc in Hs.
    destruct (too_full _ _ _ _); [destruct (too_full _ _ _ _)|];
      (eapply writer_store_keeps; [|exact Hs]; intros q' [= <-]; auto).
  - injection Hs as Hs. destruct (rewind _ _ _);
      (eapply writer_store_keeps; [|exact Hs]; intros q' Eq; exact (st_size_indices _ _ _ _ Eq)).
  - injection Hs as <-. pose proof (rewind_nonempty m sz Hi Ep).
    constructor; cbn; auto.
  - injection Hs as Hs. eapply writer_store_keeps; [|exact Hs].
    intros q' Eq. exact (st_size_indices _ _ _ _ Eq).
  - destruct (_ && _); [|discriminate Hs]. injection Hs as Hs.
    eapply writer_store_keeps; [|exact Hs].
    intros q' Eq. apply bind_Ret in Eq as (bs & _ & [= <-]). auto.
  - injection Hs as Hs. destruct (Push_nonempty m sz Hi Ep) as (m1 & E1 & Hne & Hrd & Hpo & Hpu).
    rewrite E1 in Hs. injection Hs as <-. constructor; auto.
Qed.
End Writer.

(** ** Nothing pushed is missed *)
Section Waits.
Context (Bytes : Z) (Bytes_range : 0 <= Bytes < 2 ^ 32).
Context (single_bit : exists k, 0 <= k /\ BLK_CNT Bytes = 2 ^ k).
Implicit Types (m : machine) (s : waiting_machine).

(** [wait] is called with the position of the reader; a thread sleeps while the
    ring is empty, or it is about to be notified; what made the call return is
    still there. *)
Definition waiting_inv s : Prop :=
  inv Bytes (base s)
  /\ match pc s with
     | NotWaiting | WReload => True
     | WLoaded curr_w => curr_w <> read_idx (ring (base s)) -> nonempty (base s)
     | WTest curr_w => curr_w = read_idx (ring (base s))
     | WAsleep curr_w =>
         curr_w = read_idx (ring (base s)) /\ (pushed (base s) = popped (base s) \/ notifying s = true)
     | WReturned => nonempty (base s)
     end.

Lemma empty_drained m : inv Bytes m -> read_idx (ring m) = write_idx (ring m) -> pushed m = popped m.
Proof using Bytes_range single_bit.
  intros (C & R & W & ss & HI & Hg & _) E. pose proof (ri_le Bytes Bytes_range single_bit _ _ _ _ _ HI) as Ho.
  pose proof (N_range Bytes Bytes_range single_bit). pose proof (ri_covers _ _ _ _ _ _ HI) as Hc.
  rewrite (ri_write _ _ _ _ _ _ HI), (ri_read _ _ _ _ _ _ HI) in E.
  assert (R = W) as -> by word_lia.
  pose proof (covers_blocks Bytes Bytes_range single_bit _ _ _ _ Hc) as Hb.
  rewrite Hg. inversion Hc as [| R0 c s0 V0 Hs _ _ Hr | R0 b s0 V0 Hp _ _ Hr]; subst; [apply app_nil_r | |].
  - apply msg_shape_pos in Hs. cbn [msgs flat_map app concat] in Hb. rewrite length_app in Hb. lia.
  - pose proof (covers_le (BLK_CNT Bytes) ltac:(lia) _ _ _ _ Hr). pose proof (mod_range (BLK_CNT Bytes) ltac:(lia) W). lia.
Qed.

Lemma in_flight_nonempty m : inv Bytes m -> pushed m <> popped m -> nonempty m.
Proof using Bytes_range single_bit. intros Hi Hne E. apply Hne. exact (empty_drained m Hi E). Qed.

Lemma writer_keeps_nonempty a m m' : writer_keeps a m m' -> nonempty m -> nonempty m'.
Proof using Type. intros [Hr _ _ [Hw|Hw]] Hn; [unfold nonempty; rewrite Hr, Hw; exact Hn | exact Hw]. Qed.

Lemma wait_writer_inv a m' s : waiting_inv s -> is_writer a = true -> notifying s = false ->
  step Bytes a (base s) = Some (Ret m') -> waiting_inv (mkWaiting m' (pc s) (is_push a)).
Proof using Bytes_range single_bit.
  intros [Hi Hw] Ha Hn E. pose proof (writer_step Bytes Bytes_range single_bit a _ _ Hi Ha E) as Hk.
  split; [exact (inv_step Bytes Bytes_range single_bit a (base s) m' Hi E)|].
  pose proof (writer_keeps_nonempty a _ _ Hk) as Hne. pose proof (wk_read _ _ _ Hk) as Hr.
  cbn [base pc notifying]. destruct (pc s) as [|cw|cw|cw| |]; rewrite ?Hr; auto.
  destruct Hw as [Hw [Hd|Hd]]; [|congruence]. split; [exact Hw|].
  rewrite (wk_popped _ _ _ Hk). destruct (wk_pushed _ _ _ Hk) as [->|[-> _]]; auto.
Qed.

Lemma wait_step_inv a s s' : waiting_inv s -> wait_step Bytes a s = Some (Ret s') -> waiting_inv s'.
Proof using Bytes_range single_bit.
  intros HI E. destruct a as [a| | | |]; cbn [wait_step] in E.
  - destruct (is_writer a) eqn:Ha.
    + destruct (notifying s) eqn:Hn; [discriminate E|].
      destruct (step Bytes a (base s)) as [[m'| |]|] eqn:Es; try discriminate E. injection E as <-.
      exact (wait_writer_inv a m' s HI Ha Hn Es).
    + destruct (in_call (pc s)); [discriminate E|].
      destruct (step Bytes a (base s)) as [[m'| |]|] eqn:Es; try discriminate E. injection E as <-.
      split; [exact (inv_step Bytes Bytes_range single_bit a _ m' (proj1 HI) Es) | exact I].
  - destruct (notifying s); [|discriminate E]. injection E as <-. destruct HI as [Hi Hw].
    split; [exact Hi|]. cbn. destruct (pc s); cbn; tauto.
  - destruct (in_call (pc s)); [discriminate E|]. destruct (rpc (base s)); try discriminate E.
    injection E as <-. split; [apply HI|]. cbn. unfold nonempty. congruence.
  - destruct HI as [Hi Hw]. unfold WaitForData_access in E.
    destruct (pc s) as [|cw|cw|cw| |] eqn:Ep; try discriminate E; injection E as <-; (split; [exact Hi|]); cbn.
    + case_test; auto.
    + case_test; [|exact I]. split; [exact Hw|]. left. apply (empty_drained _ Hi). congruence.
    + unfold nonempty. congruence.
  - destruct HI as [Hi Hw]. destruct (pc s) as [|cw|cw|cw| |] eqn:Ep; try discriminate E. injection E as <-.
    split; [exact Hi|]. cbn. tauto.
Qed.

Lemma waiting_reachable_inv s : waiting_reachable Bytes s -> waiting_inv s.
Proof using Bytes_range single_bit.
  intros H. unfold waiting_reachable in H. remember (waiting_init Bytes) as s0 eqn:E0.
  assert (H0 : waiting_inv s0) by (rewrite E0; split; [apply inv_init; assumption | exact I]). clear E0.
  induction H as [|s0 s1 s2 [a Ha] _ IH]; [exact H0|]. apply IH. exact (wait_step_inv a s0 s1 H0 Ha).
Qed.

(** What the reader has left to do, once a message is there. *)
Definition patience s : nat :=
  match pc s with
  | WLoaded curr_w => if curr_w =? read_idx (ring (base s)) then 4 else 1
  | WTest _ | WAsleep _ => 3
  | WReload => 2
  | NotWaiting | WReturned => 0
  end.

(** The other process, and the system; the call itself. *)
Definition is_go (a : wait_action) : bool := match a with WGo => true | _ => false end.
Definition during_call (a : wait_action) : bool :=
  match a with WOther a => is_writer a | WCall => false | _ => true end.
Definition in_flight m : Prop := pushed m <> popped m.

Lemma in_flight_stays a m m' : inv Bytes m -> writer_keeps a m m' -> in_flight m -> in_flight m'.
Proof using Bytes_range single_bit.
  intros Hi Hk Hf. unfold in_flight in *. rewrite (wk_popped _ _ _ Hk).
  destruct (wk_pushed _ _ _ Hk) as [->|[_ [c ->]]]; [exact Hf|].
  destruct (inv_fifo Bytes Bytes_range single_bit m Hi) as (fl & -> & _). intros E.
  apply (f_equal length) in E. rewrite !length_app in E. cbn in E. lia.
Qed.

(** Only the call's own accesses use up the patience, each a unit or more. *)
Lemma patience_step a s s' : waiting_inv s -> in_flight (base s) -> during_call a = true ->
  wait_step Bytes a s = Some (Ret s') ->
  in_flight (base s') /\ (patience s' + (if is_go a then 1 else 0) <= patience s)%nat.
Proof using Bytes_range single_bit.
  intros HI Hf Hd E. destruct HI as [Hi Hw]. pose proof (in_flight_nonempty _ Hi Hf) as Hne.
  destruct a as [a| | | |]; try discriminate Hd; cbn [wait_step during_call is_go] in *.
  - rewrite Hd in E. destruct (notifying s); [discriminate E|].
    destruct (step Bytes a (base s)) as [[m'| |]|] eqn:Es; try discriminate E. injection E as <-.
    pose proof (writer_step Bytes Bytes_range single_bit a _ _ Hi Hd Es) as Hk.
    split; [exact (in_flight_stays a _ _ Hi Hk Hf)|].
    unfold patience. cbn [pc base]. rewrite (wk_read _ _ _ Hk). lia.
  - destruct (notifying s); [|discriminate E]. injection E as <-. split; [exact Hf|].
    unfold patience. cbn [pc base]. destruct (pc s); cbn; lia.
  - unfold WaitForData_access in E. unfold nonempty in Hne.
    destruct (pc s) as [|cw|cw|cw| |] eqn:Ep; try discriminate E; injection E as <-; (split; [exact Hf|]);
      unfold patience; rewrite Ep; cbn [pc base].
    + destruct (cw =? _); lia.
    + destruct (Z.eqb_spec (write_idx (ring (base s))) cw); [congruence | lia].
    + destruct (Z.eqb_spec (write_idx (ring (base s))) (read_idx (ring (base s)))); [congruence | lia].
  - destruct (pc s) as [|cw|cw|cw| |] eqn:Ep; try discriminate E. injection E as <-. split; [exact Hf|].
    unfold patience. rewrite Ep. cbn. lia.
Qed.

Lemma patience_steps acts : forall s s', waiting_inv s -> in_flight (base s) ->
  forallb during_call acts = true -> wait_steps Bytes acts s = Some (Ret s') ->
  waiting_inv s' /\ in_flight (base s')
  /\ (patience s' + length (filter (fun a => is_go a = true) acts) <= patience s)%nat.
Proof using Bytes_range single_bit.
  induction acts as [|a acts IH]; intros s s' HI Hf Hd E; cbn [wait_steps forallb] in *.
  - injection E as <-. cbn. auto with lia.
  - apply andb_true_iff in Hd as [Hda Hd]. destruct (wait_step Bytes a s) as [[s1| |]|] eqn:E1; try discriminate E.
    destruct (patience_step a s s1 HI Hf Hda E1) as [Hf1 Hp1].
    destruct (IH s1 s' (wait_step_inv a s s1 HI E1) Hf1 Hd E) as (HI' & Hf' & Hp').
    split; [exact HI'|]. split; [exact Hf'|]. rewrite filter_cons. destruct (is_go a); cbn [decide];
      [rewrite decide_True by reflexivity | rewrite decide_False by discriminate]; cbn [length]; lia.
Qed.

Lemma in_call_stays acts : forall s s', in_call (pc s) = true -> forallb during_call acts = true ->
  wait_steps Bytes acts s = Some (Ret s') -> pc s' <> NotWaiting.
Proof using Type.
  assert (Hstep : forall a s s', pc s <> NotWaiting -> during_call a = true ->
            wait_step Bytes a s = Some (Ret s') -> pc s' <> NotWaiting).
  { intros a s s' Hc Hd E. destruct a as [a| | | |]; try discriminate Hd; cbn [wait_step during_call] in *.
    - rewrite Hd in E. destruct (notifying s); [discriminate E|].
      destruct (step Bytes a (base s)) as [[m'| |]|]; try discriminate E. injection E as <-. exact Hc.
    - destruct (notifying s); [|discriminate E]. injection E as <-. cbn. destruct (pc s); cbn; congruence.
    - unfold WaitForData_access in E. destruct (pc s); try discriminate E; injection E as <-; cbn;
        repeat case_match; discriminate.
    - destruct (pc s); try discriminate E. injection E as <-. discriminate. }
  intros s s' Hc. assert (Hn : pc s <> NotWaiting) by (intros E; rewrite E in Hc; discriminate Hc). clear Hc.
  revert s s' Hn. induction acts as [|a acts IH]; intros s s' Hn Hd E; cbn [wait_steps forallb] in *.
  - injection E as <-. exact Hn.
  - apply andb_true_iff in Hd as [Hda Hd].
    destruct (wait_step Bytes a s) as [[s1| |]|] eqn:E1; try discriminate E.
    exact (IH s1 s' (Hstep a s s1 Hn Hda E1) Hd E).
Qed.

(** What a call that returned has seen. *)
Lemma nonempty_front m : inv Bytes m -> nonempty m ->
  in_flight m \/ exists b, ld_blk Bytes (ring m) (read_idx (ring m)) = Ret b /\ blk_size b = 0.
Proof using Bytes_range single_bit.
  intros (C & R & W & ss & HI & Hg & _) Hne. unfold nonempty in Hne.
  rewrite (ri_write _ _ _ _ _ _ HI), (ri_read _ _ _ _ _ _ HI) in Hne.
  pose proof (ri_covers _ _ _ _ _ _ HI) as Hc.
  inversion Hc as [| R0 c s0 V0 Hs _ _ Hr | R0 b s0 V0 Hp Hb Hz Hr]; subst; [congruence | |].
  - left. unfold in_flight. rewrite Hg. cbn. intros E. apply (f_equal length) in E.
    rewrite length_app in E. cbn in E. lia.
  - right. exists b. split; [|exact Hz]. rewrite (ri_read _ _ _ _ _ _ HI).
    apply (ld_blk_at Bytes Bytes_range single_bit); [exact (ri_len _ _ _ _ _ _ HI) | exact Hb].
Qed.

(** C17. WaitForData misses no message, whatever the writer does between its accesses and
    whenever the thread sleeps or wakes: with a message in the ring the call makes at most
    four more accesses and never blocks, but for a sleep that the notification of the push
    under way ends; when it returns there is a message, or the marker of a rewind. *)
Theorem WaitForData_wakes s :
  waiting_reachable Bytes s ->
  (pc s = WReturned ->
     in_flight (base s) \/ exists b, ld_blk Bytes (ring (base s)) (read_idx (ring (base s))) = Ret b /\ blk_size b = 0)
  /\ (in_call (pc s) = true -> in_flight (base s) ->
      forall acts s', forallb during_call acts = true -> wait_steps Bytes acts s = Some (Ret s') ->
        (length (filter (fun a => is_go a = true) acts) <= 4)%nat
        /\ (pc s' = WReturned
            \/ (exists t, WaitForData_access s' = Some t)
            \/ (exists curr_w, pc s' = WAsleep curr_w) /\ notifying s' = true)).
Proof using Bytes_range single_bit.
  intros H. apply waiting_reachable_inv in H as HI. split.
  - intros E. destruct HI as [Hi Hw]. rewrite E in Hw. exact (nonempty_front _ Hi Hw).
  - intros Hc Hf acts s' Hd E. destruct (patience_steps acts s s' HI Hf Hd E) as ([Hi' Hw'] & Hf' & Hp).
    split; [unfold patience in Hp; destruct (pc s); [..|lia]; repeat case_match; lia|].
    assert (Hn : pc s' <> NotWaiting) by exact (in_call_stays acts s s' Hc Hd E).
    unfold WaitForData_access. destruct (pc s') as [|cw|cw|cw| |]; eauto; [congruence|].
    right. right. split; [eauto|]. destruct Hw' as [_ [Hd'|Hn']]; [contradiction | exact Hn'].
Qed.
End Waits.

(** ** A message between the load and the sleep

    The reader loads [write_idx], finds the ring empty, and the writer pushes
    before the reader sleeps; then a run where the reader sleeps first. *)
Section WaitWitness.
Definition wafter (acts : list wait_action) : waiting_machine :=
  match wait_steps four_blocks acts (waiting_init four_blocks) with
  | Some (Ret s) => s
  | _ => waiting_init four_blocks
  end.
Lemma wait_steps_reachable acts : forall s s', waiting_reachable four_blocks s ->
  wait_steps four_blocks acts s = Some (Ret s') -> waiting_reachable four_blocks s'.
Proof.
  induction acts as [|a acts IH]; intros s s' Hr H; cbn [wait_steps] in H; [congruence|].
  destruct (wait_step four_blocks a s) as [[s1| |]|] eqn:E; try discriminate H.
  apply (IH s1); [|exact H]. eapply rtc_r; [exact Hr|]. exists a. exact E.
Qed.
Lemma wafter_reachable acts : waiting_reachable four_blocks (wafter acts).
Proof.
  unfold wafter. destruct (wait_steps _ _ _) as [[s| |]|] eqn:E; try apply rtc_refl.
  eapply wait_steps_reachable; [apply rtc_refl | exact E].
Qed.

Definition push_one (size : Z) : list wait_action := map WOther (send_one size).
Definition missed : list wait_action := [WCall; WGo] ++ push_one 150 ++ [WNotify].
Definition slept : list wait_action := [WCall; WGo; WGo] ++ push_one 150.

Example missed_is_found : pc (wafter (missed ++ [WGo; WGo; WGo])) = WReturned.
Proof. vm_compute. reflexivity. Qed.
Example sleeper_is_woken : pc (wafter slept) = WAsleep 0
  /\ pc (wafter (slept ++ [WNotify; WGo; WGo; WGo])) = WReturned.
Proof. vm_compute. split; reflexivity. Qed.
(** [Alloc] publishes its rewind before there is a message: the call returns, and
    [Front] finds none. *)
Example returns_on_rewind :
  let s := wafter (push_one 150 ++ [WNotify] ++ map WOther receive_one
                   ++ map WOther [AAlloc 100; AMark; ARewind] ++ [WCall; WGo]) in
  pc s = WReturned /\ pushed (base s) = popped (base s).
Proof. vm_compute. split; reflexivity. Qed.

Lemma WaitForData_wakes_witness :
  (length (filter (fun a => is_go a = true) [WNotify; WGo; WGo; WGo]) <= 4)%nat
  /\ (pc (wafter (slept ++ [WNotify; WGo; WGo; WGo])) = WReturned
      \/ (exists t, WaitForData_access (wafter (slept ++ [WNotify; WGo; WGo; WGo])) = Some t)
      \/ (exists curr_w, pc (wafter (slept ++ [WNotify; WGo; WGo; WGo])) = WAsleep curr_w)
         /\ notifying (wafter (slept ++ [WNotify; WGo; WGo; WGo])) = true).
Proof.
  refine (proj2 (WaitForData_wakes four_blocks four_range four_single_bit (wafter slept) (wafter_reachable slept))
            _ _ [WNotify; WGo; WGo; WGo] (wafter (slept ++ [WNotify; WGo; WGo; WGo])) _ _).
  - vm_compute. reflexivity.
  - vm_compute. discriminate.
  - reflexivity.
  - vm_compute. reflexivity.
Defined.
End WaitWitness.
