(* ===== verification/TcpShmProps.v ===== *)
(** * Theorems on connections (TcpShmConn.v)

    The files and rings the two ends of a connection map, and the messages that
    go from one end to the other through a ring. *)

From Stdlib Require Import String.
From stdpp Require Import relations gmap.
From S2P Require Import Prelude Endian MsgHeader PTCPQueue Conf PTCPConn CString TcpShmConn SPSCVarQueue.
From S2P Require Import SPSCProps SPSCTheorems RingOps.
Local Open Scope Z_scope.

Section Files.
Context {platform : Platform} {conf : Conf} {W : Type} {sockets : Sockets W} {mmap : Mmap W}.
Implicit Types (a b c : TcpShmConnection) (d : disk) (w : W).

(** The names of the two ends are each other's. *)
Definition crossed a b : Prop :=
  cstr (local_name_ a) = cstr (remote_name_ b) /\ cstr (remote_name_ a) = cstr (local_name_ b).

Lemma send_recv_file a b : crossed a b -> shm_send_file a = shm_recv_file b.
Proof using Type. intros [E1 E2]. unfold shm_send_file, shm_recv_file. rewrite E1, E2. reflexivity. Qed.
Lemma crossed_sym a b : crossed a b -> crossed b a.
Proof using Type. intros [E1 E2]. split; symmetry; assumption. Qed.

Lemma map_shm_keeps name d n q : shm_objects d !! n = Some q -> shm_objects (map_shm name d) !! n = Some q.
Proof using Type.
  intros H. unfold map_shm. destruct (shm_objects d !! name) eqn:E; [exact H|]. simpl.
  rewrite lookup_insert_ne by congruence. exact H.
Qed.

Lemma map_shm_there name d : exists q,
  shm_objects (map_shm name d) !! name = Some q
  /\ q = default (zero_ring ShmQueueSize) (shm_objects d !! name).
Proof using Type.
  unfold map_shm. destruct (shm_objects d !! name) eqn:E; simpl.
  - exists s. rewrite E. auto.
  - rewrite lookup_insert_eq. eauto.
Qed.

(** What a successful [OpenFile(true)] of a connection that maps nothing does. *)
Lemma OpenFile_shm c d w c' d' w' :
  shm_sendq_ c = None -> shm_recvq_ c = None ->
  TS_OpenFile true c d w = (None, c', d', w') ->
  c' = set_shmqs (Some (shm_send_file c)) (Some (shm_recv_file c)) c
  /\ d' = map_shm (shm_recv_file c) (map_shm (shm_send_file c) d).
Proof using Type.
  intros Hs Hr. unfold TS_OpenFile, map_ring. rewrite Hs.
  destruct (my_mmap true (shm_send_file c) w) as [[e|] w1]; [discriminate|].
  cbn [shm_recvq_ set_shmqs]. rewrite Hr.
  destruct (my_mmap true (shm_recv_file _) w1) as [[e|] w2]; [discriminate|].
  intros [= <- <- <-]. split; reflexivity.
Qed.

(** C26. When two connections with crossed names open shared memory one after the other, the
    ring one sends on is the ring the other receives from, in both directions; each ring has
    the content it had, or is empty when it is new, and no other ring changes. *)
Theorem OpenFile_connects_ends a b d0 w0 a' d1 w1 b' d2 w2 :
  crossed a b ->
  shm_sendq_ a = None -> shm_recvq_ a = None -> shm_sendq_ b = None -> shm_recvq_ b = None ->
  TS_OpenFile true a d0 w0 = (None, a', d1, w1) ->
  TS_OpenFile true b d1 w1 = (None, b', d2, w2) ->
  shm_sendq_ a' = shm_recvq_ b' /\ shm_recvq_ a' = shm_sendq_ b'
  /\ (forall n, shm_sendq_ a' = Some n \/ shm_recvq_ a' = Some n ->
        shm_objects d2 !! n = Some (default (zero_ring ShmQueueSize) (shm_objects d0 !! n)))
  /\ (forall n q, shm_objects d0 !! n = Some q -> shm_objects d2 !! n = Some q).
Proof using Type.
  intros Hx Has Har Hbs Hbr Ha Hb.
  apply OpenFile_shm in Ha as [-> ->]; [|assumption..]. apply OpenFile_shm in Hb as [-> ->]; [|assumption..].
  cbn [shm_sendq_ shm_recvq_ set_shmqs].
  rewrite (send_recv_file a b Hx), (send_recv_file b a (crossed_sym _ _ Hx)).
  set (s := shm_recv_file b). set (r := shm_recv_file a).
  assert (Hk : forall n q, shm_objects (map_shm r (map_shm s d0)) !! n = Some q ->
             shm_objects (map_shm s (map_shm r (map_shm r (map_shm s d0)))) !! n = Some q)
    by (intros; auto using map_shm_keeps).
  split; [reflexivity|]. split; [reflexivity|]. split.
  - intros n Hn. destruct (map_shm_there s d0) as (qs & Es & ->).
    assert (Er : shm_objects (map_shm r (map_shm s d0)) !! r = Some (default (zero_ring ShmQueueSize) (shm_objects d0 !! r))).
    { destruct (map_shm_there r (map_shm s d0)) as (qr & Er & ->). rewrite Er. f_equal.
      destruct (decide (r = s)) as [->|Hne]; [rewrite Es; reflexivity|].
      unfold map_shm. destruct (shm_objects d0 !! s); [reflexivity|]. simpl.
      rewrite lookup_insert_ne by congruence. reflexivity. }
    destruct Hn as [[= <-]|[= <-]]; auto using map_shm_keeps.
  - intros n q H. auto using map_shm_keeps.
Qed.
End Files.

(** ** Messages through a ring *)
Section Messages.
Context {platform : Platform} {conf : Conf} {conf_ok : ConfOk conf}.
Context {W : Type} {sockets : Sockets W}.
Implicit Types (d : disk) (w : W).

(** What the two users do: [USend] allocates a message, writes its blocks and
    pushes it, or gives up when there is no room; [URecv] polls and, when there
    is a message, reads it and pops it. *)
Inductive user_op : Type :=
| USend (b : Block) (bs : list Block)
| URecv.

Definition op_ok (o : user_op) : Prop :=
  match o with
  | USend b bs => size_ok (blk_size b - sizeof_MsgHeader) = true
                  /\ zlen (b :: bs) = blocks sizeof_Block (blk_size b)
  | URecv => True
  end.

(** An operation of the user on the ring behind a pointer. *)
Definition on_sendq {A} (a : TcpShmConnection) (f : SPSCVarQueue -> res (SPSCVarQueue * A)) d : res (A * disk) :=
  match shm_sendq_ a with Some n => on_ring n f d | None => UB end.
Definition on_recvq {A} (b : TcpShmConnection) (f : SPSCVarQueue -> res (SPSCVarQueue * A)) d : res (A * disk) :=
  match shm_recvq_ b with Some n => on_ring n f d | None => UB end.

(** [s_sent] and [s_got] are what was pushed and popped. *)
Record session : Type := mkSession {
  s_from : TcpShmConnection;
  s_to : TcpShmConnection;
  s_disk : disk;
  s_world : W;
  s_sent : list (list Block);
  s_got : list (list Block)
}.

Definition run_op (o : user_op) (s : session) : res session :=
  let '(mkSession a b d w sent got) := s in
  match o with
  | USend b0 bs =>
      r ← TS_Alloc (blk_size b0 - sizeof_MsgHeader) a d;
      match r with
      | (None, a, d) => Ret (mkSession a b d w sent got)
      | (Some p, a, d) =>
          r ← on_sendq a (fun q => no_result (ring_fill p (b0 :: bs) q)) d;
          let '(_, d) := r in
          r ← TS_Push a d w;
          let '(a, d, w) := r in
          Ret (mkSession a b d w (sent ++ [b0 :: bs]) got)
      end
  | URecv =>
      r ← TS_Front b d w;
      match r with
      | (None, b, d, w) => Ret (mkSession a b d w sent got)
      | (Some p, b, d, w) =>
          r ← on_recvq b (ring_read p) d;
          let '(c, d) := r in
          r ← TS_Pop b d;
          let '(b, d) := r in
          Ret (mkSession a b d w sent (got ++ [c]))
      end
  end.

Fixpoint run_ops (os : list user_op) (s : session) : res session :=
  match os with
  | [] => Ret s
  | o :: os => s ← run_op o s; run_ops os s
  end.

Abbreviation N := (BLK_CNT ShmQueueSize).
Let Bytes_range := proj1 (conf_shm (conf := conf)).
Let single_bit := proj2 (conf_shm (conf := conf)).

Definition session_inv (n : list Z) (s : session) : Prop :=
  shm_sendq_ (s_from s) = Some n /\ shm_recvq_ (s_to s) = Some n
  /\ exists m, shm_objects (s_disk s) !! n = Some (ring m) /\ quiet ShmQueueSize m (s_sent s) (s_got s).

Lemma on_ring_at {A} n q q' (r : A) f d :
  shm_objects d !! n = Some q -> f q = Ret (q', r) ->
  on_ring n f d = Ret (r, set_shm n q' d) /\ shm_objects (set_shm n q' d) !! n = Some q'.
Proof using Type.
  intros E F. unfold on_ring. rewrite E, F. split; [reflexivity | apply lookup_insert_eq].
Qed.

Lemma no_result_Ret (r : res SPSCVarQueue) q : r = Ret q -> no_result r = Ret (q, tt).
Proof using Type. intros ->. reflexivity. Qed.

Lemma run_send n b0 bs s :
  session_inv n s -> op_ok (USend b0 bs) ->
  exists s', run_op (USend b0 bs) s = Ret s' /\ session_inv n s'.
Proof using conf_ok.
  destruct s as [a b d w sent got]. intros (Ha & Hb & m & Hd & Hq) [Hsz Hl].
  cbn [s_from s_to s_disk s_sent s_got] in *. cbn [run_op]. unfold TS_Alloc. rewrite Ha.
  destruct (Alloc_call _ Bytes_range single_bit _ m sent got Hq Hsz)
    as (p & m1 & E1 & Hr1 & Hp1 & Hs1 & Hg1 & Hw1).
  destruct (on_ring_at n _ _ _ _ d Hd E1) as [-> Ed1]. cbn [mbind res_bind].
  destruct p as [i|]; [destruct Hw1 as [Hw1 ->]|].
  2:{ eexists. split; [reflexivity|]. split; [exact Ha|]. split; [exact Hb|].
      exists m1. split; [exact Ed1|]. split; [exact Hr1 | auto]. }
  replace (blk_size b0 - sizeof_MsgHeader + sizeof_MsgHeader) with (blk_size b0) in Hw1 by lia.
  destruct (fill_call _ Bytes_range single_bit (blk_size b0) b0 bs m1 sent got Hr1 Hw1 Hp1 Hs1 Hg1)
    as (m2 & E2 & Hr2 & Hw2 & Hp2 & Hs2 & Hg2 & Hc2); [|reflexivity|].
  { rewrite Hl, Alloc_blk_sz_eq; [reflexivity|].
    unfold size_ok in Hsz. unfold sz_ok, sizeof_MsgHeader in *. lia. }
  unfold on_sendq. rewrite Ha.
  destruct (on_ring_at n _ _ tt (fun q => no_result (ring_fill (write_idx (ring m1) mod N) (b0 :: bs) q)) _ Ed1
              (no_result_Ret _ _ E2)) as [-> Ed2].
  destruct (Push_call _ Bytes_range single_bit _ _ m2 sent got Hr2 Hw2 Hp2 Hs2 Hg2 Hc2) as (m3 & E3 & Hq3).
  cbn [mbind res_bind]. unfold TS_Push. rewrite Ha.
  destruct (on_ring_at n _ _ tt (fun q => no_result (SPSCVarQueue.Push ShmQueueSize q)) _ Ed2
              (no_result_Ret _ _ E3)) as [-> Ed3].
  eexists. split; [reflexivity|]. split; [exact Ha|]. split; [exact Hb|]. exists m3. auto.
Qed.

Lemma run_recv n s :
  session_inv n s ->
  exists s', run_op URecv s = Ret s' /\ session_inv n s' /\ s_sent s' = s_sent s
    /\ ((s_got s' = s_got s /\ s_sent s = s_got s) \/ exists c, s_got s' = s_got s ++ [c]).
Proof using conf_ok.
  destruct s as [a b d w sent got]. intros (Ha & Hb & m & Hd & Hq).
  cbn [s_from s_to s_disk s_sent s_got] in *. cbn [run_op]. unfold TS_Front. rewrite Hb.
  destruct (Front_call _ Bytes_range single_bit m sent got Hq) as (p & m1 & E1 & Hr1 & Hw1 & Hs1 & Hg1 & Hp1).
  destruct (on_ring_at n _ _ _ _ d Hd E1) as [-> Ed1]. cbn [mbind res_bind].
  destruct p as [i|].
  2:{ destruct Hp1 as [Hp1 Hsg]. eexists. split; [reflexivity|]. split; [|auto].
      split; [exact Ha|]. split; [exact Hb|]. exists m1. split; [exact Ed1|]. split; [exact Hr1 | auto]. }
  destruct Hp1 as (Hp1 & Hi & c & E2 & Hc).
  unfold on_recvq. rewrite Hb.
  destruct (on_ring_at n _ _ _ _ _ Ed1 E2) as [-> Ed2]. cbn [mbind res_bind].
  destruct (Pop_call _ Bytes_range single_bit c m1 sent got Hr1 Hw1 Hp1 Hs1 Hg1 Hc) as (m2 & E3 & Hq3).
  unfold TS_Pop. rewrite Hb.
  destruct (on_ring_at n _ _ tt (fun q => no_result (SPSCVarQueue.Pop ShmQueueSize q)) _ Ed2
              (no_result_Ret _ _ E3)) as [-> Ed3].
  eexists. split; [reflexivity|]. split; [|split; [reflexivity | right; eauto]].
  split; [exact Ha|]. split; [exact Hb|]. exists m2. auto.
Qed.

Lemma run_ops_inv n os : forall s,
  session_inv n s -> Forall op_ok os -> exists s', run_ops os s = Ret s' /\ session_inv n s'.
Proof using conf_ok.
  induction os as [|o os IH]; intros s Hs Hos; [exists s; auto|].
  inversion_clear Hos as [|? ? Ho Hos']. cbn [run_ops].
  assert (exists s', run_op o s = Ret s' /\ session_inv n s') as (s1 & E & Hs1).
  { destruct o as [b bs|]; [exact (run_send n b bs s Hs Ho)|].
    destruct (run_recv n s Hs) as (s1 & E & Hs1 & _). eauto. }
  rewrite E. exact (IH s1 Hs1 Hos').
Qed.

(** C10. Two connections whose send and receive pointers map the same ring, in any state a
    ring reaches even after crashes, never fail whatever sequence of sends and receives
    follows: what was received is a prefix of what was sent, what is in flight fits the
    ring, and when something is in flight the next receive returns it. *)
Theorem shm_messages_in_order n os a b d w m :
  shm_sendq_ a = Some n -> shm_recvq_ b = Some n ->
  rtc (crash_step ShmQueueSize) (machine_init ShmQueueSize) m -> shm_objects d !! n = Some (ring m) ->
  Forall op_ok os ->
  exists s, run_ops os (mkSession a b d w (pushed m) (popped m)) = Ret s
    /\ (exists in_flight, s_sent s = s_got s ++ in_flight /\ zlen (concat in_flight) <= N)
    /\ exists s', run_op URecv s = Ret s' /\ s_sent s' = s_sent s
        /\ (s_got s = s_sent s \/ exists c, s_got s' = s_got s ++ [c]).
Proof using conf_ok.
  intros Ha Hb Hm Hd Hos. apply (crashes_inv _ Bytes_range single_bit) in Hm.
  destruct (run_ops_inv n os (mkSession a b d w (pushed m) (popped m))) as (s & E & Hs); [|exact Hos|].
  { split; [exact Ha|]. split; [exact Hb|]. exists (restart_reader (restart_writer m)).
    split; [exact Hd | exact (quiet_restart _ Bytes_range single_bit m Hm)]. }
  exists s. split; [exact E|]. split.
  - destruct Hs as (_ & _ & m' & _ & Hq). exact (quiet_fifo _ Bytes_range single_bit m' _ _ Hq).
  - destruct (run_recv n s Hs) as (s' & E' & _ & Hs' & Hg). exists s'. split; [exact E'|]. split; [exact Hs'|].
    destruct Hg as [[_ Hg]|Hg]; auto.
Qed.
End Messages.

(** ** Switching from shared memory to TCP without [Release] *)
Section Switch.
Context {platform : Platform} {conf : Conf} {W : Type} {sockets : Sockets W} {mmap : Mmap W}.

(** [OpenFile(false)] opens the queue file but leaves the rings mapped: messages
    still go to the ring, [Push] sends nothing, and [GetSeq] reports no sequence
    numbers. *)
Theorem OpenFile_tcp_keeps_rings n r c d w c' d' w' :
  shm_sendq_ c = Some n -> shm_recvq_ c = Some r ->
  TS_OpenFile false c d w = (None, c', d', w') ->
  q_ (ptcp_conn_ c') <> None /\ shm_sendq_ c' = Some n /\ shm_recvq_ c' = Some r
  /\ TS_GetSeq c' = Ret (Some None)
  /\ forall d1 w1 c2 d2 w2, TS_Push c' d1 w1 = Ret (c2, d2, w2) -> c2 = c' /\ w2 = w1.
Proof using Type.
  intros Hs Hr H.
  assert (q_ (ptcp_conn_ c') <> None /\ shm_sendq_ c' = Some n /\ shm_recvq_ c' = Some r) as (Hq & Hs' & Hr').
  { unfold TS_OpenFile in H. destruct (q_ (ptcp_conn_ c)) eqn:Eq.
    - injection H as <- <- <-. rewrite Eq. auto.
    - destruct (my_mmap _ _ _) as [[e|] w1]; [discriminate H|]. injection H as <- <- <-.
      unfold OpenFile. rewrite Eq. simpl. auto. }
  split; [exact Hq|]. split; [exact Hs'|]. split; [exact Hr'|]. split.
  - unfold TS_GetSeq. rewrite Hs'. reflexivity.
  - intros d1 w1 c2 d2 w2 HP. unfold TS_Push in HP. rewrite Hs' in HP.
    apply bind_Ret in HP as ([u d3] & _ & [= <- _ <-]). auto.
Qed.
End Switch.

(** ** Concrete connections *)
Section Examples.
#[local] Instance here : Platform := true.
(** Rings of four blocks. *)
#[local] Instance small_conf : Conf :=
  mkConf 16 256 true 3000 1000 2000 true 0 (10 * NanoInSecond) (3 * NanoInSecond).
#[local] Instance small_conf_ok : ConfOk small_conf.
Proof. constructor; repeat split; try (vm_compute; congruence). exists 2. split; vm_compute; congruence. Qed.

Definition conn_of (me other : string) : TcpShmConnection :=
  set_remote (lit other) (TcpShmConnection_init (lit "/tmp") (lit me)).
Definition quiet_world : world := mkWorld [] [] 0 [].
Definition empty_disk : disk := mkDisk ∅ ∅.

(** The names do not separate what comes after the underscore from what comes
    before it: the ring from a to x_a is the one from a_x to a. *)
Example shm_names_collide :
  shm_send_file (conn_of "a" "x_a") = shm_recv_file (conn_of "a" "a_x").
Proof. vm_compute. reflexivity. Qed.

Definition opened (c : TcpShmConnection) (d : disk) : TcpShmConnection * disk :=
  let '(_, c, d, _) := TS_OpenFile true c d quiet_world in (c, d).
Definition client_end := opened (conn_of "c" "s") empty_disk.
Definition server_end := opened (conn_of "s" "c") (snd client_end).

Lemma OpenFile_connects_ends_witness :
  crossed (conn_of "c" "s") (conn_of "s" "c")
  /\ shm_sendq_ (fst client_end) = shm_recvq_ (fst server_end)
  /\ shm_recvq_ (fst client_end) = shm_sendq_ (fst server_end)
  /\ (forall n, shm_sendq_ (fst client_end) = Some n \/ shm_recvq_ (fst client_end) = Some n ->
        shm_objects (snd server_end) !! n = Some (default (zero_ring ShmQueueSize) (shm_objects empty_disk !! n)))
  /\ (forall n q, shm_objects empty_disk !! n = Some q -> shm_objects (snd server_end) !! n = Some q).
Proof.
  assert (Hx : crossed (conn_of "c" "s") (conn_of "s" "c")) by (split; reflexivity).
  split; [exact Hx|].
  exact (OpenFile_connects_ends (conn_of "c" "s") (conn_of "s" "c") empty_disk quiet_world
           (fst client_end) (snd client_end) quiet_world (fst server_end) (snd server_end) quiet_world
           Hx eq_refl eq_refl eq_refl eq_refl eq_refl eq_refl).
Defined.

(** Three messages of two blocks for a ring of four: the third finds no room
    until the first is read. *)
Definition msg_of (x : Z) : user_op :=
  USend (mkBlock (mkHeader 100 7 0) (replicate 56 x)) [mkBlock (mkHeader x x x) (replicate 56 x)].
Definition some_ops : list user_op := [msg_of 1; msg_of 2; msg_of 3; URecv; msg_of 4; URecv].
Definition ring_name : list Z := lit "/c_s.shm".
Definition open_disk : disk := snd server_end.

Lemma shm_messages_in_order_witness :
  exists s, run_ops some_ops (mkSession (fst client_end) (fst server_end) open_disk quiet_world [] []) = Ret s
    /\ (exists in_flight, s_sent s = s_got s ++ in_flight
          /\ zlen (concat in_flight) <= BLK_CNT ShmQueueSize)
    /\ exists s', run_op URecv s = Ret s' /\ s_sent s' = s_sent s
        /\ (s_got s = s_sent s \/ exists c, s_got s' = s_got s ++ [c]).
Proof.
  refine (shm_messages_in_order ring_name some_ops (fst client_end) (fst server_end) open_disk quiet_world
            (machine_init ShmQueueSize) _ _ _ _ _).
  - vm_compute. reflexivity.
  - vm_compute. reflexivity.
  - apply rtc_refl.
  - vm_compute. reflexivity.
  - repeat constructor.
Defined.
End Examples.
