(* ===== verification/StateRes.v ===== *)
(** * Stateful computations

    The client and the server change their own members, the disk and the state
    of the system in every call: [M S] is the monad of computations on a state
    [S] that return, go wrong or run out of fuel as [res] does. *)

From S2P Require Import Prelude.

Definition M (S A : Type) : Type := S -> res (A * S).

#[export] Instance M_ret S : MRet (M S) := fun A a s => Ret (a, s).
#[export] Instance M_bind S : MBind (M S) := fun A B f m s =>
  match m s with
  | Ret (a, s) => f a s
  | UB => UB
  | NoFuel => NoFuel
  end.

Definition lift {S A} (r : res A) : M S A := fun s => a ← r; Ret (a, s).
Definition gets {S A} (f : S -> A) : M S A := fun s => Ret (f s, s).
Definition modify {S} (f : S -> S) : M S unit := fun s => Ret (tt, f s).
Definition when {S} (b : bool) (m : M S unit) : M S unit := if b then m else mret tt.

Section Lemmas.
Context {S : Type}.

Lemma M_bind_Ret {A B} (m : M S A) (f : A -> M S B) s r :
  (m ≫= f) s = Ret r <-> exists a s1, m s = Ret (a, s1) /\ f a s1 = Ret r.
Proof.
  change ((m ≫= f) s) with (match m s with Ret (a, s) => f a s | UB => UB | NoFuel => NoFuel end).
  split.
  - destruct (m s) as [[a s1]| |]; try discriminate. eauto.
  - intros (a & s1 & -> & H). exact H.
Qed.

Lemma M_bind_eq {A B} (m : M S A) (f : A -> M S B) s a s1 :
  m s = Ret (a, s1) -> (m ≫= f) s = f a s1.
Proof.
  intros E. change ((m ≫= f) s) with (match m s with Ret (a, s) => f a s | UB => UB | NoFuel => NoFuel end).
  rewrite E. reflexivity.
Qed.

Lemma ret_bind {A B} (a : A) (f : A -> M S B) s : (mret a ≫= f) s = f a s.
Proof. reflexivity. Qed.
Lemma gets_bind {A B} (g : S -> A) (f : A -> M S B) s : (gets g ≫= f) s = f (g s) s.
Proof. reflexivity. Qed.
Lemma modify_bind {B} (g : S -> S) (f : unit -> M S B) s : (modify g ≫= f) s = f tt (g s).
Proof. reflexivity. Qed.
Lemma lift_bind {A B} (r : res A) (f : A -> M S B) s a : r = Ret a -> (lift r ≫= f) s = f a s.
Proof. intros ->. reflexivity. Qed.

(** *** What every run that returns satisfies

    [hoare P m Q]: from a state with [P], a result of [m] has [Q]. *)
Definition hoare {A} (P : S -> Prop) (m : M S A) (Q : A -> S -> Prop) : Prop :=
  forall s a s', P s -> m s = Ret (a, s') -> Q a s'.

Lemma hoare_bind {A B} P (m : M S A) R (f : A -> M S B) Q :
  hoare P m R -> (forall a, hoare (R a) (f a) Q) -> hoare P (m ≫= f) Q.
Proof.
  intros Hm Hf s b s' HP E. apply M_bind_Ret in E as (a & s1 & E1 & E2).
  exact (Hf a s1 b s' (Hm s a s1 HP E1) E2).
Qed.

Lemma hoare_ret {A} (P : S -> Prop) (a : A) (Q : A -> S -> Prop) :
  (forall s, P s -> Q a s) -> hoare P (mret a) Q.
Proof. intros H s a' s' HP [= <- <-]. auto. Qed.

Lemma hoare_lift {A} (P : S -> Prop) (r : res A) (Q : A -> S -> Prop) :
  (forall a s, r = Ret a -> P s -> Q a s) -> hoare P (lift r) Q.
Proof.
  intros H s a s' HP E. unfold lift in E. apply bind_Ret in E as (a' & E' & [= <- <-]). auto.
Qed.

Lemma hoare_gets {A} (P : S -> Prop) (f : S -> A) (Q : A -> S -> Prop) :
  (forall s, P s -> Q (f s) s) -> hoare P (gets f) Q.
Proof. intros H s a s' HP [= <- <-]. auto. Qed.

Lemma hoare_modify (P : S -> Prop) (f : S -> S) (Q : unit -> S -> Prop) :
  (forall s, P s -> Q tt (f s)) -> hoare P (modify f) Q.
Proof. intros H s a s' HP [= <- <-]. auto. Qed.

Lemma hoare_if {A} P (b : bool) (m n : M S A) Q :
  (b = true -> hoare P m Q) -> (b = false -> hoare P n Q) -> hoare P (if b then m else n) Q.
Proof. destruct b; auto. Qed.

Lemma hoare_when P b (m : M S unit) Q :
  (b = true -> hoare P m Q) -> (b = false -> forall s, P s -> Q tt s) -> hoare P (when b m) Q.
Proof. intros H1 H2. apply hoare_if; [exact H1|]. intros Eb. apply hoare_ret. auto. Qed.

Lemma hoare_weaken {A} (P P' : S -> Prop) (m : M S A) (Q Q' : A -> S -> Prop) :
  hoare P' m Q' -> (forall s, P s -> P' s) -> (forall a s, Q' a s -> Q a s) -> hoare P m Q.
Proof. intros H HP HQ s a s' Hs E. eauto. Qed.
End Lemmas.

(** Computations on a part of the state. *)
Definition zoom {S T A} (get : S -> T) (put : T -> S -> S) (m : M T A) : M S A := fun s =>
  r ← m (get s); let '(a, t) := r in Ret (a, put t s).

Lemma hoare_zoom {S T A} (get : S -> T) put (m : M T A) (P : S -> Prop) (Q : A -> S -> Prop) :
  (forall s a t, P s -> m (get s) = Ret (a, t) -> Q a (put t s)) -> hoare P (zoom get put m) Q.
Proof.
  intros H s a s' HP E. apply bind_Ret in E as ([a' t] & E & [= <- <-]). eauto.
Qed.

(** *** What every run does: it returns

    [returns P m Q]: from a state with [P], [m] returns, a result with [Q]. *)
Definition returns {S A} (P : S -> Prop) (m : M S A) (Q : A -> S -> Prop) : Prop :=
  forall s, P s -> exists a s', m s = Ret (a, s') /\ Q a s'.

Section Returning.
Context {S : Type}.

Lemma returns_bind {A B} P (m : M S A) R (f : A -> M S B) Q :
  returns P m R -> (forall a, returns (R a) (f a) Q) -> returns P (m ≫= f) Q.
Proof using Type.
  intros Hm Hf s HP. destruct (Hm s HP) as (a & s1 & E & HR). destruct (Hf a s1 HR) as (b & s2 & E2 & HQ).
  exists b, s2. split; [|exact HQ]. rewrite (M_bind_eq _ _ _ _ _ E). exact E2.
Qed.
Lemma returns_ret {A} (P : S -> Prop) (a : A) (Q : A -> S -> Prop) : (forall s, P s -> Q a s) -> returns P (mret a) Q.
Proof using Type. intros H s HP. exists a, s. auto. Qed.
Lemma returns_gets {A} (P : S -> Prop) (f : S -> A) (Q : A -> S -> Prop) : (forall s, P s -> Q (f s) s) -> returns P (gets f) Q.
Proof using Type. intros H s HP. exists (f s), s. auto. Qed.
Lemma returns_modify (P : S -> Prop) (f : S -> S) (Q : unit -> S -> Prop) : (forall s, P s -> Q tt (f s)) -> returns P (modify f) Q.
Proof using Type. intros H s HP. exists tt, (f s). auto. Qed.
Lemma returns_lift {A} (P : S -> Prop) (r : res A) (Q : A -> S -> Prop) :
  (forall s, P s -> exists a, r = Ret a /\ Q a s) -> returns P (lift r) Q.
Proof using Type. intros H s HP. destruct (H s HP) as (a & -> & HQ). exists a, s. auto. Qed.
Lemma returns_when P b (m : M S unit) Q :
  (b = true -> returns P m Q) -> (b = false -> forall s, P s -> Q tt s) -> returns P (when b m) Q.
Proof using Type. intros H1 H2. destruct b; [exact (H1 eq_refl) | apply returns_ret; exact (H2 eq_refl)]. Qed.
Lemma returns_weaken {A} (P P' : S -> Prop) (m : M S A) (Q Q' : A -> S -> Prop) :
  returns P' m Q' -> (forall s, P s -> P' s) -> (forall a s, Q' a s -> Q a s) -> returns P m Q.
Proof using Type. intros H HP HQ s Hs. destruct (H s (HP s Hs)) as (a & s' & E & H'). eauto. Qed.
End Returning.

(** *** What a computation leaves alone

    [still view m]: every run of [m] that returns keeps [view] of the state. *)
Definition still {S T A} (view : S -> T) (m : M S A) : Prop := forall s a s', m s = Ret (a, s') -> view s' = view s.

Section Still.
Context {S T : Type} (view : S -> T).

Lemma still_bind {A B} (m : M S A) (f : A -> M S B) : still view m -> (forall a, still view (f a)) -> still view (m ≫= f).
Proof using Type.
  intros Hm Hf s b s' E. apply M_bind_Ret in E as (a & s1 & E1 & E2).
  rewrite (Hf a _ _ _ E2). exact (Hm _ _ _ E1).
Qed.
Lemma still_ret {A} (a : A) : still view (mret a).
Proof using Type. intros s a' s' [= _ <-]. reflexivity. Qed.
Lemma still_gets {A} (f : S -> A) : still view (gets f).
Proof using Type. intros s a s' [= _ <-]. reflexivity. Qed.
Lemma still_lift {A} (r : res A) : still view (lift r).
Proof using Type. intros s a s' E. apply bind_Ret in E as (x & _ & [= _ <-]). reflexivity. Qed.
Lemma still_modify (f : S -> S) : (forall s, view (f s) = view s) -> still view (modify f).
Proof using Type. intros H s a s' [= _ <-]. apply H. Qed.
Lemma still_when b (m : M S unit) : still view m -> still view (when b m).
Proof using Type. destruct b; [auto | intros _; apply still_ret]. Qed.
Lemma still_zoom {T' V A} (get : S -> T') put (view' : T' -> V) (m : M T' A) :
  (forall s t, view' t = view' (get s) -> view (put t s) = view s) -> still view' m -> still view (zoom get put m).
Proof using Type. intros H Hm s a s' E. apply bind_Ret in E as ([a' t] & E & [= _ <-]). apply H. exact (Hm _ _ _ E). Qed.
End Still.

Create HintDb still discriminated.
#[export] Hint Resolve still_ret still_gets still_lift still_when : still.

(** Follows the code of a computation whose calls are all still. *)
Ltac stilly :=
  repeat first
    [ progress auto with still
    | match goal with
      | |- still _ (match ?x with _ => _ end) => destruct x
      | |- still _ (_ ≫= _) => apply still_bind; [|intros ?]
      end ].
