(* ===== verification/SysIO.v ===== *)
(** * Sending and receiving a whole buffer (src/tcpshm/os.h)

    [tcp_send_all] and [tcp_recv_all] repeat the system call until the buffer is
    done; the login and the probe of shared memory use them. *)

From S2P Require Import Prelude Endian Conf.
Local Open Scope Z_scope.

Section SysIO.
Context {W : Type} {sockets : Sockets W}.
Implicit Types (fd : Z) (bs : list Z) (w : W).

(** [bs] is what is left to send; [Some e] is [*sys_errno = e; return false]. *)
Fixpoint send_all_loop (fuel : nat) fd bs w : res (option Z * W) :=
  match fuel with
  | O => NoFuel
  | S fuel =>
      if 0 <? zlen bs then
        let '(ret, w) := tcp_send fd bs w in
        if ret <=? 0 then Ret (Some (if ret <? 0 then tcp_get_last_error w else 0), w)
        else send_all_loop fuel fd (drop (Z.to_nat ret) bs) w
      else Ret (None, w)
  end.

Definition tcp_send_all fd bs w : res (option Z * W) := send_all_loop (S (length bs)) fd bs w.

(** [got] is what was received, [len] bytes are missing. *)
Fixpoint recv_all_loop (fuel : nat) fd (len : Z) (got : list Z) w : res ((list Z + Z) * W) :=
  match fuel with
  | O => NoFuel
  | S fuel =>
      if 0 <? len then
        let '(ret, bs, w) := tcp_recv fd len w in
        if ret <=? 0 then Ret (inr (if ret <? 0 then tcp_get_last_error w else 0), w)
        else recv_all_loop fuel fd (len - ret) (got ++ bs) w
      else Ret (inl got, w)
  end.

(** The buffer received, or [*sys_errno] with [false]. *)
Definition tcp_recv_all fd (len : Z) w : res ((list Z + Z) * W) :=
  recv_all_loop (S (Z.to_nat len)) fd len [] w.

(** ** What they do *)
Lemma send_all_loop_spec {laws : SendLaws W} fuel : forall fd bs w,
  (length bs < fuel)%nat ->
  exists r w' k, send_all_loop fuel fd bs w = Ret (r, w') /\ (k <= length bs)%nat
    /\ outbox fd w' = outbox fd w ++ take k bs /\ (r = None <-> k = length bs).
Proof using Type.
  induction fuel as [|fuel IH]; intros fd bs w Hf; [lia|]. cbn [send_all_loop]. case_test.
  - assert (Hne : bs <> []) by (intros ->; simpl in *; lia).
    destruct (tcp_send fd bs w) as [n w1] eqn:E. apply send_law in E as (Hn & Hpos & Hout).
    specialize (Hpos Hne). destruct (Z.leb_spec n 0).
    + replace (Z.to_nat n) with 0%nat in Hout by lia.
      eexists _, w1, 0%nat. split; [reflexivity|]. split; [lia|]. split; [exact Hout|].
      split; [discriminate | lia].
    + destruct (IH fd (drop (Z.to_nat n) bs) w1) as (r & w' & k & E & Hk & Ho & Hr);
        [rewrite length_drop; lia|].
      rewrite length_drop in *. exists r, w', (Z.to_nat n + k)%nat.
      split; [exact E|]. split; [lia|]. split.
      * rewrite Ho, Hout, <- app_assoc. f_equal. apply take_take_drop.
      * rewrite Hr. lia.
  - exists None, w, 0%nat. split; [reflexivity|]. split; [lia|].
    split; [rewrite app_nil_r; reflexivity | split; [lia | reflexivity]].
Qed.

Lemma recv_all_loop_spec {laws : RecvLaws W} fuel : forall fd len got w,
  0 <= len < Z.of_nat fuel ->
  exists r w' bs, recv_all_loop fuel fd len got w = Ret (r, w')
    /\ inbox fd w = bs ++ inbox fd w' /\ Forall in_byte bs
    /\ match r with inl out => out = got ++ bs /\ zlen bs = len | inr _ => zlen bs < len end.
Proof using Type.
  induction fuel as [|fuel IH]; intros fd len got w Hf; [lia|]. cbn [recv_all_loop]. case_test.
  - destruct (tcp_recv fd len w) as [[n bs] w1] eqn:E.
    apply recv_law in E as (Hn & Hb & Lb & HI); [|lia].
    destruct (Z.leb_spec n 0).
    + assert (bs = []) as -> by (destruct bs; [reflexivity | simpl in Lb; lia]).
      eexists _, w1, []. split; [reflexivity|]. split; [exact HI|]. split; [constructor|]. simpl. lia.
    + destruct (IH fd (len - n) (got ++ bs) w1) as (r & w' & bs' & E & HI' & Hb' & Hr); [lia|].
      exists r, w', (bs ++ bs'). split; [exact E|]. split; [rewrite HI, HI', app_assoc; reflexivity|].
      split; [apply Forall_app; auto|]. rewrite length_app. destruct r as [out|].
      * destruct Hr as [-> Hl]. rewrite app_assoc. split; [reflexivity | lia].
      * lia.
  - exists (inl got), w, []. rewrite app_nil_r. simpl. repeat split; auto; lia.
Qed.

Lemma tcp_send_all_spec {laws : SendLaws W} fd bs w :
  exists r w' k, tcp_send_all fd bs w = Ret (r, w') /\ (k <= length bs)%nat
    /\ outbox fd w' = outbox fd w ++ take k bs /\ (r = None <-> k = length bs).
Proof using Type. apply send_all_loop_spec. lia. Qed.

Lemma tcp_recv_all_spec {laws : RecvLaws W} fd len w :
  0 <= len ->
  exists r w' bs, tcp_recv_all fd len w = Ret (r, w')
    /\ inbox fd w = bs ++ inbox fd w' /\ Forall in_byte bs
    /\ match r with inl out => out = bs /\ zlen bs = len | inr _ => zlen bs < len end.
Proof using Type. intros. apply (recv_all_loop_spec (S (Z.to_nat len)) fd len []). lia. Qed.

(** tcp_send_all always returns; the socket got a prefix of the bytes, and all of them
    exactly when it reports success. *)
Theorem tcp_send_all_exact {laws : SendLaws W} fd bs w :
  exists r w' k, tcp_send_all fd bs w = Ret (r, w')
    /\ outbox fd w' = outbox fd w ++ take k bs /\ (k <= length bs)%nat
    /\ (r = None <-> k = length bs).
Proof using Type. destruct (tcp_send_all_spec fd bs w) as (r & w' & k & H). exists r, w', k. tauto. Qed.

(** tcp_recv_all always returns; it takes from the stream exactly the bytes it gives on
    success, and fewer than asked on failure. *)
Theorem tcp_recv_all_exact {laws : RecvLaws W} fd len w :
  0 <= len ->
  exists r w' bs, tcp_recv_all fd len w = Ret (r, w') /\ inbox fd w = bs ++ inbox fd w'
    /\ match r with
       | inl out => out = bs /\ zlen bs = len
       | inr _ => zlen bs < len
       end.
Proof using Type.
  intros H. destruct (tcp_recv_all_spec fd len w H) as (r & w' & bs & E & HI & _ & Hr).
  exists r, w', bs. auto.
Qed.
End SysIO.

(** Six bytes that arrive in two pieces, of which five are asked for. *)
Lemma tcp_recv_all_exact_witness :
  exists r w' bs, tcp_recv_all 7 5 (mkWorld [EvRecv [1; 2]; EvRecv [3; 4; 5; 6]] [] 0 []) = Ret (r, w')
    /\ inbox 7 (mkWorld [EvRecv [1; 2]; EvRecv [3; 4; 5; 6]] [] 0 []) = bs ++ inbox 7 w'
    /\ match r with
       | inl out => out = bs /\ zlen bs = 5
       | inr _ => zlen bs < 5
       end.
Proof. refine (tcp_recv_all_exact 7 5 _ _). concrete. Defined.
