(* ===== verification/Messages.v ===== *)
(** * Control messages (the structs of src/tcpshm/ptcp_conn.h)

    Login, its response and the two messages that probe shared memory are
    structs behind a header; their integers are converted to the order of the
    wire in place.  [Wire] is what the client and the server use of such a
    struct, [WireLaws] what they may rely on: what one host encodes, a host of
    any byte order decodes. *)

From S2P Require Import Prelude Endian MsgHeader Conf.
Local Open Scope Z_scope.

(** [little] is the byte order of the host whose memory holds the bytes. *)
Class Wire (A : Type) : Type := {
  w_type : Z;                        (* msg_type *)
  w_sizeof : Z;                      (* sizeof *)
  w_bytes : bool -> A -> list Z;     (* the members in memory, without the padding *)
  w_read : bool -> list Z -> A;      (* members read through a pointer *)
  w_swap : Platform -> bool -> A -> A  (* ConvertByteOrder *)
}.

Class WireLaws (A : Type) {wire : Wire A} : Type := {
  w_ok : A -> Prop;
  w_type_ok : in_u16 w_type;
  w_sizeof_ok : 0 < w_sizeof /\ sizeof_MsgHeader + w_sizeof < 2 ^ 16;
  w_len little a : w_ok a -> zlen (w_bytes little a) <= w_sizeof;
  w_read_bytes little a pad : w_ok a -> w_read little (w_bytes little a ++ pad) = a;
  w_read_ok little bs : w_sizeof <= zlen bs -> Forall in_byte bs -> w_ok (w_read little bs);
  w_swap_ok p to a : w_ok a -> w_ok (w_swap p to a);
  w_swap_swap p to a : w_ok a -> w_swap p to (w_swap p to a) = a;
  w_swap_bytes (p : Platform) to a : w_ok a -> w_bytes p (w_swap p to a) = w_bytes to a
}.

(** ** Buffers of a header and a struct *)
Section Buffers.
Context {platform : Platform} {conf : Conf} {A : Type} {wire : Wire A}.

(** [MsgHeader buf[1 + (sizeof(A) + 7) / 8]] *)
Definition body_size : Z := sizeof_MsgHeader * ((w_sizeof + 7) / sizeof_MsgHeader).
Definition buf_size : Z := sizeof_MsgHeader + body_size.

Definition ctl_header (ack : Z) : MsgHeader :=
  mkHeader (u16 (sizeof_MsgHeader + w_sizeof)) w_type ack.

(** The buffer after both were converted; [pad] is what the padding holds. *)
Definition ctl_bytes (pad : Z) (h : MsgHeader) (a : A) : list Z :=
  let body := w_bytes native_little (w_swap platform ToLittleEndian a) in
  hdr_bytes native_little (ConvertByteOrder ToLittleEndian h)
    ++ body ++ replicate (Z.to_nat (body_size - zlen body)) pad.

(** A buffer received, converted. *)
Definition ctl_head (bs : list Z) : MsgHeader :=
  ConvertByteOrder ToLittleEndian (bytes_hdr native_little (take 8 bs)).
Definition ctl_body (body : list Z) : A :=
  w_swap platform ToLittleEndian (w_read native_little body).

(** The test every receiver makes. *)
Definition ctl_valid (h : MsgHeader) : bool :=
  (size h =? sizeof_MsgHeader + w_sizeof) && (msg_type h =? w_type).
End Buffers.

Section BufferLemmas.
Context {conf : Conf} {A : Type} {wire : Wire A} {laws : WireLaws A}.

Lemma body_size_bounds : w_sizeof <= body_size < w_sizeof + 8.
Proof using Type. unfold body_size, sizeof_MsgHeader. Z.div_mod_to_equations. lia. Qed.

Lemma ctl_header_ok ack : in_u32 ack -> hdr_ok (ctl_header ack).
Proof using laws.
  intros Ha. destruct w_sizeof_ok. apply hdr_ok_intro; [| apply w_type_ok | exact Ha].
  apply u16_in.
Qed.

Lemma ctl_valid_header ack : ctl_valid (ctl_header ack) = true.
Proof using laws.
  destruct w_sizeof_ok. unfold ctl_valid, ctl_header, sizeof_MsgHeader in *. cbn [size msg_type].
  rewrite u16_id by (unfold in_u16; lia). lia.
Qed.

Lemma length_ctl_bytes (p : Platform) pad h a : w_ok a -> zlen (ctl_bytes pad h a) = buf_size.
Proof using laws.
  intros Ha. unfold ctl_bytes, buf_size, sizeof_MsgHeader.
  pose proof (w_len native_little _ (w_swap_ok p ToLittleEndian a Ha)). pose proof body_size_bounds.
  rewrite !length_app, length_hdr_bytes, length_replicate. lia.
Qed.

(** The bytes do not depend on the host that encodes them. *)
Lemma ctl_bytes_host (p p' : Platform) pad h a :
  hdr_ok h -> w_ok a -> @ctl_bytes p _ _ _ pad h a = @ctl_bytes p' _ _ _ pad h a.
Proof using laws.
  intros Hh Ha. unfold ctl_bytes. rewrite !ConvertByteOrder_bytes by exact Hh.
  unfold native_little. rewrite !w_swap_bytes by exact Ha. reflexivity.
Qed.

(** Received by the same or another host. *)
Lemma ctl_decode (sender receiver : Platform) pad h a rest :
  hdr_ok h -> w_ok a ->
  let bs := @ctl_bytes sender _ _ _ pad h a in
  @ctl_head receiver _ (bs ++ rest) = h /\ @ctl_body receiver _ _ _ (drop 8 bs) = a.
Proof using laws.
  intros Hh Ha bs. assert (E : bs = @ctl_bytes receiver _ _ _ pad h a) by (apply ctl_bytes_host; assumption).
  rewrite E. clear E bs. unfold ctl_bytes, ctl_head, ctl_body. split.
  - rewrite <- app_assoc, (take_app_length' _ _ 8) by (rewrite length_hdr_bytes; reflexivity).
    rewrite <- (app_nil_r (hdr_bytes _ _)), bytes_hdr_bytes by auto with bounds.
    apply ConvertByteOrder_involutive. exact Hh.
  - rewrite (drop_app_length' _ _ 8) by (rewrite length_hdr_bytes; reflexivity).
    rewrite w_read_bytes by (apply w_swap_ok; exact Ha). apply w_swap_swap. exact Ha.
Qed.

(** Whatever bytes are received, the struct read is well formed. *)
Lemma ctl_body_ok (p : Platform) body :
  w_sizeof <= zlen body -> Forall in_byte body -> w_ok (@ctl_body p _ _ _ body).
Proof using laws. intros Hl Hb. apply w_swap_ok, w_read_ok; assumption. Qed.

(** C25. A login, its response, a probe request or its answer, sent by a host of any byte
    order with its header, is received by a host of any byte order as the same header and
    the same message, whatever the padding is; the bytes have the size of the buffer and
    pass the test of size and type. *)
Theorem control_message_roundtrip (sender receiver : Platform) pad ack a rest :
  in_u32 ack -> w_ok a ->
  let bs := @ctl_bytes sender _ _ _ pad (ctl_header ack) a in
  zlen bs = buf_size
  /\ @ctl_head receiver _ (bs ++ rest) = ctl_header ack
  /\ ctl_valid (@ctl_head receiver _ (bs ++ rest)) = true
  /\ @ctl_body receiver _ _ _ (drop 8 bs) = a.
Proof using laws.
  intros Hack Ha bs. pose proof (ctl_header_ok ack Hack) as Hh.
  destruct (ctl_decode sender receiver pad (ctl_header ack) a rest Hh Ha) as [E1 E2].
  fold bs in E1, E2. rewrite E1. split; [apply length_ctl_bytes; exact Ha|].
  split; [reflexivity|]. split; [apply ctl_valid_header | exact E2].
Qed.
End BufferLemmas.

(** ** The structs *)

(** Member at offset [k], of [n] bytes. *)
Definition member (k n : Z) (bs : list Z) : list Z := take (Z.to_nat n) (drop (Z.to_nat k) bs).

Lemma member_app k n pre x post :
  zlen pre = k -> zlen x = n -> member k n (pre ++ x ++ post) = x.
Proof.
  intros Hk Hn. unfold member. rewrite (drop_app_length' _ _ (Z.to_nat k)) by lia.
  apply take_app_length'. lia.
Qed.

Lemma member_front n x post : zlen x = n -> member 0 n (x ++ post) = x.
Proof. apply (member_app 0 n [] x post eq_refl). Qed.

(** A member read from bytes. *)
Lemma member_chars k n bs : 0 <= k -> 0 <= n -> k + n <= zlen bs -> Forall in_byte bs ->
  zlen (member k n bs) = n /\ Forall in_byte (member k n bs).
Proof.
  intros Hk Hn Hl Hb. unfold member. split; [rewrite length_take, length_drop; lia|].
  apply Forall_take, Forall_drop. exact Hb.
Qed.
Lemma member_bound little k n bs : 0 <= k -> 0 <= n -> k + n <= zlen bs -> Forall in_byte bs ->
  0 <= of_bytes little (member k n bs) < 256 ^ n.
Proof.
  intros Hk Hn Hl Hb. destruct (member_chars k n bs Hk Hn Hl Hb) as [L HB].
  pose proof (of_bytes_bound little _ HB) as B. rewrite L in B. exact B.
Qed.

(** Swaps of a 4-byte and an 8-byte member. *)
Section Swaps.
Context {platform : Platform}.
Lemma swap4_bytes to a : in_u32 a -> to_bytes native_little 4 (Convert to 4 a) = to_bytes to 4 a.
Proof using Type. intros. apply Convert_bytes; [unfold convertible; auto | assumption]. Qed.
Lemma swap4_ok to a : in_u32 a -> in_u32 (Convert to 4 a).
Proof using Type. intros. apply (Convert_bound to 4); [unfold convertible; auto | assumption]. Qed.
Lemma swap4_swap to a : in_u32 a -> Convert to 4 (Convert to 4 a) = a.
Proof using Type. intros. apply Convert_involutive; [unfold convertible; auto | assumption]. Qed.
Lemma swap8_bytes to a : in_u64 a -> to_bytes native_little 8 (Convert to 8 a) = to_bytes to 8 a.
Proof using Type. intros. apply Convert_bytes; [unfold convertible; auto | assumption]. Qed.
Lemma swap8_ok to a : in_u64 a -> in_u64 (Convert to 8 a).
Proof using Type. intros. apply (Convert_bound to 8); [unfold convertible; auto | assumption]. Qed.
Lemma swap8_swap to a : in_u64 a -> Convert to 8 (Convert to 8 a) = a.
Proof using Type. intros. apply Convert_involutive; [unfold convertible; auto | assumption]. Qed.
End Swaps.

(** [LoginMsgTpl]; [Conf::LoginUserData] is [char] in both programs. *)
Record LoginMsg : Type := mkLogin {
  client_seq_start : Z;
  client_seq_end : Z;
  user_data : Z;
  use_shm : Z;
  client_name : list Z;
  last_server_name : list Z
}.

(** [LoginRspMsgTpl] *)
Record LoginRspMsg : Type := mkLoginRsp {
  server_seq_start : Z;
  server_seq_end : Z;
  rsp_user_data : Z;
  status : Z;  (* 0: OK, 1: seqnum mismatch, 2: other error *)
  server_name : list Z;
  error_msg : list Z  (* char[32] *)
}.

Definition ShmProbeNameSize : Z := 64.
Record ShmProbeReqMsg : Type := mkProbeReq { token : Z; shm_name : list Z }.
Record ShmProbeRspMsg : Type := mkProbeRsp { ack : Z; ok : Z }.

(** Sizes are rounded up to the alignment of the largest member. *)
Definition align (k n : Z) : Z := k * ((n + k - 1) / k).

Section Structs.
Context {conf : Conf}.

#[export] Instance LoginMsg_wire : Wire LoginMsg := {
  w_type := 1;
  w_sizeof := align 4 (10 + 2 * NameSize);
  w_bytes little m :=
    to_bytes little 4 (client_seq_start m) ++ to_bytes little 4 (client_seq_end m)
    ++ [user_data m; use_shm m] ++ client_name m ++ last_server_name m;
  w_read little bs :=
    mkLogin (of_bytes little (member 0 4 bs)) (of_bytes little (member 4 4 bs))
            (of_bytes little (member 8 1 bs)) (of_bytes little (member 9 1 bs))
            (member 10 NameSize bs) (member (10 + NameSize) NameSize bs);
  w_swap p to m :=
    mkLogin (@Convert p to 4 (client_seq_start m)) (@Convert p to 4 (client_seq_end m))
            (user_data m) (use_shm m) (client_name m) (last_server_name m)
}.

#[export] Instance LoginRspMsg_wire : Wire LoginRspMsg := {
  w_type := 2;
  w_sizeof := align 4 (42 + NameSize);
  w_bytes little m :=
    to_bytes little 4 (server_seq_start m) ++ to_bytes little 4 (server_seq_end m)
    ++ [rsp_user_data m; status m] ++ server_name m ++ error_msg m;
  w_read little bs :=
    mkLoginRsp (of_bytes little (member 0 4 bs)) (of_bytes little (member 4 4 bs))
               (of_bytes little (member 8 1 bs)) (of_bytes little (member 9 1 bs))
               (member 10 NameSize bs) (member (10 + NameSize) 32 bs);
  w_swap p to m :=
    mkLoginRsp (@Convert p to 4 (server_seq_start m)) (@Convert p to 4 (server_seq_end m))
               (rsp_user_data m) (status m) (server_name m) (error_msg m)
}.

#[export] Instance ShmProbeReqMsg_wire : Wire ShmProbeReqMsg := {
  w_type := 3;
  w_sizeof := align 8 (8 + ShmProbeNameSize);
  w_bytes little m := to_bytes little 8 (token m) ++ shm_name m;
  w_read little bs := mkProbeReq (of_bytes little (member 0 8 bs)) (member 8 ShmProbeNameSize bs);
  w_swap p to m := mkProbeReq (@Convert p to 8 (token m)) (shm_name m)
}.

#[export] Instance ShmProbeRspMsg_wire : Wire ShmProbeRspMsg := {
  w_type := 4;
  w_sizeof := align 8 (8 + 1);
  w_bytes little m := to_bytes little 8 (ack m) ++ [ok m];
  w_read little bs := mkProbeRsp (of_bytes little (member 0 8 bs)) (of_bytes little (member 8 1 bs));
  w_swap p to m := mkProbeRsp (@Convert p to 8 (ack m)) (ok m)
}.

(** *** Well-formed structs: arrays of the declared length, [char]s as bytes *)
Definition chars (n : Z) (a : list Z) : Prop := zlen a = n /\ Forall in_byte a.
Definition login_ok (m : LoginMsg) : Prop :=
  in_u32 (client_seq_start m) /\ in_u32 (client_seq_end m) /\ in_byte (user_data m)
  /\ in_byte (use_shm m) /\ chars NameSize (client_name m) /\ chars NameSize (last_server_name m).
Definition login_rsp_ok (m : LoginRspMsg) : Prop :=
  in_u32 (server_seq_start m) /\ in_u32 (server_seq_end m) /\ in_byte (rsp_user_data m)
  /\ in_byte (status m) /\ chars NameSize (server_name m) /\ chars 32 (error_msg m).
Definition probe_req_ok (m : ShmProbeReqMsg) : Prop :=
  in_u64 (token m) /\ chars ShmProbeNameSize (shm_name m).
Definition probe_rsp_ok (m : ShmProbeRspMsg) : Prop := in_u64 (ack m) /\ in_byte (ok m).

Lemma of_one_byte little b : of_bytes little [b] = b.
Proof using Type. destruct little; unfold of_bytes; simpl; lia. Qed.

(** The two login structs have the same shape. *)
Lemma read_members little a b x y n1 n2 pad N1 N2 :
  in_u32 a -> in_u32 b -> zlen n1 = N1 -> zlen n2 = N2 -> 0 <= N1 -> 0 <= N2 ->
  let bs := (to_bytes little 4 a ++ to_bytes little 4 b ++ [x; y] ++ n1 ++ n2) ++ pad in
  of_bytes little (member 0 4 bs) = a /\ of_bytes little (member 4 4 bs) = b
  /\ of_bytes little (member 8 1 bs) = x /\ of_bytes little (member 9 1 bs) = y
  /\ member 10 N1 bs = n1 /\ member (10 + N1) N2 bs = n2.
Proof using Type.
  intros Ha Hb H1 H2 HN1 HN2 bs. set (A := to_bytes little 4 a) in *. set (B := to_bytes little 4 b) in *.
  assert (LA : zlen A = 4) by (unfold A; rewrite length_to_bytes; reflexivity).
  assert (LB : zlen B = 4) by (unfold B; rewrite length_to_bytes; reflexivity).
  assert (M : forall k n pre z post, bs = pre ++ z ++ post -> zlen pre = k -> zlen z = n ->
                member k n bs = z) by (intros k n pre z post ->; apply member_app).
  rewrite (M 0 4 [] A (B ++ [x; y] ++ n1 ++ n2 ++ pad)) by ((unfold bs; rewrite <- ?app_assoc; reflexivity) || exact LA).
  rewrite (M 4 4 A B ([x; y] ++ n1 ++ n2 ++ pad)) by ((unfold bs; rewrite <- ?app_assoc; reflexivity) || assumption).
  rewrite (M 8 1 (A ++ B) [x] ([y] ++ n1 ++ n2 ++ pad))
    by ((unfold bs; rewrite <- ?app_assoc; reflexivity) || (rewrite length_app; lia)).
  rewrite (M 9 1 (A ++ B ++ [x]) [y] (n1 ++ n2 ++ pad))
    by ((unfold bs; rewrite <- ?app_assoc; reflexivity) || (rewrite !length_app; simpl; lia)).
  rewrite (M 10 N1 (A ++ B ++ [x; y]) n1 (n2 ++ pad))
    by ((unfold bs; rewrite <- ?app_assoc; reflexivity) || assumption || (rewrite !length_app; simpl; lia)).
  rewrite (M (10 + N1) N2 (A ++ B ++ [x; y] ++ n1) n2 pad)
    by ((unfold bs; rewrite <- ?app_assoc; reflexivity) || assumption || (rewrite !length_app; simpl; lia)).
  unfold A, B. rewrite !of_to_bytes, !of_one_byte by assumption. auto 6.
Qed.

Lemma align_bounds k n : 0 < k -> n <= align k n < n + k.
Proof using Type. intros. unfold align. Z.div_mod_to_equations. nia. Qed.

Context {conf_ok : ConfOk conf}.

#[export] Instance LoginMsg_laws : WireLaws LoginMsg.
Proof using conf_ok.
  pose proof conf_name as HN. pose proof (align_bounds 4 (10 + 2 * NameSize) ltac:(lia)) as HA.
  refine {| w_ok := login_ok |}; cbn [w_type w_sizeof w_bytes w_read w_swap LoginMsg_wire].
  - word_lia.
  - unfold sizeof_MsgHeader. lia.
  - intros little m (_ & _ & _ & _ & [L1 _] & [L2 _]). rewrite !length_app, !length_to_bytes. cbn [length]. lia.
  - intros little m pad (H1 & H2 & _ & _ & [L1 _] & [L2 _]).
    destruct (read_members little (client_seq_start m) (client_seq_end m) (user_data m) (use_shm m)
      (client_name m) (last_server_name m) pad NameSize NameSize) as (E1 & E2 & E3 & E4 & E5 & E6); auto; try lia.
    rewrite E1, E2, E3, E4, E5, E6. destruct m. reflexivity.
  - intros little bs Hl Hb.
    refine (conj (member_bound little 0 4 bs _ _ _ Hb) (conj (member_bound little 4 4 bs _ _ _ Hb)
      (conj (member_bound little 8 1 bs _ _ _ Hb) (conj (member_bound little 9 1 bs _ _ _ Hb)
      (conj (member_chars 10 NameSize bs _ _ _ Hb) (member_chars (10 + NameSize) NameSize bs _ _ _ Hb)))))); lia.
  - intros p to m (H1 & H2 & Hm). split; [|split]; cbn; auto using swap4_ok.
  - intros p to m (H1 & H2 & _). cbn. rewrite !swap4_swap by assumption. destruct m. reflexivity.
  - intros p to m (H1 & H2 & _). change (p : bool) with (@native_little p). cbn.
    rewrite !swap4_bytes by assumption. reflexivity.
Defined.

#[export] Instance LoginRspMsg_laws : WireLaws LoginRspMsg.
Proof using conf_ok.
  pose proof conf_name as HN. pose proof (align_bounds 4 (42 + NameSize) ltac:(lia)) as HA.
  refine {| w_ok := login_rsp_ok |}; cbn [w_type w_sizeof w_bytes w_read w_swap LoginRspMsg_wire].
  - word_lia.
  - unfold sizeof_MsgHeader. lia.
  - intros little m (_ & _ & _ & _ & [L1 _] & [L2 _]). rewrite !length_app, !length_to_bytes. cbn [length]. lia.
  - intros little m pad (H1 & H2 & _ & _ & [L1 _] & [L2 _]).
    destruct (read_members little (server_seq_start m) (server_seq_end m) (rsp_user_data m) (status m)
      (server_name m) (error_msg m) pad NameSize 32) as (E1 & E2 & E3 & E4 & E5 & E6); auto; try lia.
    rewrite E1, E2, E3, E4, E5, E6. destruct m. reflexivity.
  - intros little bs Hl Hb.
    refine (conj (member_bound little 0 4 bs _ _ _ Hb) (conj (member_bound little 4 4 bs _ _ _ Hb)
      (conj (member_bound little 8 1 bs _ _ _ Hb) (conj (member_bound little 9 1 bs _ _ _ Hb)
      (conj (member_chars 10 NameSize bs _ _ _ Hb) (member_chars (10 + NameSize) 32 bs _ _ _ Hb)))))); lia.
  - intros p to m (H1 & H2 & Hm). split; [|split]; cbn; auto using swap4_ok.
  - intros p to m (H1 & H2 & _). cbn. rewrite !swap4_swap by assumption. destruct m. reflexivity.
  - intros p to m (H1 & H2 & _). change (p : bool) with (@native_little p). cbn.
    rewrite !swap4_bytes by assumption. reflexivity.
Defined.

#[export] Instance ShmProbeReqMsg_laws : WireLaws ShmProbeReqMsg.
Proof using Type.
  refine {| w_ok := probe_req_ok |}; cbn [w_type w_sizeof w_bytes w_read w_swap ShmProbeReqMsg_wire].
  - word_lia.
  - vm_compute. split; congruence.
  - intros little m (_ & [L _]). rewrite length_app, length_to_bytes, Nat2Z.inj_add, L. vm_compute. congruence.
  - intros little m pad (H1 & [L _]). rewrite <- app_assoc.
    rewrite (member_front 8 (to_bytes little 8 (token m)) (shm_name m ++ pad))
      by (rewrite ?length_to_bytes; reflexivity).
    rewrite (member_app 8 ShmProbeNameSize (to_bytes little 8 (token m)) (shm_name m) pad)
      by (rewrite ?length_to_bytes; reflexivity || exact L).
    rewrite of_to_bytes by exact H1. destruct m. reflexivity.
  - intros little bs Hl Hb. change (align _ _) with 72 in Hl.
    refine (conj (member_bound little 0 8 bs _ _ _ Hb) (member_chars 8 ShmProbeNameSize bs _ _ _ Hb));
      unfold ShmProbeNameSize; lia.
  - intros p to m (H1 & Hm). split; cbn; auto using swap8_ok.
  - intros p to m (H1 & _). cbn. rewrite !swap8_swap by assumption. destruct m. reflexivity.
  - intros p to m (H1 & _). change (p : bool) with (@native_little p). cbn.
    rewrite !swap8_bytes by assumption. reflexivity.
Defined.

#[export] Instance ShmProbeRspMsg_laws : WireLaws ShmProbeRspMsg.
Proof using Type.
  refine {| w_ok := probe_rsp_ok |}; cbn [w_type w_sizeof w_bytes w_read w_swap ShmProbeRspMsg_wire].
  - word_lia.
  - vm_compute. split; congruence.
  - intros little m _. rewrite length_app, length_to_bytes. vm_compute. congruence.
  - intros little m pad (H1 & _). rewrite <- app_assoc.
    rewrite (member_front 8 (to_bytes little 8 (ack m)) ([ok m] ++ pad))
      by (rewrite ?length_to_bytes; reflexivity).
    rewrite (member_app 8 1 (to_bytes little 8 (ack m)) [ok m] pad)
      by (rewrite ?length_to_bytes; reflexivity).
    rewrite of_to_bytes, of_one_byte by exact H1. destruct m. reflexivity.
  - intros little bs Hl Hb. change (align _ _) with 16 in Hl.
    refine (conj (member_bound little 0 8 bs _ _ _ Hb) (member_bound little 8 1 bs _ _ _ Hb)); lia.
  - intros p to m (H1 & Hm). split; cbn; auto using swap8_ok.
  - intros p to m (H1 & _). cbn. rewrite !swap8_swap by assumption. destruct m. reflexivity.
  - intros p to m (H1 & _). change (p : bool) with (@native_little p). cbn.
    rewrite !swap8_bytes by assumption. reflexivity.
Defined.
End Structs.

(** ** A login from a big-endian client to a little-endian server *)
Section Witness.
#[local] Existing Instance ServerConf.
Definition a_name (s : list Z) : list Z := s ++ replicate (16 - length s) 0.
Definition a_login : LoginMsg := mkLogin 3 7 0 1 (a_name [99; 49]) (a_name [115; 49]).

Lemma control_message_roundtrip_witness :
  zlen (@ctl_bytes false _ _ _ 0 (ctl_header (A := LoginMsg) 5) a_login) = buf_size (A := LoginMsg)
  /\ @ctl_head true _ (@ctl_bytes false _ _ _ 0 (ctl_header (A := LoginMsg) 5) a_login ++ [1])
     = ctl_header (A := LoginMsg) 5
  /\ ctl_valid (A := LoginMsg) (@ctl_head true _ (@ctl_bytes false _ _ _ 0 (ctl_header (A := LoginMsg) 5) a_login ++ [1])) = true
  /\ @ctl_body true _ _ _ (drop 8 (@ctl_bytes false _ _ _ 0 (ctl_header (A := LoginMsg) 5) a_login)) = a_login.
Proof.
  refine (control_message_roundtrip (A := LoginMsg) false true 0 5 a_login [1] _ _).
  - concrete.
  - split; [concrete|]. split; [concrete|]. split; [concrete|]. split; [concrete|].
    split; (split; [reflexivity | repeat constructor; concrete]).
Defined.
End Witness.
