(* ===== verification/System.v ===== *)
(** * The operating system (src/tcpshm/os.h)

    What the client and the server use of the system besides sending, receiving
    and mapping files, the documented behaviour their theorems rely on, and a
    simulated system on which the definitions can be run. *)

From Stdlib Require Import String.
From stdpp Require Import gmap.
From S2P Require Import Prelude Endian Conf TcpShmConn.
Local Open Scope Z_scope.

(** The result of a call is left out where the code ignores it. *)
Class System (W : Type) : Type := {
  tcp_socket : W -> Z * W;
  tcp_set_nonblocking : Z -> W -> W;
  tcp_set_blocking : Z -> W -> W;
  tcp_set_timeout : forall (fd : Z) (optname : string) (ms : Z), W -> Z * W;
  tcp_setsockopt : forall (fd : Z) (optname : string), W -> Z * W;
  tcp_bind : forall (fd : Z) (ipv4 : list Z) (port : Z), W -> Z * W;
  tcp_listen : forall (fd backlog : Z), W -> Z * W;
  tcp_accept : Z -> W -> Z * list Z * W;
  tcp_connect : forall (fd : Z) (ipv4 : list Z) (port : Z), W -> Z * W;
  tcp_mkdir : list Z -> W -> W;
  steady_clock_now : W -> Z * W
}.

Record ShmProbeData : Type := mkProbe { probe_token : Z; probe_ack : Z }.

(** The memory of the probe belongs to the system, because the other process
    writes it while this one is blocked in a call. *)
Class ProbeMemory (W : Type) : Type := {
  read_probe : list Z -> W -> ShmProbeData;
  write_probe : list Z -> ShmProbeData -> W -> W;
  my_shm_unlink : list Z -> W -> W
}.

(** ** Documented behaviour

    Only sending adds to what was sent; receiving takes from what the peer sends;
    what is written in shared memory is there. *)
Section Laws.
Context {W : Type} {sockets : Sockets W} {sends : SendLaws W} {recvs : RecvLaws W}.

Definition same_io (w w' : W) : Prop :=
  (forall fd, outbox fd w' = outbox fd w) /\ (forall fd, inbox fd w' = inbox fd w).

Lemma same_io_refl w : same_io w w.
Proof using Type. split; reflexivity. Qed.
Lemma same_io_trans w1 w2 w3 : same_io w1 w2 -> same_io w2 w3 -> same_io w1 w3.
Proof using Type. intros [A B] [C D]. split; intros; [rewrite C, A | rewrite D, B]; reflexivity. Qed.

Class SystemLaws {mmap : Mmap W} {system : System W} {probes : ProbeMemory W} : Type := {
  recv_outbox fd len w n bs w' : tcp_recv fd len w = (n, bs, w') -> forall fd', outbox fd' w' = outbox fd' w;
  nonblocking_io fd w : same_io w (tcp_set_nonblocking fd w);
  blocking_io fd w : same_io w (tcp_set_blocking fd w);
  timeout_io fd o ms w : same_io w (snd (tcp_set_timeout fd o ms w));
  clock_io w : same_io w (snd (steady_clock_now w));
  my_mmap_io b name w : same_io w (snd (my_mmap b name w));
  my_mmap_existing_io b name w : same_io w (snd (my_mmap_existing b name w));
  write_probe_io name p w : same_io w (write_probe name p w);
  unlink_io name w : same_io w (my_shm_unlink name w);
  read_write_probe name p w : read_probe name (write_probe name p w) = p
}.
End Laws.

(** ** A simulated system

    The scripted socket of Conf.v, with memory for probes, a clock, the
    descriptors [accept] gives and those that are open. *)
Record sim : Type := mkSim {
  net : world;
  memory : gmap (list Z) ShmProbeData;
  accepts : list Z;
  clock : Z;
  open_fds : list Z
}.
Definition set_net (w : world) (s : sim) : sim := mkSim w (memory s) (accepts s) (clock s) (open_fds s).
Definition set_memory m (s : sim) : sim := mkSim (net s) m (accepts s) (clock s) (open_fds s).
Definition add_fd (fd : Z) (s : sim) : sim := mkSim (net s) (memory s) (accepts s) (clock s) (fd :: open_fds s).

Fixpoint remove_fd (fd : Z) (l : list Z) : list Z :=
  match l with
  | [] => []
  | x :: l => if x =? fd then l else x :: remove_fd fd l
  end.

#[export] Instance sim_sockets : Sockets sim := {
  tcp_send fd bs s := let '(n, w) := tcp_send fd bs (net s) in (n, set_net w s);
  tcp_recv fd len s := let '(r, w) := tcp_recv fd len (net s) in (r, set_net w s);
  tcp_readv fd lens s := let '(r, w) := tcp_readv fd lens (net s) in (r, set_net w s);
  tcp_close fd s :=
    mkSim (tcp_close fd (net s)) (memory s) (accepts s) (clock s) (remove_fd fd (open_fds s));
  tcp_get_last_error s := tcp_get_last_error (net s);
  uninit := 205
}.

#[export] Instance sim_mmap : Mmap sim := {
  my_mmap _ _ s := (None, s);
  my_mmap_existing use_shm name s :=
    (if decide (is_Some (memory s !! name)) then None else Some "open"%string, s)
}.

#[export] Instance sim_probes : ProbeMemory sim := {
  read_probe name s := default (mkProbe 0 0) (memory s !! name);
  write_probe name p s := set_memory (<[name := p]> (memory s)) s;
  my_shm_unlink name s := set_memory (delete name (memory s)) s
}.

#[export] Instance sim_system : System sim := {
  tcp_socket s := (5, add_fd 5 s);
  tcp_set_nonblocking _ s := s;
  tcp_set_blocking _ s := s;
  tcp_set_timeout _ _ _ s := (0, s);
  tcp_setsockopt _ _ s := (0, s);
  tcp_bind _ _ _ s := (0, s);
  tcp_listen _ _ s := (0, s);
  tcp_accept _ s :=
    match accepts s with
    | [] => (INVALID_TCP_SOCKET, [], s)
    | fd :: fds => (fd, [127; 0; 0; 1], mkSim (net s) (memory s) fds (clock s)
                                            (if fd =? INVALID_TCP_SOCKET then open_fds s else fd :: open_fds s))
    end;
  tcp_connect _ _ _ s := (0, s);
  tcp_mkdir _ s := s;
  steady_clock_now s := (clock s, mkSim (net s) (memory s) (accepts s) (clock s + 1) (open_fds s))
}.

#[export] Instance sim_send : SendLaws sim.
Proof.
  refine {| outbox fd s := outbox fd (net s) |}. intros fd bs s n s' H.
  cbn in H. destruct (script_send fd bs (net s)) as [n0 w0] eqn:E. injection H as <- <-.
  exact (send_law fd bs (net s) n0 w0 E).
Defined.

#[export] Instance sim_recv : RecvLaws sim.
Proof.
  refine {| inbox fd s := inbox fd (net s) |}; cbn [tcp_recv tcp_readv tcp_send sim_sockets].
  - intros fd len s n bs s' Hl H. destruct (tcp_recv fd len (net s)) as [[n0 bs0] w0] eqn:E.
    injection H as <- <- <-. exact (recv_law fd len (net s) n0 bs0 w0 Hl E).
  - intros fd lens s n bs s' Hl H. destruct (tcp_readv fd lens (net s)) as [[n0 bs0] w0] eqn:E.
    injection H as <- <- <-. exact (readv_law fd lens (net s) n0 bs0 w0 Hl E).
  - intros len s n bs s' H. destruct (tcp_recv _ len (net s)) as [[n0 bs0] w0] eqn:E.
    injection H as <- <- <-. exact (recv_closed len (net s) n0 bs0 w0 E).
  - intros lens s n bs s' H. destruct (tcp_readv _ lens (net s)) as [[n0 bs0] w0] eqn:E.
    injection H as <- <- <-. exact (readv_closed lens (net s) n0 bs0 w0 E).
  - intros fd bs s n s' H fd'. destruct (tcp_send fd bs (net s)) as [n0 w0] eqn:E.
    injection H as <- <-. exact (send_inbox fd bs (net s) n0 w0 E fd').
  - unfold in_byte. simpl. lia.
Defined.

#[export] Instance sim_laws : SystemLaws.
Proof.
  constructor; try (intros; split; reflexivity).
  - intros fd len s n bs s' H fd'. cbn in H. unfold script_recv in H.
    destruct (fd =? _); [injection H as _ _ <-; reflexivity|].
    destruct (script (net s)) as [|[n0|bs0|e] evs]; injection H as _ _ <-; reflexivity.
  - intros name p s. cbn. rewrite lookup_insert_eq. reflexivity.
Defined.
