(* ===== verification/ShmProbe.v ===== *)
(** * Probing shared memory (the probe of tcpshm_server.h and tcpshm_client.h)

    Before the server accepts a login that asks for shared memory it checks that
    both ends are on one host: it puts a fresh token in a shared-memory object,
    tells the client its name over TCP, and expects the client to leave the
    token, masked, in the object and to send it back. *)

From Stdlib Require Import String.
From S2P Require Import Prelude StateRes Endian MsgHeader Conf CString TcpShmConn SysIO Messages System.
Local Open Scope Z_scope.

Definition ShmProbeAckMask : Z := 6510615555426900570.  (* 0x5a5a5a5a5a5a5a5a *)

(** [%llx] *)
Definition hex_digit (d : Z) : Z := if d <? 10 then 48 + d else 87 + d.
Fixpoint hex (fuel : nat) (x : Z) : list Z :=
  match fuel with
  | O => []
  | S fuel => (if x <? 16 then [] else hex fuel (x / 16)) ++ [hex_digit (x mod 16)]
  end.

(** [snprintf(buf, sizeof(buf), ...)] of the formatted string. *)
Definition snprintf (buf s : list Z) : res (list Z) :=
  write_at buf 0 (take (length buf - 1) s ++ [0]).

Section Probe.
Context {platform : Platform} {conf : Conf} {W : Type}.
Context {sockets : Sockets W} {mmap : Mmap W} {system : System W} {probes : ProbeMemory W}.
Implicit Types (fd : Z) (name : list Z).

Definition send_all fd (bs : list Z) : M W (option Z) := tcp_send_all fd bs.
Definition recv_all fd (len : Z) : M W (list Z + Z) := tcp_recv_all fd len.
(** A call that only changes the system, and one with a result. *)
Definition sys (f : W -> W) : M W unit := modify f.
Definition call {A} (f : W -> A * W) : M W A := fun w => Ret (f w).

(** ** The server *)

(** [self] is [reinterpret_cast<uintptr_t>(this)]. *)
Definition salt_of (self : Z) (client_name : list Z) : Z :=
  foldl (fun salt c => u64 (u64 (salt * 131) + c)) (u64 self) (cstr client_name).
Definition MakeShmProbeToken (self : Z) (client_name : list Z) : M W Z :=
  now ← call steady_clock_now;
  let salt := salt_of self client_name in
  mret (Z.lxor (Z.lxor (u64 now) (u64 (Z.shiftl salt 17))) (Z.shiftr salt 7)).

Definition probe_name_of (server_name client_name : list Z) (token : Z) : list Z :=
  lit "/tcpshm_probe_" ++ cstr server_name ++ lit "_" ++ cstr client_name ++ lit "_" ++ hex 16 token.

Definition SendShmProbeReq fd name (token : Z) : M W bool :=
  shm_name ← lift (strncpy (replicate (Z.to_nat ShmProbeNameSize) 0) name (ShmProbeNameSize - 1));
  let req := mkProbeReq token shm_name in
  r ← send_all fd (ctl_bytes 0 (ctl_header (A := ShmProbeReqMsg) 0) req);
  mret (match r with None => true | Some _ => false end).

Definition RecvAndCheckShmProbeRsp fd (token : Z) name : M W bool :=
  r ← recv_all fd (buf_size (A := ShmProbeRspMsg));
  match r with
  | inr _ => mret false
  | inl rspbuf =>
      if negb (ctl_valid (A := ShmProbeRspMsg) (ctl_head rspbuf)) then mret false
      else
        let rsp : ShmProbeRspMsg := ctl_body (drop 8 rspbuf) in
        let expected_ack := Z.lxor token ShmProbeAckMask in
        probe ← gets (read_probe name);
        mret (negb (ok rsp =? 0) && (ack rsp =? expected_ack) && (probe_ack probe =? expected_ack))
  end.

Definition VerifyShmProbe (self : Z) (server_name : list Z) fd (client_name : list Z) : M W bool :=
  _ ← sys (tcp_set_blocking fd);
  _ ← call (tcp_set_timeout fd "SO_RCVTIMEO" 3000);
  _ ← call (tcp_set_timeout fd "SO_SNDTIMEO" 3000);
  token ← MakeShmProbeToken self client_name;
  probe_name ← lift (snprintf (replicate (Z.to_nat ShmProbeNameSize) 0)
                              (probe_name_of server_name client_name token));
  let name := cstr probe_name in
  error ← call (my_mmap true name);
  match error with
  | Some _ => mret false
  | None =>
      _ ← sys (write_probe name (mkProbe token 0));
      sent ← SendShmProbeReq fd name token;
      ok ← (if sent : bool then RecvAndCheckShmProbeRsp fd token name else mret false);
      _ ← sys (my_shm_unlink name);
      mret ok
  end.

(** ** The client *)

(** [inr sys_errno] is [false], with ["recv"] as the error. *)
Definition RecvHeader fd : M W (MsgHeader + Z) :=
  r ← recv_all fd sizeof_MsgHeader;
  mret (match r with inl bs => inl (ctl_head bs) | inr e => inr e end).

(** [Some (error_msg, sys_errno)] is [false]. *)
Definition HandleShmProbe fd (header : MsgHeader) : M W (option (string * Z)) :=
  if negb (size header =? sizeof_MsgHeader + w_sizeof (A := ShmProbeReqMsg))
  then mret (Some ("Invalid ShmProbeReq"%string, 0))
  else
    r ← recv_all fd (body_size (A := ShmProbeReqMsg));
    match r with
    | inr e => mret (Some ("recv"%string, e))
    | inl body =>
        let req : ShmProbeReqMsg := ctl_body body in
        name ← lift (terminate (shm_name req) (ShmProbeNameSize - 1));
        let name := cstr name in
        error ← call (my_mmap_existing true name);
        probe ← gets (read_probe name);
        let found := match error with None => probe_token probe =? token req | Some _ => false end in
        let ack := if found then Z.lxor (token req) ShmProbeAckMask else 0 in
        _ ← when found (sys (write_probe name (mkProbe (probe_token probe) ack)));
        let rsp := mkProbeRsp ack (if found then 1 else 0) in
        r ← send_all fd (ctl_bytes 0 (ctl_header (A := ShmProbeRspMsg) 0) rsp);
        mret (match r with None => None | Some e => Some ("send"%string, e) end)
    end.
End Probe.

Lemma call_bind {W A B} (f : W -> A * W) (k : A -> M W B) w a w' : f w = (a, w') -> (call f ≫= k) w = k a w'.
Proof. intros E. apply M_bind_eq. unfold call. rewrite E. reflexivity. Qed.
Lemma sys_bind {W B} (f : W -> W) (k : unit -> M W B) w : (sys f ≫= k) w = k tt (f w).
Proof. reflexivity. Qed.
