(* ===== verification/Descriptors.v ===== *)
(** * Who closes a descriptor

    What the library does with descriptors, as a ledger of the open ones: the
    calls that open one add it, [tcp_close] takes out one that is in it, nothing
    else changes it.  A connection owns the descriptor in [fd_to_close_]; its
    operations neither open nor close any, but [TryCloseFd] and [Open]. *)

From Stdlib Require Import String.
From stdpp Require Import gmap.
From S2P Require Import Prelude StateRes Endian MsgHeader PTCPQueue Conf PTCPConn CString TcpShmConn SysIO Messages System ShmProbe.
From stdpp Require Import list_basics list_relations list.
Local Open Scope Z_scope.

(** The documented effect of the system calls.  [tcp_close] is specified for an
    open descriptor only. *)
Class Descriptors (W : Type) {sockets : Sockets W} {mmap : Mmap W} {system : System W} {probes : ProbeMemory W} : Type := {
  opens : W -> list Z;
  socket_opens w fd w' : tcp_socket w = (fd, w') ->
    if fd =? INVALID_TCP_SOCKET then opens w' = opens w else opens w' ≡ₚ fd :: opens w;
  accept_opens lfd w fd addr w' : tcp_accept lfd w = (fd, addr, w') ->
    if fd =? INVALID_TCP_SOCKET then opens w' = opens w else opens w' ≡ₚ fd :: opens w;
  close_opens fd w : fd ∈ opens w -> opens w ≡ₚ fd :: opens (tcp_close fd w);
  send_opens fd bs w n w' : tcp_send fd bs w = (n, w') -> opens w' = opens w;
  recv_opens fd len w n bs w' : tcp_recv fd len w = (n, bs, w') -> opens w' = opens w;
  readv_opens fd lens w n bs w' : tcp_readv fd lens w = (n, bs, w') -> opens w' = opens w;
  nonblocking_opens fd w : opens (tcp_set_nonblocking fd w) = opens w;
  blocking_opens fd w : opens (tcp_set_blocking fd w) = opens w;
  timeout_opens fd o ms w : opens (snd (tcp_set_timeout fd o ms w)) = opens w;
  setsockopt_opens fd o w : opens (snd (tcp_setsockopt fd o w)) = opens w;
  bind_opens fd ip port w : opens (snd (tcp_bind fd ip port w)) = opens w;
  listen_opens fd n w : opens (snd (tcp_listen fd n w)) = opens w;
  connect_opens fd ip port w : opens (snd (tcp_connect fd ip port w)) = opens w;
  clock_opens w : opens (snd (steady_clock_now w)) = opens w;
  my_mmap_opens b name w : opens (snd (my_mmap b name w)) = opens w;
  my_mmap_existing_opens b name w : opens (snd (my_mmap_existing b name w)) = opens w;
  write_probe_opens name p w : opens (write_probe name p w) = opens w;
  unlink_opens name w : opens (my_shm_unlink name w) = opens w
}.

Section Descriptors.
Context {platform : Platform} {conf : Conf} {W : Type}.
Context {sockets : Sockets W} {mmap : Mmap W} {system : System W} {probes : ProbeMemory W} {ledger : Descriptors W}.
Implicit Types (w : W) (c : TcpShmConnection) (t : PTCPConnection).

(** *** Files and the calls of the login *)
Lemma send_all_loop_opens fuel : forall fd bs w r w', send_all_loop fuel fd bs w = Ret (r, w') -> opens w' = opens w.
Proof using Type.
  induction fuel as [|fuel IH]; intros fd bs w r w' E; [discriminate E|]. cbn [send_all_loop] in E.
  destruct (0 <? zlen bs); [|injection E as _ <-; reflexivity]. destruct (tcp_send fd bs w) as [n w1] eqn:Es.
  apply send_opens in Es. destruct (n <=? 0); [injection E as _ <-; exact Es|]. rewrite (IH _ _ _ _ _ E). exact Es.
Qed.
Lemma recv_all_loop_opens fuel : forall fd len got w r w', recv_all_loop fuel fd len got w = Ret (r, w') -> opens w' = opens w.
Proof using Type.
  induction fuel as [|fuel IH]; intros fd len got w r w' E; [discriminate E|]. cbn [recv_all_loop] in E.
  destruct (0 <? len); [|injection E as _ <-; reflexivity]. destruct (tcp_recv fd len w) as [[n bs] w1] eqn:Es.
  apply recv_opens in Es. destruct (n <=? 0); [injection E as _ <-; exact Es|]. rewrite (IH _ _ _ _ _ _ E). exact Es.
Qed.

Lemma still_send_all fd bs : still opens (send_all fd bs).
Proof using Type. intros w r w' E. exact (send_all_loop_opens _ _ _ _ _ _ E). Qed.
Lemma still_recv_all fd len : still opens (recv_all fd len).
Proof using Type. intros w r w' E. exact (recv_all_loop_opens _ _ _ _ _ _ _ E). Qed.
Lemma still_sys f : (forall w, opens (f w) = opens w) -> still opens (sys f).
Proof using Type. apply still_modify. Qed.
Lemma still_call {A} (f : W -> A * W) : (forall w, opens (snd (f w)) = opens w) -> still opens (call f).
Proof using Type. intros H w a w' [= E]. specialize (H w). rewrite E in H. exact H. Qed.
End Descriptors.

#[export] Hint Resolve nonblocking_opens blocking_opens timeout_opens setsockopt_opens bind_opens listen_opens connect_opens
  clock_opens my_mmap_opens my_mmap_existing_opens write_probe_opens unlink_opens : still.
#[export] Hint Resolve still_send_all still_recv_all still_sys still_call : still.
#[export] Hint Extern 1 (forall _, opens _ = _) => intros ? : still.

(** The test the code makes next. *)
Ltac branch E := match type of E with (if ?b then _ else _) = _ => destruct b end.

(** *** Connections

    [same_fd]: the connection owns the same descriptor and the same are open. *)
Section Connections.
Context {platform : Platform} {conf : Conf} {W : Type}.
Context {sockets : Sockets W} {mmap : Mmap W} {system : System W} {probes : ProbeMemory W} {ledger : Descriptors W}.
Implicit Types (w : W) (c : TcpShmConnection) (t : PTCPConnection).

Definition owned_fd c : Z := fd_to_close_ (ptcp_conn_ c).
Definition same_fd t w t' w' : Prop := fd_to_close_ t' = fd_to_close_ t /\ opens w' = opens w.

Lemma same_fd_trans t0 w0 t1 w1 t2 w2 : same_fd t0 w0 t1 w1 -> same_fd t1 w1 t2 w2 -> same_fd t0 w0 t2 w2.
Proof using Type. intros [A B] [C D]. split; congruence. Qed.

Lemma Close_fd reason e t : fd_to_close_ (Close reason e t) = fd_to_close_ t.
Proof using Type. unfold Close. destruct (IsClosed t); reflexivity. Qed.

Lemma send_loop_opens fuel : forall fd bs w r w', send_loop fuel fd bs w = Ret (r, w') -> opens w' = opens w.
Proof using Type.
  induction fuel as [|fuel IH]; intros fd bs w r w' E; [discriminate E|]. cbn [send_loop] in E.
  destruct (tcp_send fd bs w) as [n w1] eqn:Es. apply send_opens in Es.
  destruct (n <? 0); [destruct (_ || _); injection E as _ <-; exact Es|].
  destruct (0 <? _); [rewrite (IH _ _ _ _ _ E); exact Es | injection E as _ <-; exact Es].
Qed.

Lemma SendPending_fd t w b t' w' : SendPending t w = Ret (b, t', w') -> same_fd t w t' w'.
Proof using Type.
  unfold SendPending. destruct (IsClosed t); [intros [= _ <- <-]; split; reflexivity|]. intros E.
  apply bind_Ret in E as (q & _ & E). destruct (GetSendable q) as [p n].
  destruct (n =? 0); [injection E as _ <- <-; split; reflexivity|].
  apply bind_Ret in E as (blks & _ & E). apply bind_Ret in E as ([r w1] & Es & E). apply send_loop_opens in Es.
  destruct r as [size|err]; [destruct (0 <? _)|]; injection E as _ <- <-; split; try exact Es; try reflexivity.
  apply Close_fd.
Qed.

Lemma Push_fd t w t' w' : PTCPConn.Push t w = Ret (t', w') -> same_fd t w t' w'.
Proof using Type.
  intros E. apply bind_Ret in E as (q & _ & E). apply bind_Ret in E as (q' & _ & E).
  apply bind_Ret in E as ([[b t1] w1] & E & [= <- <-]). exact (SendPending_fd _ _ _ _ _ E).
Qed.

Lemma SendHB_msg_fd t w t' w' : SendHB_msg t w = (t', w') -> same_fd t w t' w'.
Proof using Type.
  unfold SendHB_msg. destruct (tcp_send _ _ w) as [n w1] eqn:Es. apply send_opens in Es.
  destruct (_ && _); [|destruct (negb _)]; intros [= <- <-]; split; try exact Es; try reflexivity. apply Close_fd.
Qed.

Lemma SendHB_fd now t w t' w' : SendHB now t w = Ret (t', w') -> same_fd t w t' w'.
Proof using Type.
  unfold SendHB. cbv zeta. destruct (_ <? _); [intros [= <- <-]; split; reflexivity|].
  destruct (q_ _).
  - intros E. apply bind_Ret in E as ([[b t1] w1] & E1 & E). apply SendPending_fd in E1. destruct b.
    + injection E as <- <-. exact E1.
    + apply bind_Ret in E as (q & _ & E). injection E as E. apply SendHB_msg_fd in E. exact (same_fd_trans _ _ _ _ _ _ E1 E).
  - intros [= E]. exact (SendHB_msg_fd _ _ _ _ E).
Qed.

Lemma recv_none_fd ret t w : fd_to_close_ (recv_none ret t w) = fd_to_close_ t.
Proof using Type. unfold recv_none. destruct (ret <? 0); [destruct (_ =? _); [destruct (_ <? _)|]|]; try reflexivity; apply Close_fd. Qed.

Lemma rewind_fd t : fd_to_close_ (rewind_buf t) = fd_to_close_ t.
Proof using Type. unfold rewind_buf. destruct (_ && _); reflexivity. Qed.

Lemma DoRecv_fd t w n t' w' : DoRecv t w = Ret (n, t', w') -> same_fd t w t' w'.
Proof using Type.
  unfold DoRecv. cbv zeta. destruct (_ =? 0); [intros [= _ <- <-]; split; [apply rewind_fd | reflexivity]|].
  destruct (recv_some _ _ _ w) as [[ret bs] w1] eqn:Er.
  assert (Ho : opens w1 = opens w).
  { unfold recv_some in Er. destruct (_ =? 0); [exact (recv_opens _ _ _ _ _ _ Er) | exact (readv_opens _ _ _ _ _ _ Er)]. }
  destruct (ret <=? 0).
  { intros [= _ <- <-]. split; [rewrite recv_none_fd; apply rewind_fd | exact Ho]. }
  intros E. apply bind_Ret in E as (buf & _ & E).
  destruct (ret <=? _); [injection E as _ <- <-; split; [apply rewind_fd | exact Ho]|].
  apply bind_Ret in E as (t1 & Ec & [= _ <- <-]). split; [|exact Ho]. change (fd_to_close_ t1 = fd_to_close_ t).
  rewrite <- (rewind_fd t). destruct (ret <=? _).
  - apply bind_Ret in Ec as (b1 & _ & Ec). apply bind_Ret in Ec as (b2 & _ & [= <-]). reflexivity.
  - apply bind_Ret in Ec as (b1 & _ & Ec). apply bind_Ret in Ec as (b2 & _ & Ec).
    apply bind_Ret in Ec as (b3 & _ & [= <-]). reflexivity.
Qed.

Lemma skip_loop_fd fuel : forall t p t', skip_loop fuel t = Ret (p, t') -> fd_to_close_ t' = fd_to_close_ t.
Proof using Type.
  induction fuel as [|fuel IH]; intros t p t' E; [discriminate E|]. cbn [skip_loop] in E.
  destruct (_ =? _); [injection E as _ <-; reflexivity|]. apply bind_Ret in E as (hd & _ & E).
  destruct (_ =? _); [exact (IH _ _ _ E)|]. apply bind_Ret in E as (q & _ & E).
  destruct (_ =? _); injection E as _ <-; reflexivity.
Qed.

Lemma cut_loop_fd fuel : forall old t b t', cut_loop fuel old t = Ret (b, t') -> fd_to_close_ t' = fd_to_close_ t.
Proof using Type.
  induction fuel as [|fuel IH]; intros old t b t' E; [discriminate E|]. cbn [cut_loop] in E.
  destruct (_ <? 8); [injection E as _ <-; reflexivity|]. apply bind_Ret in E as (t1 & E1 & E).
  assert (H1 : fd_to_close_ t1 = fd_to_close_ t).
  { destruct (_ <? 8); [|injection E1 as <-; reflexivity].
    apply bind_Ret in E1 as (hd & _ & E1). apply bind_Ret in E1 as (buf & _ & [= <-]). reflexivity. }
  apply bind_Ret in E as (hd & _ & E). apply bind_Ret in E as (q & _ & E). apply bind_Ret in E as (q' & _ & E).
  branch E; [injection E as _ <-; rewrite Close_fd; exact H1|].
  branch E; [injection E as _ <-; exact H1|]. rewrite (IH _ _ _ _ E). exact H1.
Qed.

Lemma Front_fd t w p t' w' : PTCPConn.Front t w = Ret (p, t', w') -> same_fd t w t' w'.
Proof using Type.
  unfold PTCPConn.Front. destruct (UseShm t).
  { intros E. apply bind_Ret in E as ([[n t1] w1] & E & [= _ <- <-]). exact (DoRecv_fd _ _ _ _ _ E). }
  intros E. apply bind_Ret in E as ([[p1|] t1] & E1 & E); apply skip_loop_fd in E1.
  { injection E as _ <- <-. split; [exact E1 | reflexivity]. }
  apply bind_Ret in E as ([[n t2] w2] & E2 & E). apply DoRecv_fd in E2 as [E2 Ho].
  apply bind_Ret in E as ([b t3] & E3 & E).
  assert (H3 : fd_to_close_ t3 = fd_to_close_ t2)
    by (destruct (n =? 0); [injection E3 as _ <-; reflexivity | exact (cut_loop_fd _ _ _ _ _ E3)]).
  destruct b; [|destruct (negb _)]; injection E as _ <- <-; split; congruence.
Qed.

(** *** The calls of TcpShmConnection *)
Definition keeps_fd {A} (f : TcpShmConnection -> disk -> W -> res (A * TcpShmConnection * disk * W)) : Prop :=
  forall c d w a c' d' w', f c d w = Ret (a, c', d', w') -> owned_fd c' = owned_fd c /\ opens w' = opens w.

Lemma TcpFront_fd now c w p c' w' : TcpFront now c w = Ret (p, c', w') -> owned_fd c' = owned_fd c /\ opens w' = opens w.
Proof using Type.
  intros E. apply bind_Ret in E as ([t1 w1] & E1 & E). apply bind_Ret in E as ([[p1 t2] w2] & E2 & [= _ <- <-]).
  exact (same_fd_trans _ _ _ _ _ _ (SendHB_fd _ _ _ _ _ E1) (Front_fd _ _ _ _ _ E2)).
Qed.

Lemma map_ring_opens cur name d w r d' w' : map_ring cur name d w = (r, d', w') -> opens w' = opens w.
Proof using Type.
  unfold map_ring. destruct cur; [intros [= _ _ <-]; reflexivity|]. pose proof (my_mmap_opens true name w) as H.
  destruct (my_mmap true name w) as [[e|] w1]; intros [= _ _ <-]; exact H.
Qed.

Lemma OpenFile_fd b c d w e c' d' w' : TS_OpenFile b c d w = (e, c', d', w') -> owned_fd c' = owned_fd c /\ opens w' = opens w.
Proof using Type.
  unfold TS_OpenFile. destruct b.
  - destruct (map_ring _ _ d w) as [[r d1] w1] eqn:E1. apply map_ring_opens in E1.
    destruct r as [s|err]; [|intros [= _ <- _ <-]; split; [reflexivity | exact E1]].
    destruct (map_ring _ _ d1 w1) as [[r d2] w2] eqn:E2. apply map_ring_opens in E2.
    destruct r; intros [= _ <- _ <-]; split; try reflexivity; congruence.
  - destruct (q_ (ptcp_conn_ c)) eqn:Eq; [intros [= _ <- _ <-]; split; reflexivity|].
    pose proof (my_mmap_opens false (GetPtcpFile c) w) as H.
    destruct (my_mmap _ _ w) as [[err|] w1]; intros [= _ <- _ <-]; unfold OpenFile; rewrite Eq; split; try reflexivity; exact H.
Qed.

Lemma Reset_fd c d c' d' : TS_Reset c d = Ret (c', d') -> owned_fd c' = owned_fd c.
Proof using Type.
  unfold TS_Reset. destruct (shm_sendq_ c).
  - destruct (shm_recvq_ c); [intros [= <- _]; reflexivity | discriminate].
  - intros E. apply bind_Ret in E as (t & E & [= <- _]). apply bind_Ret in E as (q & _ & [= <-]). reflexivity.
Qed.

Lemma Open_fd fd a now c w c' w' : TS_Open fd a now c w = Ret (c', w') -> owned_fd c' = fd /\ opens w' = opens w.
Proof using Type.
  intros E. apply bind_Ret in E as ([t w1] & E & [= <- <-]). unfold Open in E.
  apply bind_Ret in E as ([t2 w2] & E2 & E).
  assert (H : fd_to_close_ t2 = fd /\ opens w2 = opens w).
  { cbv zeta in E2. destruct (q_ _); [|injection E2 as <- <-; split; reflexivity].
    apply bind_Ret in E2 as (q' & _ & E2). apply bind_Ret in E2 as ([[b t3] w3] & E3 & [= <- <-]).
    exact (SendPending_fd _ _ _ _ _ E3). }
  destruct (_ =? 0); injection E as <- <-; exact H.
Qed.

(** The operations of the user of a connection. *)
Lemma Pop_fd c d c' d' : TS_Pop c d = Ret (c', d') -> owned_fd c' = owned_fd c.
Proof using Type.
  unfold TS_Pop. destruct (shm_recvq_ c); intros E.
  - apply bind_Ret in E as ([u d1] & _ & [= <- _]). reflexivity.
  - apply bind_Ret in E as (t & E & [= <- _]). apply bind_Ret in E as (hd & _ & E).
    apply bind_Ret in E as (q & _ & [= <-]). reflexivity.
Qed.

Lemma Alloc_fd n c d p c' d' : TS_Alloc n c d = Ret (p, c', d') -> owned_fd c' = owned_fd c.
Proof using Type.
  unfold TS_Alloc. destruct (shm_sendq_ c); intros E.
  - apply bind_Ret in E as ([u d1] & _ & [= _ <- _]). reflexivity.
  - apply bind_Ret in E as ([p' t] & E & [= _ <- _]). apply bind_Ret in E as (q & _ & E).
    apply bind_Ret in E as ([q' p2] & _ & [= _ <-]). reflexivity.
Qed.

Lemma TS_Push_fd c d w c' d' w' : TS_Push c d w = Ret (c', d', w') -> owned_fd c' = owned_fd c /\ opens w' = opens w.
Proof using Type.
  unfold TS_Push. destruct (shm_sendq_ c); intros E.
  - apply bind_Ret in E as ([u d1] & _ & [= <- _ <-]). split; reflexivity.
  - apply bind_Ret in E as ([t w1] & E & [= <- _ <-]). exact (Push_fd _ _ _ _ E).
Qed.

(** What releases a descriptor: [TryCloseFd], and [Release] through it. *)
Lemma TryCloseFd_fd c w b c' w' : TS_TryCloseFd c w = (b, c', w') ->
  if b then owned_fd c <> INVALID_TCP_SOCKET /\ owned_fd c' = INVALID_TCP_SOCKET /\ w' = tcp_close (owned_fd c) w
  else owned_fd c' = owned_fd c /\ w' = w
       /\ (TS_IsClosed c = true -> owned_fd c = INVALID_TCP_SOCKET).
Proof using Type.
  unfold TS_TryCloseFd, TryCloseFd. destruct (_ && _) eqn:E; intros [= <- <- <-].
  - apply andb_true_iff in E as [_ E]. apply negb_true_iff, Z.eqb_neq in E. split; [exact E | split; reflexivity].
  - split; [reflexivity|]. split; [reflexivity|]. unfold TS_IsClosed, IsClosed, owned_fd. intros Hc. rewrite Hc in E.
    apply negb_false_iff, Z.eqb_eq in E. exact E.
Qed.

Lemma Release_fd c d w c' d' w' : TS_Release c d w = Ret (c', d', w') ->
  owned_fd c' = INVALID_TCP_SOCKET
  /\ if owned_fd c =? INVALID_TCP_SOCKET then w' = w else w' = tcp_close (owned_fd c) w.
Proof using Type.
  intros E. apply bind_Ret in E as (n & _ & E). unfold Release in E.
  set (t := Close "Release" 0 (ptcp_conn_ c)) in E.
  assert (Hs : sockfd_ t = INVALID_TCP_SOCKET).
  { unfold t, Close, IsClosed. destruct (Z.eqb_spec (sockfd_ (ptcp_conn_ c)) INVALID_TCP_SOCKET); [assumption | reflexivity]. }
  assert (Hf : fd_to_close_ t = owned_fd c) by apply Close_fd.
  unfold TryCloseFd in E. rewrite Hs, Z.eqb_refl, Hf in E. cbn [andb] in E.
  destruct (Z.eqb_spec (owned_fd c) INVALID_TCP_SOCKET) as [Hi|]; cbn [negb] in E; injection E as <- _ <-; split; try reflexivity.
  exact (eq_trans Hf Hi).
Qed.
End Connections.

(** ** The simulated system keeps the ledger *)
Lemma remove_fd_in fd l : fd ∈ l -> l ≡ₚ fd :: remove_fd fd l.
Proof.
  induction l as [|x l IH]; intros H; [inversion H|]. cbn [remove_fd]. destruct (Z.eqb_spec x fd) as [->|Hne]; [apply Permutation_refl|].
  apply elem_of_cons in H as [H|H]; [congruence|]. etransitivity; [apply perm_skip, IH, H | apply perm_swap].
Qed.

#[export] Instance sim_ledger : Descriptors sim.
Proof.
  refine {| opens := open_fds |}; try reflexivity.
  - intros w fd w' [= <- <-]. apply Permutation_refl.
  - intros lfd w fd addr w' E. cbn in E. destruct (accepts w) as [|fd0 fds]; injection E as <- _ <-; [reflexivity|].
    cbn. destruct (fd0 =? INVALID_TCP_SOCKET); reflexivity.
  - intros fd w H. exact (remove_fd_in fd _ H).
  - intros fd bs w n w' E. cbn in E. destruct (script_send fd bs (net w)) as [n0 w0]. injection E as _ <-. reflexivity.
  - intros fd len w n bs w' E. cbn in E. destruct (script_recv fd len (net w)) as [[n0 bs0] w0]. injection E as _ _ <-. reflexivity.
  - intros fd lens w n bs w' E. cbn in E. destruct (script_recv fd (foldr Z.add 0 lens) (net w)) as [[n0 bs0] w0]. injection E as _ _ <-. reflexivity.
Defined.
