(* ===== verification/OsPosix.v ===== *)
(** * The system layer on POSIX (src/tcpshm/os.h)

    The code of os.h outside [_WIN32], over the system calls of the kernel: the
    wrappers, the options of a socket, and the mapping of files.  It implements
    the interfaces [Sockets], [Mmap], [System] and [ProbeMemory] that the client
    and the server are written against, and what the kernel documents gives the
    laws their theorems use.  The numbers are those of Linux. *)

From Stdlib Require Import String.
From stdpp Require Import gmap.
From S2P Require Import Prelude StateRes Endian MsgHeader Conf PTCPConn CString TcpShmConn SysIO Messages System ShmProbe Descriptors.
From stdpp Require Import list_basics list_relations list.
Local Open Scope Z_scope.

(** A call returns its result, -1 when it fails; [sys_recv] and [sys_readv] the
    bytes they stored too, [sys_accept] the peer's address, [sys_mmap] the
    address, [None] for [MAP_FAILED]; [inet_pton] leaves its argument alone when
    the string is no address. *)
Class Posix (W : Type) : Type := {
  sys_socket : forall (af type proto : Z), W -> Z * W;
  sys_close : Z -> W -> Z * W;
  sys_send : forall (fd : Z) (buf : list Z) (flags : Z), W -> Z * W;
  sys_recv : forall (fd len flags : Z), W -> Z * list Z * W;
  sys_readv : forall (fd : Z) (lens : list Z), W -> Z * list Z * W;
  sys_accept : Z -> W -> Z * list Z * W;
  sys_bind : forall (fd : Z) (addr : list Z), W -> Z * W;
  sys_listen : forall (fd backlog : Z), W -> Z * W;
  sys_connect : forall (fd : Z) (addr : list Z), W -> Z * W;
  sys_setsockopt : forall (fd level optname : Z) (optval : list Z), W -> Z * W;
  sys_fcntl : forall (fd cmd arg : Z), W -> Z * W;
  sys_shm_open : forall (name : list Z) (flags mode : Z), W -> Z * W;
  sys_open : forall (name : list Z) (flags mode : Z), W -> Z * W;
  sys_ftruncate : forall (fd len : Z), W -> Z * W;
  sys_mmap : forall (len prot flags fd : Z), W -> option Z * W;
  sys_munmap : forall (addr len : Z), W -> Z * W;
  sys_shm_unlink : list Z -> W -> Z * W;
  sys_mkdir : forall (name : list Z) (mode : Z), W -> Z * W;
  sys_errno : W -> Z;
  inet_pton : list Z -> option (list Z);
  sys_clock : W -> Z * W;
  sys_memory : list Z -> W -> ShmProbeData;
  sys_store : list Z -> ShmProbeData -> W -> W;
  sys_garbage : Z
}.

Definition AF_INET : Z := 2.
Definition SOCK_STREAM : Z := 1.
Definition TCP_MSG_NOSIGNAL : Z := 16384.
Definition F_GETFL : Z := 3.
Definition F_SETFL : Z := 4.
Definition O_NONBLOCK : Z := 2048.
Definition O_RDWR : Z := 2.
Definition O_CREAT : Z := 64.
Definition PROT_RDWR : Z := 3.   (* PROT_READ | PROT_WRITE *)
Definition MAP_SHARED : Z := 1.
Definition SOL_SOCKET : Z := 1.
Definition SO_REUSEADDR : Z := 2.
Definition SO_RCVTIMEO : Z := 20.
Definition SO_SNDTIMEO : Z := 21.
Definition IPPROTO_TCP : Z := 6.
Definition TCP_NODELAY : Z := 1.

(** [struct timeval] and [int] in memory, and [struct sockaddr_in] as the server
    and the client fill it. *)
Section Layout.
Context {platform : Platform}.
Definition timeval_bytes (tv_sec tv_usec : Z) : list Z :=
  to_bytes native_little 8 (u64 tv_sec) ++ to_bytes native_little 8 (u64 tv_usec).
Definition int_bytes (n : Z) : list Z := to_bytes native_little 4 (u32 n).
Definition sockaddr_in {W} {posix : Posix W} (ipv4 : list Z) (port : Z) : list Z :=
  to_bytes native_little 2 AF_INET ++ to_bytes false 2 (u16 port)
    ++ default (replicate 4 0) (inet_pton ipv4) ++ replicate 8 0.
End Layout.

Module Posix.
Section Posix.
Context {platform : Platform} {W : Type} {posix : Posix W}.
Implicit Types (s : Z) (w : W).

(** ** Sockets *)
Definition tcp_get_last_error w : Z := sys_errno w.
Definition tcp_socket (af type proto : Z) w : Z * W := sys_socket af type proto w.
Definition tcp_close s w : Z * W := sys_close s w.
Definition tcp_send s (buf : list Z) (flags : Z) w : Z * W := sys_send s buf flags w.
Definition tcp_recv s (len flags : Z) w : Z * list Z * W := sys_recv s len flags w.
Definition tcp_accept s w : Z * list Z * W := sys_accept s w.
Definition tcp_bind s (addr : list Z) w : Z * W := sys_bind s addr w.
Definition tcp_listen s (backlog : Z) w : Z * W := sys_listen s backlog w.
Definition tcp_connect s (addr : list Z) w : Z * W := sys_connect s addr w.
Definition tcp_setsockopt s (level optname : Z) (optval : list Z) w : Z * W := sys_setsockopt s level optname optval w.
Definition tcp_readv s (lens : list Z) w : Z * list Z * W := sys_readv s lens w.

(** It sets all the flags of the file, not only this one. *)
Definition tcp_set_nonblocking s w : Z * W := sys_fcntl s F_SETFL O_NONBLOCK w.

Definition tcp_set_blocking s w : Z * W :=
  let '(flags, w) := sys_fcntl s F_GETFL 0 w in
  if flags <? 0 then (flags, w)
  else sys_fcntl s F_SETFL (Z.land flags (Z.lnot O_NONBLOCK)) w.

(** C's division of an [int] truncates. *)
Definition tv_sec (timeout_ms : Z) : Z := Z.quot timeout_ms 1000.
Definition tv_usec (timeout_ms : Z) : Z := Z.rem timeout_ms 1000 * 1000.
Definition tcp_set_timeout s (level optname timeout_ms : Z) w : Z * W :=
  sys_setsockopt s level optname (timeval_bytes (tv_sec timeout_ms) (tv_usec timeout_ms)) w.

(** ** Files

    [inl] is the address; [inr] is [*error_msg] with [nullptr]. *)
Definition map_and_close (sizeof_T fd : Z) w : (Z + string) * W :=
  let '(ret, w) := sys_mmap sizeof_T PROT_RDWR MAP_SHARED fd w in
  let w := snd (sys_close fd w) in
  match ret with
  | None => (inr "mmap"%string, w)
  | Some addr => (inl addr, w)
  end.

Definition my_mmap (sizeof_T : Z) (filename : list Z) (use_shm : bool) w : (Z + string) * W :=
  let '(fd, w) :=
    if use_shm then sys_shm_open filename (Z.lor O_CREAT O_RDWR) 438 w   (* 0666 *)
    else sys_open filename (Z.lor O_CREAT O_RDWR) 420 w in               (* 0644 *)
  if fd =? -1 then (inr "open"%string, w)
  else
    let '(r, w) := sys_ftruncate fd sizeof_T w in
    if negb (r =? 0) then (inr "ftruncate"%string, snd (sys_close fd w))
    else map_and_close sizeof_T fd w.

Definition my_mmap_existing (sizeof_T : Z) (filename : list Z) (use_shm : bool) w : (Z + string) * W :=
  let '(fd, w) :=
    if use_shm then sys_shm_open filename O_RDWR 438 w
    else sys_open filename O_RDWR 420 w in
  if fd =? -1 then (inr "open"%string, w)
  else map_and_close sizeof_T fd w.

Definition my_munmap (sizeof_T addr : Z) w : W := snd (sys_munmap addr sizeof_T w).
Definition my_shm_unlink (filename : list Z) w : Z * W := sys_shm_unlink filename w.
Definition tcp_mkdir (path : list Z) w : Z * W := sys_mkdir path 493 w.   (* 0755 *)
End Posix.
End Posix.

(** ** The interfaces, over a kernel

    [sizeof_T use_shm filename] is the size of the type the caller maps. *)
Definition error_of {A} (r : A + string) : option string := match r with inl _ => None | inr e => Some e end.

Definition option_of (name : string) : Z * Z :=
  if String.eqb name "TCP_NODELAY" then (IPPROTO_TCP, TCP_NODELAY)
  else if String.eqb name "SO_REUSEADDR" then (SOL_SOCKET, SO_REUSEADDR)
  else if String.eqb name "SO_RCVTIMEO" then (SOL_SOCKET, SO_RCVTIMEO)
  else (SOL_SOCKET, SO_SNDTIMEO).

Section Instances.
Context {platform : Platform} {W : Type} {posix : Posix W} (sizeof_T : bool -> list Z -> Z).

Definition posix_sockets : Sockets W := {|
  Conf.tcp_send fd bs w := Posix.tcp_send fd bs TCP_MSG_NOSIGNAL w;
  Conf.tcp_recv fd len w := Posix.tcp_recv fd len 0 w;
  Conf.tcp_readv := Posix.tcp_readv;
  Conf.tcp_close fd w := snd (Posix.tcp_close fd w);
  Conf.tcp_get_last_error := Posix.tcp_get_last_error;
  uninit := sys_garbage
|}.

Definition posix_mmap : Mmap W := {|
  TcpShmConn.my_mmap use_shm name w := let '(r, w) := Posix.my_mmap (sizeof_T use_shm name) name use_shm w in (error_of r, w);
  TcpShmConn.my_mmap_existing use_shm name w :=
    let '(r, w) := Posix.my_mmap_existing (sizeof_T use_shm name) name use_shm w in (error_of r, w)
|}.

Definition posix_system : System W := {|
  System.tcp_socket := Posix.tcp_socket AF_INET SOCK_STREAM 0;
  System.tcp_set_nonblocking fd w := snd (Posix.tcp_set_nonblocking fd w);
  System.tcp_set_blocking fd w := snd (Posix.tcp_set_blocking fd w);
  System.tcp_set_timeout fd name ms w := let '(level, optname) := option_of name in Posix.tcp_set_timeout fd level optname ms w;
  System.tcp_setsockopt fd name w := let '(level, optname) := option_of name in Posix.tcp_setsockopt fd level optname (int_bytes 1) w;
  System.tcp_bind fd ipv4 port w := Posix.tcp_bind fd (sockaddr_in ipv4 port) w;
  System.tcp_listen := Posix.tcp_listen;
  System.tcp_accept := Posix.tcp_accept;
  System.tcp_connect fd ipv4 port w := Posix.tcp_connect fd (sockaddr_in ipv4 port) w;
  System.tcp_mkdir path w := snd (Posix.tcp_mkdir path w);
  steady_clock_now := sys_clock
|}.

Definition posix_probes : ProbeMemory W := {|
  read_probe := sys_memory;
  write_probe := sys_store;
  System.my_shm_unlink name w := snd (Posix.my_shm_unlink name w)
|}.
End Instances.
