(* ===== verification/OsPosixProps.v ===== *)
(** * Theorems on the system layer for POSIX

    From the documented behaviour of the kernel's calls follow the laws of the
    interfaces that OsPosix.v implements; mapping a file leaves no descriptor
    open on any path; the options of a socket have the values that were meant. *)

From Stdlib Require Import String.
From stdpp Require Import gmap.
From S2P Require Import Prelude StateRes Endian MsgHeader Conf PTCPConn CString TcpShmConn SysIO Messages System ShmProbe Descriptors.
From S2P Require Import OsPosix.
From stdpp Require Import list_basics list_relations list.
Local Open Scope Z_scope.

(** ** What the kernel documents

    [k_opens] are the open descriptors, the last opened first. *)
Section Kernel.
Context {W : Type} {posix : Posix W}.

Class PosixLaws : Type := {
  k_opens : W -> list Z;
  k_outbox : Z -> W -> list Z;
  k_inbox : Z -> W -> list Z;
  k_io_same w w' : Prop := (forall fd, k_outbox fd w' = k_outbox fd w) /\ (forall fd, k_inbox fd w' = k_inbox fd w);
  k_opened fd w w' : Prop := k_io_same w w' /\ k_opens w' = if fd =? -1 then k_opens w else fd :: k_opens w;
  k_idle w w' : Prop := k_io_same w w' /\ k_opens w' = k_opens w;
  k_socket af ty proto w fd w' : sys_socket af ty proto w = (fd, w') -> k_opened fd w w';
  k_accept lfd w fd addr w' : sys_accept lfd w = (fd, addr, w') -> k_opened fd w w';
  k_open name fl mode w fd w' : sys_open name fl mode w = (fd, w') -> k_opened fd w w';
  k_shm_open name fl mode w fd w' : sys_shm_open name fl mode w = (fd, w') -> k_opened fd w w';
  k_close fd w : k_io_same w (snd (sys_close fd w)) /\ (fd ∈ k_opens w -> k_opens (snd (sys_close fd w)) = remove_fd fd (k_opens w));
  k_send fd bs fl w n w' : sys_send fd bs fl w = (n, w') ->
    -1 <= n <= zlen bs /\ (bs <> [] -> n <> 0) /\ k_outbox fd w' = k_outbox fd w ++ take (Z.to_nat n) bs
    /\ (forall fd', k_inbox fd' w' = k_inbox fd' w) /\ k_opens w' = k_opens w;
  k_recv fd len fl w n bs w' : sys_recv fd len fl w = (n, bs, w') ->
    (0 <= len -> -1 <= n <= len /\ Forall in_byte bs /\ zlen bs = Z.max 0 n /\ k_inbox fd w = bs ++ k_inbox fd w')
    /\ (fd = -1 -> n = -1 /\ forall fd', k_inbox fd' w' = k_inbox fd' w)
    /\ (forall fd', k_outbox fd' w' = k_outbox fd' w) /\ k_opens w' = k_opens w;
  k_readv fd lens w n bs w' : sys_readv fd lens w = (n, bs, w') ->
    (Forall (fun x => 0 <= x) lens ->
       -1 <= n <= foldr Z.add 0 lens /\ Forall in_byte bs /\ zlen bs = Z.max 0 n /\ k_inbox fd w = bs ++ k_inbox fd w')
    /\ (fd = -1 -> n = -1 /\ forall fd', k_inbox fd' w' = k_inbox fd' w) /\ k_opens w' = k_opens w;
  k_garbage : in_byte sys_garbage;
  k_bind fd a w : k_opens (snd (sys_bind fd a w)) = k_opens w;
  k_listen fd n w : k_opens (snd (sys_listen fd n w)) = k_opens w;
  k_connect fd a w : k_opens (snd (sys_connect fd a w)) = k_opens w;
  k_setsockopt fd l o v w : k_idle w (snd (sys_setsockopt fd l o v w));
  k_fcntl fd c a w : k_idle w (snd (sys_fcntl fd c a w));
  k_ftruncate fd n w : k_idle w (snd (sys_ftruncate fd n w));
  k_mmap n p f fd w : k_idle w (snd (sys_mmap n p f fd w));
  k_clock w : k_idle w (snd (sys_clock w));
  k_store name p w : k_idle w (sys_store name p w);
  k_memory name p w : sys_memory name (sys_store name p w) = p;
  k_shm_unlink name w : k_idle w (snd (sys_shm_unlink name w))
}.
Context {laws : PosixLaws}.

Lemma io_same_trans w1 w2 w3 : k_io_same w1 w2 -> k_io_same w2 w3 -> k_io_same w1 w3.
Proof using Type. intros [A B] [C D]. split; intros; [rewrite C, A | rewrite D, B]; reflexivity. Qed.

(** A descriptor that is opened, used and closed. *)
Lemma open_close fd w w1 w2 : fd <> -1 -> k_opened fd w w1 -> k_idle w1 w2 -> k_idle w (snd (sys_close fd w2)).
Proof using Type.
  intros Hfd [I1 O1] [I2 O2]. destruct (k_close fd w2) as [I3 O3]. split.
  - exact (io_same_trans _ _ _ I1 (io_same_trans _ _ _ I2 I3)).
  - destruct (Z.eqb_spec fd (-1)) as [|_]; [contradiction|]. rewrite O1 in O2. rewrite O3, O2.
    + cbn [remove_fd]. rewrite Z.eqb_refl. reflexivity.
    + rewrite O2. left.
Qed.

Lemma idle_trans w1 w2 w3 : k_idle w1 w2 -> k_idle w2 w3 -> k_idle w1 w3.
Proof using Type. intros [A B] [C D]. split; [exact (io_same_trans _ _ _ A C) | congruence]. Qed.

Lemma map_and_close_idle size fd w w1 w2 r w' : fd <> -1 -> k_opened fd w w1 -> k_idle w1 w2 ->
  Posix.map_and_close size fd w2 = (r, w') -> k_idle w w'.
Proof using Type.
  intros Hfd H1 H2 E. unfold Posix.map_and_close in E. destruct (sys_mmap _ _ _ fd w2) as [ret w3] eqn:Em.
  pose proof (k_mmap size PROT_RDWR MAP_SHARED fd w2) as H3. rewrite Em in H3.
  pose proof (open_close fd w w1 w3 Hfd H1 (idle_trans _ _ _ H2 H3)) as H4. destruct ret; injection E as _ <-; exact H4.
Qed.

Lemma opened_failed w w' : k_opened (-1) w w' -> k_idle w w'.
Proof using Type. intros [A B]. split; [exact A | exact B]. Qed.

Definition open_file (create : bool) (use_shm : bool) (filename : list Z) (w : W) : Z * W :=
  let flags := if create then Z.lor O_CREAT O_RDWR else O_RDWR in
  if use_shm then sys_shm_open filename flags 438 w else sys_open filename flags 420 w.

Lemma open_file_opened create use_shm filename w fd w' : open_file create use_shm filename w = (fd, w') -> k_opened fd w w'.
Proof using Type. unfold open_file. destruct use_shm; [apply k_shm_open | apply k_open]. Qed.

Lemma my_mmap_idle size filename use_shm w r w' : Posix.my_mmap size filename use_shm w = (r, w') -> k_idle w w'.
Proof using Type.
  unfold Posix.my_mmap. change (if use_shm then _ else _) with (open_file true use_shm filename w).
  destruct (open_file true use_shm filename w) as [fd w1] eqn:Eo. apply open_file_opened in Eo.
  destruct (Z.eqb_spec fd (-1)) as [->|Hfd]; [intros [= _ <-]; exact (opened_failed _ _ Eo)|].
  pose proof (k_ftruncate fd size w1) as Ht. destruct (sys_ftruncate fd size w1) as [t w2]. cbn [snd] in Ht.
  destruct (negb _); [intros [= _ <-]; exact (open_close fd w w1 w2 Hfd Eo Ht)|].
  exact (map_and_close_idle size fd w w1 w2 r w' Hfd Eo Ht).
Qed.

Lemma my_mmap_existing_idle size filename use_shm w r w' :
  Posix.my_mmap_existing size filename use_shm w = (r, w') -> k_idle w w'.
Proof using Type.
  unfold Posix.my_mmap_existing. change (if use_shm then _ else _) with (open_file false use_shm filename w).
  destruct (open_file false use_shm filename w) as [fd w1] eqn:Eo. apply open_file_opened in Eo.
  destruct (Z.eqb_spec fd (-1)) as [->|Hfd]; [intros [= _ <-]; exact (opened_failed _ _ Eo)|].
  apply (map_and_close_idle size fd w w1 w1 r w' Hfd Eo). split; [split; reflexivity | reflexivity].
Qed.

(** C37. Mapping a file returns the address of the mapping or names the first call that
    failed; whichever it is, every descriptor it opened is closed again, and the data of the
    connections is not touched. *)
Theorem my_mmap_closes size filename use_shm w r w' :
  Posix.my_mmap size filename use_shm w = (r, w') ->
  let '(fd, w1) := open_file true use_shm filename w in
  let '(t, w2) := sys_ftruncate fd size w1 in
  let m := fst (sys_mmap size PROT_RDWR MAP_SHARED fd w2) in
  r = (if fd =? -1 then inr "open"%string
       else if negb (t =? 0) then inr "ftruncate"%string
       else match m with Some addr => inl addr | None => inr "mmap"%string end)
  /\ k_opens w' = k_opens w
  /\ (forall s, k_outbox s w' = k_outbox s w /\ k_inbox s w' = k_inbox s w).
Proof using Type.
  intros E. pose proof (my_mmap_idle _ _ _ _ _ _ E) as [[Ho Hi] Hk]. revert E. unfold Posix.my_mmap.
  change (if use_shm then _ else _) with (open_file true use_shm filename w).
  destruct (open_file true use_shm filename w) as [fd w1]. destruct (sys_ftruncate fd size w1) as [t w2] eqn:Et.
  intros E. split; [|auto]. destruct (fd =? -1); [injection E as <- _; reflexivity|].
  destruct (negb _); [injection E as <- _; reflexivity|].
  unfold Posix.map_and_close in E. destruct (sys_mmap _ _ _ fd w2) as [[addr|] w3]; injection E as <- _; reflexivity.
Qed.
End Kernel.
Arguments PosixLaws W {posix}.

(** ** The interfaces' laws *)
Section Interfaces.
Context {platform : Platform} {W : Type} {posix : Posix W} {laws : PosixLaws W} (sizeof_T : bool -> list Z -> Z).
#[local] Existing Instances posix_sockets posix_mmap posix_system posix_probes.

Definition posix_sends : SendLaws W (S := posix_sockets).
Proof using laws. refine {| outbox := k_outbox |}. intros fd bs w n w' H. apply k_send in H as (A & B & C & _). auto. Defined.

Definition posix_recvs : RecvLaws W (S := posix_sockets).
Proof using laws.
  refine {| inbox := k_inbox |}.
  - intros fd len w n bs w' Hl H. apply k_recv in H as (A & _). exact (A Hl).
  - intros fd lens w n bs w' Hl H. apply k_readv in H as (A & _). exact (A Hl).
  - intros len w n bs w' H. apply k_recv in H as (_ & A & _). exact (A eq_refl).
  - intros lens w n bs w' H. apply k_readv in H as (_ & A & _). exact (A eq_refl).
  - intros fd bs w n w' H. apply k_send in H as (_ & _ & _ & A & _). exact A.
  - exact k_garbage.
Defined.

Lemma idle_io w w' : k_idle w w' -> same_io (sends := posix_sends) (recvs := posix_recvs) w w'.
Proof using laws. intros [H _]. exact H. Qed.
Lemma set_blocking_idle fd w : k_idle w (snd (Posix.tcp_set_blocking fd w)).
Proof using laws.
  unfold Posix.tcp_set_blocking. pose proof (k_fcntl fd F_GETFL 0 w) as H. destruct (sys_fcntl fd F_GETFL 0 w) as [flags w1].
  cbn [snd] in H. destruct (flags <? 0); [exact H|]. exact (idle_trans _ _ _ H (k_fcntl _ _ _ _)).
Qed.
Lemma set_timeout_idle fd name ms w : k_idle w (snd (System.tcp_set_timeout fd name ms w)).
Proof using laws. cbn. destruct (option_of name). apply k_setsockopt. Qed.
Lemma mmap_idle b name w : k_idle w (snd (TcpShmConn.my_mmap (Mmap := posix_mmap sizeof_T) b name w)).
Proof using laws. cbn. destruct (Posix.my_mmap _ name b w) as [r w'] eqn:E. exact (my_mmap_idle _ _ _ _ _ _ E). Qed.
Lemma mmap_existing_idle b name w : k_idle w (snd (TcpShmConn.my_mmap_existing (Mmap := posix_mmap sizeof_T) b name w)).
Proof using laws. cbn. destruct (Posix.my_mmap_existing _ name b w) as [r w'] eqn:E. exact (my_mmap_existing_idle _ _ _ _ _ _ E). Qed.

Definition posix_laws : SystemLaws (sends := posix_sends) (recvs := posix_recvs) (mmap := posix_mmap sizeof_T).
Proof using laws.
  constructor.
  - intros fd len w n bs w' H. apply k_recv in H as (_ & _ & A & _). exact A.
  - intros fd w. apply idle_io, k_fcntl.
  - intros fd w. apply idle_io, set_blocking_idle.
  - intros fd name ms w. apply idle_io, set_timeout_idle.
  - intros w. apply idle_io, k_clock.
  - intros b name w. apply idle_io, mmap_idle.
  - intros b name w. apply idle_io, mmap_existing_idle.
  - intros name p w. apply idle_io, k_store.
  - intros name w. apply idle_io, k_shm_unlink.
  - apply k_memory.
Defined.

Definition posix_ledger : Descriptors W (mmap := posix_mmap sizeof_T).
Proof using laws.
  refine {| opens := k_opens |}.
  - intros w fd w' H. apply k_socket in H as [_ ->]. destruct (fd =? _); reflexivity.
  - intros lfd w fd a w' H. apply k_accept in H as [_ ->]. destruct (fd =? _); reflexivity.
  - intros fd w H. destruct (k_close fd w) as [_ E]. change (k_opens w ≡ₚ fd :: k_opens (snd (sys_close fd w))). rewrite (E H). exact (remove_fd_in _ _ H).
  - intros fd bs w n w' H. apply k_send in H as (_ & _ & _ & _ & A). exact A.
  - intros fd len w n bs w' H. apply k_recv in H as (_ & _ & _ & A). exact A.
  - intros fd lens w n bs w' H. apply k_readv in H as (_ & _ & A). exact A.
  - intros fd w. apply k_fcntl.
  - intros fd w. apply set_blocking_idle.
  - intros. apply set_timeout_idle.
  - intros fd name w. cbn. destruct (option_of name). apply k_setsockopt.
  - intros. apply k_bind.
  - intros. apply k_listen.
  - intros. apply k_connect.
  - intros. apply k_clock.
  - intros. apply mmap_idle.
  - intros. apply mmap_existing_idle.
  - intros. apply k_store.
  - intros. apply k_shm_unlink.
Defined.
End Interfaces.

(** ** The options of a socket *)
Section Options.
Context {platform : Platform} {W : Type} {posix : Posix W}.

Lemma quot_rem_ms ms : 0 <= ms ->
  0 <= Posix.tv_sec ms <= ms /\ 0 <= Posix.tv_usec ms < 1000000 /\ Posix.tv_sec ms * 1000000 + Posix.tv_usec ms = ms * 1000.
Proof using Type.
  intros H. unfold Posix.tv_sec, Posix.tv_usec.
  pose proof (Z.quot_rem' ms 1000). pose proof (Z.rem_bound_pos ms 1000 H ltac:(lia)).
  pose proof (Z.quot_pos ms 1000 H ltac:(lia)). lia.
Qed.

(** The kernel is given the timeout that was asked for: the two fields it reads from
    the option's bytes are the seconds and the microseconds of [timeout_ms], with less
    than a second in the second, for every [int] that is not negative. *)
Theorem timeout_exact fd level optname ms w :
  0 <= ms < 2 ^ 31 ->
  exists tv, Posix.tcp_set_timeout fd level optname ms w = sys_setsockopt fd level optname tv w
  /\ zlen tv = 16
  /\ let sec := of_bytes native_little (take 8 tv) in
     let usec := of_bytes native_little (drop 8 tv) in
     sec * 1000000 + usec = ms * 1000 /\ 0 <= usec < 1000000.
Proof using Type.
  intros H. destruct (quot_rem_ms ms ltac:(lia)) as (H1 & H2 & H3). eexists. split; [reflexivity|]. unfold timeval_bytes.
  rewrite length_app, !length_to_bytes. split; [reflexivity|].
  rewrite take_app_length', drop_app_length' by (rewrite length_to_bytes; reflexivity).
  unfold u64. rewrite !(Z.mod_small _ (2 ^ 64)) by lia.
  rewrite !of_to_bytes by (change (256 ^ Z.of_nat 8) with (2 ^ 64); lia). lia.
Qed.

(** What fcntl(2) says of the flags of a file. *)
Class FileFlags : Type := {
  file_flags : Z -> W -> Z;
  getfl_law fd a w r w' : sys_fcntl fd F_GETFL a w = (r, w') -> w' = w /\ (0 <= r -> r = file_flags fd w);
  setfl_law fd a w r w' : sys_fcntl fd F_SETFL a w = (r, w') -> 0 <= r -> file_flags fd w' = a
}.

(** A socket that [tcp_set_blocking] reports as done blocks, and its other flags are
    what they were; [tcp_set_nonblocking] clears them. *)
Theorem blocking_modes {flags : FileFlags} fd w r w' :
  (Posix.tcp_set_blocking fd w = (r, w') -> 0 <= r ->
     Z.testbit (file_flags fd w') 11 = false
     /\ forall i, i <> 11 -> 0 <= i -> Z.testbit (file_flags fd w') i = Z.testbit (file_flags fd w) i)
  /\ (Posix.tcp_set_nonblocking fd w = (r, w') -> 0 <= r -> file_flags fd w' = O_NONBLOCK).
Proof using Type.
  split.
  - unfold Posix.tcp_set_blocking. destruct (sys_fcntl fd F_GETFL 0 w) as [f w1] eqn:E. apply getfl_law in E as [-> Hf].
    destruct (Z.ltb_spec f 0) as [Hn|Hp]; [intros [= <- _]; lia|]. intros E Hr. apply setfl_law in E; [|exact Hr].
    rewrite E, <- (Hf Hp). split.
    + rewrite Z.land_spec, Z.lnot_spec by lia. apply andb_false_r.
    + intros i Hi H0. rewrite Z.land_spec, Z.lnot_spec by lia. change O_NONBLOCK with (2 ^ 11).
      rewrite Z.pow2_bits_false by lia. apply andb_true_r.
  - intros E Hr. exact (setfl_law _ _ _ _ _ E Hr).
Qed.

(** An address that is none becomes 0.0.0.0: the result of inet_pton is not looked at. *)
Lemma sockaddr_any ip port : inet_pton ip = None ->
  sockaddr_in ip port = to_bytes native_little 2 AF_INET ++ to_bytes false 2 (u16 port) ++ replicate 4 0 ++ replicate 8 0.
Proof using Type. unfold sockaddr_in. intros ->. reflexivity. Qed.
End Options.

(** ** A simulated kernel

    The sockets of the simulated system; files always open, with descriptors from
    [next_fd] on; [bad_map] says that no memory is left to map them. *)
Record kern : Type := mkKern { base : sim; next_fd : Z; flags_of : gmap Z Z; bad_map : bool }.
Definition set_base (b : sim) (k : kern) : kern := mkKern b (next_fd k) (flags_of k) (bad_map k).
Definition kern_open (k : kern) : Z * kern :=
  let fd := Z.max 0 (next_fd k) in (fd, mkKern (add_fd fd (base k)) (fd + 1) (flags_of k) (bad_map k)).

#[export] Instance kern_posix : Posix kern := {
  sys_socket _ _ _ k := kern_open k;
  sys_close fd k := (0, set_base (Conf.tcp_close fd (base k)) k);
  sys_send fd bs _ k := let '(n, b) := Conf.tcp_send fd bs (base k) in (n, set_base b k);
  sys_recv fd len _ k := let '(r, b) := Conf.tcp_recv fd len (base k) in (r, set_base b k);
  sys_readv fd lens k := let '(r, b) := Conf.tcp_readv fd lens (base k) in (r, set_base b k);
  sys_accept lfd k := let '(r, b) := System.tcp_accept lfd (base k) in (r, set_base b k);
  sys_bind _ _ k := (0, k);
  sys_listen _ _ k := (0, k);
  sys_connect _ _ k := (0, k);
  sys_setsockopt _ _ _ _ k := (0, k);
  sys_fcntl fd cmd arg k :=
    if cmd =? F_GETFL then (default 0 (flags_of k !! fd), k)
    else (0, mkKern (base k) (next_fd k) (<[fd := arg]> (flags_of k)) (bad_map k));
  sys_shm_open _ _ _ k := kern_open k;
  sys_open _ _ _ k := kern_open k;
  sys_ftruncate _ _ k := (0, k);
  sys_mmap _ _ _ _ k := (if bad_map k then None else Some 4096, k);
  sys_munmap _ _ k := (0, k);
  sys_shm_unlink name k := (0, set_base (System.my_shm_unlink name (base k)) k);
  sys_mkdir _ _ k := (0, k);
  sys_errno k := errno (net (base k));
  inet_pton ip := if bool_decide (ip = lit "127.0.0.1") then Some [127; 0; 0; 1] else None;
  sys_clock k := let '(t, b) := steady_clock_now (base k) in (t, set_base b k);
  sys_memory name k := read_probe name (base k);
  sys_store name p k := set_base (write_probe name p (base k)) k;
  sys_garbage := 205
}.

Lemma script_io_recv fd len (w : world) n bs w' : script_recv fd len w = (n, bs, w') -> forall fd', outbox fd' w' = outbox fd' w.
Proof.
  intros H fd'. unfold script_recv in H. destruct (fd =? _); [injection H as _ _ <-; reflexivity|].
  destruct (script w) as [|[n0|bs0|e] evs]; injection H as _ _ <-; reflexivity.
Qed.

#[export] Instance kern_laws : PosixLaws kern.
Proof.
  refine {| k_opens k := open_fds (base k); k_outbox fd k := outbox fd (base k); k_inbox fd k := inbox fd (base k) |};
    try (intros; split; [split|]; reflexivity); try (intros; reflexivity).
  - intros af ty p w fd w' [= <- <-]. split; [split; reflexivity|]. destruct (Z.eqb_spec (Z.max 0 (next_fd w)) (-1)); [lia | reflexivity].
  - intros lfd w fd a w' E. cbn in E. destruct (accepts (base w)); injection E as <- _ <-; (split; [split; reflexivity|]); [reflexivity|].
    cbn. destruct (_ =? _); reflexivity.
  - intros name fl m w fd w' [= <- <-]. split; [split; reflexivity|]. destruct (Z.eqb_spec (Z.max 0 (next_fd w)) (-1)); [lia | reflexivity].
  - intros name fl m w fd w' [= <- <-]. split; [split; reflexivity|]. destruct (Z.eqb_spec (Z.max 0 (next_fd w)) (-1)); [lia | reflexivity].
  - intros fd bs fl w n w' E. cbn [sys_send kern_posix] in E. destruct (Conf.tcp_send fd bs (base w)) as [n0 b] eqn:Es. injection E as <- <-.
    pose proof (send_law _ _ _ _ _ Es) as (A & B & C). repeat split; try apply A; try assumption.
    + exact (send_inbox _ _ _ _ _ Es).
    + cbn in Es. destruct (script_send fd bs (net (base w))) as [n1 w1]. injection Es as _ <-. reflexivity.
  - intros fd len fl w n bs w' E. cbn [sys_recv kern_posix] in E. destruct (Conf.tcp_recv fd len (base w)) as [[n0 bs0] b] eqn:Es.
    injection E as <- <- <-. split; [intros Hl; exact (recv_law _ _ _ _ _ _ Hl Es)|]. split.
    { intros ->. exact (recv_closed _ _ _ _ _ Es). }
    cbn in Es. destruct (script_recv fd len (net (base w))) as [[n1 b1] w1] eqn:Er. injection Es as _ _ <-.
    split; [exact (script_io_recv _ _ _ _ _ _ Er) | reflexivity].
  - intros fd lens w n bs w' E. cbn [sys_readv kern_posix] in E. destruct (Conf.tcp_readv fd lens (base w)) as [[n0 bs0] b] eqn:Es.
    injection E as <- <- <-. split; [intros Hl; exact (readv_law _ _ _ _ _ _ Hl Es)|]. split.
    { intros ->. exact (readv_closed _ _ _ _ _ Es). }
    cbn in Es. destruct (script_recv fd (foldr Z.add 0 lens) (net (base w))) as [[n1 b1] w1]. injection Es as _ _ <-. reflexivity.
  - unfold in_byte. cbn. lia.
  - intros fd c a w. cbn. destruct (c =? F_GETFL); (split; [split|]); reflexivity.
  - intros name p w. cbn. rewrite lookup_insert_eq. reflexivity.
Defined.

#[export] Instance kern_flags : FileFlags (W := kern).
Proof.
  refine {| file_flags fd k := default 0 (flags_of k !! fd) |}.
  - intros fd a w r w' [= <- <-]. auto.
  - intros fd a w r w' [= <- <-] _. cbn. rewrite lookup_insert_eq. reflexivity.
Defined.

Section Witnesses.
#[local] Instance here : Platform := true.

Definition a_kern (bad : bool) : kern := mkKern (mkSim (mkWorld [] [] 0 []) ∅ [] 0 [3]) 4 ∅ bad.

(** No memory: the descriptor 4 is closed, 3 stays. *)
Lemma my_mmap_closes_witness :
  fst (Posix.my_mmap 64 (lit "f.ptcp") false (a_kern true)) = inr "mmap"%string
  /\ k_opens (snd (Posix.my_mmap 64 (lit "f.ptcp") false (a_kern true))) = [3].
Proof.
  destruct (Posix.my_mmap 64 (lit "f.ptcp") false (a_kern true)) as [r w'] eqn:E.
  pose proof (my_mmap_closes _ _ _ _ _ _ E) as (H1 & H2 & _). split; [exact H1 | exact H2].
Defined.

Lemma timeout_exact_witness :
  exists tv, Posix.tcp_set_timeout 5 SOL_SOCKET SO_RCVTIMEO 10500 (a_kern false) = sys_setsockopt 5 SOL_SOCKET SO_RCVTIMEO tv (a_kern false)
  /\ zlen tv = 16
  /\ let sec := of_bytes native_little (take 8 tv) in
     let usec := of_bytes native_little (drop 8 tv) in
     sec * 1000000 + usec = 10500 * 1000 /\ 0 <= usec < 1000000.
Proof. apply (timeout_exact 5 SOL_SOCKET SO_RCVTIMEO 10500). lia. Defined.

Definition nonblocking_kern : kern := snd (Posix.tcp_set_nonblocking 5 (a_kern false)).
Lemma blocking_modes_witness :
  file_flags 5 nonblocking_kern = O_NONBLOCK
  /\ Z.testbit (file_flags 5 (snd (Posix.tcp_set_blocking 5 nonblocking_kern))) 11 = false.
Proof.
  split.
  - apply (blocking_modes (W := kern) 5 (a_kern false) 0 nonblocking_kern); [reflexivity | lia].
  - apply (blocking_modes (W := kern) 5 nonblocking_kern 0 (snd (Posix.tcp_set_blocking 5 nonblocking_kern))); [reflexivity | lia].
Defined.
End Witnesses.
