(* ===== verification/OsWindows.v ===== *)
(** * The system layer on Windows (src/tcpshm/os.h)

    The code of os.h under [_WIN32], over the calls of Windows.  A mapping keeps
    its handle open, so [MMapManager] remembers the handle of each address until
    [my_munmap] closes it: no handle is lost or closed twice.  [tcp_readv] is
    WSARecv with at most 16 buffers. *)

From Stdlib Require Import String.
From stdpp Require Import relations gmap.
From S2P Require Import Prelude Endian Conf CString System Descriptors.
From stdpp Require Import list_basics list_relations list.
Local Open Scope Z_scope.

(** Handles and addresses are numbers, [NULL] is 0.  [WSARecv] returns its result
    and the bytes it stored, in the buffers in turn. *)
Class Win32 (W : Type) : Type := {
  CreateFileA : forall (filename : list Z) (disposition : Z), W -> Z * W;
  CreateFileMappingA : forall (hFile size : Z) (name : option (list Z)), W -> Z * W;
  OpenFileMappingA : list Z -> W -> Z * W;
  MapViewOfFile : forall (hMap size : Z), W -> Z * W;
  UnmapViewOfFile : Z -> W -> Z * W;
  CloseHandle : Z -> W -> Z * W;
  WSARecv : forall (s : Z) (lens : list Z), W -> Z * list Z * W;
  ioctlsocket_FIONBIO : forall (s mode : Z), W -> Z * W;
  win_setsockopt : forall (s level optname : Z) (optval : list Z), W -> Z * W
}.

(** The calls of Winsock that have the shape of those of POSIX, and [_mkdir]. *)
Class Winsock (W : Type) : Type := {
  ws_socket : forall (af type proto : Z), W -> Z * W;
  ws_closesocket : Z -> W -> Z * W;
  ws_send : forall (s : Z) (buf : list Z) (flags : Z), W -> Z * W;
  ws_recv : forall (s len flags : Z), W -> Z * list Z * W;
  ws_accept : Z -> W -> Z * list Z * W;
  ws_bind : forall (s : Z) (addr : list Z), W -> Z * W;
  ws_listen : forall (s backlog : Z), W -> Z * W;
  ws_connect : forall (s : Z) (addr : list Z), W -> Z * W;
  WSAGetLastError : W -> Z;
  ws_mkdir : list Z -> W -> Z * W;
  ws_garbage : Z
}.

Definition INVALID_HANDLE_VALUE : Z := -1.
Definition OPEN_EXISTING : Z := 3.
Definition OPEN_ALWAYS : Z := 4.

Module Win.
(** ** The handles of the mappings *)
Abbreviation MMapManager := (gmap Z Z) (only parsing).
Definition add (addr h : Z) (m : MMapManager) : MMapManager := <[addr := h]> m.
Definition remove (addr : Z) (m : MMapManager) : Z * MMapManager :=
  match m !! addr with
  | Some h => (h, delete addr m)
  | None => (0, m)
  end.

(** A leading '/' is dropped. *)
Definition shm_name_win (name : list Z) : list Z :=
  match name with
  | c :: rest => if c =? 47 then rest else name
  | [] => []
  end.

Section Win.
Context {platform : Platform} {W : Type} {win : Win32 W} {winsock : Winsock W}.
Implicit Types (w : W) (p : MMapManager * W).

(** ** Sockets *)
Definition TCP_MSG_NOSIGNAL : Z := 0.
Definition tcp_get_last_error w : Z := WSAGetLastError w.
Definition tcp_socket (af type proto : Z) w : Z * W := ws_socket af type proto w.
Definition tcp_close (s : Z) w : Z * W := ws_closesocket s w.
Definition tcp_send (s : Z) (buf : list Z) (flags : Z) w : Z * W := ws_send s buf flags w.
Definition tcp_recv (s len flags : Z) w : Z * list Z * W := ws_recv s len flags w.
Definition tcp_accept (s : Z) w : Z * list Z * W := ws_accept s w.
Definition tcp_bind (s : Z) (addr : list Z) w : Z * W := ws_bind s addr w.
Definition tcp_listen (s backlog : Z) w : Z * W := ws_listen s backlog w.
Definition tcp_connect (s : Z) (addr : list Z) w : Z * W := ws_connect s addr w.
Definition tcp_setsockopt (s level optname : Z) (optval : list Z) w : Z * W := win_setsockopt s level optname optval w.
Definition tcp_mkdir (path : list Z) w : Z * W := ws_mkdir path w.
Definition tcp_set_nonblocking (s : Z) w : Z * W := ioctlsocket_FIONBIO s 1 w.
Definition tcp_set_blocking (s : Z) w : Z * W := ioctlsocket_FIONBIO s 0 w.
Definition tcp_set_timeout (s level optname timeout_ms : Z) w : Z * W :=
  win_setsockopt s level optname (to_bytes native_little 4 (u32 timeout_ms)) w.

(** What is received is what the buffers hold; an error is -1. *)
Definition tcp_readv (s : Z) (vecs : list Z) w : Z * list Z * W :=
  let '(ret, bs, w) := WSARecv s (u32 <$> take 16 vecs) w in
  if ret =? 0 then (s32 (u32 (zlen bs)), bs, w) else (-1, [], w).

(** ** Files: the process has its [MMapManager] and the system *)
Definition map_view (sizeof_T hMap : Z) p : (Z + string) * (MMapManager * W) :=
  let '(m, w) := p in
  let '(ret, w) := MapViewOfFile hMap sizeof_T w in
  if ret =? 0 then (inr "MapViewOfFile"%string, (m, snd (CloseHandle hMap w)))
  else (inl ret, (add ret hMap m, w)).

(** Open the file and make the mapping; the handle of the file is closed. *)
Definition file_mapping (sizeof_T disposition : Z) (filename : list Z) w : option Z * W :=
  let '(hFile, w) := CreateFileA filename disposition w in
  if hFile =? INVALID_HANDLE_VALUE then (None, w)
  else
    let '(hMap, w) := CreateFileMappingA hFile sizeof_T None w in
    (Some hMap, snd (CloseHandle hFile w)).

Definition my_mmap (sizeof_T : Z) (filename : list Z) (use_shm : bool) p : (Z + string) * (MMapManager * W) :=
  let '(m, w) := p in
  let '(hMap, w) :=
    if use_shm then
      let '(h, w) := CreateFileMappingA INVALID_HANDLE_VALUE sizeof_T (Some (shm_name_win filename)) w in (Some h, w)
    else file_mapping sizeof_T OPEN_ALWAYS filename w in
  match hMap with
  | None => (inr "CreateFile"%string, (m, w))
  | Some hMap => if hMap =? 0 then (inr "CreateFileMapping"%string, (m, w)) else map_view sizeof_T hMap (m, w)
  end.

Definition my_mmap_existing (sizeof_T : Z) (filename : list Z) (use_shm : bool) p : (Z + string) * (MMapManager * W) :=
  let '(m, w) := p in
  let '(hMap, w) :=
    if use_shm then let '(h, w) := OpenFileMappingA (shm_name_win filename) w in (Some h, w)
    else file_mapping sizeof_T OPEN_EXISTING filename w in
  match hMap with
  | None => (inr "CreateFile"%string, (m, w))
  | Some hMap => if hMap =? 0 then (inr "OpenFileMapping"%string, (m, w)) else map_view sizeof_T hMap (m, w)
  end.

Definition my_munmap (addr : Z) p : MMapManager * W :=
  let '(m, w) := p in
  if addr =? 0 then (m, w)
  else
    let w := snd (UnmapViewOfFile addr w) in
    let '(h, m) := remove addr m in
    (m, if h =? 0 then w else snd (CloseHandle h w)).

(** The object goes when its last handle is closed. *)
Definition my_shm_unlink (filename : list Z) w : Z * W := (0, w).
End Win.
End Win.

(** The interface of the connections, over Winsock. *)
Definition win_sockets {W} {win : Win32 W} {winsock : Winsock W} : Sockets W := {|
  Conf.tcp_send fd bs w := Win.tcp_send fd bs Win.TCP_MSG_NOSIGNAL w;
  Conf.tcp_recv fd len w := Win.tcp_recv fd len 0 w;
  Conf.tcp_readv := Win.tcp_readv;
  Conf.tcp_close fd w := snd (Win.tcp_close fd w);
  Conf.tcp_get_last_error := Win.tcp_get_last_error;
  uninit := ws_garbage
|}.

(** ** What Windows documents

    [w_handles] are the open handles, [w_views] the mapped addresses. *)
Section Windows.
Context {platform : Platform} {W : Type} {win : Win32 W}.

Class Win32Laws : Type := {
  w_handles : W -> list Z;
  w_views : W -> gset Z;
  w_gains (bad h : Z) (w w' : W) : Prop :=
    w_views w' = w_views w /\ w_handles w' = (if h =? bad then w_handles w else h :: w_handles w);
  CreateFileA_law name d w h w' : CreateFileA name d w = (h, w') -> w_gains INVALID_HANDLE_VALUE h w w';
  CreateFileMappingA_law f n name w h w' : CreateFileMappingA f n name w = (h, w') -> w_gains 0 h w w';
  OpenFileMappingA_law name w h w' : OpenFileMappingA name w = (h, w') -> w_gains 0 h w w';
  CloseHandle_law h w : w_views (snd (CloseHandle h w)) = w_views w
    /\ (h ∈ w_handles w -> w_handles (snd (CloseHandle h w)) = remove_fd h (w_handles w));
  MapViewOfFile_law h n w a w' : MapViewOfFile h n w = (a, w') -> w_handles w' = w_handles w
    /\ (if a =? 0 then w_views w' = w_views w else a ∉ w_views w /\ w_views w' = ({[a]} ∪ w_views w));
  UnmapViewOfFile_law a w : w_handles (snd (UnmapViewOfFile a w)) = w_handles w
    /\ w_views (snd (UnmapViewOfFile a w)) = w_views w ∖ {[a]}
}.
Context {laws : Win32Laws}.
Implicit Types (w : W) (m : Win.MMapManager) (p : Win.MMapManager * W) (F : list Z).

Definition mapped_handles m : list Z := (map_to_list m).*2.

(** The handles that are open are those of the mappings and those of others. *)
Record handled F p : Prop := {
  handled_open : w_handles (snd p) ≡ₚ mapped_handles (fst p) ++ F;
  handled_views : dom (fst p) ⊆ w_views (snd p);
  handled_null : map_Forall (fun _ h => h <> 0) (fst p)
}.

Lemma mapped_add m a h : m !! a = None -> mapped_handles (Win.add a h m) ≡ₚ h :: mapped_handles m.
Proof using Type. intros E. unfold mapped_handles, Win.add. rewrite (map_to_list_insert _ _ _ E). reflexivity. Qed.
Lemma mapped_delete m a h : m !! a = Some h -> mapped_handles m ≡ₚ h :: mapped_handles (delete a m).
Proof using Type. intros E. unfold mapped_handles. rewrite <- (map_to_list_delete m a h E). reflexivity. Qed.

Lemma gains_handled F m w w' bad h : h <> bad -> handled F (m, w) -> w_gains bad h w w' -> handled (h :: F) (m, w').
Proof using Type.
  intros Hh [A B C] [V H]. destruct (Z.eqb_spec h bad) as [|_]; [contradiction|]. split; cbn [fst snd] in *.
  - rewrite H, A. apply Permutation_middle.
  - rewrite V. exact B.
  - exact C.
Qed.
Lemma gains_none F m w w' bad : handled F (m, w) -> w_gains bad bad w w' -> handled F (m, w').
Proof using Type. intros [A B C] [V H]. rewrite Z.eqb_refl in H. split; cbn [fst snd] in *; [rewrite H | rewrite V |]; assumption. Qed.

Lemma close_handled F m w h : handled (h :: F) (m, w) -> handled F (m, snd (CloseHandle h w)).
Proof using Type.
  intros [A B C]. destruct (CloseHandle_law h w) as [V H]. cbn [fst snd] in *.
  assert (Hin : h ∈ w_handles w) by (rewrite A; apply elem_of_app; right; left).
  split; cbn [fst snd]; [|rewrite V; exact B|exact C]. rewrite (H Hin). apply (Permutation_cons_inv (a := h)).
  rewrite <- (remove_fd_in h _ Hin), A. symmetry. apply Permutation_middle.
Qed.

Lemma map_view_handled F n h p r p' : h <> 0 -> handled (h :: F) p -> Win.map_view n h p = (r, p') -> handled F p'.
Proof using Type.
  intros Hh Hp E. destruct p as [m w]. unfold Win.map_view in E. destruct (MapViewOfFile h n w) as [a w1] eqn:Em.
  apply MapViewOfFile_law in Em as [H V]. destruct Hp as [A B C]. cbn [fst snd] in *.
  destruct (Z.eqb_spec a 0) as [->|Ha]; injection E as _ <-.
  - apply close_handled. split; cbn [fst snd]; [rewrite H | rewrite V |]; assumption.
  - destruct V as [Hn V]. assert (Hm : m !! a = None) by (apply not_elem_of_dom; set_solver). split; cbn [fst snd].
    + rewrite H, A, (mapped_add _ _ _ Hm). symmetry. apply Permutation_middle.
    + unfold Win.add. rewrite V, dom_insert_L. set_solver.
    + apply map_Forall_insert_2; assumption.
Qed.

Lemma file_mapping_handled F m n d name w r w' : handled F (m, w) -> Win.file_mapping n d name w = (r, w') ->
  match r with Some h => if h =? 0 then handled F (m, w') else handled (h :: F) (m, w') | None => handled F (m, w') end.
Proof using Type.
  intros Hp E. unfold Win.file_mapping in E. destruct (CreateFileA name d w) as [f w1] eqn:Ef. apply CreateFileA_law in Ef.
  destruct (Z.eqb_spec f INVALID_HANDLE_VALUE) as [->|Hf]; [injection E as <- <-; exact (gains_none _ _ _ _ _ Hp Ef)|].
  apply (gains_handled _ _ _ _ _ _ Hf Hp) in Ef. destruct (CreateFileMappingA f n None w1) as [h w2] eqn:Eh.
  apply CreateFileMappingA_law in Eh. injection E as <- <-. destruct (Z.eqb_spec h 0) as [->|Hh]; apply close_handled.
  - exact (gains_none _ _ _ _ _ Ef Eh).
  - destruct (gains_handled _ _ _ _ _ _ Hh Ef Eh) as [A B C]. split; [rewrite A|exact B|exact C].
    apply Permutation_app_head, perm_swap.
Qed.

(** Either call fails before it has a mapping, or makes a view of one. *)
Definition views F n m (r : Z + string) p' : Prop :=
  (exists e, r = inr e /\ handled F p')
  \/ (exists h w1, h <> 0 /\ handled (h :: F) (m, w1) /\ Win.map_view n h (m, w1) = (r, p')).

Lemma view_of_file F n m w name d e r p' : handled F (m, w) ->
  (let '(hMap, w) := Win.file_mapping n d name w in
   match hMap with
   | None => (inr "CreateFile"%string, (m, w))
   | Some hMap => if hMap =? 0 then (inr e, (m, w)) else Win.map_view n hMap (m, w)
   end) = (r, p') -> views F n m r p'.
Proof using Type.
  intros Hp. destruct (Win.file_mapping n d name w) as [r1 w1] eqn:Ef. apply (file_mapping_handled _ _ _ _ _ _ _ _ Hp) in Ef.
  destruct r1 as [h|]; [|intros [= <- <-]; left; eauto].
  destruct (Z.eqb_spec h 0) as [->|Hh]; [intros [= <- <-]; left; eauto | intros E; right; eauto 6].
Qed.
Lemma view_of_gain F n m w w1 h e r p' : handled F (m, w) -> w_gains 0 h w w1 ->
  (if h =? 0 then (inr e, (m, w1)) else Win.map_view n h (m, w1)) = (r, p') -> views F n m r p'.
Proof using Type.
  intros Hp Hg. destruct (Z.eqb_spec h 0) as [->|Hh].
  - intros [= <- <-]. left. exists e. split; [reflexivity | exact (gains_none _ _ _ _ _ Hp Hg)].
  - intros E. right. exists h, w1. split; [exact Hh|]. split; [exact (gains_handled _ _ _ _ _ _ Hh Hp Hg) | exact E].
Qed.

Lemma my_mmap_views F n name shm m w r p' : handled F (m, w) ->
  Win.my_mmap n name shm (m, w) = (r, p') \/ Win.my_mmap_existing n name shm (m, w) = (r, p') -> views F n m r p'.
Proof using Type.
  unfold Win.my_mmap, Win.my_mmap_existing. intros Hp [E|E]; destruct shm; try exact (view_of_file _ _ _ _ _ _ _ _ _ Hp E).
  - destruct (CreateFileMappingA _ n _ w) as [h w1] eqn:Eh. apply CreateFileMappingA_law in Eh. exact (view_of_gain _ _ _ _ _ _ _ _ _ Hp Eh E).
  - destruct (OpenFileMappingA _ w) as [h w1] eqn:Eh. apply OpenFileMappingA_law in Eh. exact (view_of_gain _ _ _ _ _ _ _ _ _ Hp Eh E).
Qed.

Lemma my_mmap_handled F n name shm p r p' : handled F p ->
  Win.my_mmap n name shm p = (r, p') \/ Win.my_mmap_existing n name shm p = (r, p') -> handled F p'.
Proof using Type.
  destruct p as [m w]. intros Hp E. destruct (my_mmap_views _ _ _ _ _ _ _ _ Hp E) as [(e & _ & H)|(h & w1 & Hh & H & Em)]; [exact H|].
  exact (map_view_handled _ _ _ _ _ _ Hh H Em).
Qed.

(** What unmapping does to the tables. *)
Lemma my_munmap_tables F addr p : handled F p -> addr <> 0 ->
  fst (Win.my_munmap addr p) = delete addr (fst p)
  /\ w_handles (snd p) ≡ₚ match fst p !! addr with Some h => [h] | None => [] end ++ w_handles (snd (Win.my_munmap addr p))
  /\ w_views (snd (Win.my_munmap addr p)) = w_views (snd p) ∖ {[addr]}.
Proof using Type.
  intros [A B C] Ha. destruct p as [m w]. unfold Win.my_munmap, Win.remove. cbn [fst snd] in *.
  destruct (Z.eqb_spec addr 0) as [|_]; [contradiction|]. destruct (UnmapViewOfFile_law addr w) as [H V].
  destruct (m !! addr) as [h|] eqn:E.
  - pose proof (C addr h E) as Hh. cbn in Hh. destruct (Z.eqb_spec h 0) as [|_]; [contradiction|]. cbn [fst snd].
    destruct (CloseHandle_law h (snd (UnmapViewOfFile addr w))) as [V2 H2]. rewrite V2, V. split; [reflexivity|]. split; [|reflexivity].
    rewrite H in H2. assert (Hin : h ∈ w_handles w) by (rewrite A, (mapped_delete _ _ _ E); left).
    rewrite (H2 Hin). exact (remove_fd_in _ _ Hin).
  - cbn [fst snd]. rewrite Z.eqb_refl, H, V, delete_id by exact E. auto.
Qed.

Lemma my_munmap_handled F addr p : handled F p -> handled F (Win.my_munmap addr p).
Proof using Type.
  intros Hp. destruct (Z.eqb_spec addr 0) as [->|Ha]; [destruct p; exact Hp|].
  destruct (my_munmap_tables F addr p Hp Ha) as (H1 & H2 & H3). destruct Hp as [A B C]. split.
  - rewrite H1. destruct (fst p !! addr) as [h|] eqn:E.
    + apply (Permutation_cons_inv (a := h)). etransitivity; [symmetry; exact H2|]. rewrite A, (mapped_delete _ _ _ E). reflexivity.
    + cbn [app] in H2. rewrite <- H2, A, delete_id by exact E. reflexivity.
  - rewrite H1, H3, dom_delete_L. set_solver.
  - rewrite H1. apply map_Forall_delete. exact C.
Qed.

(** One call of os.h. *)
Inductive win_step : Win.MMapManager * W -> Win.MMapManager * W -> Prop :=
| win_mmap n name shm p r p' : Win.my_mmap n name shm p = (r, p') -> win_step p p'
| win_mmap_existing n name shm p r p' : Win.my_mmap_existing n name shm p = (r, p') -> win_step p p'
| win_munmap addr p : win_step p (Win.my_munmap addr p).

(** The process starts without mappings. *)
Definition win_reachable F p : Prop := exists w, w_handles w = F /\ rtc win_step (∅, w) p.

Lemma reachable_handled F p : win_reachable F p -> handled F p.
Proof using Type.
  intros (w & HF & Hr). assert (H0 : handled F (∅, w)).
  { split; cbn [fst snd]; [rewrite HF; reflexivity | rewrite dom_empty_L; set_solver | apply map_Forall_empty]. }
  clear HF. induction Hr as [|p p1 p2 Hs _ IH]; [exact H0|]. apply IH.
  destruct Hs as [n name shm p r p' E|n name shm p r p' E|addr p]; [..|apply my_munmap_handled; exact H0];
    eapply my_mmap_handled; eauto.
Qed.

(** C38. On Windows, over every sequence of mappings and unmappings, failed ones too, the
    handles that are open are one for each address that is mapped and those others had
    opened; and mapping a file and unmapping it gives the table and the handles back. *)
Theorem windows_handles F p :
  win_reachable F p ->
  w_handles (snd p) ≡ₚ mapped_handles (fst p) ++ F
  /\ forall n name shm addr p1,
       Win.my_mmap n name shm p = (inl addr, p1) \/ Win.my_mmap_existing n name shm p = (inl addr, p1) ->
       fst (Win.my_munmap addr p1) = fst p /\ w_handles (snd (Win.my_munmap addr p1)) ≡ₚ w_handles (snd p).
Proof using laws.
  intros Hr. apply reachable_handled in Hr as Hp. split; [exact (handled_open _ _ Hp)|].
  intros n name shm addr p1 E.
  assert (H1 : handled F p1) by (eapply my_mmap_handled; eassumption).
  assert (Ha : addr <> 0 /\ exists h, fst p1 = Win.add addr h (fst p) /\ fst p !! addr = None).
  { destruct p as [m w]. destruct (my_mmap_views _ _ _ _ _ _ _ _ Hp E) as [(e & Hr1 & _)|(h & w1 & _ & [_ B _] & E1)]; [discriminate Hr1|].
    unfold Win.map_view in E1. destruct (MapViewOfFile h n w1) as [a w2] eqn:Em. apply MapViewOfFile_law in Em as [_ V].
    destruct (Z.eqb_spec a 0); [discriminate E1|]. injection E1 as <- <-. destruct V as [V _].
    split; [assumption|]. exists h. split; [reflexivity|]. apply not_elem_of_dom. cbn [fst snd] in B. set_solver. }
  destruct Ha as (Ha & h & Em & Hn). destruct (my_munmap_tables F addr p1 H1 Ha) as (T1 & T2 & _).
  assert (Ed : delete addr (fst p1) = fst p) by (rewrite Em; apply delete_insert_id, Hn). rewrite T1. split; [exact Ed|].
  pose proof (handled_open _ _ (my_munmap_handled F addr p1 H1)) as H2. rewrite T1, Ed in H2. rewrite H2.
  symmetry. exact (handled_open _ _ Hp).
Qed.
End Windows.
Arguments Win32Laws W {win}.

(** ** Scattered reads *)
Section Readv.
Context {platform : Platform} {W : Type} {win : Win32 W}.

(** WSARecv: 0 and some bytes, at most what the buffers hold, or an error. *)
Class WSARecvLaws : Type := {
  ws_inbox : Z -> W -> list Z;
  WSARecv_law s lens w ret bs w' : Forall (fun x => 0 <= x) lens -> WSARecv s lens w = (ret, bs, w') ->
    ws_inbox s w = bs ++ ws_inbox s w' /\ Forall in_byte bs /\ zlen bs <= foldr Z.add 0 lens /\ (ret <> 0 -> bs = [])
}.

Lemma sum_take n l : Forall (fun x => 0 <= x) l -> foldr Z.add 0 (take n l) <= foldr Z.add 0 l.
Proof using Type.
  intros H. revert n. induction H as [|x l Hx Hl IH]; intros [|n]; cbn; try lia.
  - clear IH. induction Hl as [|y l Hy _ IH]; cbn in *; lia.
  - specialize (IH n). lia.
Qed.

(** C39. [tcp_readv] on Windows is readv: for any buffers whose sizes fit the types of the
    code it takes the next bytes of the peer, in order, and returns their number, at most
    what the buffers hold, or takes nothing and returns -1; of more than 16 buffers the
    others stay empty. *)
Theorem windows_readv {recv : WSARecvLaws} s vecs w n bs w' :
  Forall (fun x => 0 <= x < 2 ^ 32) vecs -> foldr Z.add 0 vecs < 2 ^ 31 ->
  Win.tcp_readv s vecs w = (n, bs, w') ->
  -1 <= n <= foldr Z.add 0 (take 16 vecs) /\ Forall in_byte bs /\ zlen bs = Z.max 0 n
  /\ ws_inbox s w = bs ++ ws_inbox s w'.
Proof using Type.
  intros Hv Hs E. unfold Win.tcp_readv in E.
  assert (Hpos : Forall (fun x => 0 <= x) vecs) by (eapply Forall_impl; [exact Hv|]; cbn; lia).
  assert (Hu : u32 <$> take 16 vecs = take 16 vecs).
  { clear E. apply (Forall_take _ 16) in Hv. induction Hv as [|x l Hx _ IH]; [reflexivity|]. cbn. f_equal; [apply u32_id; exact Hx | exact IH]. }
  rewrite Hu in E. destruct (WSARecv s (take 16 vecs) w) as [[ret bs0] w0] eqn:Er.
  pose proof (Forall_take _ 16 _ Hpos) as Ht. apply (WSARecv_law _ _ _ _ _ _ Ht) in Er as (H1 & H2 & H3 & H4).
  pose proof (sum_take 16 vecs Hpos) as H5. destruct (Z.eqb_spec ret 0) as [|Hr]; injection E as <- <- <-.
  - rewrite s32_u32, s32_id by lia. repeat split; try assumption; lia.
  - rewrite (H4 Hr) in H1. rewrite (H4 Hr) in H3. repeat split; try constructor; cbn in *; try assumption; lia.
Qed.
End Readv.
Arguments WSARecvLaws W {win}.

(** ** A simulated Windows *)
Record winsim : Type := mkWin { win_handles : list Z; win_views : gset Z; win_next : Z; win_inbox : list Z; win_bad : bool }.
Definition win_gain (w : winsim) : Z * winsim :=
  let h := Z.max 1 (win_next w) in (h, mkWin (h :: win_handles w) (win_views w) (h + 1) (win_inbox w) (win_bad w)).

#[export] Instance winsim_win32 : Win32 winsim := {
  CreateFileA _ _ w := win_gain w;
  CreateFileMappingA _ _ _ w := win_gain w;
  OpenFileMappingA _ w := win_gain w;
  MapViewOfFile h _ w :=
    let a := fresh (win_views w ∪ {[0]}) in
    if win_bad w then (0, w)
    else (a, mkWin (win_handles w) ({[a]} ∪ win_views w) (win_next w) (win_inbox w) (win_bad w));
  UnmapViewOfFile a w := (1, mkWin (win_handles w) (win_views w ∖ {[a]}) (win_next w) (win_inbox w) (win_bad w));
  CloseHandle h w := (1, mkWin (remove_fd h (win_handles w)) (win_views w) (win_next w) (win_inbox w) (win_bad w));
  WSARecv s lens w :=
    if win_bad w then (-1, [], w)
    else
      let n := Z.to_nat (foldr Z.add 0 lens) in
      (0, (fun b => b mod 256) <$> take n (win_inbox w),
       mkWin (win_handles w) (win_views w) (win_next w) (drop n (win_inbox w)) (win_bad w));
  ioctlsocket_FIONBIO _ _ w := (0, w);
  win_setsockopt _ _ _ _ w := (0, w)
}.

#[export] Instance winsim_laws : Win32Laws winsim.
Proof.
  refine {| w_handles := win_handles; w_views := win_views |}.
  - intros name d w h w' [= <- <-]. split; [reflexivity|]. unfold INVALID_HANDLE_VALUE.
    destruct (Z.eqb_spec (Z.max 1 (win_next w)) (-1)); [lia | reflexivity].
  - intros f n name w h w' [= <- <-]. split; [reflexivity|]. destruct (Z.eqb_spec (Z.max 1 (win_next w)) 0); [lia | reflexivity].
  - intros name w h w' [= <- <-]. split; [reflexivity|]. destruct (Z.eqb_spec (Z.max 1 (win_next w)) 0); [lia | reflexivity].
  - intros h w. split; reflexivity.
  - intros h n w a w' E. unfold MapViewOfFile, winsim_win32 in E. destruct (win_bad w); injection E as <- <-; [split; reflexivity|].
    split; [reflexivity|]. pose proof (is_fresh (win_views w ∪ {[0]})) as Hf. set (a := fresh _) in *.
    destruct (Z.eqb_spec a 0) as [E|_]; [set_solver|]. split; [set_solver | reflexivity].
  - intros a w. split; reflexivity.
Defined.

#[export] Instance winsim_recv : WSARecvLaws winsim.
Proof.
  refine {| ws_inbox _ w := (fun b => b mod 256) <$> win_inbox w |}. intros s lens w ret bs w' Hl E. cbn in E.
  destruct (win_bad w); injection E as <- <- <-.
  - split; [reflexivity|]. split; [constructor|]. split; [|reflexivity]. induction Hl; cbn in *; lia.
  - cbn [win_inbox]. rewrite <- fmap_app, take_drop. split; [reflexivity|]. split.
    + apply Forall_fmap, Forall_true. intros b. unfold in_byte. cbn. pose proof (Z.mod_pos_bound b 256). lia.
    + split; [|intros H; contradiction]. rewrite length_fmap, length_take.
      assert (0 <= foldr Z.add 0 lens) by (induction Hl; cbn in *; lia). lia.
Defined.

Section Witnesses.
#[local] Instance here : Platform := true.

(** The handle 3 is somebody else's; a file and an object are mapped, one file fails. *)
Definition a_win : winsim := mkWin [3] ∅ 7 [1; 2; 3] false.
Definition win_bad_map : winsim := mkWin [3] ∅ 7 [] true.
Definition one_map : (gmap Z Z) * winsim := snd (Win.my_mmap 64 (lit "f.ptcp") false (∅, a_win)).
Definition two_maps : (gmap Z Z) * winsim := snd (Win.my_mmap 64 (lit "/c1_s1.shm") true one_map).

Lemma two_maps_reachable : win_reachable [3] two_maps.
Proof.
  exists a_win. split; [reflexivity|].
  eapply rtc_l; [exact (win_mmap 64 (lit "f.ptcp") false _ _ one_map (surjective_pairing _))|].
  apply rtc_once. exact (win_mmap 64 (lit "/c1_s1.shm") true _ _ two_maps (surjective_pairing _)).
Qed.

Lemma windows_handles_witness :
  w_handles (snd two_maps) ≡ₚ mapped_handles (fst two_maps) ++ [3]
  /\ w_handles (snd two_maps) = [9; 8; 3] /\ Win.shm_name_win (lit "/c1_s1.shm") = lit "c1_s1.shm".
Proof.
  split; [apply (windows_handles [3] two_maps two_maps_reachable)|]. split; vm_compute; reflexivity.
Defined.

Lemma windows_readv_witness : ws_inbox 5 a_win = [1; 2] ++ ws_inbox 5 (snd (Win.tcp_readv 5 [1; 1] a_win)).
Proof.
  apply (windows_readv 5 [1; 1] a_win 2 [1; 2] (snd (Win.tcp_readv 5 [1; 1] a_win))).
  - repeat constructor; lia.
  - cbn. lia.
  - vm_compute. reflexivity.
Defined.
End Witnesses.

