(* ===== verification/ShmProbeProps.v ===== *)
(** * The probe of shared memory is sound (ShmProbe.v)

    The server believes that memory is shared only when the client found the
    token in an object of that name and the server sees, in its own, what the
    client wrote. *)

From Stdlib Require Import String.
From S2P Require Import Prelude StateRes Endian MsgHeader Conf CString TcpShmConn SysIO Messages System ShmProbe.
Local Open Scope Z_scope.

(** ** The name of the object *)
Lemma length_hex fuel x : zlen (hex fuel x) <= Z.of_nat fuel.
Proof.
  revert x. induction fuel as [|fuel IH]; intros x; [simpl; lia|]. cbn [hex].
  rewrite length_app. cbn [length]. destruct (x <? 16); [simpl; lia|]. specialize (IH (x / 16)). lia.
Qed.

Lemma hex_digit_inj d e : 0 <= d < 16 -> 0 <= e < 16 -> hex_digit d = hex_digit e -> d = e.
Proof. unfold hex_digit. intros Hd He. repeat case_test; lia. Qed.

Lemma hex_inj fuel : forall x y, 0 <= x < 16 ^ Z.of_nat fuel -> 0 <= y < 16 ^ Z.of_nat fuel ->
  hex fuel x = hex fuel y -> x = y.
Proof.
  assert (Hne : forall n z, 0 < n -> hex (Z.to_nat n) z <> []).
  { intros n z Hn. destruct (Z.to_nat n) eqn:E; [lia|]. cbn [hex]. intros H. apply app_eq_nil in H as [_ H]. discriminate H. }
  induction fuel as [|fuel IH]; intros x y Hx Hy E; [simpl in *; lia|].
  rewrite Nat2Z.inj_succ, Z.pow_succ_r in * by lia. cbn [hex] in E.
  apply app_inj_2 in E as [E1 E2]; [|reflexivity]. injection E2 as E2.
  apply hex_digit_inj in E2; try (apply Z.mod_pos_bound; lia).
  assert (Hd : x / 16 = y / 16).
  { destruct (Z.ltb_spec x 16), (Z.ltb_spec y 16).
    - rewrite !Z.div_small by lia. reflexivity.
    - exfalso. destruct fuel; [simpl in *; lia|]. apply (Hne (Z.of_nat (S fuel)) (y / 16)); [lia|].
      rewrite Nat2Z.id. symmetry. exact E1.
    - exfalso. destruct fuel; [simpl in *; lia|]. apply (Hne (Z.of_nat (S fuel)) (x / 16)); [lia|].
      rewrite Nat2Z.id. exact E1.
    - apply IH; [| |exact E1]; split; try (apply Z.div_pos; lia); apply Z.div_lt_upper_bound; lia. }
  rewrite (Z.div_mod x 16), (Z.div_mod y 16) by lia. congruence.
Qed.

Lemma hex_nz fuel x : 0 <= x -> Forall (fun b => b <> 0) (hex fuel x).
Proof.
  revert x. induction fuel as [|fuel IH]; intros x Hx; [constructor|]. cbn [hex].
  apply Forall_app. split.
  - destruct (x <? 16); [constructor|]. apply IH. apply Z.div_pos; lia.
  - constructor; [|constructor]. unfold hex_digit.
    pose proof (Z.mod_pos_bound x 16 ltac:(lia)). case_test; lia.
Qed.

Section Name.
Context {conf : Conf}.

Lemma probe_name_nz s c token : in_u64 token -> Forall (fun b => b <> 0) (probe_name_of s c token).
Proof using Type.
  intros [Ht _]. unfold probe_name_of. rewrite !Forall_app. repeat split;
    try apply cstr_nz; try (apply hex_nz; exact Ht); repeat constructor; vm_compute; congruence.
Qed.

(** With names of at most 16 bytes the name of the probe fits its array of 64 with the
    terminator, so snprintf does not truncate it, and different tokens give different names.
    *)
Theorem probe_name_fits s c token :
  NameSize <= 16 -> zlen (cstr s) < NameSize -> zlen (cstr c) < NameSize -> in_u64 token ->
  exists buf, snprintf (replicate (Z.to_nat ShmProbeNameSize) 0) (probe_name_of s c token) = Ret buf
    /\ zlen buf = ShmProbeNameSize /\ cstr buf = probe_name_of s c token
    /\ forall token', in_u64 token' -> probe_name_of s c token' = probe_name_of s c token -> token' = token.
Proof using Type.
  intros HN Hs Hc Ht. set (p := probe_name_of s c token).
  assert (Lp : zlen p <= 62).
  { unfold p, probe_name_of. rewrite !length_app. pose proof (length_hex 16 token).
    change (length (lit "/tcpshm_probe_")) with 14%nat. change (length (lit "_")) with 1%nat. lia. }
  unfold snprintf. rewrite take_ge by (rewrite length_replicate; unfold ShmProbeNameSize; lia).
  unfold write_at. rewrite length_app, length_replicate. cbn [length].
  destruct (_ && _) eqn:B; [|unfold ShmProbeNameSize in B; lia]. eexists. split; [reflexivity|].
  rewrite drop_replicate, take_0. cbn [app]. unfold ShmProbeNameSize in *. split.
  { rewrite !length_app, length_replicate. cbn [length]. lia. }
  split.
  - rewrite <- app_assoc. change ([0] ++ replicate ?k 0) with (replicate (S k) 0).
    apply cstr_app_zeros. exact (probe_name_nz s c token Ht).
  - intros token' Ht' E. unfold p, probe_name_of in E. rewrite !app_assoc in E.
    apply app_inv_head in E. apply (hex_inj 16); [exact Ht' | exact Ht | exact E].
Qed.
End Name.

(** ** Sending and receiving as computations *)
Section IO.
Context {W : Type} {sockets : Sockets W} {sends : SendLaws W} {recvs : RecvLaws W}.
Context {mmap : Mmap W} {system : System W} {probes : ProbeMemory W} {laws : SystemLaws}.

Lemma recv_all_loop_outbox fuel : forall fd len got w r w',
  recv_all_loop fuel fd len got w = Ret (r, w') -> forall fd', outbox fd' w' = outbox fd' w.
Proof using laws.
  induction fuel as [|fuel IH]; intros fd len got w r w' E fd'; [discriminate E|]. cbn [recv_all_loop] in E.
  destruct (0 <? len); [|injection E as _ <-; reflexivity].
  destruct (tcp_recv fd len w) as [[n bs] w1] eqn:E1. pose proof (recv_outbox fd len w n bs w1 E1 fd') as H1.
  destruct (n <=? 0); [injection E as _ <-; exact H1|]. rewrite (IH _ _ _ _ _ _ E fd'). exact H1.
Qed.

Lemma send_all_loop_inbox fuel : forall fd bs w r w',
  send_all_loop fuel fd bs w = Ret (r, w') -> forall fd', inbox fd' w' = inbox fd' w.
Proof using Type.
  induction fuel as [|fuel IH]; intros fd bs w r w' E fd'; [discriminate E|]. cbn [send_all_loop] in E.
  destruct (0 <? zlen bs); [|injection E as _ <-; reflexivity].
  destruct (tcp_send fd bs w) as [n w1] eqn:E1. pose proof (send_inbox fd bs w n w1 E1 fd') as H1.
  destruct (n <=? 0); [injection E as _ <-; exact H1|]. rewrite (IH _ _ _ _ _ E fd'). exact H1.
Qed.

Lemma recv_all_run fd len w : 0 <= len ->
  exists r w' bs, recv_all fd len w = Ret (r, w') /\ inbox fd w = bs ++ inbox fd w' /\ Forall in_byte bs
    /\ match r with inl out => out = bs /\ zlen bs = len | inr _ => zlen bs < len end
    /\ forall fd', outbox fd' w' = outbox fd' w.
Proof using laws.
  intros H. destruct (tcp_recv_all_spec fd len w H) as (r & w' & bs & E & H1 & H2 & H3).
  exists r, w', bs. repeat (split; [assumption|]). exact (recv_all_loop_outbox _ _ _ _ _ _ _ E).
Qed.

Lemma send_all_run fd bs w :
  exists r w' k, send_all fd bs w = Ret (r, w') /\ (k <= length bs)%nat
    /\ outbox fd w' = outbox fd w ++ take k bs /\ (r = None <-> k = length bs)
    /\ forall fd', inbox fd' w' = inbox fd' w.
Proof using Type.
  destruct (tcp_send_all_spec fd bs w) as (r & w' & k & E & H1 & H2 & H3).
  exists r, w', k. repeat (split; [assumption|]). exact (send_all_loop_inbox _ _ _ _ _ _ E).
Qed.

(** What was sent in full. *)
Lemma send_all_done fd bs w : exists r w', send_all fd bs w = Ret (r, w')
  /\ (r = None -> outbox fd w' = outbox fd w ++ bs) /\ forall fd', inbox fd' w' = inbox fd' w.
Proof using Type.
  destruct (send_all_run fd bs w) as (r & w' & k & E & Hk & Ho & Hr & Hi). exists r, w'.
  split; [exact E|]. split; [|exact Hi]. intros ->. rewrite Ho.
  replace k with (length bs) by (symmetry; apply Hr; reflexivity). rewrite take_ge by lia. reflexivity.
Qed.

(** A message received in full is the one that was sent. *)
Lemma recv_message fd len w msg rest : 0 <= len -> inbox fd w = msg ++ rest -> zlen msg = len ->
  exists r w', recv_all fd len w = Ret (r, w')
    /\ match r with
       | inl out => out = msg /\ inbox fd w' = rest
       | inr _ => inbox fd w' <> rest
       end
    /\ forall fd', outbox fd' w' = outbox fd' w.
Proof using laws.
  intros Hl HI Hm. destruct (recv_all_run fd len w Hl) as (r & w' & bs & E & HI' & _ & Hr & Ho).
  exists r, w'. split; [exact E|]. split; [|exact Ho]. rewrite HI in HI'. destruct r as [out|e].
  - destruct Hr as [-> Hb]. apply app_inj_1 in HI' as [<- <-]; [auto | lia].
  - intros Heq. rewrite <- Heq in HI'. apply (f_equal length) in HI'. rewrite !length_app in HI'. lia.
Qed.
End IO.

(** ** The probe *)
Section Probe.
Context {conf : Conf} {W : Type} {sockets : Sockets W} {sends : SendLaws W} {recvs : RecvLaws W}.
Context {mmap : Mmap W} {system : System W} {probes : ProbeMemory W} {laws : SystemLaws}.
Implicit Types (fd : Z) (name : list Z) (w : W).

(** What the client sends back. *)
Definition probe_answer (client : Platform) (token : Z) (found : bool) : list Z :=
  @ctl_bytes client _ _ _ 0 (ctl_header (A := ShmProbeRspMsg) 0)
    (mkProbeRsp (if found then Z.lxor token ShmProbeAckMask else 0) (if found then 1 else 0)).

Lemma ack_in token : in_u64 token -> in_u64 (Z.lxor token ShmProbeAckMask).
Proof using Type.
  intros [H0 H1]. assert (Hn : 0 <= Z.lxor token ShmProbeAckMask)
    by (apply Z.lxor_nonneg; split; intros _; [vm_compute; discriminate | exact H0]).
  split; [exact Hn|].
  destruct (Z.eq_dec (Z.lxor token ShmProbeAckMask) 0) as [->|Hne]; [reflexivity|].
  apply Z.log2_lt_pow2; [lia|]. eapply Z.le_lt_trans; [apply Z.log2_lxor; [exact H0 | vm_compute; discriminate]|].
  apply Z.max_lub_lt; [|reflexivity]. destruct (Z.eq_dec token 0) as [->|]; [reflexivity|].
  apply Z.log2_lt_pow2; lia.
Qed.

Lemma probe_answer_ok token (found : bool) : in_u64 token ->
  w_ok (mkProbeRsp (if found then Z.lxor token ShmProbeAckMask else 0) (if found then 1 else 0)).
Proof using Type.
  intros H. split; cbn; [|destruct found; concrete].
  destruct found; [exact (ack_in token H) | concrete].
Qed.

Lemma shm_name_array name :
  Forall (fun b => b <> 0) name -> zlen name < ShmProbeNameSize ->
  strncpy (replicate (Z.to_nat ShmProbeNameSize) 0) name (ShmProbeNameSize - 1)
  = Ret (name ++ replicate (64 - length name) 0).
Proof using Type.
  intros Hnz Hl. unfold strncpy. rewrite cstr_id by exact Hnz. unfold ShmProbeNameSize in *.
  rewrite take_ge by lia. unfold write_at. rewrite !length_app, !length_replicate.
  destruct (_ && _) eqn:B; [|lia]. f_equal. rewrite drop_replicate.
  change (take (Z.to_nat 0) (replicate (Z.to_nat 64) 0)) with (@nil Z). cbn [app].
  rewrite <- app_assoc, <- replicate_add. do 2 f_equal. lia.
Qed.

(** The client's turn, from the request to the answer. *)
Definition client_turn (client : Platform) fd : M W (option (string * Z)) :=
  r ← RecvHeader (platform := client) fd;
  match r with
  | inl h => HandleShmProbe (platform := client) fd h
  | inr e => mret (Some ("recv"%string, e))
  end.

(** The client's run, call by call: it receives the header and the request, maps
    the object of that name, compares the token there, writes the masked token if it
    is the server's, and sends the answer. *)
Definition client_run fd name (token : Z) w (found : bool) (answer : list Z) w' : Prop :=
  exists head wa body w1 err w2,
    recv_all fd sizeof_MsgHeader w = Ret (inl head, wa)
    /\ recv_all fd (body_size (A := ShmProbeReqMsg)) wa = Ret (inl body, w1)
    /\ my_mmap_existing true name w1 = (err, w2)
    /\ (found = true <-> err = None /\ probe_token (read_probe name w2) = token)
    /\ send_all fd answer
         (if found then write_probe name (mkProbe token (Z.lxor token ShmProbeAckMask)) w2 else w2)
       = Ret (None, w').

Definition probe_request (server : Platform) (token : Z) name : list Z :=
  @ctl_bytes server _ _ _ 0 (ctl_header (A := ShmProbeReqMsg) 0)
    (mkProbeReq token (name ++ replicate (64 - length name) 0)).

Definition name_ok name : Prop := Forall (fun b => b <> 0 /\ in_byte b) name /\ zlen name < ShmProbeNameSize.

Lemma name_array_ok name : name_ok name -> chars ShmProbeNameSize (name ++ replicate (64 - length name) 0).
Proof using Type.
  intros [Hn Hl]. unfold ShmProbeNameSize in *. split; [rewrite length_app, length_replicate; lia|].
  apply Forall_app. split; [eapply Forall_impl; [|exact Hn]; cbn; tauto|].
  apply Forall_replicate. unfold in_byte. lia.
Qed.

(** The client terminates the name, which already is. *)
Lemma terminate_padded name : name_ok name ->
  terminate (name ++ replicate (64 - length name) 0) (ShmProbeNameSize - 1)
  = Ret (name ++ replicate (64 - length name) 0).
Proof using Type.
  intros [_ Hl]. unfold ShmProbeNameSize in *. unfold terminate, st. rewrite length_app, length_replicate.
  destruct (_ && _) eqn:B; [|lia]. f_equal. apply list_insert_id.
  rewrite lookup_app_r by lia. apply lookup_replicate. lia.
Qed.

Lemma SendShmProbeReq_run (server : Platform) fd name token w : name_ok name ->
  exists b w', SendShmProbeReq fd name token w = Ret (b, w')
    /\ (b = true -> outbox fd w' = outbox fd w ++ probe_request server token name).
Proof using recvs.
  intros [Hn Hl]. unfold SendShmProbeReq.
  rewrite (M_bind_eq _ _ w (name ++ replicate (64 - length name) 0) w).
  2:{ unfold lift. rewrite shm_name_array; [reflexivity| |exact Hl]. eapply Forall_impl; [|exact Hn]; cbn; tauto. }
  destruct (send_all_done fd (probe_request server token name) w) as (r & w' & E & Ho & _).
  unfold probe_request in E. rewrite (M_bind_eq _ _ _ _ _ E).
  eexists _, w'. split; [reflexivity|]. destruct r; [discriminate|]. intros _. exact (Ho eq_refl).
Qed.

Lemma HandleShmProbe_run (client : Platform) fd name token w body rest :
  name_ok name -> in_u64 token -> inbox fd w = body ++ rest -> zlen body = body_size (A := ShmProbeReqMsg) ->
  @ctl_body client _ _ _ body = mkProbeReq token (name ++ replicate (64 - length name) 0) ->
  exists r w', HandleShmProbe (platform := client) fd (ctl_header (A := ShmProbeReqMsg) 0) w = Ret (r, w')
    /\ (r = None -> forall head w0, recv_all fd sizeof_MsgHeader w0 = Ret (inl head, w) ->
         exists found, outbox fd w' = outbox fd w ++ probe_answer client token found
         /\ client_run fd name token w0 found (probe_answer client token found) w').
Proof using laws.
  intros Hname Ht HI Lb Eb. unfold HandleShmProbe. change (negb _) with false.
  assert (Hb : 0 <= body_size (A := ShmProbeReqMsg)) by (vm_compute; congruence).
  destruct (recv_message fd _ w body rest Hb HI Lb) as (r & w1 & E1 & Hr & Ho1).
  rewrite (M_bind_eq _ _ _ _ _ E1). destruct r as [out|e]; [|eexists _, w1; split; [reflexivity | discriminate]].
  destruct Hr as [-> _]. rewrite Eb. cbn [shm_name Messages.token].
  rewrite (lift_bind _ _ _ _ (terminate_padded name Hname)).
  rewrite cstr_app_zeros by (destruct Hname as [Hn _]; eapply Forall_impl; [|exact Hn]; cbn; tauto).
  destruct (my_mmap_existing true name w1) as [err w2] eqn:Em.
  pose proof (my_mmap_existing_io true name w1) as Hio2. rewrite Em in Hio2. cbn [snd] in Hio2.
  rewrite (call_bind _ _ _ _ _ Em), gets_bind.
  set (found := match err with None => probe_token (read_probe name w2) =? token | Some _ => false end).
  assert (Hfound : found = true <-> err = None /\ probe_token (read_probe name w2) = token).
  { unfold found. destruct err; [split; [discriminate | intros [? _]; discriminate] | rewrite Z.eqb_eq; tauto]. }
  set (w3 := if found then write_probe name (mkProbe token (Z.lxor token ShmProbeAckMask)) w2 else w2).
  assert (Hio3 : same_io w2 w3) by (unfold w3; destruct found; [apply write_probe_io | apply same_io_refl]).
  rewrite (M_bind_eq _ _ w2 tt w3).
  2:{ unfold w3, when. destruct found; [|reflexivity]. destruct (proj1 Hfound eq_refl) as [_ ->]. reflexivity. }
  destruct (send_all_done fd (probe_answer client token found) w3) as (r & w4 & E4 & Ho4 & _).
  pose proof E4 as E5. unfold probe_answer in E5. rewrite (M_bind_eq _ _ _ _ _ E5). eexists _, w4. split; [reflexivity|].
  destruct r; [discriminate|]. intros _ head w0 E0. exists found. split.
  - rewrite (Ho4 eq_refl). f_equal. rewrite (proj1 Hio3), (proj1 Hio2). apply Ho1.
  - exists head, w, body, w1, err, w2. auto.
Qed.

Lemma client_turn_run (server client : Platform) fd name token w rest :
  name_ok name -> in_u64 token -> inbox fd w = probe_request server token name ++ rest ->
  exists r w', client_turn client fd w = Ret (r, w')
    /\ (r = None -> exists found, outbox fd w' = outbox fd w ++ probe_answer client token found
         /\ client_run fd name token w found (probe_answer client token found) w').
Proof using laws.
  intros Hname Ht HI. pose proof (name_array_ok name Hname) as Ha.
  assert (Hok : w_ok (mkProbeReq token (name ++ replicate (64 - length name) 0))) by (split; assumption).
  unfold probe_request in HI. set (req := mkProbeReq _ _) in *.
  set (h := ctl_header (A := ShmProbeReqMsg) 0) in *.
  assert (Hh : hdr_ok h) by (apply (ctl_header_ok (A := ShmProbeReqMsg)); concrete).
  destruct (ctl_decode server client 0 h req [] Hh Hok) as [E1 E2].
  pose proof (length_ctl_bytes server 0 h req Hok) as L. set (bs := @ctl_bytes server _ _ _ 0 h req) in *.
  change (buf_size (A := ShmProbeReqMsg)) with 80 in L.
  rewrite app_nil_r in E1. unfold client_turn, RecvHeader.
  rewrite <- (take_drop 8 bs), <- app_assoc in HI.
  assert (L8 : zlen (take 8 bs) = sizeof_MsgHeader) by (rewrite length_take; unfold sizeof_MsgHeader; lia).
  destruct (recv_message fd sizeof_MsgHeader w (take 8 bs) (drop 8 bs ++ rest)) as (r & w1 & E & Hr & Ho1);
    [concrete | exact HI | exact L8 |].
  rewrite (M_bind_eq _ _ w (match r with inl x => inl (ctl_head (platform := client) x) | inr e => inr e end) w1)
    by (rewrite (M_bind_eq _ _ _ _ _ E); reflexivity).
  destruct r as [out|e]; [|eexists _, w1; split; [reflexivity | discriminate]]. destruct Hr as [-> HI1].
  replace (ctl_head (take 8 bs)) with h
    by (rewrite <- E1; unfold ctl_head; rewrite take_take; reflexivity).
  destruct (HandleShmProbe_run client fd name token w1 (drop 8 bs) rest Hname Ht HI1) as (r & w' & E' & H');
    [rewrite length_drop; change (body_size (A := ShmProbeReqMsg)) with 72; lia | exact E2 |].
  exists r, w'. split; [exact E'|]. intros Hr. rewrite <- (Ho1 fd). exact (H' Hr _ _ E).
Qed.

Lemma RecvAndCheck_run (server client : Platform) fd name token found w rest :
  in_u64 token -> inbox fd w = probe_answer client token found ++ rest ->
  exists b w', RecvAndCheckShmProbeRsp (platform := server) fd token name w = Ret (b, w')
    /\ (b = true <-> inbox fd w' = rest /\ found = true
                     /\ probe_ack (read_probe name w') = Z.lxor token ShmProbeAckMask).
Proof using laws.
  intros Ht HI. pose proof (probe_answer_ok token found Ht) as Hok. unfold probe_answer in HI.
  set (rsp := mkProbeRsp _ _) in *. set (h := ctl_header (A := ShmProbeRspMsg) 0) in *.
  assert (Hh : hdr_ok h) by (apply (ctl_header_ok (A := ShmProbeRspMsg)); concrete).
  destruct (ctl_decode client server 0 h rsp [] Hh Hok) as [E1 E2].
  pose proof (length_ctl_bytes client 0 h rsp Hok) as L. set (bs := @ctl_bytes client _ _ _ 0 h rsp) in *.
  assert (Hb : 0 <= buf_size (A := ShmProbeRspMsg)) by (vm_compute; congruence).
  destruct (recv_message fd _ w bs rest Hb HI L) as (r & w1 & E & Hr & _).
  unfold RecvAndCheckShmProbeRsp. rewrite (M_bind_eq _ _ _ _ _ E).
  destruct r as [out|e].
  2:{ eexists false, w1. split; [reflexivity|]. split; [discriminate | intros [H _]; contradiction]. }
  destruct Hr as [-> HI1]. rewrite app_nil_r in E1. rewrite E1.
  change (ctl_valid h) with true. cbn [negb]. rewrite gets_bind, E2.
  eexists _, w1. split; [reflexivity|]. unfold rsp. cbn [ok ack]. destruct found.
  - change (1 =? 0) with false. rewrite Z.eqb_refl. cbn [negb andb]. rewrite Z.eqb_eq. tauto.
  - split; [discriminate | intros (_ & H & _); discriminate H].
Qed.

(** C24. Between hosts of any byte orders, both turns of the probe return. The client says
    it found the probe exactly when, in its run, the object it mapped holds the server's
    token, and then it wrote the masked token there before it answered; the server accepts
    the answer exactly when the client said it found it and the server itself reads the
    masked token in the memory: agreement over TCP alone is not enough. *)
Theorem probe_agreement (server client : Platform) fds fdc name token ws wc rest :
  name_ok name -> in_u64 token ->
  exists sent ws1, SendShmProbeReq (platform := server) fds name token ws = Ret (sent, ws1)
  /\ (sent = true ->
      exists request, outbox fds ws1 = outbox fds ws ++ request
      /\ (inbox fdc wc = request ++ rest ->
          exists failed wc1, client_turn client fdc wc = Ret (failed, wc1)
          /\ (failed = None ->
              exists answer found, outbox fdc wc1 = outbox fdc wc ++ answer
              /\ client_run fdc name token wc found answer wc1
              /\ forall ws2 rest2, inbox fds ws2 = answer ++ rest2 ->
                 exists b ws3, RecvAndCheckShmProbeRsp (platform := server) fds token name ws2 = Ret (b, ws3)
                 /\ (b = true <-> inbox fds ws3 = rest2 /\ found = true
                                  /\ probe_ack (read_probe name ws3) = Z.lxor token ShmProbeAckMask)))).
Proof using laws.
  intros Hname Ht. destruct (SendShmProbeReq_run server fds name token ws Hname) as (b & ws1 & E1 & H1).
  exists b, ws1. split; [exact E1|]. intros Hb. exists (probe_request server token name).
  split; [exact (H1 Hb)|]. intros HI.
  destruct (client_turn_run server client fdc name token wc rest Hname Ht HI) as (r & wc1 & E2 & H2).
  exists r, wc1. split; [exact E2|]. intros Hr. destruct (H2 Hr) as (found & Ho & Hf).
  exists (probe_answer client token found), found. split; [exact Ho|]. split; [exact Hf|].
  intros ws2 rest2 HI2. exact (RecvAndCheck_run server client fds name token found ws2 rest2 Ht HI2).
Qed.
End Probe.

(** ** A probe between a big-endian and a little-endian process *)
Section Witness.
#[local] Existing Instance ServerConf.
Definition a_sim (evs : list io_event) : sim := mkSim (mkWorld evs [] 0 []) ∅ [] 0 [].
Definition a_probe_name : list Z := lit "/tcpshm_probe_s_c_2a".

Lemma a_probe_name_ok : name_ok a_probe_name.
Proof. split; [repeat constructor; concrete | concrete]. Qed.

Lemma probe_name_fits_witness :
  exists buf, snprintf (replicate (Z.to_nat ShmProbeNameSize) 0) (probe_name_of (lit "server01") (lit "c") 42) = Ret buf
    /\ zlen buf = ShmProbeNameSize /\ cstr buf = probe_name_of (lit "server01") (lit "c") 42
    /\ forall token', in_u64 token' ->
         probe_name_of (lit "server01") (lit "c") token' = probe_name_of (lit "server01") (lit "c") 42 -> token' = 42.
Proof. refine (probe_name_fits (lit "server01") (lit "c") 42 _ _ _ _); concrete. Defined.

(** The whole probe: the request, the client that finds the token 42, and the
    server that gets its answer and reads the memory. *)
Definition a_client : sim :=
  mkSim (mkWorld [EvRecv (probe_request false 42 a_probe_name); EvSend 100] [] 0 []) {[a_probe_name := mkProbe 42 0]} [] 0 [].
Definition a_server : sim :=
  mkSim (mkWorld [EvRecv (probe_answer true 42 true)] [] 0 [])
        {[a_probe_name := mkProbe 42 (Z.lxor 42 ShmProbeAckMask)]} [] 0 [].

Lemma request_sent b w : SendShmProbeReq (platform := false) 5 a_probe_name 42 (a_sim [EvSend 100]) = Ret (b, w) ->
  b = true /\ outbox 5 w = probe_request false 42 a_probe_name.
Proof.
  intros E. assert (match SendShmProbeReq (platform := false) 5 a_probe_name 42 (a_sim [EvSend 100]) with
                    | Ret (b, w) => b = true /\ outbox 5 w = probe_request false 42 a_probe_name
                    | _ => False
                    end) as H by (vm_compute; split; reflexivity).
  rewrite E in H. exact H.
Qed.
Lemma client_answers r w : client_turn true 6 a_client = Ret (r, w) ->
  r = None /\ outbox 6 w = probe_answer true 42 true.
Proof.
  intros E. assert (match client_turn true 6 a_client with
                    | Ret (r, w) => r = None /\ outbox 6 w = probe_answer true 42 true
                    | _ => False
                    end) as H by (vm_compute; split; reflexivity).
  rewrite E in H. exact H.
Qed.
Lemma server_accepts b w : RecvAndCheckShmProbeRsp (platform := false) 5 42 a_probe_name a_server = Ret (b, w) -> b = true.
Proof.
  intros E. assert (match RecvAndCheckShmProbeRsp (platform := false) 5 42 a_probe_name a_server with
                    | Ret (b, _) => b = true
                    | _ => False
                    end) as H by (vm_compute; reflexivity).
  rewrite E in H. exact H.
Qed.

Lemma probe_agreement_witness :
  exists wc1 answer ws3,
    client_turn true 6 a_client = Ret (None, wc1) /\ client_run 6 a_probe_name 42 a_client true answer wc1
    /\ RecvAndCheckShmProbeRsp (platform := false) 5 42 a_probe_name a_server = Ret (true, ws3)
    /\ probe_ack (read_probe a_probe_name ws3) = Z.lxor 42 ShmProbeAckMask.
Proof.
  destruct (probe_agreement false true 5 6 a_probe_name 42 (a_sim [EvSend 100]) a_client [] a_probe_name_ok)
    as (sent & ws1 & E1 & H1); [concrete|].
  destruct (request_sent _ _ E1) as [-> Eq]. destruct (H1 eq_refl) as (request & Er & H2).
  change (outbox 5 (a_sim _)) with (@nil Z) in Er. cbn [app] in Er. rewrite Eq in Er. subst request.
  destruct H2 as (failed & wc1 & E2 & H3); [vm_compute; reflexivity|].
  destruct (client_answers _ _ E2) as [-> Ea]. destruct (H3 eq_refl) as (answer & found & Eo & Hrun & H4).
  change (outbox 6 a_client) with (@nil Z) in Eo. cbn [app] in Eo. rewrite Ea in Eo. subst answer.
  destruct (H4 a_server []) as (b & ws3 & E3 & H5); [vm_compute; reflexivity|].
  pose proof (server_accepts _ _ E3) as ->. destruct (proj1 H5 eq_refl) as (_ & -> & Hack).
  exists wc1, (probe_answer true 42 true), ws3. auto.
Defined.
End Witness.
