(* ===== verification/Server.v ===== *)
(** * The server (class TcpShmServer of src/tcpshm/tcpshm_server.h)

    The server accepts sockets, waits for a login on each, and gives the client
    that logs in a connection of one of its groups: [conns] of a group is a
    permutation of the group's connections of which the first [live_cnt] are in
    use.  [host] is everything a call of the server reads or changes; the
    callbacks of the derived class that only report are logged. *)

From Stdlib Require Import String.
From S2P Require Import Prelude StateRes Endian MsgHeader Conf PTCPConn CString TcpShmConn SysIO Messages System ShmProbe.
Local Open Scope Z_scope.

(** The constants of the server's [Conf], and the address of the object. *)
Class ServerParams : Type := mkServerParams {
  MaxNewConnections : Z;
  MaxShmConnsPerGrp : Z;
  MaxShmGrps : Z;
  MaxTcpConnsPerGrp : Z;
  MaxTcpGrps : Z;
  this : Z
}.

(** The buffer of a new connection is written whole before every use, so its
    content is not kept. *)
Record NewConn : Type := mkNewConn { nc_time : Z; nc_fd : Z; nc_addr : list Z }.

(** [conns] holds indices of [conn_pool_]. *)
Record ConnectionGroup : Type := mkGroup { live_cnt : Z; conns : list Z }.

Record TcpShmServer : Type := mkServer {
  server_name_ : list Z;
  ptcp_dir : list Z;
  listenfd_ : Z;
  new_conns_ : list NewConn;
  avail_idx_ : Z;
  conn_pool_ : list TcpShmConnection;
  shm_grps_ : list ConnectionGroup;
  tcp_grps_ : list ConnectionGroup
}.

Inductive event : Type :=
| OnSystemError (errno_msg : string) (sys_errno : Z)
| OnClientFileError (conn : Z) (reason : string) (sys_errno : Z)
| OnSeqNumberMismatch (conn local_ack local_start local_end remote_ack remote_start remote_end : Z)
| OnClientLogon (addr : list Z) (conn : Z)
| OnClientDisconnected (conn : Z) (reason : string) (sys_errno : Z).

(** The callbacks that decide something: [OnNewConnection] returns the group and
    may write the response, [OnClientMsg] may use the connection. *)
Class App (W : Type) : Type := {
  OnNewConnection : list Z -> LoginMsg -> LoginRspMsg -> W -> Z * LoginRspMsg * W;
  OnClientMsg : Z -> TcpShmConnection -> disk -> W -> res (TcpShmConnection * disk * W)
}.

Record host (W : Type) : Type := mkHost {
  server : TcpShmServer;
  hdisk : disk;
  os : W;
  events : list event
}.
Arguments mkHost {W}.
Arguments server {W}.
Arguments hdisk {W}.
Arguments os {W}.
Arguments events {W}.

(** ** Assignments *)
Definition set_listenfd (fd : Z) (s : TcpShmServer) : TcpShmServer :=
  mkServer (server_name_ s) (ptcp_dir s) fd (new_conns_ s) (avail_idx_ s) (conn_pool_ s) (shm_grps_ s) (tcp_grps_ s).
Definition set_new_conns (l : list NewConn) (s : TcpShmServer) : TcpShmServer :=
  mkServer (server_name_ s) (ptcp_dir s) (listenfd_ s) l (avail_idx_ s) (conn_pool_ s) (shm_grps_ s) (tcp_grps_ s).
Definition set_avail (i : Z) (s : TcpShmServer) : TcpShmServer :=
  mkServer (server_name_ s) (ptcp_dir s) (listenfd_ s) (new_conns_ s) i (conn_pool_ s) (shm_grps_ s) (tcp_grps_ s).
Definition set_pool (p : list TcpShmConnection) (s : TcpShmServer) : TcpShmServer :=
  mkServer (server_name_ s) (ptcp_dir s) (listenfd_ s) (new_conns_ s) (avail_idx_ s) p (shm_grps_ s) (tcp_grps_ s).
Definition set_grps (shm : bool) (g : list ConnectionGroup) (s : TcpShmServer) : TcpShmServer :=
  if shm
  then mkServer (server_name_ s) (ptcp_dir s) (listenfd_ s) (new_conns_ s) (avail_idx_ s) (conn_pool_ s) g (tcp_grps_ s)
  else mkServer (server_name_ s) (ptcp_dir s) (listenfd_ s) (new_conns_ s) (avail_idx_ s) (conn_pool_ s) (shm_grps_ s) g.
Definition grps (shm : bool) (s : TcpShmServer) : list ConnectionGroup :=
  if shm then shm_grps_ s else tcp_grps_ s.

Section State.
Context {W : Type}.
Definition set_server (s : TcpShmServer) (h : host W) : host W := mkHost s (hdisk h) (os h) (events h).
Definition set_os (w : W) (h : host W) : host W := mkHost (server h) (hdisk h) w (events h).
Definition report (e : event) : M (host W) unit :=
  modify (fun h => mkHost (server h) (hdisk h) (os h) (events h ++ [e])).
Definition assign (f : TcpShmServer -> TcpShmServer) : M (host W) unit := modify (fun h => set_server (f (server h)) h).
Definition member_ {A} (f : TcpShmServer -> A) : M (host W) A := gets (fun h => f (server h)).
Definition io {A} (m : M W A) : M (host W) A := zoom os set_os m.

(** [*grp.conns[i]], read and written. *)
Definition conn_at (k : Z) : M (host W) TcpShmConnection := p ← member_ conn_pool_; lift (ld p k).
Definition store_conn (k : Z) (c : TcpShmConnection) : M (host W) unit :=
  p ← member_ conn_pool_; p ← lift (st p k c); assign (set_pool p).
Definition grp_at (shm : bool) (g : Z) : M (host W) ConnectionGroup := l ← member_ (grps shm); lift (ld l g).
Definition store_grp (shm : bool) (g : Z) (x : ConnectionGroup) : M (host W) unit :=
  l ← member_ (grps shm); l ← lift (st l g x); assign (set_grps shm l).
Definition new_conn_at (i : Z) : M (host W) NewConn := l ← member_ new_conns_; lift (ld l i).
Definition store_new_conn (i : Z) (n : NewConn) : M (host W) unit :=
  l ← member_ new_conns_; l ← lift (st l i n); assign (set_new_conns l).

(** An operation of a connection, with the disk and the system. *)
Definition conn_op {A} (k : Z) (f : TcpShmConnection -> disk -> W -> res (A * TcpShmConnection * disk * W)) :
  M (host W) A :=
  c ← conn_at k;
  r ← (fun h => r ← f c (hdisk h) (os h);
                let '(a, c, d, w) := r in Ret ((a, c), mkHost (server h) d w (events h)));
  let '(a, c) := r in
  _ ← store_conn k c;
  mret a.
End State.

(** [std::swap(conns[i], conns[j])] *)
Definition swap (l : list Z) (i j : Z) : res (list Z) :=
  a ← ld l i; b ← ld l j; l ← st l i b; st l j a.

Section Server.
Context {platform : Platform} {conf : Conf} {params : ServerParams} {W : Type}.
Context {sockets : Sockets W} {mmap : Mmap W} {system : System W} {probes : ProbeMemory W} {app : App W}.

(** ** Construction, start and stop *)

Definition groups (n cnt first : Z) : list ConnectionGroup :=
  (fun g : nat => mkGroup 0 ((fun i : nat => first + Z.of_nat g * cnt + Z.of_nat i) <$> seq 0 (Z.to_nat cnt)))
    <$> seq 0 (Z.to_nat n).

Definition TcpShmServer_init (name dir : list Z) : res TcpShmServer :=
  a ← strncpy (replicate (Z.to_nat NameSize) uninit) name (NameSize - 1);
  a ← terminate a (NameSize - 1);
  let shm := MaxShmConnsPerGrp * MaxShmGrps in
  Ret (mkServer a dir INVALID_TCP_SOCKET
         (replicate (Z.to_nat MaxNewConnections) (mkNewConn 0 INVALID_TCP_SOCKET [])) 0
         (replicate (Z.to_nat (shm + MaxTcpConnsPerGrp * MaxTcpGrps)) (TcpShmConnection_init dir a))
         (groups MaxShmGrps MaxShmConnsPerGrp 0) (groups MaxTcpGrps MaxTcpConnsPerGrp shm)).

(** One step of [Start]: report and give up if the call fails. *)
Definition start_step (failed : Z -> bool) (f : Z -> W -> Z * W) (msg : string) (next : M (host W) bool) : M (host W) bool :=
  fd ← member_ listenfd_;
  r ← io (call (f fd));
  if failed r then
    e ← gets (fun h => tcp_get_last_error (os h));
    _ ← report (OnSystemError msg e);
    mret false
  else next.

Definition Start (listen_ipv4 : list Z) (listen_port : Z) : M (host W) bool :=
  fd ← member_ listenfd_;
  if negb (fd =? INVALID_TCP_SOCKET) then
    _ ← report (OnSystemError "already started" 0);
    mret false
  else
    fd ← io (call tcp_socket);
    _ ← assign (set_listenfd fd);
    if fd =? INVALID_TCP_SOCKET then
      e ← gets (fun h => tcp_get_last_error (os h));
      _ ← report (OnSystemError "socket" e);
      mret false
    else
      _ ← io (sys (tcp_set_nonblocking fd));
      let negative r := r <? 0 in
      start_step negative (fun fd => tcp_setsockopt fd "SO_REUSEADDR") "setsockopt SO_REUSEADDR"
        ((if TcpNoDelay
          then start_step negative (fun fd => tcp_setsockopt fd "TCP_NODELAY") "setsockopt TCP_NODELAY"
          else fun next => next)
           (start_step negative (fun fd => tcp_bind fd listen_ipv4 listen_port) "bind"
              (start_step negative (fun fd => tcp_listen fd 5) "listen" (mret true)))).

Fixpoint for_each {A} (l : list A) (f : A -> M (host W) unit) : M (host W) unit :=
  match l with
  | [] => mret tt
  | a :: l => _ ← f a; for_each l f
  end.
Definition range (n : Z) : list Z := Z.of_nat <$> seq 0 (Z.to_nat n).

Definition release_conn (k : Z) : M (host W) unit :=
  conn_op k (fun c d w => r ← TS_Release c d w; let '(c, d, w) := r in Ret (tt, c, d, w)).

(** One group of [Stop]. *)
Definition stop_grp (shm : bool) (g : Z) : M (host W) unit :=
  grp ← grp_at shm g;
  _ ← for_each (conns grp) release_conn;
  store_grp shm g (mkGroup 0 (conns grp)).

Definition close_new_conn (i : Z) : M (host W) unit :=
  nc ← new_conn_at i;
  when (negb (nc_fd nc =? INVALID_TCP_SOCKET))
    (_ ← io (sys (tcp_close (nc_fd nc)));
     store_new_conn i (mkNewConn (nc_time nc) INVALID_TCP_SOCKET (nc_addr nc))).

Definition Stop : M (host W) unit :=
  fd ← member_ listenfd_;
  if fd =? INVALID_TCP_SOCKET then mret tt
  else
    _ ← io (sys (tcp_close fd));
    _ ← assign (set_listenfd INVALID_TCP_SOCKET);
    _ ← for_each (range MaxNewConnections) close_new_conn;
    _ ← assign (set_avail 0);
    _ ← for_each (range MaxShmGrps) (stop_grp true);
    for_each (range MaxTcpGrps) (stop_grp false).

(** ** Login *)

(** check if seq_start <= ack_seq <= seq_end, considering uint32_t wrap around *)
Definition CheckAckInQueue (ack_seq seq_start seq_end : Z) : bool :=
  (0 <=? s32 (u32 (ack_seq - seq_start))) && (0 <=? s32 (u32 (seq_end - ack_seq))).

Definition SendLoginRsp (fd : Z) (header : MsgHeader) (login_rsp : LoginRspMsg) : M W bool :=
  r ← send_all fd (ctl_bytes 0 header login_rsp);
  mret (match r with None => true | Some _ => false end).

Definition set_status (s : Z) (r : LoginRspMsg) : LoginRspMsg :=
  mkLoginRsp (server_seq_start r) (server_seq_end r) (rsp_user_data r) s (server_name r) (error_msg r).
Definition set_error (e : list Z) (r : LoginRspMsg) : LoginRspMsg :=
  mkLoginRsp (server_seq_start r) (server_seq_end r) (rsp_user_data r) (status r) (server_name r) e.
Definition set_seqs (s e : Z) (r : LoginRspMsg) : LoginRspMsg :=
  mkLoginRsp s e (rsp_user_data r) (status r) (server_name r) (error_msg r).
Definition set_client_name (n : list Z) (m : LoginMsg) : LoginMsg :=
  mkLogin (client_seq_start m) (client_seq_end m) (user_data m) (use_shm m) n (last_server_name m).

(** The response with [error_msg] is sent; the socket stays the caller's. *)
Definition reject (fd : Z) (rsp : LoginRspMsg) (msg : string) : M (host W) bool :=
  e ← lift (strncpy (error_msg rsp) (lit msg) 32);
  _ ← io (SendLoginRsp fd (ctl_header (A := LoginRspMsg) 0) (set_error e rsp));
  mret false.

(** The sequence numbers of both sides: [(ack, start, end)] of the server, then
    of the client; or the error of [GetSeq]. *)
Definition login_seqs (changed : bool) (k : Z) (header : MsgHeader) (login : LoginMsg) :
  M (host W) (option ((Z * Z * Z) * (Z * Z * Z))) :=
  if changed then
    _ ← conn_op k (fun c d w => r ← TS_Reset c d; let '(c, d) := r in Ret (tt, c, d, w));
    mret (Some ((0, 0, 0), (0, 0, 0)))
  else
    c ← conn_at k;
    r ← lift (TS_GetSeq c);
    mret (match r with
          | None => None
          | Some seqs =>
              Some (match seqs with Some (a, (s, e)) => (a, s, e) | None => (0, 0, 0) end,
                    (ack_seq header, client_seq_start login, client_seq_end login))
          end).

(** From the match of the name on: slot [i] of the group is connection [k]. *)
Definition login_slot (now fd : Z) (addr : list Z) (header : MsgHeader) (login : LoginMsg) (rsp : LoginRspMsg)
    (g i k : Z) : M (host W) bool :=
  let shm := negb (use_shm login =? 0) in
  grp ← grp_at shm g;
  if i <? live_cnt grp then reject fd rsp "Already loggned on"
  else
    opened ← conn_op k (fun c d w => let '(e, c, d, w) := TS_OpenFile shm c d w in Ret (e, c, d, w));
    match opened with
    | Some error_msg =>
        e ← gets (fun h => tcp_get_last_error (os h));
        _ ← report (OnClientFileError k error_msg e);
        reject fd rsp "System error"
    | None =>
        name ← member_ server_name_;
        seqs ← login_seqs (negb (strncmp_eq (last_server_name login) name NameSize)) k header login;
        match seqs with
        | None =>
            _ ← report (OnClientFileError k "Ptcp file corrupt" 0);
            reject fd rsp "System error"
        | Some ((local_ack, local_start, local_end), (remote_ack, remote_start, remote_end)) =>
            let sendbuf := ctl_header (A := LoginRspMsg) local_ack in
            let rsp := set_seqs local_start local_end rsp in
            if negb (CheckAckInQueue remote_ack local_start local_end)
               || negb (CheckAckInQueue local_ack remote_start remote_end) then
              _ ← report (OnSeqNumberMismatch k local_ack local_start local_end remote_ack remote_start remote_end);
              _ ← io (SendLoginRsp fd sendbuf (set_status 1 rsp));
              mret false
            else
              sent ← io (SendLoginRsp fd sendbuf (set_status 0 rsp));
              if negb sent then mret false
              else
                _ ← io (sys (tcp_set_nonblocking fd));
                _ ← conn_op k (fun c d w => r ← TS_Open fd remote_ack now c w;
                                            let '(c, w) := r in Ret (tt, c, d, w));
                grp ← grp_at shm g;
                l ← lift (swap (conns grp) i (live_cnt grp));
                _ ← store_grp shm g (mkGroup (u32 (live_cnt grp + 1)) l);
                _ ← report (OnClientLogon addr k);
                mret true
        end
    end.

(** The loop over the slots of the group. *)
Fixpoint login_slots (now fd : Z) (addr : list Z) (header : MsgHeader) (login : LoginMsg) (rsp : LoginRspMsg)
    (g : Z) (slots : list Z) : M (host W) bool :=
  match slots with
  | [] => reject fd rsp "Max client cnt exceeded"
  | i :: slots =>
      grp ← grp_at (negb (use_shm login =? 0)) g;
      k ← lift (ld (conns grp) i);
      c ← conn_at k;
      first ← lift (ld (remote_name_ c) 0);
      remote_name ← (if first =? 0
                     then lift (strncpy (remote_name_ c) (client_name login) NameSize)
                     else mret (remote_name_ c));
      _ ← store_conn k (set_remote remote_name c);
      if negb (strncmp_eq remote_name (client_name login) NameSize)
      then login_slots now fd addr header login rsp g slots
      else login_slot now fd addr header login rsp g i k
  end.

(** [true] when the connection has taken over the socket. *)
Definition HandleLogin (now fd : Z) (addr : list Z) (header : MsgHeader) (login : LoginMsg) : M (host W) bool :=
  name ← member_ server_name_;
  a ← lift (strncpy (replicate (Z.to_nat NameSize) 0) name NameSize);
  let rsp := mkLoginRsp 0 0 0 2 a (replicate 32 0) in
  first ← lift (ld (client_name login) 0);
  if first =? 0 then reject fd rsp "Invalid client name"
  else
    n ← lift (terminate (client_name login) (NameSize - 1));
    let login := set_client_name n login in
    probed ← (if negb (use_shm login =? 0) then io (VerifyShmProbe this name fd (client_name login))
              else mret true);
    if negb probed then reject fd rsp "SHM probe failed"
    else
      r ← io (call (OnNewConnection addr login rsp));
      let '(grpid, rsp) := r in
      if grpid <? 0 then
        first ← lift (ld (error_msg rsp) 0);
        if first =? 0 then reject fd rsp "Login Reject"
        else _ ← io (SendLoginRsp fd (ctl_header (A := LoginRspMsg) 0) rsp); mret false
      else
        grp ← grp_at (negb (use_shm login =? 0)) grpid;
        login_slots now fd addr header login rsp grpid (range (zlen (conns grp))).

(** ** Polling *)
Definition accept_one (now : Z) : M (host W) unit :=
  avail ← member_ avail_idx_;
  when (negb (avail =? MaxNewConnections))
    (nc ← new_conn_at avail;
     listenfd ← member_ listenfd_;
     r ← io (call (tcp_accept listenfd));
     let '(fd, addr) := r in
     if fd =? INVALID_TCP_SOCKET then store_new_conn avail (mkNewConn (nc_time nc) fd addr)
     else
       _ ← io (sys (tcp_set_nonblocking fd));
       _ ← store_new_conn avail (mkNewConn now fd addr);
       assign (set_avail MaxNewConnections)).

(** Try to read the login of new connection [i]. *)
Definition poll_new (now i : Z) : M (host W) unit :=
  nc ← new_conn_at i;
  if nc_fd nc =? INVALID_TCP_SOCKET then assign (set_avail i)
  else
    r ← io (call (tcp_recv (nc_fd nc) (buf_size (A := LoginMsg))));
    let '(ret, recvbuf) := r in
    err ← gets (fun h => tcp_get_last_error (os h));
    if (ret <? 0) && (err =? TCP_ERR_AGAIN) && (now - nc_time nc <=? NewConnectionTimeout) then mret tt
    else
      taken ← (if ret =? buf_size (A := LoginMsg) then
                 let header := ctl_head recvbuf in
                 if ctl_valid (A := LoginMsg) header
                 then HandleLogin now (nc_fd nc) (nc_addr nc) header (ctl_body (drop 8 recvbuf))
                 else mret false
               else mret false);
      _ ← when (negb taken) (io (sys (tcp_close (nc_fd nc))));
      _ ← store_new_conn i (mkNewConn (nc_time nc) INVALID_TCP_SOCKET (nc_addr nc));
      assign (set_avail i).

(** The loop over the live connections of a group that closes descriptors;
    with shared memory it also polls for heartbeats. *)
Fixpoint sweep (fuel : nat) (now : Z) (shm : bool) (g i : Z) : M (host W) unit :=
  match fuel with
  | O => fun _ => NoFuel
  | S fuel =>
      grp ← grp_at shm g;
      if i <? live_cnt grp then
        k ← lift (ld (conns grp) i);
        _ ← when shm (conn_op k (fun c d w => r ← TcpFront now c w; let '(_, c, w) := r in Ret (tt, c, d, w)));
        closed ← conn_op k (fun c d w => let '(b, c, w) := TS_TryCloseFd c w in Ret (b, c, d, w));
        if closed : bool then
          c ← conn_at k;
          let '(reason, sys_errno) := TS_GetCloseReason c in
          _ ← report (OnClientDisconnected k reason sys_errno);
          let last := u32 (live_cnt grp - 1) in
          l ← lift (swap (conns grp) i last);
          _ ← store_grp shm g (mkGroup last l);
          sweep fuel now shm g i
        else sweep fuel now shm g (i + 1)
      else mret tt
  end.
Definition sweep_grp (now : Z) (shm : bool) (g : Z) : M (host W) unit :=
  grp ← grp_at shm g; sweep (S (Z.to_nat (live_cnt grp))) now shm g 0.

Definition PollCtl (now : Z) : M (host W) unit :=
  _ ← accept_one now;
  _ ← for_each (range MaxNewConnections) (poll_new now);
  _ ← for_each (range MaxShmGrps) (sweep_grp now true);
  for_each (range MaxTcpGrps) (sweep_grp now false).

(** The message [Front] found, if any, goes to the user. *)
Definition deliver (k : Z) (head : option Z) : M (host W) unit :=
  match head with
  | None => mret tt
  | Some p => conn_op k (fun c d w => r ← OnClientMsg p c d w; let '(c, d, w) := r in Ret (tt, c, d, w))
  end.

Definition PollTcp (now grpid : Z) : M (host W) unit :=
  grp ← grp_at false grpid;
  for_each (range (live_cnt grp)) (fun i =>
    grp ← grp_at false grpid;
    k ← lift (ld (conns grp) i);
    head ← conn_op k (fun c d w => r ← TcpFront now c w; let '(p, c, w) := r in Ret (p, c, d, w));
    deliver k head).

Definition PollShm (grpid : Z) : M (host W) unit :=
  grp ← grp_at true grpid;
  for_each (range (live_cnt grp)) (fun i =>
    grp ← grp_at true grpid;
    k ← lift (ld (conns grp) i);
    head ← conn_op k (fun c d w => r ← ShmFront c d; let '(p, d) := r in Ret (p, c, d, w));
    deliver k head).
End Server.

(** ** The example program (src/server.cpp)

    Every client gets group 0. *)
#[export] Instance ServerConf_params : ServerParams := mkServerParams 5 4 1 4 1 140737488347136.

Section Example.
Context {platform : Platform} {conf : Conf}.
(** A user that consumes every message. *)
#[export] Instance consumer : App sim := {
  OnNewConnection addr login rsp w := (0, rsp, w);
  OnClientMsg p c d w := r ← TS_Pop c d; let '(c, d) := r in Ret (c, d, w)
}.
End Example.
