(* ===== verification/Client.v ===== *)
(** * The client (class TcpShmClient of src/tcpshm/tcpshm_client.h)

    A client has one connection.  [Connect] logs in: it remembers the name of the
    last server in a file, and resumes the queue it has for that server or, when
    the server answers with another name, starts a new one. *)

From Stdlib Require Import String.
From stdpp Require Import gmap.
From S2P Require Import Prelude StateRes Endian MsgHeader Conf PTCPConn CString TcpShmConn SysIO Messages System ShmProbe.
Local Open Scope Z_scope.

(** [server_name_] is the file the pointer maps. *)
Record TcpShmClient : Type := mkClient {
  client_name_ : list Z;
  server_name_ : option (list Z);
  ptcp_dir : list Z;
  conn_ : TcpShmConnection
}.

Inductive event : Type :=
| OnSystemError (errno_msg : string) (sys_errno : Z)
| OnLoginReject (login_rsp : LoginRspMsg)
| OnSeqNumberMismatch (local_ack local_start local_end remote_ack remote_start remote_end : Z)
| OnDisconnected (reason : string) (sys_errno : Z).

(** [OnLoginSuccess] returns the time, [OnServerMsg] may use the connection. *)
Class ClientApp (W : Type) : Type := {
  OnLoginSuccess : LoginRspMsg -> W -> Z * W;
  OnServerMsg : Z -> TcpShmConnection -> disk -> W -> res (TcpShmConnection * disk * W)
}.

(** [names] are the files with the name of the last server. *)
Record chost (W : Type) : Type := mkCHost {
  client : TcpShmClient;
  names : gmap (list Z) (list Z);
  cdisk : disk;
  cos : W;
  cevents : list event
}.
Arguments mkCHost {W}.
Arguments client {W}.
Arguments names {W}.
Arguments cdisk {W}.
Arguments cos {W}.
Arguments cevents {W}.

Definition set_name_file (f : option (list Z)) (c : TcpShmClient) : TcpShmClient :=
  mkClient (client_name_ c) f (ptcp_dir c) (conn_ c).
Definition set_conn (t : TcpShmConnection) (c : TcpShmClient) : TcpShmClient :=
  mkClient (client_name_ c) (server_name_ c) (ptcp_dir c) t.

Section State.
Context {W : Type}.
Definition set_cos (w : W) (h : chost W) : chost W := mkCHost (client h) (names h) (cdisk h) w (cevents h).
Definition report (e : event) : M (chost W) unit :=
  modify (fun h => mkCHost (client h) (names h) (cdisk h) (cos h) (cevents h ++ [e])).
Definition assign (f : TcpShmClient -> TcpShmClient) : M (chost W) unit :=
  modify (fun h => mkCHost (f (client h)) (names h) (cdisk h) (cos h) (cevents h)).
Definition member_ {A} (f : TcpShmClient -> A) : M (chost W) A := gets (fun h => f (client h)).
Definition io {A} (m : M W A) : M (chost W) A := zoom cos set_cos m.

(** The array [server_name_] points to. *)
Definition read_name : M (chost W) (list Z) :=
  f ← member_ server_name_;
  ns ← gets names;
  lift (match f with
        | Some f => match ns !! f with Some n => Ret n | None => UB end
        | None => UB
        end).
Definition write_name (n : list Z) : M (chost W) unit :=
  f ← member_ server_name_;
  match f with
  | Some f => modify (fun h => mkCHost (client h) (<[f := n]> (names h)) (cdisk h) (cos h) (cevents h))
  | None => fun _ => UB
  end.

(** An operation of [conn_]. *)
Definition conn_op {A} (f : TcpShmConnection -> disk -> W -> res (A * TcpShmConnection * disk * W)) : M (chost W) A :=
  fun h =>
    r ← f (conn_ (client h)) (cdisk h) (cos h);
    let '(a, c, d, w) := r in
    Ret (a, mkCHost (set_conn c (client h)) (names h) d w (cevents h)).
End State.

Section Client.
Context {platform : Platform} {conf : Conf} {W : Type}.
Context {sockets : Sockets W} {mmap : Mmap W} {system : System W} {probes : ProbeMemory W} {app : ClientApp W}.

Definition TcpShmClient_init (name dir : list Z) : res TcpShmClient :=
  a ← strncpy (replicate (Z.to_nat NameSize) uninit) name (NameSize - 1);
  a ← terminate a (NameSize - 1);
  Ret (mkClient a None dir (TcpShmConnection_init dir a)).

(** [OnSystemError(msg, e); return false] *)
Definition fail (msg : string) (e : Z) : M (chost W) bool := _ ← report (OnSystemError msg e); mret false.
Definition fail_errno (msg : string) : M (chost W) bool :=
  e ← gets (fun h => tcp_get_last_error (cos h)); fail msg e.
(** The same, and [tcp_close(fd)]. *)
Definition fail_close (fd : Z) (msg : string) (e : Z) : M (chost W) bool :=
  _ ← report (OnSystemError msg e); _ ← io (sys (tcp_close fd)); mret false.
Definition fail_close_errno (fd : Z) (msg : string) : M (chost W) bool :=
  e ← gets (fun h => tcp_get_last_error (cos h)); fail_close fd msg e.

(** [strncpy(conn_.GetRemoteName(), server_name_, sizeof(ServerName))] *)
Definition copy_remote_name : M (chost W) unit :=
  n ← read_name;
  c ← member_ conn_;
  r ← lift (strncpy (remote_name_ c) n NameSize);
  assign (set_conn (set_remote r c)).

Definition last_server_name_file (c : TcpShmClient) : list Z :=
  ptcp_dir c ++ lit "/" ++ cstr (client_name_ c) ++ lit ".lastserver".

(** Map the name of the last server; [Some msg] is the error. *)
Definition map_server_name : M (chost W) (option string) :=
  f ← member_ server_name_;
  match f with
  | Some _ => mret None
  | None =>
      name ← member_ last_server_name_file;
      error ← io (call (my_mmap false name));
      match error with
      | Some e => mret (Some e)
      | None =>
          _ ← assign (set_name_file (Some name));
          ns ← gets names;
          _ ← write_name (default (replicate (Z.to_nat NameSize) 0) (ns !! name));
          _ ← copy_remote_name;
          mret None
      end
  end.

(** The response is [inl (header, body)], an error [inr (error_msg, sys_errno)]. *)
Definition RecvLoginRsp (fd : Z) : M W ((MsgHeader * LoginRspMsg) + (string * Z)) :=
  r ← RecvHeader fd;
  match r with
  | inr e => mret (inr ("recv"%string, e))
  | inl header =>
      r ← (if msg_type header =? w_type (A := ShmProbeReqMsg) then
             failed ← HandleShmProbe fd header;
             match failed with
             | Some e => mret (inr e)
             | None =>
                 r ← RecvHeader fd;
                 mret (match r with inl h => inl h | inr e => inr ("recv"%string, e) end)
             end
           else mret (inl header));
      match r with
      | inr e => mret (inr e)
      | inl header =>
          if negb (ctl_valid (A := LoginRspMsg) header) then mret (inr ("Invalid LoginRsp"%string, 0))
          else
            r ← recv_all fd (body_size (A := LoginRspMsg));
            mret (match r with
                  | inl body => inl (header, ctl_body body)
                  | inr e => inr ("recv"%string, e)
                  end)
      end
  end.

Definition TryClose : M (chost W) bool :=
  conn_op (fun c d w => let '(b, c, w) := TS_TryCloseFd c w in Ret (b, c, d, w)).
Definition OpenConnFile (use_shm : bool) : M (chost W) (option string) :=
  conn_op (fun c d w => let '(e, c, d, w) := TS_OpenFile use_shm c d w in Ret (e, c, d, w)).

(** The last part of [Connect]: the server accepted the login. *)
Definition logged_in (fd : Z) (use_shm opened_conn_file : bool) (ack : Z) (login_rsp : LoginRspMsg) : M (chost W) bool :=
  rsp_name ← lift (terminate (server_name login_rsp) (NameSize - 1));
  let login_rsp := mkLoginRsp (server_seq_start login_rsp) (server_seq_end login_rsp) (rsp_user_data login_rsp)
                     (status login_rsp) rsp_name (error_msg login_rsp) in
  name ← read_name;
  let server_name_changed := negb (strncmp_eq name rsp_name NameSize) in
  _ ← when server_name_changed
        (_ ← conn_op (fun c d w => r ← TS_Release c d w; let '(c, d, w) := r in Ret (tt, c, d, w));
         n ← lift (strncpy name rsp_name NameSize);
         _ ← write_name n;
         copy_remote_name);
  error ← (if opened_conn_file && negb server_name_changed then mret None else OpenConnFile use_shm);
  match error with
  | Some e => fail_close_errno fd e
  | None =>
      _ ← when server_name_changed (conn_op (fun c d w => r ← TS_Reset c d; let '(c, d) := r in Ret (tt, c, d, w)));
      _ ← io (sys (tcp_set_nonblocking fd));
      now ← io (call (OnLoginSuccess login_rsp));
      _ ← conn_op (fun c d w => r ← TS_Open fd ack now c w; let '(c, w) := r in Ret (tt, c, d, w));
      mret true
  end.

(** The login is sent and answered. *)
Definition login_exchange (fd : Z) (use_shm opened_conn_file : bool) (header : MsgHeader) (login : LoginMsg) :
  M (chost W) bool :=
  sent ← io (send_all fd (ctl_bytes uninit header login));
  match sent with
  | Some e => fail_close fd "send" e
  | None =>
      r ← io (RecvLoginRsp fd);
      match r with
      | inr (msg, e) => fail_close fd msg e
      | inl (rsp_header, login_rsp) =>
          first ← lift (ld (server_name login_rsp) 0);
          if negb (ctl_valid (A := LoginRspMsg) rsp_header) || (first =? 0)
          then fail_close fd "Invalid LoginRsp" 0
          else if negb (status login_rsp =? 0) then
            _ ← report (if status login_rsp =? 1
                        then OnSeqNumberMismatch (ack_seq header) (client_seq_start login) (client_seq_end login)
                               (ack_seq rsp_header) (server_seq_start login_rsp) (server_seq_end login_rsp)
                        else OnLoginReject login_rsp);
            _ ← io (sys (tcp_close fd));
            mret false
          else logged_in fd use_shm opened_conn_file (ack_seq rsp_header) login_rsp
      end
  end.

(** A socket connected to the server, or the report of what failed. *)
Definition open_socket (server_ipv4 : list Z) (server_port : Z) (next : Z -> M (chost W) bool) : M (chost W) bool :=
  fd ← io (call tcp_socket);
  if fd =? INVALID_TCP_SOCKET then fail_errno "socket"
  else
    r ← io (call (tcp_set_timeout fd "SO_RCVTIMEO" 10000));
    if r <? 0 then fail_close_errno fd "tcp_set_timeout SO_RCVTIMEO"
    else
      r ← io (call (tcp_set_timeout fd "SO_SNDTIMEO" 10000));
      if r <? 0 then fail_close_errno fd "tcp_set_timeout SO_SNDTIMEO"
      else
        r ← (if TcpNoDelay then io (call (tcp_setsockopt fd "TCP_NODELAY")) else mret 0);
        if r <? 0 then fail_close_errno fd "setsockopt TCP_NODELAY"
        else
          r ← io (call (tcp_connect fd server_ipv4 server_port));
          if r <? 0 then fail_close_errno fd "connect" else next fd.

(** The queue of the last server, opened before the login when messages go
    over TCP: its [(ack, start, end)], or the report of the error. *)
Definition login_queue (name : list Z) (use_shm : bool) : M (chost W) (option (Z * Z * Z)) :=
  first ← lift (ld name 0);
  if negb (first =? 0) && negb use_shm then
    error ← OpenConnFile use_shm;
    match error with
    | Some e => _ ← fail_errno e; mret None
    | None =>
        c ← member_ conn_;
        r ← lift (TS_GetSeq c);
        match r with
        | None => _ ← fail "Ptcp file corrupt" 0; mret None
        | Some None => mret (Some (0, 0, 0))
        | Some (Some (a, (s, e))) => mret (Some (a, s, e))
        end
    end
  else mret (Some (0, 0, 0)).

Definition Connect (use_shm : bool) (server_ipv4 : list Z) (server_port login_user_data : Z) : M (chost W) bool :=
  c ← member_ conn_;
  if negb (TS_IsClosed c) then fail "already connected" 0
  else
    _ ← TryClose;
    mapped ← map_server_name;
    match mapped with
    | Some e => fail_errno e
    | None =>
        name ← read_name;
        me ← member_ client_name_;
        client_name ← lift (strncpy (replicate (Z.to_nat NameSize) uninit) me NameSize);
        last_server_name ← lift (strncpy (replicate (Z.to_nat NameSize) uninit) name NameSize);
        seqs ← login_queue name use_shm;
        match seqs with
        | None => mret false
        | Some (ack, seq_start, seq_end) =>
            first ← lift (ld name 0);
            let opened_conn_file := negb (first =? 0) && negb use_shm in
            let login := mkLogin seq_start seq_end login_user_data (if use_shm then 1 else 0)
                           client_name last_server_name in
            open_socket server_ipv4 server_port (fun fd =>
              login_exchange fd use_shm opened_conn_file (ctl_header (A := LoginMsg) ack) login)
        end
    end.

(** ** Polling and stopping *)
Definition deliver (head : option Z) : M (chost W) unit :=
  match head with
  | None => mret tt
  | Some p => conn_op (fun c d w => r ← OnServerMsg p c d w; let '(c, d, w) := r in Ret (tt, c, d, w))
  end.

Definition PollTcp (now : Z) : M (chost W) unit :=
  c ← member_ conn_;
  _ ← when (negb (TS_IsClosed c))
        (head ← conn_op (fun c d w => r ← TcpFront now c w; let '(p, c, w) := r in Ret (p, c, d, w));
         deliver head);
  closed ← TryClose;
  when closed
    (c ← member_ conn_;
     let '(reason, sys_errno) := TS_GetCloseReason c in
     report (OnDisconnected reason sys_errno)).

Definition PollShm : M (chost W) unit :=
  head ← conn_op (fun c d w => r ← ShmFront c d; let '(p, d) := r in Ret (p, c, d, w));
  deliver head.

Definition Stop : M (chost W) unit :=
  _ ← assign (set_name_file None);
  conn_op (fun c d w => r ← TS_Release c d w; let '(c, d, w) := r in Ret (tt, c, d, w)).
End Client.
