(* ===== verification/ServerShape.v ===== *)
(** * The groups of the server, and who is in which slot

    The part of the server its invariant is about: the names of the pooled
    connections, the groups and the new connections.  Each operation of the
    server changes this shape in one of the ways below, and each of them keeps
    the invariant. *)

From S2P Require Import Prelude Conf CString TcpShmConn Server.
From stdpp Require Import list_basics list_relations list sets.
Local Open Scope Z_scope.

Record shape : Type := mkShape {
  sh_names : list (list Z);
  sh_shm : list ConnectionGroup;
  sh_tcp : list ConnectionGroup;
  sh_new : list NewConn;
  sh_avail : Z;
  sh_me : list Z * list Z  (* server_name_, ptcp_dir_ *)
}.

Definition sh_grps (shm : bool) (sh : shape) : list ConnectionGroup := if shm then sh_shm sh else sh_tcp sh.
Definition sh_set_grps (shm : bool) (l : list ConnectionGroup) (sh : shape) : shape :=
  if shm then mkShape (sh_names sh) l (sh_tcp sh) (sh_new sh) (sh_avail sh) (sh_me sh)
  else mkShape (sh_names sh) (sh_shm sh) l (sh_new sh) (sh_avail sh) (sh_me sh).
Definition sh_set_grp (shm : bool) (g : Z) (x : ConnectionGroup) (sh : shape) : shape :=
  sh_set_grps shm (<[Z.to_nat g := x]> (sh_grps shm sh)) sh.
Definition sh_set_name (k : Z) (n : list Z) (sh : shape) : shape :=
  mkShape (<[Z.to_nat k := n]> (sh_names sh)) (sh_shm sh) (sh_tcp sh) (sh_new sh) (sh_avail sh) (sh_me sh).

Definition shape_of (s : TcpShmServer) : shape :=
  mkShape ((fun c => cstr (remote_name_ c)) <$> conn_pool_ s) (shm_grps_ s) (tcp_grps_ s) (new_conns_ s) (avail_idx_ s)
    (server_name_ s, ptcp_dir s).

(** The name of connection [k]. *)
Definition nm (names : list (list Z)) (k : Z) : list Z := default [] (names !! Z.to_nat k).

(** Slots with a name come first, no two with the same; live slots have one. *)
Definition grp_ok (names : list (list Z)) (g : ConnectionGroup) : Prop :=
  exists named free, conns g = named ++ free
    /\ 0 <= live_cnt g <= zlen named /\ zlen (conns g) < 2 ^ 32
    /\ Forall (fun k => nm names k <> []) named /\ Forall (fun k => nm names k = []) free
    /\ NoDup (nm names <$> named).

Definition all_grps (sh : shape) : list ConnectionGroup := sh_shm sh ++ sh_tcp sh.
Definition slots_of (l : list ConnectionGroup) : list Z := concat (conns <$> l).

(** Membership in lists built with [++] and [::]. *)
Ltac mem := repeat (rewrite elem_of_app || rewrite elem_of_cons); repeat match goal with H : _ ∈ _ ++ _ |- _ => rewrite elem_of_app in H | H : _ ∈ _ :: _ |- _ => rewrite elem_of_cons in H end; tauto.

Section Shape.
Context {params : ServerParams}.

(** Every connection of the pool is in one slot. *)
Record shape_ok (sh : shape) : Prop := {
  ok_slots : slots_of (all_grps sh) ≡ₚ range (zlen (sh_names sh));
  ok_grps : Forall (grp_ok (sh_names sh)) (all_grps sh);
  ok_new : zlen (sh_new sh) = MaxNewConnections;
  ok_avail : 0 <= sh_avail sh <= MaxNewConnections
}.

(** ** Lists *)
(** Membership in lists built by [++] and [::]. *)

Lemma range_NoDup n : NoDup (range n).
Proof using Type. unfold range. apply NoDup_fmap_2; [intros a b; lia | apply NoDup_seq]. Qed.
Lemma elem_range n k : k ∈ range n <-> 0 <= k < n.
Proof using Type.
  unfold range. rewrite list_elem_of_fmap. setoid_rewrite elem_of_seq. split.
  - intros (i & -> & Hi). lia.
  - intros H. exists (Z.to_nat k). lia.
Qed.

Lemma swap_Ret (l : list Z) i j l' : swap l i j = Ret l' ->
  exists a b, l !! Z.to_nat i = Some a /\ l !! Z.to_nat j = Some b
    /\ l' = <[Z.to_nat j := a]> (<[Z.to_nat i := b]> l).
Proof using Type.
  intros E. unfold swap in E.
  apply bind_Ret in E as (a & Ea & E). apply bind_Ret in E as (b & Eb & E).
  apply bind_Ret in E as (l1 & E1 & E2).
  apply ld_Ret in Ea as [_ Ea]. apply ld_Ret in Eb as [_ Eb].
  apply st_Ret in E1 as [_ ->]. apply st_Ret in E2 as [_ ->]. exists a, b. auto.
Qed.

(** Swapping two of the first [n] elements permutes them and leaves the rest. *)
Lemma swap_app (l1 l2 : list Z) i j l : 0 <= i < zlen l1 -> 0 <= j < zlen l1 ->
  swap (l1 ++ l2) i j = Ret l -> exists l1', l = l1' ++ l2 /\ l1' ≡ₚ l1.
Proof using Type.
  intros Hi Hj E. apply swap_Ret in E as (a & b & Ea & Eb & ->).
  rewrite lookup_app_l in Ea, Eb by lia.
  rewrite !insert_app_l by (rewrite ?length_insert; lia).
  eexists. split; [reflexivity|].
  destruct (decide (Z.to_nat i = Z.to_nat j)) as [Eij|Hne].
  - rewrite Eij, list_insert_insert_eq. rewrite Eij in Ea. rewrite list_insert_id by exact Ea. reflexivity.
  - apply Permutation_inj. split; [rewrite !length_insert; reflexivity|].
    exists (fun n => if decide (n = Z.to_nat i) then Z.to_nat j else if decide (n = Z.to_nat j) then Z.to_nat i else n).
    split.
    + intros x y. repeat case_decide; congruence.
    + intros x. repeat case_decide; subst.
      * rewrite list_lookup_insert_ne by congruence. rewrite list_lookup_insert_eq by lia. congruence.
      * rewrite list_lookup_insert_eq by (rewrite length_insert; lia). congruence.
      * rewrite !list_lookup_insert_ne by congruence. reflexivity.
Qed.

Lemma swap_total (l : list Z) i j : 0 <= i < zlen l -> 0 <= j < zlen l -> exists l', swap l i j = Ret l'.
Proof using Type.
  intros Hi Hj. unfold swap. destruct (ld_inb l i Hi) as [a ->], (ld_inb l j Hj) as [b ->]. cbn [mbind res_bind].
  rewrite (proj2 (st_Ret l i b _) (conj Hi eq_refl)). cbn [mbind res_bind].
  eexists. apply st_Ret. rewrite length_insert. auto.
Qed.

(** ** One group *)
Lemma nm_insert names k n k' : (Z.to_nat k < length names)%nat -> 0 <= k -> 0 <= k' ->
  nm (<[Z.to_nat k := n]> names) k' = if decide (k' = k) then n else nm names k'.
Proof using Type.
  intros Hl Hk Hk'. unfold nm. case_decide as E.
  - subst. rewrite list_lookup_insert_eq by exact Hl. reflexivity.
  - rewrite list_lookup_insert_ne by lia. reflexivity.
Qed.

Lemma grp_ok_ext names names' g :
  (forall k, k ∈ conns g -> nm names' k = nm names k) -> grp_ok names g -> grp_ok names' g.
Proof using Type.
  intros H (named & free & E & Hl & Hc & Hn & Hf & Hd). rewrite E in H. exists named, free.
  split; [exact E|]. split; [exact Hl|]. split; [exact Hc|].
  split; [|split].
  - apply Forall_forall. intros k Hk. rewrite H by mem. rewrite Forall_forall in Hn. auto.
  - apply Forall_forall. intros k Hk. rewrite H by mem. rewrite Forall_forall in Hf. auto.
  - replace (nm names' <$> named) with (nm names <$> named); [exact Hd|].
    apply list_fmap_ext. intros j k Hj. symmetry. apply H. apply list_elem_of_lookup_2 in Hj. mem.
Qed.

(** Naming the first slot without a name, with a name no slot has. *)
Lemma grp_name names x i k n :
  grp_ok names x -> NoDup (conns x) -> conns x !! i = Some k -> 0 <= k < zlen names ->
  Forall (fun k => 0 <= k) (conns x) -> nm names k = [] -> n <> [] ->
  (forall j k', (j < i)%nat -> conns x !! j = Some k' -> nm names k' <> [] /\ nm names k' <> n) ->
  grp_ok (<[Z.to_nat k := n]> names) x.
Proof using Type.
  intros (named & free & E & Hl & Hc & Hn & Hf & Hd) Hnd Hi Hk Hpos Hk0 Hne Hprev.
  rewrite Forall_forall in Hn, Hf, Hpos.
  assert (Hge : (length named <= i)%nat).
  { destruct (decide (i < length named)%nat) as [Hlt|]; [|lia]. exfalso.
    rewrite E, lookup_app_l in Hi by exact Hlt. apply (Hn k); [exact (list_elem_of_lookup_2 _ _ _ Hi) | exact Hk0]. }
  destruct free as [|k0 free].
  { apply lookup_lt_Some in Hi. rewrite E, app_nil_r in Hi. lia. }
  assert (Ei : i = length named).
  { destruct (decide (length named < i)%nat) as [Hlt|]; [|lia]. exfalso.
    destruct (Hprev (length named) k0 Hlt) as [H _]; [rewrite E; apply list_lookup_middle; reflexivity|].
    apply H. apply Hf. mem. }
  subst i. rewrite E, list_lookup_middle in Hi by reflexivity. injection Hi as ->.
  rewrite E in Hnd. apply NoDup_app in Hnd as (_ & Hdis & Hnd2). apply NoDup_cons in Hnd2 as [Hk2 _].
  assert (Hnk : forall k', k' ∈ named ++ k :: free -> k' <> k -> nm (<[Z.to_nat k := n]> names) k' = nm names k').
  { intros k' Hin Hne'. rewrite nm_insert; try lia; [|apply Hpos; rewrite E; exact Hin].
    rewrite decide_False by exact Hne'. reflexivity. }
  assert (Hkk : nm (<[Z.to_nat k := n]> names) k = n)
    by (rewrite nm_insert, decide_True by (reflexivity || lia); reflexivity).
  assert (Hnamed : forall k', k' ∈ named -> k' <> k) by (intros k' Hin ->; apply (Hdis k Hin); mem).
  assert (Emap : nm (<[Z.to_nat k := n]> names) <$> named = nm names <$> named).
  { apply list_fmap_ext. intros j k' Hj. apply list_elem_of_lookup_2 in Hj. apply Hnk; [mem | auto]. }
  exists (named ++ [k]), free. rewrite <- app_assoc. split; [exact E|].
  split; [rewrite length_app; lia|]. split; [exact Hc|]. split; [|split].
  - apply Forall_app. split; [|constructor; [rewrite Hkk; exact Hne | constructor]].
    apply Forall_forall. intros k' Hin. rewrite Hnk; [auto | mem | auto].
  - apply Forall_forall. intros k' Hin. rewrite Hnk; [apply Hf; mem | mem | congruence || (intros ->; auto)].
  - rewrite fmap_app, Emap. cbn [fmap list_fmap]. rewrite Hkk. apply NoDup_app. split; [exact Hd|].
    split; [|apply NoDup_singleton]. intros m Hm Hm'. apply list_elem_of_singleton in Hm' as ->.
    apply list_elem_of_fmap in Hm as (k' & -> & Hin). apply list_elem_of_lookup_1 in Hin as [j Hj].
    destruct (Hprev j k') as [_ H]; [exact (lookup_lt_Some _ _ _ Hj) | rewrite E, lookup_app_l; [exact Hj | exact (lookup_lt_Some _ _ _ Hj)] |].
    apply H. reflexivity.
Qed.

(** Slots of the live part change places, or one more slot with a name is live. *)
Lemma grp_swap names x i j live l :
  grp_ok names x -> swap (conns x) i j = Ret l ->
  (forall named free, conns x = named ++ free -> Forall (fun k => nm names k <> []) named ->
     Forall (fun k => nm names k = []) free -> live_cnt x <= zlen named ->
     0 <= i < zlen named /\ 0 <= j < zlen named /\ 0 <= live <= zlen named) ->
  grp_ok names (mkGroup live l) /\ l ≡ₚ conns x.
Proof using Type.
  intros (named & free & E & Hl & Hc & Hn & Hf & Hd) Es H.
  destruct (H named free E Hn Hf ltac:(lia)) as (Hi & Hj & Hlive).
  rewrite E in Es. apply swap_app in Es as (named' & -> & HP); [|lia|lia].
  pose proof (Permutation_length HP) as Hlen.
  split; [|rewrite E, HP; reflexivity].
  exists named', free. cbn [conns live_cnt]. split; [reflexivity|]. split; [lia|].
  split; [rewrite E, length_app in Hc; rewrite length_app; lia|]. split; [rewrite HP; exact Hn|]. split; [exact Hf|].
  rewrite HP. exact Hd.
Qed.

Lemma grp_promote names x i k l :
  grp_ok names x -> live_cnt x <= i -> conns x !! Z.to_nat i = Some k -> nm names k <> [] ->
  swap (conns x) i (live_cnt x) = Ret l ->
  grp_ok names (mkGroup (u32 (live_cnt x + 1)) l) /\ l ≡ₚ conns x.
Proof using Type.
  intros Hg Hi Hk Hnk Es. pose proof Hg as (named0 & free0 & E0 & Hl0 & Hc0 & _).
  apply (grp_swap names x i (live_cnt x) _ l Hg Es). intros named free E Hn Hf Hl.
  assert (Hlt : i < zlen named).
  { destruct (Z.ltb_spec i (zlen named)) as [|Hge]; [assumption|]. exfalso.
    rewrite E, lookup_app_r in Hk by lia. rewrite Forall_forall in Hf. apply Hnk, Hf.
    exact (list_elem_of_lookup_2 _ _ _ Hk). }
  rewrite E, length_app in Hc0. rewrite u32_id by (unfold in_u32; lia). lia.
Qed.

Lemma grp_demote names x i l :
  grp_ok names x -> 0 <= i < live_cnt x -> swap (conns x) i (u32 (live_cnt x - 1)) = Ret l ->
  grp_ok names (mkGroup (u32 (live_cnt x - 1)) l) /\ l ≡ₚ conns x.
Proof using Type.
  intros Hg Hi Es. pose proof Hg as (named0 & free0 & E0 & Hl0 & Hc0 & _).
  apply (grp_swap names x i (u32 (live_cnt x - 1)) _ l Hg Es). intros named free E Hn Hf Hl.
  rewrite E0, length_app in Hc0. rewrite u32_id by (unfold in_u32; lia). lia.
Qed.

Lemma grp_release names x : zlen (conns x) < 2 ^ 32 ->
  Forall (fun k => nm names k = []) (conns x) -> grp_ok names (mkGroup 0 (conns x)).
Proof using Type.
  intros Hc H. exists [], (conns x). cbn. repeat split; try lia; [constructor | exact H | constructor].
Qed.

(** ** All of them *)
Definition core_ok (names : list (list Z)) (L : list ConnectionGroup) : Prop :=
  slots_of L ≡ₚ range (zlen names) /\ Forall (grp_ok names) L.

Lemma slots_of_cons L1 x L2 : slots_of (L1 ++ x :: L2) = slots_of L1 ++ conns x ++ slots_of L2.
Proof using Type. unfold slots_of. rewrite fmap_app, concat_app. reflexivity. Qed.

Lemma elem_slots L k : k ∈ slots_of L <-> exists y, y ∈ L /\ k ∈ conns y.
Proof using Type.
  unfold slots_of. induction L as [|x L IH]; cbn.
  - split; [intros H; inversion H | intros (y & H & _); inversion H].
  - rewrite elem_of_app, IH. setoid_rewrite elem_of_cons. split.
    + intros [H|(y & H1 & H2)]; eauto.
    + intros (y & [->|H1] & H2); eauto.
Qed.

Lemma core_NoDup names L1 x L2 : core_ok names (L1 ++ x :: L2) ->
  NoDup (conns x) /\ (forall k, k ∈ conns x -> 0 <= k < zlen names)
  /\ forall k y, k ∈ conns x -> y ∈ L1 ++ L2 -> k ∉ conns y.
Proof using Type.
  intros [HP _]. rewrite slots_of_cons in HP.
  assert (HN : NoDup (slots_of L1 ++ conns x ++ slots_of L2)) by (rewrite HP; apply range_NoDup).
  apply NoDup_app in HN as (_ & H1 & HN). apply NoDup_app in HN as (Hx & H2 & _).
  split; [exact Hx|]. split.
  - intros k Hk. apply elem_range. rewrite <- HP. mem.
  - intros k y Hk Hy Hky. apply elem_of_app in Hy as [Hy|Hy].
    + apply (H1 k); [apply elem_slots; eauto | mem].
    + apply (H2 k Hk). apply elem_slots. eauto.
Qed.

Lemma core_update names names' L1 x x' L2 :
  core_ok names (L1 ++ x :: L2) -> zlen names' = zlen names -> conns x' ≡ₚ conns x ->
  (forall k, 0 <= k -> k ∉ conns x -> nm names' k = nm names k) -> grp_ok names' x' ->
  core_ok names' (L1 ++ x' :: L2).
Proof using Type.
  intros Hcore Hl HP Hnm Hx'. pose proof (core_NoDup _ _ _ _ Hcore) as (_ & _ & Hdis).
  destruct Hcore as [Hs HF]. split.
  - rewrite slots_of_cons, HP, Hl, <- Hs, slots_of_cons. reflexivity.
  - apply Forall_app in HF as [HF1 HF]. apply Forall_cons in HF as [_ HF2].
    assert (Hk : forall y k, y ∈ L1 ++ L2 -> k ∈ conns y -> nm names' k = nm names k).
    { intros y k Hy Hky. apply Hnm; [|intros Hkx; exact (Hdis k y Hkx Hy Hky)].
      assert (Hin : k ∈ slots_of (L1 ++ x :: L2)) by (apply elem_slots; exists y; split; [mem | exact Hky]).
      rewrite Hs in Hin. apply elem_range in Hin. lia. }
    apply Forall_app. split; [|constructor; [exact Hx'|]].
    + rewrite Forall_forall in *. intros y Hy. apply (grp_ok_ext names); [|auto]. intros k. apply Hk. mem.
    + rewrite Forall_forall in *. intros y Hy. apply (grp_ok_ext names); [|auto]. intros k. apply Hk. mem.
Qed.

(** *** The group with index [g] *)
Lemma grps_split shm sh g x : sh_grps shm sh !! g = Some x ->
  exists L1 L2, all_grps sh = L1 ++ x :: L2
    /\ forall x', all_grps (sh_set_grp shm (Z.of_nat g) x' sh) = L1 ++ x' :: L2.
Proof using Type.
  intros E. pose proof (lookup_lt_Some _ _ _ E) as Hl. pose proof (take_drop_middle _ _ _ E) as Es.
  assert (Ei : forall x', <[g := x']> (sh_grps shm sh) = take g (sh_grps shm sh) ++ x' :: drop (S g) (sh_grps shm sh))
    by (intros; apply insert_take_drop; exact Hl).
  unfold all_grps, sh_set_grp. rewrite Nat2Z.id. destruct shm; cbn [sh_grps sh_set_grps sh_shm sh_tcp] in *.
  - exists (take g (sh_shm sh)), (drop (S g) (sh_shm sh) ++ sh_tcp sh).
    rewrite app_comm_cons, app_assoc, Es. split; [reflexivity|]. intros x'.
    rewrite Ei, <- app_assoc. reflexivity.
  - exists (sh_shm sh ++ take g (sh_tcp sh)), (drop (S g) (sh_tcp sh)).
    rewrite <- app_assoc, Es. split; [reflexivity|]. intros x'.
    rewrite Ei, <- app_assoc. reflexivity.
Qed.

Lemma shape_ok_core sh : shape_ok sh -> core_ok (sh_names sh) (all_grps sh).
Proof using Type. intros [H1 H2 _ _]. split; assumption. Qed.

(** What is known of a slot. *)
Lemma slot_facts shm sh g x i k : shape_ok sh -> sh_grps shm sh !! g = Some x -> conns x !! i = Some k ->
  0 <= k < zlen (sh_names sh) /\ NoDup (conns x) /\ Forall (fun k => 0 <= k < zlen (sh_names sh)) (conns x)
  /\ grp_ok (sh_names sh) x.
Proof using Type.
  intros Hok Hg Hi. pose proof (shape_ok_core sh Hok) as Hc.
  destruct (grps_split _ _ _ _ Hg) as (L1 & L2 & E & _). rewrite E in Hc.
  destruct (core_NoDup _ _ _ _ Hc) as (Hnd & Hr & _).
  split; [apply Hr; exact (list_elem_of_lookup_2 _ _ _ Hi)|]. split; [exact Hnd|].
  split; [apply Forall_forall; exact Hr|].
  destruct Hc as [_ HF]. apply Forall_app in HF as [_ HF]. apply Forall_cons in HF as [HF _]. exact HF.
Qed.

(** A group changed by a permutation of its slots, and the names of its
    connections. *)
Lemma shape_update shm sh g x x' names' : shape_ok sh -> sh_grps shm sh !! g = Some x ->
  zlen names' = zlen (sh_names sh) -> conns x' ≡ₚ conns x ->
  (forall k, 0 <= k -> k ∉ conns x -> nm names' k = nm (sh_names sh) k) -> grp_ok names' x' ->
  shape_ok (sh_set_grp shm (Z.of_nat g) x' (mkShape names' (sh_shm sh) (sh_tcp sh) (sh_new sh) (sh_avail sh) (sh_me sh))).
Proof using Type.
  intros Hok Hg Hl HP Hnm Hx'. pose proof (shape_ok_core sh Hok) as Hc. destruct Hok as [_ _ Hn Ha].
  set (sh1 := mkShape names' _ _ _ _ _).
  assert (Hg1 : sh_grps shm sh1 !! g = Some x) by (destruct shm; exact Hg).
  destruct (grps_split _ _ _ _ Hg1) as (L1 & L2 & E & E'). pose proof (E' x') as E1.
  change (all_grps sh1) with (all_grps sh) in E. rewrite E in Hc.
  destruct (core_update _ names' _ _ x' _ Hc Hl HP Hnm Hx') as [H1 H2]. rewrite <- E1 in H1, H2.
  split; destruct shm; cbn in *; assumption.
Qed.

Lemma shape_regroup shm sh g x x' : shape_ok sh -> sh_grps shm sh !! g = Some x ->
  conns x' ≡ₚ conns x -> grp_ok (sh_names sh) x' -> shape_ok (sh_set_grp shm (Z.of_nat g) x' sh).
Proof using Type.
  intros Hok Hg HP Hx'. pose proof (shape_update shm sh g x x' (sh_names sh) Hok Hg eq_refl HP (fun _ _ _ => eq_refl) Hx') as H.
  destruct sh. exact H.
Qed.

Lemma sh_set_grp_id shm sh g x : sh_grps shm sh !! g = Some x -> sh_set_grp shm (Z.of_nat g) x sh = sh.
Proof using Type.
  intros H. unfold sh_set_grp. rewrite Nat2Z.id, list_insert_id by exact H. destruct sh, shm; reflexivity.
Qed.

Lemma shape_rename shm sh g x names' : shape_ok sh -> sh_grps shm sh !! g = Some x ->
  zlen names' = zlen (sh_names sh) ->
  (forall k, 0 <= k -> k ∉ conns x -> nm names' k = nm (sh_names sh) k) -> grp_ok names' x ->
  shape_ok (mkShape names' (sh_shm sh) (sh_tcp sh) (sh_new sh) (sh_avail sh) (sh_me sh)).
Proof using Type.
  intros Hok Hg Hl Hnm Hx. pose proof (shape_update shm sh g x x names' Hok Hg Hl (Permutation_refl _) Hnm Hx) as H.
  rewrite sh_set_grp_id in H; [exact H|]. destruct shm; exact Hg.
Qed.

Lemma shape_name shm sh g x i k n : shape_ok sh -> sh_grps shm sh !! g = Some x -> conns x !! i = Some k ->
  nm (sh_names sh) k = [] -> n <> [] ->
  (forall j k', (j < i)%nat -> conns x !! j = Some k' -> nm (sh_names sh) k' <> [] /\ nm (sh_names sh) k' <> n) ->
  shape_ok (sh_set_name k n sh).
Proof using Type.
  intros Hok Hg Hi Hk Hn Hprev. destruct (slot_facts _ _ _ _ _ _ Hok Hg Hi) as (Hr & Hnd & Hall & Hx).
  apply (shape_rename shm sh g x); auto.
  - rewrite length_insert. reflexivity.
  - intros k' Hk' Hnin. rewrite nm_insert by lia. apply decide_False. intros ->.
    apply Hnin. exact (list_elem_of_lookup_2 _ _ _ Hi).
  - apply (grp_name _ _ i k n); auto. eapply Forall_impl; [exact Hall | cbn; lia].
Qed.

Lemma shape_new sh l a : shape_ok sh -> zlen l = MaxNewConnections -> 0 <= a <= MaxNewConnections ->
  shape_ok (mkShape (sh_names sh) (sh_shm sh) (sh_tcp sh) l a (sh_me sh)).
Proof using Type. intros [H1 H2 _ _] Hl Ha. split; assumption. Qed.
End Shape.
