(* ===== verification/ServerProps.v ===== *)
(** * The invariant of the server

    In every state the server reaches, the connections of its pool are in one
    slot each, a group has at most as many live connections as slots, and two
    slots of a group never have the same client name, whatever clients, the
    network, the disk and the callbacks do. *)

From Stdlib Require Import String.
From S2P Require Import Prelude StateRes Endian MsgHeader Conf PTCPConn CString TcpShmConn SysIO Messages.
From S2P Require Import System ShmProbe Server ServerShape.
From stdpp Require Import list_basics list_relations list.
Local Open Scope Z_scope.

(** ** Operations of a connection keep its name *)
Section Names.
Context {platform : Platform} {conf : Conf} {W : Type} {sockets : Sockets W} {mmap : Mmap W}.

(** Who the two ends are, and where the files are. *)
Definition ident (c : TcpShmConnection) : list Z * list Z * list Z := (remote_name_ c, local_name_ c, ptcp_dir_ c).

(** A connection operation that returns leaves them alone. *)
Definition keeps_name {A} (f : TcpShmConnection -> disk -> W -> res (A * TcpShmConnection * disk * W)) : Prop :=
  forall c d w a c' d' w', f c d w = Ret (a, c', d', w') -> ident c' = ident c.

Lemma OpenFile_name b c d w e c' d' w' : TS_OpenFile b c d w = (e, c', d', w') -> ident c' = ident c.
Proof using Type.
  unfold TS_OpenFile. destruct b.
  - destruct (map_ring (shm_sendq_ c) _ d w) as [[[s|e1] d1] w1]; [|intros [= _ <- _ _]; reflexivity].
    destruct (map_ring _ _ d1 w1) as [[[r|e2] d2] w2]; intros [= _ <- _ _]; reflexivity.
  - destruct (q_ (ptcp_conn_ c)); [intros [= _ <- _ _]; reflexivity|].
    destruct (my_mmap _ _ w) as [[e1|] w1]; intros [= _ <- _ _]; reflexivity.
Qed.

Lemma Reset_name c d c' d' : TS_Reset c d = Ret (c', d') -> ident c' = ident c.
Proof using Type.
  unfold TS_Reset. destruct (shm_sendq_ c).
  - destruct (shm_recvq_ c); [intros [= <- _]; reflexivity | discriminate].
  - intros H. apply bind_Ret in H as (t & _ & [= <- _]). reflexivity.
Qed.

Lemma Open_name fd a now c w c' w' : TS_Open fd a now c w = Ret (c', w') -> ident c' = ident c.
Proof using Type. intros H. apply bind_Ret in H as ([t w1] & _ & [= <- _]). reflexivity. Qed.

Lemma TcpFront_name now c w p c' w' : TcpFront now c w = Ret (p, c', w') -> ident c' = ident c.
Proof using Type.
  intros H. apply bind_Ret in H as ([t w1] & _ & H). apply bind_Ret in H as ([[p1 t1] w2] & _ & [= _ <- _]).
  reflexivity.
Qed.

Lemma TryCloseFd_name c w b c' w' : TS_TryCloseFd c w = (b, c', w') -> ident c' = ident c.
Proof using Type. unfold TS_TryCloseFd. destruct (TryCloseFd _ w) as [[b1 t] w1]. intros [= _ <- _]. reflexivity. Qed.
End Names.

(** The user of a connection does not rename it. *)
Class AppLaws (W : Type) {app : App W} : Prop := {
  OnClientMsg_name p c d w c' d' w' : OnClientMsg p c d w = Ret (c', d', w') -> ident c' = ident c;
  OnNewConnection_error addr login rsp w g rsp' w' :
    OnNewConnection addr login rsp w = (g, rsp', w') -> zlen (error_msg rsp') = zlen (error_msg rsp)
}.

(** ** What each primitive does to the shape *)
Section Primitives.
Context {platform : Platform} {conf : Conf} {params : ServerParams} {W : Type}.
Context {sockets : Sockets W} {mmap : Mmap W} {system : System W} {probes : ProbeMemory W} {app : App W}.
Implicit Types (sh : shape) (h : host W).

(** The arrays of names have the declared length; every connection of the pool
    is one of this server. *)
Definition conn_lens sh (c : TcpShmConnection) : Prop :=
  zlen (remote_name_ c) = NameSize /\ local_name_ c = fst (sh_me sh) /\ ptcp_dir_ c = snd (sh_me sh).
Definition shaped sh h : Prop :=
  shape_of (server h) = sh /\ Forall (conn_lens sh) (conn_pool_ (server h)) /\ zlen (fst (sh_me sh)) = NameSize.
Definition keeps {A} sh (m : M (host W) A) : Prop := hoare (shaped sh) m (fun _ => shaped sh).

Lemma hoare_pure {S A} (P : S -> Prop) (phi : Prop) (m : M S A) Q :
  (phi -> hoare P m Q) -> hoare (fun s => P s /\ phi) m Q.
Proof using Type. intros H s a s' [HP Hphi] E. exact (H Hphi s a s' HP E). Qed.

Lemma keeps_report sh e : keeps sh (report e).
Proof using Type. apply hoare_modify. intros h H. exact H. Qed.
Lemma keeps_io {A} sh (m : M W A) : keeps sh (io m).
Proof using Type. apply hoare_zoom. intros h a t H _. exact H. Qed.
Lemma keeps_gets {A} sh (f : host W -> A) : keeps sh (gets f).
Proof using Type. apply hoare_gets. auto. Qed.
Lemma keeps_ret {A} sh (a : A) : keeps sh (mret a).
Proof using Type. apply hoare_ret. auto. Qed.
Lemma keeps_lift {A} sh (r : res A) : hoare (shaped sh) (lift r) (fun a h => shaped sh h /\ r = Ret a).
Proof using Type. apply hoare_lift. auto. Qed.
Lemma keeps_bind {A B} sh (m : M (host W) A) (f : A -> M (host W) B) Q :
  keeps sh m -> (forall a, hoare (shaped sh) (f a) Q) -> hoare (shaped sh) (m ≫= f) Q.
Proof using Type. intros H1 H2. exact (hoare_bind _ _ (fun _ => shaped sh) _ _ H1 H2). Qed.
Lemma lift_pure {A B} sh (r : res A) (f : A -> M (host W) B) Q :
  (forall a, r = Ret a -> hoare (shaped sh) (f a) Q) -> hoare (shaped sh) (lift r ≫= f) Q.
Proof using Type.
  intros H. apply (hoare_bind _ _ (fun a h => shaped sh h /\ r = Ret a)); [apply keeps_lift|].
  intros a. apply hoare_pure. apply H.
Qed.
Lemma server_name_pure {B} sh (f : list Z -> M (host W) B) Q :
  (forall a, zlen a = NameSize -> hoare (shaped sh) (f a) Q) -> hoare (shaped sh) (member_ server_name_ ≫= f) Q.
Proof using Type.
  intros H. apply (hoare_bind _ _ (fun a h => shaped sh h /\ zlen a = NameSize)).
  - apply hoare_gets. intros h Hi. split; [exact Hi | destruct Hi as (<- & _ & Hn); exact Hn].
  - intros a. apply hoare_pure. apply H.
Qed.

Lemma conn_at_pure {B} sh k (f : TcpShmConnection -> M (host W) B) Q :
  (forall c, 0 <= k -> sh_names sh !! Z.to_nat k = Some (cstr (remote_name_ c)) -> conn_lens sh c ->
     hoare (shaped sh) (f c) Q) ->
  hoare (shaped sh) (conn_at k ≫= f) Q.
Proof using Type.
  intros H h b h' Hi E. apply M_bind_Ret in E as (c & h1 & E1 & E2).
  apply M_bind_Ret in E1 as (p & h2 & [= <- <-] & E1). apply bind_Ret in E1 as (c' & Ec & [= <- <-]).
  apply ld_Ret in Ec as [Hk Ec]. refine (H c' Hk _ _ h b h' Hi E2); destruct Hi as [<- [HF _]].
  - cbn. rewrite list_lookup_fmap, Ec. reflexivity.
  - exact (Forall_lookup_1 _ _ _ _ HF Ec).
Qed.

Lemma store_conn_is sh k c : conn_lens sh c ->
  hoare (shaped sh) (store_conn k c) (fun _ => shaped (sh_set_name k (cstr (remote_name_ c)) sh)).
Proof using Type.
  intros Hc h b h' [<- [HF Hs]] E. apply M_bind_Ret in E as (p & h2 & [= <- <-] & E).
  apply M_bind_Ret in E as (p' & h3 & E1 & [= <- <-]). apply bind_Ret in E1 as (p2 & E1 & [= <- <-]).
  apply st_Ret in E1 as [Hk ->]. split; [|split].
  - unfold shape_of, sh_set_name. cbn. rewrite list_fmap_insert. reflexivity.
  - cbn. apply Forall_insert; assumption.
  - exact Hs.
Qed.

Lemma store_same sh k c : conn_lens sh c ->
  sh_names sh !! Z.to_nat k = Some (cstr (remote_name_ c)) -> keeps sh (store_conn k c).
Proof using Type.
  intros Hc Hn. eapply hoare_weaken; [exact (store_conn_is sh k c Hc) | auto|].
  intros u h H. unfold sh_set_name in H. rewrite list_insert_id in H by exact Hn. destruct sh. exact H.
Qed.

Lemma keeps_conn_op {A} sh k (f : TcpShmConnection -> disk -> W -> res (A * TcpShmConnection * disk * W)) :
  keeps_name f -> keeps sh (conn_op k f).
Proof using Type.
  intros Hf. apply conn_at_pure. intros c Hk Hn Hl.
  apply (hoare_bind _ _ (fun r h => shaped sh h /\ ident (snd r) = ident c)).
  - intros h [a c'] h' Hi E. apply bind_Ret in E as ([[[a1 c1] d1] w1] & E & [= <- <- <-]).
    split; [exact Hi | exact (Hf _ _ _ _ _ _ _ E)].
  - intros [a c']. apply hoare_pure. cbn [snd]. intros En. apply keeps_bind; [|intros []; apply keeps_ret].
    injection En as E1 E2 E3. unfold conn_lens in *. apply store_same; [|rewrite E1; assumption].
    unfold conn_lens. rewrite E1, E2, E3. assumption.
Qed.

Lemma grp_at_pure {B} sh shm g (f : ConnectionGroup -> M (host W) B) Q :
  (forall x, 0 <= g -> sh_grps shm sh !! Z.to_nat g = Some x -> hoare (shaped sh) (f x) Q) ->
  hoare (shaped sh) (grp_at shm g ≫= f) Q.
Proof using Type.
  intros H h b h' Hi E. apply M_bind_Ret in E as (x & h1 & E1 & E2).
  apply M_bind_Ret in E1 as (p & h2 & [= <- <-] & E1). apply bind_Ret in E1 as (x' & Ex & [= <- <-]).
  apply ld_Ret in Ex as [Hg Ex]. refine (H x' Hg _ h b h' Hi E2). destruct Hi as [<- _].
  destruct shm; exact Ex.
Qed.

Lemma store_grp_is sh shm g x : hoare (shaped sh) (store_grp shm g x) (fun _ => shaped (sh_set_grp shm g x sh)).
Proof using Type.
  intros h b h' [<- Hl] E. apply M_bind_Ret in E as (p & h2 & [= <- <-] & E).
  apply M_bind_Ret in E as (p' & h3 & E1 & [= <- <-]). apply bind_Ret in E1 as (p2 & E1 & [= <- <-]).
  apply st_Ret in E1 as [Hg ->]. split; [destruct shm; reflexivity | destruct shm; exact Hl].
Qed.

Lemma for_each_keeps {A} (P : host W -> Prop) (l : list A) f :
  (forall a, a ∈ l -> hoare P (f a) (fun _ => P)) -> hoare P (for_each l f) (fun _ => P).
Proof using Type.
  induction l as [|a l IH]; intros H; [apply hoare_ret; auto|]. cbn [for_each].
  apply (hoare_bind _ _ (fun _ => P)); [apply H; constructor|]. intros _. apply IH.
  intros b Hb. apply H. constructor. exact Hb.
Qed.
End Primitives.

Create HintDb keeps.
#[export] Hint Resolve keeps_report keeps_io keeps_gets keeps_ret : keeps.

(** ** Login *)
Section Login.
Context {platform : Platform} {conf : Conf} {conf_ok : ConfOk conf} {params : ServerParams} {W : Type}.
Context {sockets : Sockets W} {mmap : Mmap W} {system : System W} {probes : ProbeMemory W}.
Context {app : App W} {app_laws : AppLaws W}.
Implicit Types (sh : shape) (h : host W).

(** [reject] changes nothing and leaves the socket to the caller. *)
Lemma reject_is sh fd rsp msg : hoare (shaped sh) (reject fd rsp msg) (fun b h => shaped sh h /\ b = false).
Proof using Type.
  apply lift_pure. intros e _. apply keeps_bind; [auto with keeps|]. intros _. apply hoare_ret. auto.
Qed.

Lemma keeps_Reset sh k :
  keeps sh (conn_op k (fun c d (w : W) => r ← TS_Reset c d; let '(c, d) := r in Ret (tt, c, d, w))).
Proof using Type.
  apply keeps_conn_op. intros c d w a c' d' w' E. apply bind_Ret in E as ([c1 d1] & E & [= _ <- _ _]).
  exact (Reset_name _ _ _ _ E).
Qed.
Lemma keeps_OpenFile sh k b :
  keeps sh (conn_op k (fun c d (w : W) => let '(e, c, d, w) := TS_OpenFile b c d w in Ret (e, c, d, w))).
Proof using Type.
  apply keeps_conn_op. intros c d w a c' d' w' E. destruct (TS_OpenFile b c d w) as [[[e c1] d1] w1] eqn:Eo.
  injection E as <- <- <- <-. exact (OpenFile_name _ _ _ _ _ _ _ _ Eo).
Qed.
Lemma keeps_Open sh k fd a now :
  keeps sh (conn_op k (fun c d (w : W) => r ← TS_Open fd a now c w; let '(c, w) := r in Ret (tt, c, d, w))).
Proof using Type.
  apply keeps_conn_op. intros c d w u c' d' w' E. apply bind_Ret in E as ([c1 w1] & E & [= _ <- _ _]).
  exact (Open_name _ _ _ _ _ _ _ E).
Qed.

Lemma login_seqs_keeps sh changed k header login : keeps (W := W) sh (login_seqs changed k header login).
Proof using Type.
  unfold login_seqs. destruct changed.
  - apply keeps_bind; [apply keeps_Reset | intros _; apply keeps_ret].
  - apply conn_at_pure. intros c _ _ _. apply lift_pure. intros r _. apply keeps_ret.
Qed.

(** After [login_slot] on slot [i], connection [k]: the shape is as before, or
    the slot went to the end of the live ones. *)
Definition slot_result (sh : shape) (shm : bool) (g i k : Z) (b : bool) h : Prop :=
  if b then
    exists x l, 0 <= g /\ sh_grps shm sh !! Z.to_nat g = Some x /\ live_cnt x <= i
      /\ swap (conns x) i (live_cnt x) = Ret l
      /\ shaped (sh_set_grp shm g (mkGroup (u32 (live_cnt x + 1)) l) sh) h
  else shaped sh h.

Lemma login_slot_is sh now fd addr header login rsp g i k :
  hoare (shaped sh) (login_slot now fd addr header login rsp g i k)
    (slot_result sh (negb (use_shm login =? 0)) g i k).
Proof using Type.
  assert (Hrej : forall r m, hoare (shaped sh) (reject fd r m)
            (slot_result sh (negb (use_shm login =? 0)) g i k)).
  { intros r m. eapply hoare_weaken; [apply (reject_is sh) | auto|]. intros b h [H ->]. exact H. }
  assert (Hfalse : hoare (shaped sh) (mret false) (slot_result sh (negb (use_shm login =? 0)) g i k))
    by (apply hoare_ret; auto).
  unfold login_slot. apply grp_at_pure. intros x Hg Hx.
  destruct (Z.ltb_spec i (live_cnt x)); [apply Hrej|].
  apply keeps_bind; [apply keeps_OpenFile|]. intros [e|].
  { apply keeps_bind; [auto with keeps|]. intros e'. apply keeps_bind; [auto with keeps|]. intros _. apply Hrej. }
  apply server_name_pure. intros name _. apply keeps_bind; [apply login_seqs_keeps|].
  intros [[[[la ls] le] [[ra rs] re]]|].
  2:{ apply keeps_bind; [auto with keeps|]. intros _. apply Hrej. }
  cbv zeta. destruct (_ || _).
  { apply keeps_bind; [auto with keeps|]. intros _. apply keeps_bind; [auto with keeps|]. intros _. exact Hfalse. }
  apply keeps_bind; [auto with keeps|]. intros sent. destruct (negb sent); [exact Hfalse|].
  apply keeps_bind; [auto with keeps|]. intros _. apply keeps_bind; [apply keeps_Open|]. intros _.
  apply grp_at_pure. intros x' _ Hx'. rewrite Hx in Hx'. injection Hx' as <-.
  apply lift_pure. intros l El.
  apply (hoare_bind _ _ (fun _ => shaped (sh_set_grp (negb (use_shm login =? 0)) g
           (mkGroup (u32 (live_cnt x + 1)) l) sh))); [apply store_grp_is|].
  intros _. apply keeps_bind; [auto with keeps|]. intros _. apply hoare_ret. intros h Hh.
  exists x, l. auto.
Qed.

(** Results that keep the invariant and the new connections. *)
Definition kept sh h : Prop :=
  exists sh', shaped sh' h /\ shape_ok sh' /\ sh_new sh' = sh_new sh /\ sh_avail sh' = sh_avail sh.

Lemma kept_refl sh h : shape_ok sh -> shaped sh h -> kept sh h.
Proof using Type. intros Hok H. exists sh. auto. Qed.

Lemma slot_result_kept sh shm g i k x0 b h :
  shape_ok sh -> 0 <= i -> sh_grps shm sh !! Z.to_nat g = Some x0 -> conns x0 !! Z.to_nat i = Some k ->
  nm (sh_names sh) k <> [] -> slot_result sh shm g i k b h -> kept sh h.
Proof using Type.
  intros Hok Hi Hx0 Hk Hn H. destruct b; [|apply kept_refl; assumption].
  destruct H as (x & l & Hg & Hx & Hlive & Es & Hh). rewrite Hx0 in Hx. injection Hx as <-.
  exists (sh_set_grp shm g (mkGroup (u32 (live_cnt x0 + 1)) l) sh). split; [exact Hh|].
  destruct (slot_facts _ _ _ _ _ _ Hok Hx0 Hk) as (_ & _ & _ & Hgok).
  destruct (grp_promote _ _ _ _ _ Hgok Hlive Hk Hn Es) as [H1 H2]. split; [|destruct shm; auto].
  replace g with (Z.of_nat (Z.to_nat g)) by lia. exact (shape_regroup _ _ _ _ (mkGroup _ l) Hok Hx0 H2 H1).
Qed.

Lemma strncmp_cstr a b : zlen a <= NameSize -> zlen b <= NameSize ->
  strncmp_eq a b NameSize = bool_decide (cstr a = cstr b).
Proof using Type.
  intros Ha Hb. unfold strncmp_eq. pose proof (length_cstr a). pose proof (length_cstr b).
  rewrite !take_ge by lia. reflexivity.
Qed.

(** What is known when the loop is at slot [i]. *)
Definition before sh shm g (cname : list Z) (i : nat) : Prop :=
  forall x j k', sh_grps shm sh !! Z.to_nat g = Some x -> (j < i)%nat -> conns x !! j = Some k' ->
    nm (sh_names sh) k' <> [] /\ nm (sh_names sh) k' <> cname.

Lemma nm_lookup names k n : names !! Z.to_nat k = Some n -> nm names k = n.
Proof using Type. unfold nm. intros ->. reflexivity. Qed.

Lemma login_slots_kept now fd addr header login rsp g x0 :
  zlen (client_name login) = NameSize -> cstr (client_name login) <> [] ->
  forall n i sh, shape_ok sh -> sh_grps (negb (use_shm login =? 0)) sh !! Z.to_nat g = Some x0 ->
  (i + n = length (conns x0))%nat -> before sh (negb (use_shm login =? 0)) g (cstr (client_name login)) i ->
  hoare (shaped sh) (login_slots now fd addr header login rsp g (Z.of_nat <$> seq i n)) (fun _ => kept sh).
Proof using conf_ok.
  intros Hcl Hcn. set (shm := negb (use_shm login =? 0)). pose proof conf_name as HN.
  induction n as [|n IH]; intros i sh Hok Hx0 Hin Hbefore; cbn [seq fmap list_fmap login_slots].
  { eapply hoare_weaken; [apply (reject_is sh) | auto|]. intros b h [H _]. apply kept_refl; assumption. }
  fold shm. apply grp_at_pure. intros x Hg Hx. rewrite Hx0 in Hx. injection Hx as <-.
  apply lift_pure. intros k Ek. apply ld_Ret in Ek as [_ Ek]. rewrite Nat2Z.id in Ek.
  apply conn_at_pure. intros c Hk Hnk Hlc. apply lift_pure. intros first Ef.
  pose proof (nm_lookup _ _ _ Hnk) as Hnmk.
  assert (Hnext : forall sh', shape_ok sh' -> sh_grps shm sh' = sh_grps shm sh -> sh_new sh' = sh_new sh ->
     sh_avail sh' = sh_avail sh -> nm (sh_names sh') k <> [] ->
     (forall j k', (j < i)%nat -> conns x0 !! j = Some k' -> nm (sh_names sh') k' = nm (sh_names sh) k') ->
     hoare (shaped sh') (if negb (bool_decide (nm (sh_names sh') k = cstr (client_name login)))
             then login_slots now fd addr header login rsp g (Z.of_nat <$> seq (S i) n)
             else login_slot now fd addr header login rsp g (Z.of_nat i) k) (fun _ => kept sh)).
  { intros sh' Hok' Hgr Hnew Hav Hne Hsame.
    assert (Hkept : forall h, kept sh' h -> kept sh h).
    { intros h (sh2 & H1 & H2 & H3 & H4). exists sh2. rewrite H3, H4. auto. }
    destruct (bool_decide _) eqn:Eb; cbn [negb].
    - eapply hoare_weaken; [apply (login_slot_is sh') | auto|]. intros b h H. apply Hkept.
      apply (slot_result_kept sh' shm g (Z.of_nat i) k x0 b h); auto; try lia; rewrite ?Hgr, ?Nat2Z.id; assumption.
    - apply bool_decide_eq_false in Eb. eapply hoare_weaken; [apply (IH (S i) sh'); auto | auto | auto].
      + fold shm. rewrite Hgr. exact Hx0.
      + lia.
      + intros x j k' Hx Hj Hk'. fold shm in Hx. rewrite Hgr, Hx0 in Hx. injection Hx as <-.
        destruct (decide (j = i)) as [->|Hji].
        * rewrite Ek in Hk'. injection Hk' as <-. split; assumption.
        * rewrite (Hsame j k') by (lia || assumption). apply (Hbefore x0 j k'); auto; lia. }
  pose proof Hlc as [HNs Hids].
  destruct (Z.eqb_spec first 0) as [->|Hf0].
  - destruct (strncpy_spec (remote_name_ c) (client_name login) NameSize HNs ltac:(lia)) as (a & Ea & La & Ca).
    pose proof (length_cstr (client_name login)) as Hle. rewrite take_ge in Ca by lia.
    rewrite Ea. change (lift (Ret a) ≫= ?f) with (f a).
    assert (Hnil : nm (sh_names sh) k = []).
    { rewrite Hnmk. destruct (remote_name_ c) as [|b t]; [reflexivity|]. cbn in Ef. injection Ef as ->. reflexivity. }
    pose proof (slot_facts _ _ _ _ _ _ Hok Hx0 Ek) as (Hkr & _ & Hall & _).
    apply (hoare_bind _ _ (fun _ => shaped (sh_set_name k (cstr a) sh))).
    { apply (store_conn_is sh k (set_remote a c)). split; [exact La | exact Hids]. }
    intros _. rewrite Ca.
    assert (Hnk' : nm (sh_names (sh_set_name k (cstr (client_name login)) sh)) k = cstr (client_name login)).
    { cbn. rewrite nm_insert by lia. apply decide_True. reflexivity. }
    replace (strncmp_eq a (client_name login) NameSize)
      with (bool_decide (nm (sh_names (sh_set_name k (cstr (client_name login)) sh)) k = cstr (client_name login))).
    2:{ rewrite Hnk', strncmp_cstr, Ca by lia. reflexivity. }
    apply Hnext; try (destruct shm; reflexivity).
    + apply (shape_name shm sh (Z.to_nat g) x0 i); auto. intros j k' Hj Hk'. exact (Hbefore x0 j k' Hx0 Hj Hk').
    + rewrite Hnk'. exact Hcn.
    + intros j k' Hj Hk'. cbn. rewrite nm_insert; try lia.
      * apply decide_False. intros ->. destruct (Hbefore x0 j k Hx0 Hj Hk') as [H _]. exact (H Hnil).
      * rewrite Forall_forall in Hall. specialize (Hall k' (list_elem_of_lookup_2 _ _ _ Hk')). lia.
  - change (mret (remote_name_ c) ≫= ?f) with (f (remote_name_ c)).
    apply keeps_bind; [apply store_same; cbn; assumption|]. intros _.
    replace (strncmp_eq (remote_name_ c) (client_name login) NameSize)
      with (bool_decide (nm (sh_names sh) k = cstr (client_name login)))
      by (rewrite Hnmk, strncmp_cstr by lia; reflexivity).
    apply Hnext; auto. rewrite Hnmk. destruct (remote_name_ c) as [|b t]; [discriminate Ef|].
    cbn in Ef. injection Ef as ->. cbn. destruct (Z.eqb_spec first 0); [contradiction | discriminate].
Qed.

Lemma HandleLogin_kept sh now fd addr header login :
  shape_ok sh -> zlen (client_name login) = NameSize ->
  hoare (shaped sh) (HandleLogin now fd addr header login) (fun _ => kept sh).
Proof using conf_ok.
  intros Hok Hlen. pose proof conf_name as HN.
  assert (Hrej : forall r m, hoare (shaped sh) (reject fd r m) (fun _ => kept sh)).
  { intros r m. eapply hoare_weaken; [apply (reject_is sh) | auto|]. intros b h [H _]. apply kept_refl; assumption. }
  unfold HandleLogin. apply server_name_pure. intros name _. apply lift_pure. intros a _. cbv zeta.
  apply lift_pure. intros first Ef. apply ld_Ret in Ef as [_ Ef].
  destruct (Z.eqb_spec first 0) as [|Hf]; [apply Hrej|].
  apply lift_pure. intros n En. apply st_Ret in En as [_ ->].
  set (login' := set_client_name _ login).
  assert (Hl' : zlen (client_name login') = NameSize) by (cbn; rewrite length_insert; exact Hlen).
  assert (Hc' : cstr (client_name login') <> []).
  { cbn. destruct (client_name login) as [|b t]; [discriminate Ef|]. injection Ef as ->.
    destruct (Z.to_nat (NameSize - 1)) eqn:E; [lia|]. cbn. destruct (Z.eqb_spec first 0); [contradiction | discriminate]. }
  apply keeps_bind; [destruct (negb _); auto with keeps|]. intros probed.
  destruct (negb probed); [apply Hrej|].
  apply keeps_bind; [auto with keeps|]. intros [grpid rsp].
  destruct (grpid <? 0).
  - apply lift_pure. intros e _. destruct (e =? 0); [apply Hrej|].
    apply keeps_bind; [auto with keeps|]. intros _. apply hoare_ret. intros h H. apply kept_refl; assumption.
  - apply grp_at_pure. intros x Hg Hx. unfold range. rewrite Nat2Z.id.
    apply (login_slots_kept now fd addr header login' rsp grpid x Hl' Hc' (length (conns x)) 0 sh Hok Hx); [lia|].
    intros x' j k' _ Hj. lia.
Qed.

(** ** New connections *)
Lemma store_new_conn_is sh i n :
  hoare (shaped (W := W) sh) (store_new_conn i n)
    (fun _ => shaped (mkShape (sh_names sh) (sh_shm sh) (sh_tcp sh) (<[Z.to_nat i := n]> (sh_new sh)) (sh_avail sh) (sh_me sh))).
Proof using Type.
  intros h b h' [<- Hl] E. apply M_bind_Ret in E as (p & h2 & [= <- <-] & E).
  apply M_bind_Ret in E as (p' & h3 & E1 & [= <- <-]). apply bind_Ret in E1 as (p2 & E1 & [= <- <-]).
  apply st_Ret in E1 as [Hg ->]. split; [reflexivity | exact Hl].
Qed.

Lemma set_avail_is sh a :
  hoare (shaped (W := W) sh) (assign (set_avail a))
    (fun _ => shaped (mkShape (sh_names sh) (sh_shm sh) (sh_tcp sh) (sh_new sh) a (sh_me sh))).
Proof using Type. apply hoare_modify. intros h [<- Hl]. split; [reflexivity | exact Hl]. Qed.

(** The invariant, as a predicate on the state. *)
Definition inv h : Prop := exists sh, shaped sh h /\ shape_ok sh.

Lemma inv_pure {A} (m : M (host W) A) :
  (forall sh, shape_ok sh -> hoare (shaped sh) m (fun _ => inv)) -> hoare inv m (fun _ => inv).
Proof using Type. intros H h a h' (sh & Hs & Hok) E. exact (H sh Hok h a h' Hs E). Qed.
Lemma keeps_inv {A} (m : M (host W) A) : (forall sh, keeps sh m) -> hoare inv m (fun _ => inv).
Proof using Type.
  intros H. apply inv_pure. intros sh Hok. eapply hoare_weaken; [apply (H sh) | auto|].
  intros a h Hs. exists sh. auto.
Qed.
Lemma kept_inv sh h : kept sh h -> inv h.
Proof using Type. intros (sh' & H1 & H2 & _). exists sh'. auto. Qed.

(** Putting a new connection back in its slot. *)
Lemma store_new_inv sh i n (m : M (host W) unit) a :
  shape_ok sh -> 0 <= a <= MaxNewConnections -> m = assign (set_avail a) ->
  hoare (shaped sh) (_ ← store_new_conn i n; m) (fun _ => inv).
Proof using Type.
  intros Hok Ha ->. apply (hoare_bind _ _ (fun _ => shaped (mkShape (sh_names sh) (sh_shm sh) (sh_tcp sh)
    (<[Z.to_nat i := n]> (sh_new sh)) (sh_avail sh) (sh_me sh)))); [apply store_new_conn_is|].
  intros _. eapply hoare_weaken; [apply set_avail_is | intros h H; exact H|].
  intros u h H. eexists. split; [exact H|]. cbn. apply (shape_new sh); [exact Hok | | exact Ha].
  rewrite length_insert. apply Hok.
Qed.

Lemma accept_one_inv now : hoare inv (accept_one now) (fun _ => inv).
Proof using Type.
  apply inv_pure. intros sh Hok. apply keeps_bind; [apply hoare_gets; auto|]. intros avail. apply hoare_when.
  2:{ intros _ h H. exists sh. auto. }
  intros _. apply (hoare_bind _ _ (fun _ => shaped sh)).
  { apply keeps_bind; [apply hoare_gets; auto|]. intros l. eapply hoare_weaken; [apply (keeps_lift sh) | auto | intros a h [H _]; exact H]. }
  intros nc. apply keeps_bind; [apply hoare_gets; auto|]. intros lfd. apply keeps_bind; [auto with keeps|].
  intros [fd addr]. destruct (fd =? _).
  - eapply hoare_weaken; [apply (store_new_conn_is sh) | auto|]. intros u h H. eexists. split; [exact H|].
    apply (shape_new sh); [exact Hok | rewrite length_insert; apply Hok | apply Hok].
  - apply keeps_bind; [auto with keeps|]. intros _. apply (store_new_inv sh _ _ _ MaxNewConnections Hok); [|reflexivity].
    pose proof (ok_new sh Hok). lia.
Qed.

Context {recvs : RecvLaws W}.

Lemma recv_login (fd len : Z) (w : W) n bs w' : 0 <= len -> tcp_recv fd len w = (n, bs, w') ->
  n = len -> zlen bs = len /\ Forall in_byte bs.
Proof using recvs. intros Hl E ->. apply recv_law in E as (_ & Hb & L & _); [|exact Hl]. split; [lia | exact Hb]. Qed.

Lemma poll_new_inv now i : 0 <= i < MaxNewConnections -> hoare inv (poll_new now i) (fun _ => inv).
Proof using conf_ok recvs.
  intros Hi. apply inv_pure. intros sh Hok. unfold poll_new.
  assert (Hav : hoare (shaped sh) (assign (set_avail i)) (fun _ => inv)).
  { eapply hoare_weaken; [apply (set_avail_is sh) | auto|]. intros u h H. eexists. split; [exact H|].
    apply (shape_new sh); [exact Hok | apply Hok | lia]. }
  apply (hoare_bind _ _ (fun _ => shaped sh)).
  { apply keeps_bind; [apply hoare_gets; auto|]. intros l. eapply hoare_weaken; [apply (keeps_lift sh) | auto | intros a h [H _]; exact H]. }
  intros nc. destruct (nc_fd nc =? _); [exact Hav|].
  assert (Hbuf : 0 <= buf_size (A := LoginMsg)).
  { unfold buf_size, body_size, sizeof_MsgHeader. cbn [w_sizeof LoginMsg_wire]. pose proof conf_name.
    pose proof (align_bounds 4 (10 + 2 * NameSize) ltac:(lia)). Z.div_mod_to_equations. lia. }
  apply (hoare_bind _ _ (fun r h => shaped sh h /\ (fst r = buf_size (A := LoginMsg) ->
           zlen (snd r) = buf_size (A := LoginMsg) /\ Forall in_byte (snd r)))).
  { apply hoare_zoom. intros h [n bs] t H E. split; [exact H|]. intros En.
    unfold call in E. injection E as E. exact (recv_login _ _ _ _ _ _ Hbuf E En). }
  intros [ret recvbuf]. apply hoare_pure. cbn [fst snd]. intros Hrecv.
  apply keeps_bind; [auto with keeps|]. intros err.
  destruct (_ && _ && _). { apply hoare_ret. intros h H. exists sh. auto. }
  apply (hoare_bind _ _ (fun _ => kept sh)).
  - destruct (Z.eqb_spec ret (buf_size (A := LoginMsg))) as [Er|]; [|apply hoare_ret; intros; apply kept_refl; assumption].
    cbv zeta. destruct (ctl_valid _); [|apply hoare_ret; intros; apply kept_refl; assumption].
    apply HandleLogin_kept; [exact Hok|]. destruct (Hrecv Er) as [L Hb].
    assert (Hw : w_ok (A := LoginMsg) (ctl_body (drop 8 recvbuf))).
    { apply ctl_body_ok; [|apply Forall_drop; exact Hb]. rewrite length_drop.
      pose proof (body_size_bounds (A := LoginMsg)). unfold buf_size, sizeof_MsgHeader in *. lia. }
    destruct Hw as (_ & _ & _ & _ & [Hn _] & _). exact Hn.
  - intros taken h b h' (sh1 & Hs1 & Hok1 & Hnew & Hav1).
    revert h b h' Hs1. change (hoare (shaped sh1) (_ ← when (negb taken) (io (sys (tcp_close (nc_fd nc))));
      _ ← store_new_conn i (mkNewConn (nc_time nc) INVALID_TCP_SOCKET (nc_addr nc)); assign (set_avail i)) (fun _ => inv)).
    apply keeps_bind. { apply hoare_when; [intros _; apply keeps_io | auto]. }
    intros _. apply (store_new_inv sh1 _ _ _ i Hok1); [lia | reflexivity].
Qed.
End Login.
