(* ===== verification/ServerTheorems.v ===== *)
(** * Theorems on the server

    The invariant of ServerProps.v holds from the constructor on, over every
    sequence of calls of the server, operations of the users of its connections
    and changes of the disk and the system by other processes. *)

From Stdlib Require Import String.
From stdpp Require Import relations gmap.
From S2P Require Import Prelude StateRes Endian MsgHeader Conf PTCPConn CString TcpShmConn SysIO Messages.
From S2P Require Import System ShmProbe Server ServerShape ServerProps.
From stdpp Require Import list_basics list_relations list.
Local Open Scope Z_scope.

Section Calls.
Context {platform : Platform} {conf : Conf} {conf_ok : ConfOk conf} {params : ServerParams} {W : Type}.
Context {sockets : Sockets W} {recvs : RecvLaws W} {mmap : Mmap W} {system : System W} {probes : ProbeMemory W}.
Context {app : App W} {app_laws : AppLaws W}.
Implicit Types (sh : shape) (h : host W).

Lemma sweep_inv now shm g : forall fuel i, 0 <= i -> hoare inv (sweep fuel now shm g i) (fun _ => inv).
Proof using Type.
  induction fuel as [|fuel IH]; intros i Hi; [intros h a h' _ E; discriminate E|].
  apply inv_pure. intros sh Hok. cbn [sweep]. apply grp_at_pure. intros x Hg Hx.
  assert (Hinv : forall h, shaped sh h -> inv h) by (intros h H; exists sh; auto).
  destruct (Z.ltb_spec i (live_cnt x)) as [Hlt|]; [|apply hoare_ret; exact Hinv].
  apply lift_pure. intros k Ek. apply ld_Ret in Ek as [_ Ek].
  apply keeps_bind.
  { apply hoare_when; [intros _|auto]. apply keeps_conn_op. intros c d w a c' d' w' E.
    apply bind_Ret in E as ([[p c1] w1] & E & [= _ <- _ _]). exact (TcpFront_name _ _ _ _ _ _ E). }
  intros _. apply keeps_bind.
  { apply keeps_conn_op. intros c d w a c' d' w' E. destruct (TS_TryCloseFd c w) as [[b c1] w1] eqn:Et.
    injection E as _ <- _ _. exact (TryCloseFd_name _ _ _ _ _ Et). }
  intros closed. destruct closed.
  2:{ eapply hoare_weaken; [apply (IH (i + 1)); lia | exact Hinv | auto]. }
  apply conn_at_pure. intros c _ _ _. destruct (TS_GetCloseReason c) as [reason err].
  apply keeps_bind; [apply keeps_report|]. intros _. cbv zeta. apply lift_pure. intros l El.
  apply (hoare_bind _ _ (fun _ => inv)); [|intros _; apply IH; exact Hi].
  eapply hoare_weaken; [apply (store_grp_is sh) | auto|]. intros u h H. eexists. split; [exact H|].
  destruct (slot_facts _ _ _ _ _ _ Hok Hx Ek) as (_ & _ & _ & Hgok).
  destruct (grp_demote _ _ _ _ Hgok (conj Hi Hlt) El) as [H1 H2].
  replace g with (Z.of_nat (Z.to_nat g)) by lia. exact (shape_regroup _ _ _ _ (mkGroup _ l) Hok Hx H2 H1).
Qed.

Lemma PollCtl_inv now : hoare inv (PollCtl now) (fun _ => inv).
Proof using conf_ok recvs.
  unfold PollCtl. apply (hoare_bind _ _ (fun _ => inv)); [apply accept_one_inv|]. intros _.
  apply (hoare_bind _ _ (fun _ => inv)).
  { apply for_each_keeps. intros i Hi. apply elem_range in Hi. apply poll_new_inv. exact Hi. }
  assert (Hs : forall shm g, hoare inv (sweep_grp now shm g) (fun _ => inv)).
  { intros shm g. apply inv_pure. intros sh Hok. apply grp_at_pure. intros x _ _.
    eapply hoare_weaken; [apply (sweep_inv now shm g _ 0); lia | intros h H; exists sh; auto | auto]. }
  intros _. apply (hoare_bind _ _ (fun _ => inv)); [|intros _]; apply for_each_keeps; auto.
Qed.

(** *** Polling of messages *)
Lemma deliver_keeps sh k head : keeps sh (deliver k head).
Proof using app_laws.
  destruct head as [p|]; [|apply keeps_ret]. apply keeps_conn_op. intros c d w a c' d' w' E.
  apply bind_Ret in E as ([[c1 d1] w1] & E & [= _ <- _ _]). exact (OnClientMsg_name _ _ _ _ _ _ _ E).
Qed.

Lemma PollTcp_inv now g : hoare inv (PollTcp now g) (fun _ => inv).
Proof using app_laws.
  apply keeps_inv. intros sh. apply grp_at_pure. intros x _ _. apply for_each_keeps. intros i _.
  apply grp_at_pure. intros x' _ _. apply lift_pure. intros k _.
  apply keeps_bind; [|intros p; apply deliver_keeps]. apply keeps_conn_op. intros c d w a c' d' w' E.
  apply bind_Ret in E as ([[p1 c1] w1] & E & [= _ <- _ _]). exact (TcpFront_name _ _ _ _ _ _ E).
Qed.

Lemma PollShm_inv g : hoare inv (PollShm g) (fun _ => inv).
Proof using app_laws.
  apply keeps_inv. intros sh. apply grp_at_pure. intros x _ _. apply for_each_keeps. intros i _.
  apply grp_at_pure. intros x' _ _. apply lift_pure. intros k _.
  apply keeps_bind; [|intros p; apply deliver_keeps]. apply keeps_conn_op. intros c d w a c' d' w' E.
  apply bind_Ret in E as ([p1 d1] & E & [= _ <- _ _]). reflexivity.
Qed.

(** *** Start *)
Lemma start_step_keeps sh failed f msg next : keeps sh next -> keeps (W := W) sh (start_step failed f msg next).
Proof using Type.
  intros H. apply keeps_bind; [apply hoare_gets; auto|]. intros fd. apply keeps_bind; [auto with keeps|]. intros r.
  destruct (failed r); [|exact H]. apply keeps_bind; [auto with keeps|]. intros e.
  apply keeps_bind; [auto with keeps | intros _; apply keeps_ret].
Qed.

Lemma set_listenfd_keeps sh fd : keeps (W := W) sh (assign (set_listenfd fd)).
Proof using Type. apply hoare_modify. intros h [<- Hl]. split; [reflexivity | exact Hl]. Qed.

Lemma Start_inv ip port : hoare inv (Start ip port) (fun _ => inv).
Proof using Type.
  apply keeps_inv. intros sh. apply keeps_bind; [apply hoare_gets; auto|]. intros fd. destruct (negb _).
  { apply keeps_bind; [auto with keeps | intros _; apply keeps_ret]. }
  apply keeps_bind; [auto with keeps|]. intros fd'. apply keeps_bind; [apply set_listenfd_keeps|]. intros _.
  destruct (_ =? _).
  { apply keeps_bind; [auto with keeps|]. intros e. apply keeps_bind; [auto with keeps | intros _; apply keeps_ret]. }
  apply keeps_bind; [auto with keeps|]. intros _. cbv zeta.
  apply start_step_keeps. destruct TcpNoDelay; repeat apply start_step_keeps; apply keeps_ret.
Qed.

(** *** Stop *)
Lemma Release_name c d w c' d' w' : TS_Release c d w = Ret (c', d', w') ->
  cstr (remote_name_ c') = [] /\ zlen (remote_name_ c') = zlen (remote_name_ c)
  /\ local_name_ c' = local_name_ c /\ ptcp_dir_ c' = ptcp_dir_ c.
Proof using Type.
  intros H. apply bind_Ret in H as (n & En & H). destruct (Release _ w) as [[q t] w1]. injection H as <- _ _.
  apply st_Ret in En as [Hl ->]. cbn. rewrite length_insert. split; [|auto].
  destruct (remote_name_ c) as [|b t']; [simpl in Hl; lia | reflexivity].
Qed.

Lemma release_conn_is sh k :
  hoare (shaped sh) (release_conn (W := W) k) (fun _ h => 0 <= k < zlen (sh_names sh) /\ shaped (sh_set_name k [] sh) h).
Proof using Type.
  apply conn_at_pure. intros c Hk Hn Hl. apply lookup_lt_Some in Hn.
  apply (hoare_bind _ _ (fun r h => shaped sh h /\ (cstr (remote_name_ (snd r)) = [] /\ conn_lens sh (snd r)))).
  - intros h [a c'] h' Hi E. apply bind_Ret in E as ([[[a1 c1] d1] w1] & E & [= <- <- <-]).
    apply bind_Ret in E as ([[c2 d2] w2] & E & [= _ <- _ _]). split; [exact Hi|].
    destruct (Release_name _ _ _ _ _ _ E) as (H1 & H2 & H3 & H4). split; [exact H1|].
    unfold conn_lens. cbn [snd]. rewrite H2, H3, H4. exact Hl.
  - intros [a c']. apply hoare_pure. cbn [snd]. intros [Hn' Hl'].
    apply (hoare_bind _ _ (fun _ => shaped (sh_set_name k [] sh))).
    + rewrite <- Hn'. apply store_conn_is. exact Hl'.
    + intros _. apply hoare_ret. intros h H. split; [lia | exact H].
Qed.

Definition with_names names sh : shape :=
  mkShape names (sh_shm sh) (sh_tcp sh) (sh_new sh) (sh_avail sh) (sh_me sh).

Lemma release_all ks : forall sh,
  hoare (shaped sh) (for_each ks (release_conn (W := W)))
    (fun _ h => exists names, shaped (with_names names sh) h /\ zlen names = zlen (sh_names sh)
       /\ (forall k, 0 <= k -> k ∉ ks -> nm names k = nm (sh_names sh) k)
       /\ Forall (fun k => nm names k = []) ks).
Proof using Type.
  induction ks as [|k ks IH]; intros sh; cbn [for_each].
  - apply hoare_ret. intros h H. exists (sh_names sh). split; [destruct sh; exact H|]. auto.
  - apply (hoare_bind _ _ _ _ _ (release_conn_is sh k)). intros _ h a h' [Hk Hh] E.
    destruct (IH (sh_set_name k [] sh) h a h' Hh E) as (names & H1 & H2 & H3 & H4).
    cbn in H2, H3. rewrite length_insert in H2. exists names. split; [exact H1|]. split; [exact H2|]. split.
    + intros k' Hk' Hnin. apply not_elem_of_cons in Hnin as [Hne Hnin].
      rewrite (H3 k' Hk' Hnin), nm_insert by lia. apply decide_False. exact Hne.
    + constructor; [|exact H4]. destruct (decide (k ∈ ks)) as [Hin|Hnin].
      * rewrite Forall_forall in H4. auto.
      * rewrite (H3 k) by (lia || exact Hnin). rewrite nm_insert by lia. apply decide_True. reflexivity.
Qed.

Lemma stop_grp_inv shm g : hoare inv (stop_grp (W := W) shm g) (fun _ => inv).
Proof using Type.
  apply inv_pure. intros sh Hok. apply grp_at_pure. intros x Hg Hx.
  apply (hoare_bind _ _ _ _ _ (release_all (conns x) sh)). intros _ h a h' (names & H1 & H2 & H3 & H4) E.
  pose proof (store_grp_is (with_names names sh) shm g (mkGroup 0 (conns x)) h a h' H1 E) as H5.
  eexists. split; [exact H5|]. replace g with (Z.of_nat (Z.to_nat g)) by lia.
  apply (shape_update shm sh (Z.to_nat g) x); auto. apply grp_release; [|exact H4].
  destruct (grps_split _ _ _ _ Hx) as (L1 & L2 & EL & _).
  pose proof (ok_grps _ Hok) as HF. rewrite EL in HF. apply Forall_app in HF as [_ HF].
  apply Forall_cons in HF as [(named & free & _ & _ & Hc & _) _]. exact Hc.
Qed.

Lemma close_new_conn_inv i : hoare inv (close_new_conn (W := W) i) (fun _ => inv).
Proof using Type.
  apply inv_pure. intros sh Hok. apply (hoare_bind _ _ (fun _ => shaped sh)).
  { apply keeps_bind; [apply hoare_gets; auto|]. intros l.
    eapply hoare_weaken; [apply (keeps_lift sh) | auto | intros a h [H _]; exact H]. }
  intros nc. apply hoare_when; [intros _|intros _ h H; exists sh; auto].
  apply keeps_bind; [auto with keeps|]. intros _.
  eapply hoare_weaken; [apply (store_new_conn_is sh) | auto|]. intros u h H. eexists. split; [exact H|].
  apply (shape_new sh); [exact Hok | rewrite length_insert; apply Hok | apply Hok].
Qed.

Lemma Stop_inv : hoare inv (Stop (W := W)) (fun _ => inv).
Proof using Type.
  apply (hoare_bind _ _ (fun _ => inv)); [apply hoare_gets; auto|]. intros fd.
  destruct (fd =? _); [apply hoare_ret; auto|].
  apply (hoare_bind _ _ (fun _ => inv)); [apply keeps_inv; auto with keeps|]. intros _.
  apply (hoare_bind _ _ (fun _ => inv)); [apply keeps_inv; intros; apply set_listenfd_keeps|]. intros _.
  apply (hoare_bind _ _ (fun _ => inv)); [apply for_each_keeps; intros; apply close_new_conn_inv|]. intros _.
  apply (hoare_bind _ _ (fun _ => inv)).
  { apply inv_pure. intros sh Hok. eapply hoare_weaken; [apply (set_avail_is sh) | auto|].
    intros u h H. eexists. split; [exact H|]. pose proof (ok_new sh Hok).
    apply (shape_new sh); [exact Hok | apply Hok | lia]. }
  intros _. apply (hoare_bind _ _ (fun _ => inv)); [|intros _]; apply for_each_keeps; intros; apply stop_grp_inv.
Qed.
End Calls.

(** ** The constructor *)
Class ParamsOk (params : ServerParams) : Prop := {
  params_new : 0 <= MaxNewConnections;
  params_shm : 0 <= MaxShmConnsPerGrp < 2 ^ 32 /\ 0 <= MaxShmGrps;
  params_tcp : 0 <= MaxTcpConnsPerGrp < 2 ^ 32 /\ 0 <= MaxTcpGrps
}.

Section Init.
Context {platform : Platform} {conf : Conf} {conf_ok : ConfOk conf} {params : ServerParams}.
Context {params_ok : ParamsOk params} {W : Type} {sockets : Sockets W}.

Lemma groups_slots n cnt first : 0 <= n -> 0 <= cnt ->
  slots_of (groups n cnt first) = (fun i : nat => first + Z.of_nat i) <$> seq 0 (Z.to_nat (cnt * n)).
Proof using Type.
  intros Hn Hc. unfold groups. replace (Z.to_nat (cnt * n)) with (Z.to_nat n * Z.to_nat cnt)%nat by lia.
  unfold slots_of. rewrite <- list_fmap_compose. induction (Z.to_nat n) as [|m IH]; [reflexivity|].
  rewrite seq_S, fmap_app, concat_app, IH. cbn [fmap list_fmap concat compose conns]. rewrite app_nil_r.
  replace (S m * Z.to_nat cnt)%nat with (m * Z.to_nat cnt + Z.to_nat cnt)%nat by lia.
  rewrite seq_app, fmap_app. f_equal. cbn [Nat.add].
  rewrite <- (Nat.add_0_r (m * Z.to_nat cnt)), <- fmap_add_seq, <- list_fmap_compose.
  apply list_fmap_ext. intros i j Hj. cbn. lia.
Qed.

Lemma groups_fresh n cnt first names : 0 <= cnt < 2 ^ 32 -> Forall (fun m => m = []) names ->
  Forall (grp_ok names) (groups n cnt first).
Proof using Type.
  intros Hc Hn. apply Forall_forall. intros x Hx. apply list_elem_of_fmap in Hx as (g & -> & _).
  set (l := _ <$> seq 0 (Z.to_nat cnt)). apply (grp_release names (mkGroup 0 l)).
  - change (zlen l < 2 ^ 32). unfold l. rewrite length_fmap, length_seq. lia.
  - apply Forall_true. intros k. unfold nm. destruct (names !! Z.to_nat k) eqn:E; [|reflexivity].
    exact (Forall_lookup_1 _ _ _ _ Hn E).
Qed.

(** The server the constructor makes, and its state of the world. *)
Definition booted (name dir : list Z) (d : disk) (w : W) (h : host W) : Prop :=
  exists s, TcpShmServer_init (W := W) name dir = Ret s /\ h = mkHost s d w [].

Lemma booted_inv name dir d w h : booted name dir d w h -> inv h.
Proof using conf_ok params_ok.
  intros (s & E & ->). pose proof conf_name as HN. destruct params_shm as [P1 P2], params_tcp as [P3 P4].
  pose proof params_new as P5.
  unfold TcpShmServer_init in E. apply bind_Ret in E as (a & Ea & E). apply bind_Ret in E as (a' & Ea' & [= <-]).
  assert (La : zlen a' = NameSize).
  { apply st_Ret in Ea' as [_ ->]. apply write_at_len in Ea. rewrite length_insert, Ea, length_replicate. lia. }
  eexists. split; [split; [reflexivity|]|].
  - cbn. split; [|exact La]. apply Forall_replicate. split; [cbn; rewrite length_replicate; lia | split; reflexivity].
  - unfold shape_of. cbn [conn_pool_ shm_grps_ tcp_grps_ new_conns_ avail_idx_].
    set (total := MaxShmConnsPerGrp * MaxShmGrps + MaxTcpConnsPerGrp * MaxTcpGrps).
    assert (Hnames : Forall (fun m => m = []) ((fun c => cstr (remote_name_ c)) <$> replicate (Z.to_nat total) (TcpShmConnection_init dir a'))).
    { apply Forall_fmap, Forall_replicate. cbn. destruct (Z.to_nat NameSize) eqn:En; [lia | reflexivity]. }
    split; cbn.
    + unfold all_grps. cbn. unfold slots_of. rewrite fmap_app, concat_app. fold (slots_of (groups MaxShmGrps MaxShmConnsPerGrp 0)).
      fold (slots_of (groups MaxTcpGrps MaxTcpConnsPerGrp (MaxShmConnsPerGrp * MaxShmGrps))).
      rewrite !groups_slots by lia. unfold range. rewrite length_fmap, length_replicate, !Nat2Z.id.
      replace (Z.to_nat total) with (Z.to_nat (MaxShmConnsPerGrp * MaxShmGrps) + Z.to_nat (MaxTcpConnsPerGrp * MaxTcpGrps))%nat by lia.
      rewrite seq_app, fmap_app. apply Permutation_app; [reflexivity|]. cbn [Nat.add].
      rewrite <- (Nat.add_0_r (Z.to_nat (MaxShmConnsPerGrp * MaxShmGrps))), <- fmap_add_seq, <- list_fmap_compose.
      erewrite list_fmap_ext; [reflexivity|]. intros i j Hj. cbn. lia.
    + apply Forall_app. split; apply groups_fresh; auto.
    + rewrite length_replicate. lia.
    + lia.
Qed.
End Init.

(** ** Reachable states *)
Section Reachable.
Context {platform : Platform} {conf : Conf} {conf_ok : ConfOk conf} {params : ServerParams} {params_ok : ParamsOk params}.
Context {W : Type} {sockets : Sockets W} {recvs : RecvLaws W} {mmap : Mmap W} {system : System W} {probes : ProbeMemory W}.
Context {app : App W} {app_laws : AppLaws W}.
Implicit Types (h : host W).

(** One call of the server, one operation of a user on a connection (Alloc,
    Push, Pop, Close ...), or a change by another process. *)
Inductive server_step : host W -> host W -> Prop :=
| step_Start ip port b h h' : Start ip port h = Ret (b, h') -> server_step h h'
| step_PollCtl now h h' : PollCtl now h = Ret (tt, h') -> server_step h h'
| step_PollTcp now g h h' : PollTcp now g h = Ret (tt, h') -> server_step h h'
| step_PollShm g h h' : PollShm g h = Ret (tt, h') -> server_step h h'
| step_Stop h h' : Stop h = Ret (tt, h') -> server_step h h'
| step_user {A} k (f : TcpShmConnection -> disk -> W -> res (A * TcpShmConnection * disk * W)) a h h' :
    keeps_name f -> conn_op k f h = Ret (a, h') -> server_step h h'
| step_other d w h : server_step h (mkHost (server h) d w (events h)).

Definition server_reachable (name dir : list Z) h : Prop :=
  exists d w h0, booted name dir d w h0 /\ rtc server_step h0 h.

Lemma step_keeps_inv h h' : inv h -> server_step h h' -> inv h'.
Proof using conf_ok recvs app_laws.
  intros Hi Hs. destruct Hs as [ip port b h h' E|now h h' E|now g h h' E|g h h' E|h h' E|A k f a h h' Hf E|d w h].
  - exact (Start_inv ip port h b h' Hi E).
  - exact (PollCtl_inv now h tt h' Hi E).
  - exact (PollTcp_inv now g h tt h' Hi E).
  - exact (PollShm_inv g h tt h' Hi E).
  - exact (Stop_inv h tt h' Hi E).
  - exact (keeps_inv (conn_op k f) (fun sh => keeps_conn_op sh k f Hf) h a h' Hi E).
  - destruct Hi as (sh & H & Hok). exists sh. auto.
Qed.

Lemma reachable_server_inv name dir h : server_reachable name dir h -> inv h.
Proof using conf_ok params_ok recvs app_laws.
  intros (d & w & h0 & Hb & Hr). apply booted_inv in Hb. induction Hr as [|h0 h1 h2 Hs _ IH]; [exact Hb|].
  apply IH. exact (step_keeps_inv _ _ Hb Hs).
Qed.

(** C6. In every state the server reaches, over calls of Start, PollCtl, PollTcp, PollShm
    and Stop, operations of users on connections and changes of the disk and the system by
    others, every pooled connection is in exactly one slot of one group; in each group the
    slots whose connection has a client name come first, the live ones among them, and no
    two have the same name; and the index of free new connections stays in its array. *)
Theorem server_invariant name dir h :
  server_reachable name dir h ->
  let s := server h in
  let names := (fun c => cstr (remote_name_ c)) <$> conn_pool_ s in
  concat (conns <$> (shm_grps_ s ++ tcp_grps_ s)) ≡ₚ range (zlen (conn_pool_ s))
  /\ Forall (grp_ok names) (shm_grps_ s ++ tcp_grps_ s)
  /\ zlen (new_conns_ s) = MaxNewConnections /\ 0 <= avail_idx_ s <= MaxNewConnections.
Proof using conf_ok params_ok recvs app_laws.
  intros H. apply reachable_server_inv in H as (sh & [<- _] & [H1 H2 H3 H4]).
  unfold shape_of, all_grps, slots_of in *. cbn in *. rewrite length_fmap in H1. auto.
Qed.

(** *** Two clients of a group share no file and no ring *)
Lemma app_mid_inj {A} (a x y b : list A) : a ++ x ++ b = a ++ y ++ b -> x = y.
Proof using Type. intros E. apply app_inv_head in E. exact (app_inv_tail _ _ _ E). Qed.

(** C18. In every reachable state of the server, two slots of a group, one of which has a
    client, use different queue files and different rings in both directions. *)
Theorem clients_share_nothing name dir h shm g x i j ki kj ci cj :
  server_reachable name dir h ->
  grps shm (server h) !! g = Some x -> conns x !! i = Some ki -> conns x !! j = Some kj -> i <> j ->
  conn_pool_ (server h) !! Z.to_nat ki = Some ci -> conn_pool_ (server h) !! Z.to_nat kj = Some cj ->
  cstr (remote_name_ ci) <> [] ->
  GetPtcpFile ci <> GetPtcpFile cj /\ shm_send_file ci <> shm_send_file cj /\ shm_recv_file ci <> shm_recv_file cj.
Proof using conf_ok params_ok recvs app_laws.
  intros Hr Hg Hi Hj Hij Hci Hcj Hne. apply reachable_server_inv in Hr as (sh & (Es & HF & _) & Hok).
  assert (Hx : sh_grps shm sh !! g = Some x) by (rewrite <- Es; destruct shm; exact Hg).
  pose proof (slot_facts _ _ _ _ _ _ Hok Hx Hi) as (_ & _ & _ & (named & free & E & _ & _ & Hn & Hf & Hd)).
  assert (Hnm : forall k c, conn_pool_ (server h) !! Z.to_nat k = Some c -> nm (sh_names sh) k = cstr (remote_name_ c)).
  { intros k c Hc. apply nm_lookup. rewrite <- Es. cbn. rewrite list_lookup_fmap, Hc. reflexivity. }
  assert (Hlt : forall m k c, conns x !! m = Some k -> conn_pool_ (server h) !! Z.to_nat k = Some c ->
            cstr (remote_name_ c) <> [] -> named !! m = Some k).
  { intros m k c Hm Hc Hnc. rewrite E in Hm. apply lookup_app_Some in Hm as [Hm|[_ Hm]]; [exact Hm|]. exfalso.
    apply Hnc. rewrite <- (Hnm k c Hc). rewrite Forall_forall in Hf. apply Hf. exact (list_elem_of_lookup_2 _ _ _ Hm). }
  assert (Hdiff : cstr (remote_name_ ci) <> cstr (remote_name_ cj)).
  { intros Heq. pose proof (Hlt i ki ci Hi Hci Hne) as H1.
    pose proof (Hlt j kj cj Hj Hcj ltac:(rewrite <- Heq; exact Hne)) as H2. apply Hij.
    apply (NoDup_lookup (nm (sh_names sh) <$> named) i j (cstr (remote_name_ ci)) Hd);
      rewrite list_lookup_fmap, ?H1, ?H2; cbn; rewrite ?(Hnm _ _ Hci), ?(Hnm _ _ Hcj); congruence. }
  destruct (Forall_lookup_1 _ _ _ _ HF Hci) as (_ & L1 & D1), (Forall_lookup_1 _ _ _ _ HF Hcj) as (_ & L2 & D2).
  unfold GetPtcpFile, shm_send_file, shm_recv_file. rewrite L1, L2, D1, D2.
  split; [|split]; intros Heq; apply Hdiff.
  - apply (app_mid_inj (snd (sh_me sh) ++ lit "/" ++ cstr (fst (sh_me sh)) ++ lit "_") _ _ (lit ".ptcp")).
    rewrite <- !app_assoc. exact Heq.
  - apply (app_mid_inj (lit "/" ++ cstr (fst (sh_me sh)) ++ lit "_") _ _ (lit ".shm")). rewrite <- !app_assoc. exact Heq.
  - apply (app_mid_inj (lit "/") _ _ (lit "_" ++ cstr (fst (sh_me sh)) ++ lit ".shm")). exact Heq.
Qed.
End Reachable.

(** ** Two clients log in

    The example server, over the simulated system: two sockets are accepted and
    each brings a login for TCP. *)
Section Witnesses.
#[local] Existing Instance ServerConf.
#[local] Instance here : Platform := true.

#[export] Instance ServerConf_params_ok : ParamsOk ServerConf_params.
Proof. constructor; repeat split; vm_compute; congruence. Qed.

#[export] Instance consumer_laws : AppLaws sim.
Proof.
  constructor.
  - intros p c d w c' d' w' E. cbn in E. apply bind_Ret in E as ([c1 d1] & E & [= <- _ _]).
    unfold TS_Pop in E. destruct (shm_recvq_ c).
    + apply bind_Ret in E as ([u d2] & _ & [= <- _]). reflexivity.
    + apply bind_Ret in E as (t & _ & [= <- _]). reflexivity.
  - intros addr login rsp w g rsp' w' [= _ <- _]. reflexivity.
Qed.

Definition login_of (name : string) : list Z :=
  ctl_bytes 0 (ctl_header (A := LoginMsg) 0) (mkLogin 0 0 0 0 (a_name (lit name)) (a_name [])).
Definition two_logins : sim :=
  mkSim (mkWorld [EvRecv (login_of "c1"); EvSend 1000; EvRecv (login_of "c2"); EvSend 1000] [] 0 []) ∅ [7; 8] 100 [].

Definition boot : host sim :=
  match TcpShmServer_init (W := sim) (lit "server01") (lit "server_ptcp") with
  | Ret s => mkHost s (mkDisk ∅ ∅) two_logins []
  | _ => mkHost (mkServer [] [] 0 [] 0 [] [] []) (mkDisk ∅ ∅) two_logins []
  end.
Definition run (m : M (host sim) unit) (h : host sim) : host sim := match m h with Ret (_, h) => h | _ => h end.
Definition two_clients : host sim := run (PollCtl 2) (run (PollCtl 1) boot).

Lemma two_clients_reachable : server_reachable (lit "server01") (lit "server_ptcp") two_clients.
Proof.
  exists (mkDisk ∅ ∅), two_logins, boot. split.
  - eexists. split; [vm_compute; reflexivity | vm_compute; reflexivity].
  - eapply rtc_l; [apply (step_PollCtl 1 boot (run (PollCtl 1) boot)); vm_compute; reflexivity|].
    apply rtc_once, (step_PollCtl 2). vm_compute. reflexivity.
Qed.

Lemma server_invariant_witness :
  concat (conns <$> (shm_grps_ (server two_clients) ++ tcp_grps_ (server two_clients)))
    ≡ₚ range (zlen (conn_pool_ (server two_clients)))
  /\ Forall (grp_ok ((fun c => cstr (remote_name_ c)) <$> conn_pool_ (server two_clients)))
       (shm_grps_ (server two_clients) ++ tcp_grps_ (server two_clients))
  /\ zlen (new_conns_ (server two_clients)) = MaxNewConnections /\ 0 <= avail_idx_ (server two_clients) <= MaxNewConnections.
Proof. exact (server_invariant (lit "server01") (lit "server_ptcp") two_clients two_clients_reachable). Defined.

Definition client_conn (k : nat) : TcpShmConnection :=
  default (TcpShmConnection_init [] []) (conn_pool_ (server two_clients) !! k).

Lemma clients_share_nothing_witness :
  GetPtcpFile (client_conn 4) <> GetPtcpFile (client_conn 5)
  /\ shm_send_file (client_conn 4) <> shm_send_file (client_conn 5)
  /\ shm_recv_file (client_conn 4) <> shm_recv_file (client_conn 5).
Proof.
  refine (clients_share_nothing (lit "server01") (lit "server_ptcp") two_clients false 0 (mkGroup 2 [4; 5; 6; 7]) 0 1 4 5
            (client_conn 4) (client_conn 5) two_clients_reachable _ _ _ _ _ _ _); vm_compute; congruence.
Defined.
End Witnesses.
