(* ===== verification/ServerFds.v ===== *)
(** * The server owns its descriptors

    The open descriptors are, at every moment between two calls of the server,
    those the server is responsible for and those that were open before: it
    leaks none, closes none twice and none that is not its own. *)

From Stdlib Require Import String.
From stdpp Require Import relations gmap.
From S2P Require Import Prelude StateRes Endian MsgHeader Conf PTCPConn CString TcpShmConn SysIO Messages.
From S2P Require Import System ShmProbe Descriptors Server ServerShape ServerProps ServerTheorems.
From stdpp Require Import list_basics list_relations list.
Local Open Scope Z_scope.

(** ** The books

    [bk_slots] are the groups and new connections, without names; [bk_pool] is
    the descriptor each pooled connection owns. *)
Record books : Type := mkBooks {
  bk_slots : shape;
  bk_listen : Z;
  bk_pool : list Z;
  bk_opens : list Z
}.

(** Those that are descriptors. *)
Definition valid (l : list Z) : list Z := filter (fun fd => fd <> INVALID_TCP_SOCKET) l.
Definition owned (b : books) : list Z :=
  valid [bk_listen b] ++ valid (nc_fd <$> sh_new (bk_slots b)) ++ valid (bk_pool b).

(** Slots that are not live have a connection without a descriptor. *)
Definition grp_idle (pool : list Z) (x : ConnectionGroup) : Prop :=
  0 <= live_cnt x <= zlen (conns x) /\ zlen (conns x) < 2 ^ 32
  /\ forall j k, live_cnt x <= Z.of_nat j -> conns x !! j = Some k -> pool !! Z.to_nat k = Some INVALID_TCP_SOCKET.

Record balanced (others : list Z) (b : books) : Prop := {
  bal_opens : bk_opens b ≡ₚ owned b ++ others;
  bal_slots : slots_of (all_grps (bk_slots b)) ≡ₚ range (zlen (bk_pool b));
  bal_idle : Forall (grp_idle (bk_pool b)) (all_grps (bk_slots b))
}.

(** The arrays have their declared sizes, and the slot that [avail_idx_] names is
    free. *)
Definition sizes {params : ServerParams} (sl : shape) : Prop :=
  zlen (sh_new sl) = MaxNewConnections /\ length (sh_shm sl) = Z.to_nat MaxShmGrps /\ length (sh_tcp sl) = Z.to_nat MaxTcpGrps.
Definition avail_free {params : ServerParams} (b : books) : Prop :=
  let a := sh_avail (bk_slots b) in
  sizes (bk_slots b)
  /\ (a = MaxNewConnections \/ nc_fd <$> sh_new (bk_slots b) !! Z.to_nat a = Some INVALID_TCP_SOCKET).

(** *** Lists *)
Lemma valid_app l1 l2 : valid (l1 ++ l2) = valid l1 ++ valid l2.
Proof. apply filter_app. Qed.
Lemma valid_cons fd l : valid (fd :: l) = valid [fd] ++ valid l.
Proof. apply (valid_app [fd]). Qed.
Lemma valid_one fd : fd <> INVALID_TCP_SOCKET -> valid [fd] = [fd].
Proof. intros H. unfold valid. rewrite filter_cons_True by exact H. reflexivity. Qed.
Lemma valid_invalid : valid [INVALID_TCP_SOCKET] = [].
Proof. reflexivity. Qed.

Lemma valid_insert l i old new : l !! i = Some old -> valid [old] ++ valid (<[i := new]> l) ≡ₚ valid [new] ++ valid l.
Proof.
  intros E. rewrite insert_take_drop by (exact (lookup_lt_Some _ _ _ E)).
  rewrite <- (take_drop_middle l i old E) at 3.
  rewrite !valid_app, (valid_cons new (drop _ _)), (valid_cons old (drop _ _)).
  set (A := valid (take i l)). set (B := valid (drop (S i) l)). set (X := valid [old]). set (Y := valid [new]).
  rewrite (Permutation_app_comm A (Y ++ B)), (Permutation_app_comm A (X ++ B)), <- !app_assoc.
  rewrite (app_assoc X Y), (app_assoc Y X), (Permutation_app_comm X Y). reflexivity.
Qed.

Lemma valid_none l : Forall (fun fd => fd = INVALID_TCP_SOCKET) l -> valid l = [].
Proof.
  induction 1 as [|fd l E _ IH]; [reflexivity|]. rewrite valid_cons, E, valid_invalid. exact IH.
Qed.

(** *** Changing a group *)
Lemma balanced_groups (shm : bool) sl pool pool' g x x' :
  slots_of (all_grps sl) ≡ₚ range (zlen pool) -> Forall (grp_idle pool) (all_grps sl) ->
  sh_grps shm sl !! g = Some x -> conns x' ≡ₚ conns x -> zlen pool' = zlen pool ->
  (forall k, k ∈ range (zlen pool) -> k ∉ conns x -> pool' !! Z.to_nat k = pool !! Z.to_nat k) -> grp_idle pool' x' ->
  let sl' := sh_set_grp shm (Z.of_nat g) x' sl in
  slots_of (all_grps sl') ≡ₚ range (zlen pool') /\ Forall (grp_idle pool') (all_grps sl').
Proof.
  intros Hs Hi Hg HP Hl Hsame Hx' sl'. destruct (grps_split _ _ _ _ Hg) as (L1 & L2 & E & E').
  unfold sl'. rewrite E', Hl. rewrite E in Hs, Hi. split.
  - rewrite slots_of_cons, HP, <- Hs, slots_of_cons. reflexivity.
  - assert (HN : NoDup (slots_of (L1 ++ x :: L2))) by (rewrite Hs; apply range_NoDup).
    rewrite slots_of_cons in HN. apply NoDup_app in HN as (_ & H1 & HN). apply NoDup_app in HN as (_ & H2 & _).
    assert (Hother : forall y, y ∈ L1 ++ L2 -> grp_idle pool y -> grp_idle pool' y).
    { intros y Hy (A & B & C). split; [exact A|]. split; [exact B|]. intros j k Hj Hk.
      apply list_elem_of_lookup_2 in Hk as Hin. rewrite Hsame; [exact (C j k Hj Hk)| |].
      - rewrite <- Hs. apply elem_slots. exists y. split; [mem | exact Hin].
      - intros Hkx. apply elem_of_app in Hy as [Hy|Hy].
        + apply (H1 k); [apply elem_slots; eauto | mem].
        + apply (H2 k Hkx). apply elem_slots. eauto. }
    apply Forall_app in Hi as [Hi1 Hi]. apply Forall_cons in Hi as [_ Hi2]. rewrite Forall_forall in Hi1, Hi2.
    apply Forall_app. split; [|constructor; [exact Hx'|]]; apply Forall_forall; intros y Hy;
      apply Hother; (auto || mem).
Qed.

(** *** What keeps the books balanced *)
Definition wf_slots (b : books) : Prop :=
  slots_of (all_grps (bk_slots b)) ≡ₚ range (zlen (bk_pool b)) /\ Forall (grp_idle (bk_pool b)) (all_grps (bk_slots b)).

Lemma valid_gain l i fd : l !! i = Some INVALID_TCP_SOCKET -> fd <> INVALID_TCP_SOCKET -> valid (<[i := fd]> l) ≡ₚ fd :: valid l.
Proof. intros E Hfd. pose proof (valid_insert l i _ fd E) as H. rewrite (valid_one fd Hfd) in H. exact H. Qed.
Lemma valid_lose l i fd : l !! i = Some fd -> fd <> INVALID_TCP_SOCKET ->
  valid l ≡ₚ fd :: valid (<[i := INVALID_TCP_SOCKET]> l).
Proof. intros E Hfd. pose proof (valid_insert l i fd INVALID_TCP_SOCKET E) as H. rewrite (valid_one fd Hfd) in H. symmetry. exact H. Qed.

Lemma grp_member b shm g x j k : wf_slots b -> sh_grps shm (bk_slots b) !! g = Some x -> conns x !! j = Some k ->
  0 <= k < zlen (bk_pool b) /\ NoDup (conns x) /\ grp_idle (bk_pool b) x /\ Forall (fun k => 0 <= k < zlen (bk_pool b)) (conns x).
Proof.
  intros [Hs Hi] Hg Hj. destruct (grps_split _ _ _ _ Hg) as (L1 & L2 & E & _). rewrite E in Hs, Hi.
  apply Forall_app in Hi as [_ Hi]. apply Forall_cons in Hi as [Hi _].
  assert (HN : NoDup (slots_of (L1 ++ x :: L2))) by (rewrite Hs; apply range_NoDup).
  rewrite slots_of_cons in HN. apply NoDup_app in HN as (_ & _ & HN). apply NoDup_app in HN as (HN & _).
  assert (Hr : Forall (fun k => 0 <= k < zlen (bk_pool b)) (conns x)).
  { apply Forall_forall. intros k' Hk'. apply elem_range. rewrite <- Hs, slots_of_cons. mem. }
  split; [|auto]. rewrite Forall_forall in Hr. apply Hr. exact (list_elem_of_lookup_2 _ _ _ Hj).
Qed.

Lemma grp_idle_release pool k x : (Z.to_nat k < length pool)%nat -> grp_idle pool x ->
  grp_idle (<[Z.to_nat k := INVALID_TCP_SOCKET]> pool) x.
Proof.
  intros Hk (A & B & C). split; [exact A|]. split; [exact B|]. intros j k' Hj Hk'.
  destruct (decide (Z.to_nat k' = Z.to_nat k)) as [->|Hne].
  - apply list_lookup_insert_eq. exact Hk.
  - rewrite list_lookup_insert_ne by congruence. exact (C j k' Hj Hk').
Qed.

Lemma balanced_release F b k fd opens' : balanced F b -> bk_pool b !! Z.to_nat k = Some fd ->
  (if fd =? INVALID_TCP_SOCKET then opens' = bk_opens b else bk_opens b ≡ₚ fd :: opens') ->
  balanced F (mkBooks (bk_slots b) (bk_listen b) (<[Z.to_nat k := INVALID_TCP_SOCKET]> (bk_pool b)) opens').
Proof.
  intros [Ho Hs Hi] Hk Hc. pose proof (lookup_lt_Some _ _ _ Hk) as Hl. split; cbn.
  - unfold owned in *. cbn in *. destruct (Z.eqb_spec fd INVALID_TCP_SOCKET) as [->|Hfd].
    + rewrite Hc, list_insert_id by exact Hk. exact Ho.
    + rewrite (valid_lose _ _ _ Hk Hfd) in Ho. rewrite Hc in Ho. apply (Permutation_cons_inv (a := fd)).
      rewrite Ho. rewrite <- !app_assoc. cbn. rewrite <- !Permutation_middle. reflexivity.
  - rewrite length_insert. exact Hs.
  - eapply Forall_impl; [exact Hi|]. intros x. apply grp_idle_release. exact Hl.
Qed.

Lemma sh_set_grp_new shm g x sl : sh_new (sh_set_grp shm g x sl) = sh_new sl.
Proof. destruct shm; reflexivity. Qed.
Lemma sh_set_grp_avail shm g x sl : sh_avail (sh_set_grp shm g x sl) = sh_avail sl.
Proof. destruct shm; reflexivity. Qed.

Lemma balanced_regroup F b shm g x x' : balanced F b -> 0 <= g -> sh_grps shm (bk_slots b) !! Z.to_nat g = Some x ->
  conns x' ≡ₚ conns x -> grp_idle (bk_pool b) x' ->
  balanced F (mkBooks (sh_set_grp shm g x' (bk_slots b)) (bk_listen b) (bk_pool b) (bk_opens b)).
Proof.
  intros [Ho Hs Hi] Hg0 Hg HP Hx'.
  destruct (balanced_groups shm _ _ (bk_pool b) _ x x' Hs Hi Hg HP eq_refl (fun _ _ _ => eq_refl) Hx') as [H1 H2].
  rewrite Z2Nat.id in H1, H2 by exact Hg0. split; cbn; [|exact H1 | exact H2].
  unfold owned in *. cbn. rewrite sh_set_grp_new. exact Ho.
Qed.

(** Swapping slot [i] with slot [last], where the live ones end before or after
    it. *)
Lemma swap_lookup (l : list Z) i last l' j : swap l i last = Ret l' -> 0 <= i -> 0 <= last ->
  l' !! j = (if decide (j = Z.to_nat last) then l !! Z.to_nat i
             else if decide (j = Z.to_nat i) then l !! Z.to_nat last else l !! j).
Proof.
  intros E Hi Hl. apply swap_Ret in E as (a & c & Ea & Ec & ->). apply lookup_lt_Some in Ea as La, Ec as Lc.
  destruct (decide (j = Z.to_nat last)) as [->|H1].
  - rewrite list_lookup_insert_eq by (rewrite length_insert; exact Lc). symmetry. exact Ea.
  - rewrite list_lookup_insert_ne by congruence. destruct (decide (j = Z.to_nat i)) as [->|H2].
    + rewrite list_lookup_insert_eq by exact La. symmetry. exact Ec.
    + apply list_lookup_insert_ne. congruence.
Qed.

Lemma swap_same (l : list Z) i last l' : swap l i last = Ret l' -> 0 <= i -> 0 <= last -> l' ≡ₚ l /\ i < zlen l /\ last < zlen l.
Proof.
  intros E Hi Hl. pose proof E as E0. apply swap_Ret in E0 as (a & c & Ea & Ec & _).
  apply lookup_lt_Some in Ea, Ec. rewrite <- (app_nil_r l) in E.
  apply swap_app in E as (l1 & -> & HP); [|lia|lia]. rewrite app_nil_r. split; [exact HP | lia].
Qed.

Lemma live_idle b shm g x i k fd l : wf_slots b -> sh_grps shm (bk_slots b) !! g = Some x ->
  live_cnt x <= i -> conns x !! Z.to_nat i = Some k -> swap (conns x) i (live_cnt x) = Ret l ->
  grp_idle (<[Z.to_nat k := fd]> (bk_pool b)) (mkGroup (u32 (live_cnt x + 1)) l) /\ l ≡ₚ conns x.
Proof.
  intros Hwf Hg Hi Hk Es. destruct (grp_member _ _ _ _ _ _ Hwf Hg Hk) as (_ & HN & ((H1 & H2) & H3 & Hidle) & Hr).
  destruct (swap_same _ _ _ _ Es ltac:(lia) H1) as (HP & Hil & Hll). split; [|exact HP].
  pose proof (Permutation_length HP) as HL. rewrite u32_id by (unfold in_u32; lia). split; [cbn; lia|]. split; [cbn; lia|].
  cbn [conns live_cnt]. intros j k' Hj Hk'. rewrite (swap_lookup _ _ _ _ j Es ltac:(lia) H1) in Hk'.
  destruct (decide (j = Z.to_nat (live_cnt x))); [lia|].
  assert (Hm : exists m, live_cnt x <= Z.of_nat m /\ m <> Z.to_nat i /\ conns x !! m = Some k').
  { destruct (decide (j = Z.to_nat i)); [exists (Z.to_nat (live_cnt x)) | exists j]; repeat split; try assumption; lia. }
  destruct Hm as (m & Hm1 & Hm2 & Hm3). rewrite list_lookup_insert_ne; [exact (Hidle m k' Hm1 Hm3)|].
  intros Hkk. apply Hm2. apply (NoDup_lookup _ _ _ k HN); [|exact Hk]. rewrite Hm3. f_equal.
  rewrite Forall_lookup in Hr. pose proof (Hr _ _ Hm3). pose proof (Hr _ _ Hk). lia.
Qed.

Lemma demote_idle b shm g x i k l : wf_slots b -> sh_grps shm (bk_slots b) !! g = Some x -> 0 <= i < live_cnt x ->
  conns x !! Z.to_nat i = Some k -> bk_pool b !! Z.to_nat k = Some INVALID_TCP_SOCKET ->
  swap (conns x) i (u32 (live_cnt x - 1)) = Ret l ->
  grp_idle (bk_pool b) (mkGroup (u32 (live_cnt x - 1)) l) /\ l ≡ₚ conns x.
Proof.
  intros Hwf Hg Hi Hk Hfree. destruct (grp_member _ _ _ _ _ _ Hwf Hg Hk) as (_ & _ & ((H1 & H2) & H3 & Hidle) & _).
  rewrite u32_id by (unfold in_u32; lia). intros Es.
  destruct (swap_same _ _ _ _ Es ltac:(lia) ltac:(lia)) as (HP & _ & _). split; [|exact HP].
  pose proof (Permutation_length HP) as HL. split; [cbn; lia|]. split; [cbn; lia|].
  cbn [conns live_cnt]. intros j k' Hj Hk'. rewrite (swap_lookup _ _ _ _ j Es ltac:(lia) ltac:(lia)) in Hk'.
  destruct (decide (j = Z.to_nat (live_cnt x - 1))) as [->|Hne]; [congruence|].
  destruct (decide (j = Z.to_nat i)); [lia|]. apply (Hidle j k'); [lia | exact Hk'].
Qed.

(** ** Computations and the books *)
Lemma hoare_ex {S A X} (P : X -> S -> Prop) (m : M S A) Q :
  (forall x, hoare (P x) m Q) -> hoare (fun s => exists x, P x s) m Q.
Proof. intros H s a s' [x Hx] E. exact (H x s a s' Hx E). Qed.
Lemma hoare_pure_l {S A} (phi : Prop) (P : S -> Prop) (m : M S A) Q :
  (phi -> hoare P m Q) -> hoare (fun s => phi /\ P s) m Q.
Proof. intros H s a s' [Hphi HP] E. exact (H Hphi s a s' HP E). Qed.

(** The user of a connection opens and closes nothing. *)
Class AppFds (W : Type) {sockets : Sockets W} {mmap : Mmap W} {system : System W} {probes : ProbeMemory W}
    {ledger : Descriptors W} {app : App W} : Prop := {
  OnClientMsg_fd p c d w c' d' w' :
    OnClientMsg p c d w = Ret (c', d', w') -> owned_fd c' = owned_fd c /\ opens w' = opens w;
  OnNewConnection_opens addr login rsp w : opens (snd (OnNewConnection addr login rsp w)) = opens w
}.

Section Calls.
Context {platform : Platform} {conf : Conf} {params : ServerParams} {W : Type}.
Context {sockets : Sockets W} {mmap : Mmap W} {system : System W} {probes : ProbeMemory W} {ledger : Descriptors W}.
Context {app : App W}.
Implicit Types (h : host W) (b : books).

Definition slots_only (s : TcpShmServer) : shape :=
  mkShape [] (shm_grps_ s) (tcp_grps_ s) (new_conns_ s) (avail_idx_ s) ([], []).
Definition books_of h : books :=
  mkBooks (slots_only (server h)) (listenfd_ (server h)) (owned_fd <$> conn_pool_ (server h)) (opens (os h)).
Definition at_ b h : Prop := books_of h = b.

Definition bk_set_pool (k fd : Z) b : books := mkBooks (bk_slots b) (bk_listen b) (<[Z.to_nat k := fd]> (bk_pool b)) (bk_opens b).
Definition bk_set_opens (l : list Z) b : books := mkBooks (bk_slots b) (bk_listen b) (bk_pool b) l.
Definition bk_set_slots (sl : shape) b : books := mkBooks sl (bk_listen b) (bk_pool b) (bk_opens b).
Definition bk_set_listen (fd : Z) b : books := mkBooks (bk_slots b) fd (bk_pool b) (bk_opens b).

Lemma bk_set_pool_id k fd b : bk_pool b !! Z.to_nat k = Some fd -> bk_set_pool k fd b = b.
Proof using Type. intros E. unfold bk_set_pool. rewrite list_insert_id by exact E. destruct b. reflexivity. Qed.

(** *** Primitives *)
Lemma still_report e : still books_of (report e).
Proof using Type. apply still_modify. reflexivity. Qed.
Lemma still_io {A} (m : M W A) : still opens m -> still books_of (io m).
Proof using Type. apply still_zoom. intros h w E. unfold books_of. cbn. rewrite E. reflexivity. Qed.
Lemma still_conn_at k : still books_of (conn_at (W := W) k).
Proof using Type. unfold conn_at, member_. stilly. Qed.
Lemma still_conn_op {A} k (f : TcpShmConnection -> disk -> W -> res (A * TcpShmConnection * disk * W)) :
  keeps_fd f -> still books_of (conn_op k f).
Proof using Type.
  intros Hf h a h' E. unfold conn_op in E.
  apply M_bind_Ret in E as (c & h1 & Ec & E). apply M_bind_Ret in Ec as (p & h0 & [= <- <-] & Ec).
  apply bind_Ret in Ec as (c0 & Ec & [= <- <-]). apply ld_Ret in Ec as [Hk Ec].
  apply M_bind_Ret in E as ([a1 c1] & h2 & Ef & E). apply bind_Ret in Ef as ([[[a2 c2] d2] w2] & Ef & [= <- <- <-]).
  apply Hf in Ef as [Hfd Ho]. apply M_bind_Ret in E as (u & h3 & Es & [= <- <-]).
  apply M_bind_Ret in Es as (p & h4 & [= <- <-] & Es). apply M_bind_Ret in Es as (p' & h5 & Es & [= <- <-]).
  apply bind_Ret in Es as (p2 & Es & [= <- <-]). apply st_Ret in Es as [_ ->].
  unfold books_of. cbn. rewrite list_fmap_insert, Ho. f_equal. apply list_insert_id.
  rewrite list_lookup_fmap, Ec. cbn. rewrite Hfd. reflexivity.
Qed.

Lemma at_bind {A B} b (m : M (host W) A) (f : A -> M (host W) B) Q :
  still books_of m -> (forall a, hoare (at_ b) (f a) Q) -> hoare (at_ b) (m ≫= f) Q.
Proof using Type.
  intros Hm Hf. apply (hoare_bind _ _ (fun _ => at_ b)); [|exact Hf].
  intros h a h' Hh E. unfold at_. rewrite (Hm _ _ _ E). exact Hh.
Qed.
Lemma at_still {A} b (m : M (host W) A) (Q : A -> host W -> Prop) :
  still books_of m -> (forall a h, at_ b h -> Q a h) -> hoare (at_ b) m Q.
Proof using Type. intros Hm HQ h a h' Hh E. apply HQ. unfold at_. rewrite (Hm _ _ _ E). exact Hh. Qed.

Lemma at_lift {A B} b (r : res A) (f : A -> M (host W) B) Q :
  (forall a, r = Ret a -> hoare (at_ b) (f a) Q) -> hoare (at_ b) (lift r ≫= f) Q.
Proof using Type.
  intros H h x h' Hh E. apply M_bind_Ret in E as (a & h1 & E1 & E). apply bind_Ret in E1 as (a' & Er & [= <- <-]).
  exact (H a' Er _ _ _ Hh E).
Qed.

Lemma at_conn {B} b k (f : TcpShmConnection -> M (host W) B) Q :
  (forall c, 0 <= k -> bk_pool b !! Z.to_nat k = Some (owned_fd c) -> hoare (at_ b) (f c) Q) ->
  hoare (at_ b) (conn_at k ≫= f) Q.
Proof using Type.
  intros H h x h' Hh E. apply M_bind_Ret in E as (c & h1 & E1 & E). apply M_bind_Ret in E1 as (p & h2 & [= <- <-] & E1).
  apply bind_Ret in E1 as (c' & Ec & [= <- <-]). apply ld_Ret in Ec as [Hk Ec]. refine (H c' Hk _ _ _ _ Hh E).
  rewrite <- Hh. cbn. rewrite list_lookup_fmap, Ec. reflexivity.
Qed.

Lemma at_grp {B} b shm g (f : ConnectionGroup -> M (host W) B) Q :
  (forall x, 0 <= g -> sh_grps shm (bk_slots b) !! Z.to_nat g = Some x -> hoare (at_ b) (f x) Q) ->
  hoare (at_ b) (grp_at shm g ≫= f) Q.
Proof using Type.
  intros H h x h' Hh E. apply M_bind_Ret in E as (y & h1 & E1 & E). apply M_bind_Ret in E1 as (p & h2 & [= <- <-] & E1).
  apply bind_Ret in E1 as (y' & Ey & [= <- <-]). apply ld_Ret in Ey as [Hg Ey]. refine (H y' Hg _ _ _ _ Hh E).
  rewrite <- Hh. destruct shm; exact Ey.
Qed.

Lemma at_store_conn b k c : hoare (at_ b) (store_conn k c) (fun _ => at_ (bk_set_pool k (owned_fd c) b)).
Proof using Type.
  intros h x h' <- E. apply M_bind_Ret in E as (p & h2 & [= <- <-] & E).
  apply M_bind_Ret in E as (p' & h3 & E1 & [= <- <-]). apply bind_Ret in E1 as (p2 & E1 & [= <- <-]).
  apply st_Ret in E1 as [_ ->]. unfold at_, books_of, bk_set_pool. cbn. rewrite list_fmap_insert. reflexivity.
Qed.

Lemma at_store_grp b shm g x :
  hoare (at_ b) (store_grp shm g x) (fun _ => at_ (bk_set_slots (sh_set_grp shm g x (bk_slots b)) b)).
Proof using Type.
  intros h u h' <- E. apply M_bind_Ret in E as (p & h2 & [= <- <-] & E).
  apply M_bind_Ret in E as (p' & h3 & E1 & [= <- <-]). apply bind_Ret in E1 as (p2 & E1 & [= <- <-]).
  apply st_Ret in E1 as [_ ->]. unfold at_, books_of. destruct shm; reflexivity.
Qed.

(** An operation of a connection that may change its descriptor. *)
Lemma at_conn_op {A} b k (f : TcpShmConnection -> disk -> W -> res (A * TcpShmConnection * disk * W))
    (R : A -> Z -> W -> Z -> W -> Prop) :
  (forall c d w a c' d' w', f c d w = Ret (a, c', d', w') -> R a (owned_fd c) w (owned_fd c') w') ->
  hoare (at_ b) (conn_op k f) (fun a h => exists fd w fd' w', 0 <= k /\ bk_pool b !! Z.to_nat k = Some fd
    /\ opens w = bk_opens b /\ R a fd w fd' w' /\ at_ (bk_set_opens (opens w') (bk_set_pool k fd' b)) h).
Proof using Type.
  intros Hf. apply at_conn. intros c Hk Hc h a h' Hh E.
  apply M_bind_Ret in E as ([a1 c1] & h2 & Ef & E). apply bind_Ret in Ef as ([[[a2 c2] d2] w2] & Ef & [= <- <- <-]).
  apply Hf in Ef. apply M_bind_Ret in E as (u & h3 & Es & [= <- <-]).
  exists (owned_fd c), (os h), (owned_fd c2), w2. split; [exact Hk|]. split; [exact Hc|].
  split; [rewrite <- Hh; reflexivity|]. split; [exact Ef|].
  refine (at_store_conn (bk_set_opens (opens w2) b) k c2 _ u _ _ Es). unfold at_. rewrite <- Hh. reflexivity.
Qed.
End Calls.
#[export] Hint Resolve still_report still_io still_conn_at still_conn_op : still.

(** ** Login *)
Section Login.
Context {platform : Platform} {conf : Conf} {params : ServerParams} {W : Type}.
Context {sockets : Sockets W} {mmap : Mmap W} {system : System W} {probes : ProbeMemory W} {ledger : Descriptors W}.
Context {app : App W} {app_fds : AppFds W}.
Implicit Types (h : host W) (b : books).

Lemma still_member {A} (f : TcpShmServer -> A) : still books_of (member_ (W := W) f).
Proof using Type. apply still_gets. Qed.
Lemma still_SendLoginRsp fd hd rsp : still opens (SendLoginRsp (W := W) fd hd rsp).
Proof using Type. unfold SendLoginRsp. stilly. Qed.
Lemma still_VerifyShmProbe self name fd cname : still opens (VerifyShmProbe (W := W) self name fd cname).
Proof using Type.
  unfold VerifyShmProbe, MakeShmProbeToken, SendShmProbeReq, RecvAndCheckShmProbeRsp. stilly.
Qed.
#[local] Hint Resolve still_member still_SendLoginRsp still_VerifyShmProbe : still.

Lemma still_reject fd rsp msg : still books_of (reject (W := W) fd rsp msg).
Proof using Type. unfold reject. stilly. Qed.

Lemma still_login_seqs changed k hd login : still books_of (login_seqs (W := W) changed k hd login).
Proof using Type.
  unfold login_seqs. destruct changed; [|stilly]. apply still_bind; [|stilly]. apply still_conn_op.
  intros c d w a c' d' w' E. apply bind_Ret in E as ([c1 d1] & E & [= _ <- _ <-]).
  split; [exact (Reset_fd _ _ _ _ E) | reflexivity].
Qed.
Lemma still_OpenFile shm k :
  still books_of (conn_op (W := W) k (fun c d w => let '(e, c, d, w) := TS_OpenFile shm c d w in Ret (e, c, d, w))).
Proof using Type.
  apply still_conn_op. intros c d w a c' d' w' E. destruct (TS_OpenFile shm c d w) as [[[e c1] d1] w1] eqn:Eo.
  injection E as _ <- _ <-. exact (OpenFile_fd _ _ _ _ _ _ _ _ Eo).
Qed.
#[local] Hint Resolve still_reject still_login_seqs still_OpenFile : still.

(** Slot [i] of the group, connection [k], goes live with descriptor [fd]. *)
Definition goes_live shm g i k fd b b' : Prop := exists x l,
  0 <= g /\ 0 <= k /\ sh_grps shm (bk_slots b) !! Z.to_nat g = Some x /\ live_cnt x <= i
  /\ swap (conns x) i (live_cnt x) = Ret l
  /\ b' = bk_set_slots (sh_set_grp shm g (mkGroup (u32 (live_cnt x + 1)) l) (bk_slots b)) (bk_set_pool k fd b).

(** [true]: the connection has the descriptor; [false]: nothing happened. *)
Definition may_take (P : books -> books -> Prop) b (taken : bool) h : Prop :=
  if taken then P b (books_of h) else at_ b h.

Lemma take_not P b (m : M (host W) bool) :
  still books_of m -> (forall h t h', m h = Ret (t, h') -> t = false) -> hoare (at_ b) m (may_take P b).
Proof using Type.
  intros Hm Hf h t h' Hh E. pose proof (Hf _ _ _ E) as ->. unfold may_take, at_. rewrite (Hm _ _ _ E). exact Hh.
Qed.
Lemma reject_false fd rsp msg h t h' : reject fd rsp msg h = Ret (t, h') -> t = false.
Proof using Type.
  intros E. apply M_bind_Ret in E as (e & h1 & _ & E). apply M_bind_Ret in E as (u & h2 & _ & [= <- _]). reflexivity.
Qed.
Lemma take_reject P b fd rsp msg : hoare (at_ b) (reject fd rsp msg) (may_take P b).
Proof using Type. apply take_not; [auto with still | apply reject_false]. Qed.
Lemma take_false P b : hoare (at_ b) (mret false) (may_take P b).
Proof using Type. apply hoare_ret. auto. Qed.
#[local] Hint Resolve take_reject take_false : still.

Lemma login_slot_takes now fd addr header login rsp g i k b :
  hoare (at_ b) (login_slot now fd addr header login rsp g i k)
    (may_take (goes_live (negb (use_shm login =? 0)) g i k fd) b).
Proof using Type.
  set (shm := negb _). unfold login_slot. fold shm. apply at_grp. intros x Hg Hx.
  destruct (Z.ltb_spec i (live_cnt x)); [apply take_reject|].
  apply at_bind; [apply still_OpenFile|]. intros [e|].
  { apply at_bind; [stilly|]. intros e'. apply at_bind; [stilly|]. intros _. apply take_reject. }
  apply at_bind; [stilly|]. intros name. apply at_bind; [stilly|].
  intros [[[[la ls] le] [[ra rs] re]]|]; [|apply at_bind; [stilly|]; intros _; apply take_reject].
  cbv zeta. destruct (_ || _).
  { apply at_bind; [stilly|]. intros _. apply at_bind; [stilly|]. intros _. apply take_false. }
  apply at_bind; [stilly|]. intros sent. destruct (negb sent); [apply take_false|].
  apply at_bind; [stilly|]. intros _.
  eapply hoare_bind.
  { apply (at_conn_op b k _ (fun _ fd0 w fd' w' => fd' = fd /\ opens w' = opens w)).
    intros c d w a c' d' w' E. apply bind_Ret in E as ([c1 w1] & E & [= _ <- _ <-]). exact (Open_fd _ _ _ _ _ _ _ E). }
  intros u1. cbv beta. do 4 (apply hoare_ex; intros ?). apply hoare_pure_l. intros Hk.
  apply hoare_pure_l. intros _. apply hoare_pure_l. intros Hw. apply hoare_pure_l. intros [-> Ho].
  rewrite Ho, Hw. change (bk_set_opens (bk_opens b) (bk_set_pool k fd b)) with (bk_set_pool k fd b).
  apply at_grp. intros x' _ Hx'. change (bk_slots (bk_set_pool k fd b)) with (bk_slots b) in *.
  rewrite Hx in Hx'. injection Hx' as <-. apply at_lift. intros l El.
  eapply hoare_bind; [apply at_store_grp|]. intros u2. cbv beta. apply at_bind; [stilly|]. intros _.
  apply hoare_ret. intros h Hh. exists x, l. unfold at_ in Hh. rewrite Hh. repeat split; try assumption; reflexivity.
Qed.

(** The slot is one of the group. *)
Definition login_takes shm g fd b b' : Prop := exists i k x,
  sh_grps shm (bk_slots b) !! Z.to_nat g = Some x /\ 0 <= i /\ conns x !! Z.to_nat i = Some k /\ goes_live shm g i k fd b b'.

Lemma login_slots_takes now fd addr header login rsp g b : forall slots,
  Forall (fun i => 0 <= i) slots ->
  hoare (at_ b) (login_slots now fd addr header login rsp g slots)
    (may_take (login_takes (negb (use_shm login =? 0)) g fd) b).
Proof using Type.
  set (shm := negb _). induction slots as [|i slots IH]; intros Hpos; cbn [login_slots]; [apply take_reject|].
  apply Forall_cons in Hpos as [Hi Hpos]. specialize (IH Hpos).
  fold shm. apply at_grp. intros x Hg Hx. apply at_lift. intros k Ek. apply ld_Ret in Ek as [_ Ek].
  apply at_conn. intros c Hk Hc. apply at_lift. intros first _.
  apply at_bind; [stilly|]. intros name.
  eapply hoare_bind; [apply at_store_conn|]. intros u1. cbv beta. change (owned_fd (set_remote name c)) with (owned_fd c).
  rewrite (bk_set_pool_id k (owned_fd c) b Hc).
  destruct (negb (strncmp_eq _ _ _)); [exact IH|].
  eapply hoare_weaken; [apply (login_slot_takes _ _ _ _ _ _ _ _ _ b) | auto|]. intros t h Ht. destruct t; [|exact Ht].
  exists i, k, x. auto.
Qed.

Lemma HandleLogin_takes now fd addr header login b :
  hoare (at_ b) (HandleLogin now fd addr header login)
    (may_take (fun b b' => exists shm g, login_takes shm g fd b b') b).
Proof using app_fds.
  unfold HandleLogin. apply at_bind; [stilly|]. intros name. apply at_lift. intros a _. cbv zeta.
  apply at_lift. intros first _. destruct (first =? 0); [apply take_reject|]. apply at_lift. intros n _.
  apply at_bind; [stilly|]. intros probed. destruct (negb probed); [apply take_reject|].
  apply at_bind. { apply still_io, still_call. intros w. apply OnNewConnection_opens. }
  intros [grpid rsp]. destruct (grpid <? 0).
  - apply at_lift. intros e _. destruct (e =? 0); [apply take_reject|].
    apply at_bind; [stilly|]. intros _. apply take_false.
  - apply at_grp. intros x _ _. eapply hoare_weaken; [apply (login_slots_takes _ _ _ _ _ _ _ b) | auto|].
    + apply Forall_forall. intros i Hi. apply elem_range in Hi. lia.
    + intros t h Ht. destruct t; [|exact Ht]. eexists _, _. exact Ht.
Qed.
End Login.

(** ** Every call keeps the books balanced *)
Section Balance.
Context {platform : Platform} {conf : Conf} {params : ServerParams} {W : Type}.
Context {sockets : Sockets W} {mmap : Mmap W} {system : System W} {probes : ProbeMemory W} {ledger : Descriptors W}.
Context {app : App W} {app_fds : AppFds W}.
Implicit Types (h : host W) (b : books) (F : list Z).

Definition bal F h : Prop := balanced F (books_of h) /\ avail_free (books_of h).

Lemma bal_at {A} F (m : M (host W) A) Q :
  (forall b, balanced F b -> avail_free b -> hoare (at_ b) m Q) -> hoare (bal F) m Q.
Proof using Type. intros H h a h' [H1 H2] E. exact (H _ H1 H2 h a h' eq_refl E). Qed.
Lemma bal_still {A} F (m : M (host W) A) : still books_of m -> hoare (bal F) m (fun _ => bal F).
Proof using Type. intros Hm h a h' H E. unfold bal. rewrite (Hm _ _ _ E). exact H. Qed.
Lemma at_bal F b h : balanced F b -> avail_free b -> at_ b h -> bal F h.
Proof using Type. intros H1 H2 Hh. unfold bal. rewrite Hh. auto. Qed.

Lemma balanced_wf F b : balanced F b -> wf_slots b.
Proof using Type. intros [_ H1 H2]. split; assumption. Qed.

(** *** New connections *)
Definition bk_new (i : Z) (n : NewConn) (a : Z) b : books :=
  let sl := bk_slots b in
  mkBooks (mkShape (sh_names sl) (sh_shm sl) (sh_tcp sl) (<[Z.to_nat i := n]> (sh_new sl)) a (sh_me sl))
    (bk_listen b) (bk_pool b) (bk_opens b).

Lemma sizes_new b i n a : sizes (bk_slots b) -> sizes (bk_slots (bk_new i n a b)).
Proof using Type. intros (A & B & C). split; [cbn; rewrite length_insert; exact A | auto]. Qed.
Lemma sizes_set_grp shm g x sl : sizes sl -> sizes (sh_set_grp shm g x sl).
Proof using Type.
  intros (A & B & C). unfold sizes. rewrite sh_set_grp_new. split; [exact A|].
  destruct shm; cbn; rewrite length_insert; auto.
Qed.

Lemma at_store_new b i n a :
  hoare (at_ b) (_ ← store_new_conn i n; assign (set_avail a))
    (fun _ h => 0 <= i < zlen (sh_new (bk_slots b)) /\ at_ (bk_new i n a b) h).
Proof using Type.
  intros h u h' <- E. apply M_bind_Ret in E as (v & h1 & E1 & [= _ <-]).
  apply M_bind_Ret in E1 as (p & h2 & [= <- <-] & E1). apply M_bind_Ret in E1 as (p' & h3 & E2 & [= <- <-]).
  apply bind_Ret in E2 as (p2 & E2 & [= <- <-]). apply st_Ret in E2 as [Hi ->]. split; [exact Hi | reflexivity].
Qed.
Lemma at_store_new_only b i n :
  hoare (at_ b) (store_new_conn i n)
    (fun _ h => 0 <= i < zlen (sh_new (bk_slots b)) /\ at_ (bk_new i n (sh_avail (bk_slots b)) b) h).
Proof using Type.
  intros h u h' <- E1. apply M_bind_Ret in E1 as (p & h2 & [= <- <-] & E1). apply M_bind_Ret in E1 as (p' & h3 & E2 & [= <- <-]).
  apply bind_Ret in E2 as (p2 & E2 & [= <- <-]). apply st_Ret in E2 as [Hi ->]. split; [exact Hi | reflexivity].
Qed.

Lemma at_new_conn {B} b i (f : NewConn -> M (host W) B) Q :
  (forall nc, 0 <= i -> sh_new (bk_slots b) !! Z.to_nat i = Some nc -> hoare (at_ b) (f nc) Q) ->
  hoare (at_ b) (new_conn_at i ≫= f) Q.
Proof using Type.
  intros H h x h' Hh E. apply M_bind_Ret in E as (c & h1 & E1 & E). apply M_bind_Ret in E1 as (p & h2 & [= <- <-] & E1).
  apply bind_Ret in E1 as (c' & Ec & [= <- <-]). apply ld_Ret in Ec as [Hk Ec]. refine (H c' Hk _ _ _ _ Hh E).
  rewrite <- Hh. exact Ec.
Qed.

Lemma at_member {A B} b (f : TcpShmServer -> A) (g : A -> M (host W) B) Q :
  (forall h, at_ b h -> hoare (at_ b) (g (f (server h))) Q) -> hoare (at_ b) (member_ f ≫= g) Q.
Proof using Type. intros H h x h' Hh E. exact (H h Hh h x h' Hh E). Qed.

(** The descriptor of new connection [i] changes, and the open ones with it. *)
Lemma balanced_new F b i n nc a opens' : balanced F b -> sh_new (bk_slots b) !! Z.to_nat i = Some nc ->
  valid [nc_fd n] ++ bk_opens b ≡ₚ valid [nc_fd nc] ++ opens' ->
  balanced F (bk_set_opens opens' (bk_new i n a b)).
Proof using Type.
  intros [Ho Hs Hi] Hnc Hc. split; cbn; [|exact Hs | exact Hi]. unfold owned in *. cbn. rewrite list_fmap_insert.
  assert (E : (nc_fd <$> sh_new (bk_slots b)) !! Z.to_nat i = Some (nc_fd nc)) by (rewrite list_lookup_fmap, Hnc; reflexivity).
  pose proof (valid_insert _ _ _ (nc_fd n) E) as HV. rewrite Ho in Hc.
  set (N := valid (nc_fd <$> sh_new (bk_slots b))) in *. set (N' := valid (<[Z.to_nat i := nc_fd n]> _)) in *.
  set (L := valid [bk_listen b]) in *. set (P := valid (bk_pool b)) in *.
  apply (Permutation_app_inv_l (valid [nc_fd nc])). rewrite <- Hc.
  rewrite <- !app_assoc. rewrite (app_assoc _ L), (app_assoc (valid [nc_fd nc]) L).
  rewrite (Permutation_app_comm (valid [nc_fd n]) L), (Permutation_app_comm (valid [nc_fd nc]) L).
  rewrite <- !app_assoc. apply Permutation_app_head. rewrite !app_assoc. do 2 apply Permutation_app_tail. symmetry. exact HV.
Qed.

Lemma accept_one_bal F now : hoare (bal F) (accept_one now) (fun _ => bal F).
Proof using Type.
  apply bal_at. intros b Hb Ha. unfold accept_one. apply at_member. intros h0 Hh0.
  assert (Eav : avail_idx_ (server h0) = sh_avail (bk_slots b)) by (rewrite <- Hh0; reflexivity). rewrite Eav.
  set (a := sh_avail (bk_slots b)). apply hoare_when; [|intros _ h Hh; exact (at_bal F b h Hb Ha Hh)].
  intros Hmax. apply negb_true_iff, Z.eqb_neq in Hmax. apply at_new_conn. intros nc Ha0 Hnc.
  assert (Hfree : nc_fd nc = INVALID_TCP_SOCKET).
  { destruct Ha as [_ [Ha|Ha]]; [contradiction|]. fold a in Ha. rewrite Hnc in Ha. injection Ha as Ha. exact Ha. }
  apply at_member. intros h1 Hh1.
  apply (hoare_bind _ _ (fun r h => if fst r =? INVALID_TCP_SOCKET then at_ b h
           else exists o', at_ (bk_set_opens o' b) h /\ o' ≡ₚ fst r :: bk_opens b)).
  { intros h [fd addr] h' Hh E. apply bind_Ret in E as ([[r1 r2] w] & [= E] & [= <- <- <-]). apply accept_opens in E. cbn [fst].
    destruct (Z.eqb_spec r1 INVALID_TCP_SOCKET).
    - unfold at_ in *. rewrite <- Hh. unfold books_of. cbn. rewrite E. reflexivity.
    - exists (opens w). unfold at_ in *. rewrite <- Hh. split; [reflexivity | exact E]. }
  intros [fd addr]. cbn [fst]. destruct (Z.eqb_spec fd INVALID_TCP_SOCKET) as [->|Hfd].
  - eapply hoare_weaken; [apply (at_store_new_only b) | auto|]. intros u h [_ Hh]. unfold bal. rewrite Hh. split.
    + apply (balanced_new F b a _ nc a (bk_opens b) Hb Hnc). cbn. rewrite Hfree. reflexivity.
    + split; [apply sizes_new, Ha|]. right. cbn. fold a.
      rewrite list_lookup_insert_eq by (exact (lookup_lt_Some _ _ _ Hnc)). reflexivity.
  - apply hoare_ex. intros o'. apply hoare_pure. intros Ho.
    apply at_bind; [apply still_io, still_sys; intros; apply nonblocking_opens|]. intros _.
    eapply hoare_weaken; [apply (at_store_new (bk_set_opens o' b)) | auto|]. intros u h [_ Hh]. unfold bal. rewrite Hh. split.
    + apply (balanced_new F b a _ nc MaxNewConnections o' Hb Hnc). cbn [nc_fd]. rewrite Hfree, (valid_one fd Hfd), valid_invalid.
      symmetry. exact Ho.
    + split; [exact (sizes_new b a _ MaxNewConnections (proj1 Ha)) | left; reflexivity].
Qed.

(** The login is taken: the pooled connection has the descriptor as well. *)
Lemma takes_balanced F b shm g fd b' : balanced F b -> fd <> INVALID_TCP_SOCKET -> login_takes shm g fd b b' ->
  balanced F (bk_set_opens (fd :: bk_opens b) b') /\ bk_opens b' = bk_opens b
  /\ sh_new (bk_slots b') = sh_new (bk_slots b) /\ sh_avail (bk_slots b') = sh_avail (bk_slots b).
Proof using Type.
  intros Hb Hfd (i & k & x & Hx & Hi & Hk & y & l & Hg & Hk0 & Hy & Hlive & Es & ->). rewrite Hx in Hy. injection Hy as <-.
  pose proof (balanced_wf _ _ Hb) as Hwf. destruct (grp_member _ _ _ _ _ _ Hwf Hx Hk) as (Hkr & _ & (_ & _ & Hidle) & _).
  assert (Hfree : bk_pool b !! Z.to_nat k = Some INVALID_TCP_SOCKET) by (apply (Hidle (Z.to_nat i)); [lia | exact Hk]).
  destruct (live_idle b shm _ x i k fd l Hwf Hx Hlive Hk Es) as [Hx' HP].
  destruct Hb as [Ho Hs Hid].
  destruct (balanced_groups shm _ _ (<[Z.to_nat k := fd]> (bk_pool b)) _ x (mkGroup (u32 (live_cnt x + 1)) l) Hs Hid Hx HP)
    as [H1 H2]; [apply f_equal, length_insert | | exact Hx'|].
  { intros k' Hk' Hnin. apply elem_range in Hk'. apply list_lookup_insert_ne. intros E. apply Hnin.
    replace k' with k by lia. exact (list_elem_of_lookup_2 _ _ _ Hk). }
  rewrite Z2Nat.id in H1, H2 by exact Hg.
  split; [|cbn; rewrite sh_set_grp_new, sh_set_grp_avail; auto]. split; cbn; [|exact H1 | exact H2].
  unfold owned in *. cbn. rewrite sh_set_grp_new, Ho, (valid_gain _ _ _ Hfree Hfd), <- !app_assoc. cbn.
  rewrite <- !Permutation_middle. reflexivity.
Qed.

Lemma avail_free_new b i n a : sizes (bk_slots b) -> 0 <= i < zlen (sh_new (bk_slots b)) -> a = i ->
  nc_fd n = INVALID_TCP_SOCKET -> avail_free (bk_new i n a b).
Proof using Type.
  intros Hs Hi -> Hn. split; [exact (sizes_new b i n i Hs)|].
  right. cbn. rewrite list_lookup_insert_eq by lia. cbn. rewrite Hn. reflexivity.
Qed.

Lemma poll_new_bal F now i : hoare (bal F) (poll_new now i) (fun _ => bal F).
Proof using app_fds.
  apply bal_at. intros b Hb Ha. unfold poll_new. apply at_new_conn. intros nc Hi Hnc.
  destruct (Z.eqb_spec (nc_fd nc) INVALID_TCP_SOCKET) as [Hfd|Hfd].
  { apply hoare_modify. intros h Hh. unfold at_ in Hh. subst b. destruct Hb as [B1 B2 B3]. split; [split; assumption|].
    split; [exact (proj1 Ha)|]. right. cbn in *. rewrite Hnc. cbn. rewrite Hfd. reflexivity. }
  set (fd := nc_fd nc) in *.
  apply at_bind; [apply still_io, still_call; intros w; destruct (tcp_recv fd _ w) as [[n bs] w1] eqn:E; exact (recv_opens _ _ _ _ _ _ E)|].
  intros [ret recvbuf]. apply at_bind; [stilly|]. intros err.
  destruct (_ && _ && _); [apply hoare_ret; intros h Hh; exact (at_bal F b h Hb Ha Hh)|].
  apply (hoare_bind _ _ (may_take (fun b b' => exists shm g, login_takes shm g fd b b') b)).
  { destruct (ret =? _); [|apply take_false]. cbv zeta. destruct (ctl_valid _); [|apply take_false]. apply HandleLogin_takes. }
  intros taken h u h' Ht E. destruct taken.
  - destruct Ht as (shm & g & Ht). destruct (takes_balanced F b shm g fd _ Hb Hfd Ht) as (Hb' & Eo & En & Ea).
    set (b' := books_of h) in *. apply M_bind_Ret in E as (v & h1 & [= _ <-] & E).
    destruct (at_store_new b' i _ i h u h' eq_refl E) as [Hr Hh]. unfold bal. rewrite Hh. split.
    + rewrite <- En in Hnc. pose proof (balanced_new F _ i (mkNewConn (nc_time nc) INVALID_TCP_SOCKET (nc_addr nc)) nc i (bk_opens b) Hb' Hnc) as H.
      rewrite <- Eo in H. apply H. rewrite (valid_one (nc_fd nc) Hfd). reflexivity.
    + apply avail_free_new; auto.
      destruct Ht as (i0 & k & x & _ & _ & _ & y & l & _ & _ & _ & _ & _ & ->). apply sizes_set_grp, Ha.
  - cbn [may_take] in Ht. apply M_bind_Ret in E as (v & h1 & E1 & E).
    assert (Hin : fd ∈ bk_opens b).
    { rewrite (bal_opens _ _ Hb). unfold owned. rewrite !elem_of_app. left. right. left. apply list_elem_of_filter.
      split; [exact Hfd|]. apply list_elem_of_fmap. exists nc. split; [reflexivity | exact (list_elem_of_lookup_2 _ _ _ Hnc)]. }
    assert (Hh1 : exists o', bk_opens b ≡ₚ fd :: o' /\ at_ (bk_set_opens o' b) h1).
    { apply bind_Ret in E1 as ([v1 w1] & [= _ <-] & [= _ <-]). exists (opens (tcp_close fd (os h))). unfold at_ in *.
      rewrite <- Ht. split; [|reflexivity]. cbn. apply close_opens. rewrite <- Ht in Hin. exact Hin. }
    destruct Hh1 as (o' & Ho & Hh1). destruct (at_store_new _ i _ i h1 u h' Hh1 E) as [Hr Hh]. unfold bal. rewrite Hh. split.
    + apply (balanced_new F b i _ nc i o' Hb Hnc). cbn [nc_fd]. rewrite (valid_one (nc_fd nc) Hfd). exact Ho.
    + apply avail_free_new; auto. apply Ha.
Qed.

(** *** Closing *)
Lemma pool_open F b k fd : balanced F b -> bk_pool b !! k = Some fd -> fd <> INVALID_TCP_SOCKET -> fd ∈ bk_opens b.
Proof using Type.
  intros Hb Hk Hfd. rewrite (bal_opens _ _ Hb). unfold owned. rewrite !elem_of_app. left. right. right.
  apply list_elem_of_filter. split; [exact Hfd | exact (list_elem_of_lookup_2 _ _ _ Hk)].
Qed.

Lemma close_balanced F b k fd w : balanced F b -> 0 <= k -> bk_pool b !! Z.to_nat k = Some fd -> fd <> INVALID_TCP_SOCKET ->
  opens w = bk_opens b ->
  balanced F (bk_set_opens (opens (tcp_close fd w)) (bk_set_pool k INVALID_TCP_SOCKET b)).
Proof using Type.
  intros Hb Hk0 Hk Hfd Hw. apply (balanced_release F b k fd _ Hb Hk). rewrite (proj2 (Z.eqb_neq _ _) Hfd), <- Hw.
  apply close_opens. rewrite Hw. exact (pool_open F b _ fd Hb Hk Hfd).
Qed.

Lemma sweep_bal F now shm g : forall fuel i, 0 <= i -> hoare (bal F) (sweep fuel now shm g i) (fun _ => bal F).
Proof using Type.
  induction fuel as [|fuel IH]; intros i Hi; [intros h a h' _ E; discriminate E|].
  apply bal_at. intros b Hb Ha. cbn [sweep]. apply at_grp. intros x Hg Hx.
  destruct (Z.ltb_spec i (live_cnt x)) as [Hlt|]; [|apply hoare_ret; intros h; apply at_bal; assumption].
  apply at_lift. intros k Ek. apply ld_Ret in Ek as [_ Ek].
  apply at_bind.
  { apply still_when, still_conn_op. intros c d w a c' d' w' E. apply bind_Ret in E as ([[p c1] w1] & E & [= _ <- _ <-]).
    exact (TcpFront_fd _ _ _ _ _ _ E). }
  intros _. eapply hoare_bind.
  { apply (at_conn_op b k _ (fun closed fd w fd' w' =>
      if closed : bool then fd <> INVALID_TCP_SOCKET /\ fd' = INVALID_TCP_SOCKET /\ w' = tcp_close fd w else fd' = fd /\ w' = w)).
    intros c d w a c' d' w' E. destruct (TS_TryCloseFd c w) as [[b1 c1] w1] eqn:Et. injection E as <- <- _ <-.
    apply TryCloseFd_fd in Et. destruct b1; [exact Et|]. destruct Et as (A & B & _). auto. }
  intros closed. cbv beta. apply hoare_ex. intros fd. apply hoare_ex. intros w. apply hoare_ex. intros fd'. apply hoare_ex.
  intros w'. apply hoare_pure_l. intros Hk. apply hoare_pure_l. intros Hfd. apply hoare_pure_l. intros Hw.
  apply hoare_pure_l. destruct closed.
  2:{ intros [-> ->]. rewrite Hw, (bk_set_pool_id k fd b Hfd). eapply hoare_weaken; [apply (IH (i + 1)); lia | | auto].
      intros h Hh. apply (at_bal F b h Hb Ha). unfold at_ in *. rewrite Hh. destruct b; reflexivity. }
  intros (Hv & -> & ->). set (b1 := bk_set_opens _ _).
  pose proof (close_balanced F b k fd w Hb Hk Hfd Hv Hw) as Hb1. fold b1 in Hb1.
  apply at_conn. intros c _ _. destruct (TS_GetCloseReason c) as [reason err].
  apply at_bind; [apply still_report|]. intros _. cbv zeta. apply at_lift. intros l El.
  destruct (demote_idle b1 shm (Z.to_nat g) x i k l) as [Hx' HP]; try assumption; try lia.
  { exact (balanced_wf _ _ Hb1). }
  { apply list_lookup_insert_eq. exact (lookup_lt_Some _ _ _ Hfd). }
  eapply hoare_bind; [apply at_store_grp|]. intros u. cbv beta.
  eapply hoare_weaken; [apply (IH i Hi) | | auto]. intros h Hh. unfold bal. rewrite Hh. split.
  - exact (balanced_regroup F b1 shm g x (mkGroup _ l) Hb1 Hg Hx HP Hx').
  - split; [apply sizes_set_grp, Ha|]. cbn. rewrite sh_set_grp_new, sh_set_grp_avail. apply Ha.
Qed.

Lemma for_each_hoare {A} (P : host W -> Prop) (l : list A) f :
  (forall a, hoare P (f a) (fun _ => P)) -> hoare P (for_each l f) (fun _ => P).
Proof using Type.
  intros H. induction l as [|a l IH]; [apply hoare_ret; auto|]. exact (hoare_bind _ _ (fun _ => P) _ _ (H a) (fun _ => IH)).
Qed.

Lemma PollCtl_bal F now : hoare (bal F) (PollCtl now) (fun _ => bal F).
Proof using app_fds.
  assert (Hs : forall shm g, hoare (bal F) (sweep_grp now shm g) (fun _ => bal F)).
  { intros shm g. apply bal_at. intros b Hb Ha. apply at_grp. intros x _ _.
    eapply hoare_weaken; [apply (sweep_bal F now shm g _ 0); lia | intros h; apply at_bal; assumption | auto]. }
  unfold PollCtl. apply (hoare_bind _ _ (fun _ => bal F)); [apply accept_one_bal|]. intros _.
  apply (hoare_bind _ _ (fun _ => bal F)); [apply for_each_hoare; intros; apply poll_new_bal|]. intros _.
  apply (hoare_bind _ _ (fun _ => bal F)); [|intros _]; apply for_each_hoare; intros; apply Hs.
Qed.

(** *** Polling, starting *)
Lemma still_deliver k head : still books_of (deliver k head).
Proof using app_fds.
  destruct head as [p|]; [|apply still_ret]. apply still_conn_op. intros c d w a c' d' w' E.
  apply bind_Ret in E as ([[c1 d1] w1] & E & [= _ <- _ <-]). exact (OnClientMsg_fd _ _ _ _ _ _ _ E).
Qed.
Lemma still_for_each {A} (l : list A) (f : A -> M (host W) unit) : (forall a, still books_of (f a)) -> still books_of (for_each l f).
Proof using Type.
  intros H. induction l as [|a l IH]; [apply still_ret|]. cbn [for_each]. apply still_bind; [apply H | intros _; exact IH].
Qed.
Lemma still_grp_at shm g : still books_of (grp_at (W := W) shm g).
Proof using Type. unfold grp_at, member_. stilly. Qed.
#[local] Hint Resolve still_deliver still_grp_at : still.

Lemma PollTcp_bal F now g : hoare (bal F) (PollTcp now g) (fun _ => bal F).
Proof using app_fds.
  apply bal_still. unfold PollTcp. apply still_bind; [auto with still|]. intros x. apply still_for_each. intros i.
  apply still_bind; [auto with still|]. intros x'. apply still_bind; [auto with still|]. intros k.
  apply still_bind; [|auto with still]. apply still_conn_op. intros c d w a c' d' w' E.
  apply bind_Ret in E as ([[p c1] w1] & E & [= _ <- _ <-]). exact (TcpFront_fd _ _ _ _ _ _ E).
Qed.

Lemma PollShm_bal F g : hoare (bal F) (PollShm g) (fun _ => bal F).
Proof using app_fds.
  apply bal_still. unfold PollShm. apply still_bind; [auto with still|]. intros x. apply still_for_each. intros i.
  apply still_bind; [auto with still|]. intros x'. apply still_bind; [auto with still|]. intros k.
  apply still_bind; [|auto with still]. apply still_conn_op. intros c d w a c' d' w' E.
  apply bind_Ret in E as ([p d1] & E & [= _ <- _ <-]). split; reflexivity.
Qed.

Lemma still_start_step failed f msg next : (forall fd w, opens (snd (f fd w)) = opens w) ->
  still books_of next -> still books_of (start_step (W := W) failed f msg next).
Proof using Type.
  intros Hf Hn. unfold start_step, member_. apply still_bind; [auto with still|]. intros fd.
  apply still_bind; [apply still_io, still_call; intros; apply Hf|]. intros r. destruct (failed r); [stilly | exact Hn].
Qed.

Lemma Start_bal F ip port : hoare (bal F) (Start ip port) (fun _ => bal F).
Proof using Type.
  apply bal_at. intros b Hb Ha. unfold Start. apply at_member. intros h0 Hh0.
  replace (listenfd_ (server h0)) with (bk_listen b) by (rewrite <- Hh0; reflexivity).
  destruct (Z.eqb_spec (bk_listen b) INVALID_TCP_SOCKET) as [Hl|]; cbn [negb].
  2:{ apply at_still; [stilly | intros a h; apply at_bal; assumption]. }
  apply (hoare_bind _ _ (fun fd h => exists o', at_ (bk_set_opens o' b) h
     /\ if fd =? INVALID_TCP_SOCKET then o' = bk_opens b else o' ≡ₚ fd :: bk_opens b)).
  { intros h fd h' Hh E. apply bind_Ret in E as ([r w] & [= E] & [= <- <-]). apply socket_opens in E. exists (opens w).
    unfold at_ in *. rewrite <- Hh. split; [reflexivity | exact E]. }
  intros fd. apply hoare_ex. intros o'. apply hoare_pure. intros Ho.
  apply (hoare_bind _ _ (fun _ => bal F)).
  { apply hoare_modify. intros h Hh.
    apply (at_bal F (bk_set_listen fd (bk_set_opens o' b))); [|exact Ha|unfold at_ in *; rewrite <- Hh; reflexivity].
    destruct Hb as [B1 B2 B3]. split; [|exact B2|exact B3].
    unfold owned in *. cbn [bk_listen bk_slots bk_pool bk_opens bk_set_listen bk_set_opens] in *. rewrite Hl, valid_invalid in B1.
    destruct (Z.eqb_spec fd INVALID_TCP_SOCKET) as [->|Hfd].
    - rewrite Ho. exact B1.
    - rewrite Ho, B1, (valid_one fd Hfd). reflexivity. }
  intros _. apply bal_still. destruct (_ =? _); [stilly|].
  apply still_bind; [apply still_io, still_sys; intros; apply nonblocking_opens|]. intros _. cbv zeta.
  apply still_start_step; [intros; apply setsockopt_opens|].
  destruct TcpNoDelay; [apply still_start_step; [intros; apply setsockopt_opens|]|];
    (apply still_start_step; [intros; apply bind_opens|]; apply still_start_step; [intros; apply listen_opens|]; apply still_ret).
Qed.
End Balance.
