(* ===== verification/ServerStop.v ===== *)
(** * The server stops

    [Stop] always returns, and leaves the server without a descriptor.  With the
    lemmas of ServerFds.v: over all the calls of the server, what is open is what
    the server owns and what others had opened. *)

From Stdlib Require Import String.
From stdpp Require Import relations gmap.
From S2P Require Import Prelude StateRes Endian MsgHeader Conf PTCPConn CString TcpShmConn SysIO Messages.
From S2P Require Import System ShmProbe Descriptors Server ServerShape ServerProps ServerTheorems ServerFds.
From stdpp Require Import list_basics list_relations list.
Local Open Scope Z_scope.

Section Stop.
Context {platform : Platform} {conf : Conf} {params : ServerParams} {W : Type}.
Context {sockets : Sockets W} {mmap : Mmap W} {system : System W} {probes : ProbeMemory W} {ledger : Descriptors W}.
Context {app : App W}.
Implicit Types (h : host W) (b : books).

(** *** What is closed

    A loop whose rounds add their index to the ones that are done. *)
Lemma hoare_books {A} (P Q : books -> Prop) (m : M (host W) A) :
  (forall b, P b -> hoare (at_ b) m (fun _ h => Q (books_of h))) ->
  hoare (fun h => P (books_of h)) m (fun _ h => Q (books_of h)).
Proof using Type. intros H h a h' HP E. exact (H _ HP h a h' eq_refl E). Qed.

Lemma for_each_done {A} (P : (A -> Prop) -> host W -> Prop) f :
  (forall D a, hoare (P D) (f a) (fun _ => P (fun x => x = a \/ D x))) ->
  (forall D D' h, (forall x, D' x -> D x) -> P D h -> P D' h) ->
  forall l D, hoare (P D) (for_each l f) (fun _ => P (fun x => x ∈ l \/ D x)).
Proof using Type.
  intros Hf Hw. induction l as [|a l IH]; intros D; cbn [for_each].
  - apply hoare_ret. intros h Hh. refine (Hw _ _ _ _ Hh). intros x [Hx|Hx]; [inversion Hx | exact Hx].
  - apply (hoare_bind _ _ (fun _ => P (fun x => x = a \/ D x))); [apply Hf|]. intros _.
    eapply hoare_weaken; [apply (IH (fun x => x = a \/ D x)) | auto|]. intros u h Hh. refine (Hw _ _ _ _ Hh). intros x Hx.
    rewrite elem_of_cons in Hx. tauto.
Qed.

(** The new connections in [D] are closed. *)
Definition news_closed F (D : Z -> Prop) b : Prop :=
  (balanced F b /\ avail_free b) /\ bk_listen b = INVALID_TCP_SOCKET
  /\ forall i, D i -> 0 <= i -> nc_fd <$> sh_new (bk_slots b) !! Z.to_nat i = Some INVALID_TCP_SOCKET.

Lemma close_new_conn_closes F D i :
  hoare (fun h => news_closed F D (books_of h)) (close_new_conn i)
    (fun _ h => news_closed F (fun j => j = i \/ D j) (books_of h)).
Proof using Type.
  apply hoare_books. intros b [[Hb Ha] [Hl HD]].
  apply at_new_conn. intros nc Hi Hnc.
  destruct (Z.eqb_spec (nc_fd nc) INVALID_TCP_SOCKET) as [Hfd|Hfd]; cbn [negb when].
  { apply hoare_ret. intros h Hh. rewrite Hh. split; [split; assumption|]. split; [exact Hl|].
    intros j [->|Hj] Hj0; [|auto].
    rewrite Hnc. cbn. rewrite Hfd. reflexivity. }
  set (fd := nc_fd nc) in *.
  apply (hoare_bind _ _ (fun _ h => exists o', at_ (bk_set_opens o' b) h /\ bk_opens b ≡ₚ fd :: o')).
  { intros h v h1 Hh E. apply bind_Ret in E as ([v1 w1] & [= _ <-] & [= _ <-]). exists (opens (tcp_close fd (os h))).
    unfold at_ in *. rewrite <- Hh in *. split; [reflexivity|]. apply close_opens.
    change (fd ∈ bk_opens (books_of h)). rewrite (bal_opens _ _ Hb). unfold owned. rewrite !elem_of_app. left. right. left.
    apply list_elem_of_filter. split; [exact Hfd|]. apply list_elem_of_fmap. exists nc.
    split; [reflexivity | exact (list_elem_of_lookup_2 _ _ _ Hnc)]. }
  intros _. apply hoare_ex. intros o'. apply hoare_pure. intros Ho.
  eapply hoare_weaken; [apply (at_store_new_only (bk_set_opens o' b)) | auto|]. intros u h [Hr Hh].
  assert (Hlk : forall j, 0 <= j -> j = i \/ D j ->
    nc_fd <$> (<[Z.to_nat i := mkNewConn (nc_time nc) INVALID_TCP_SOCKET (nc_addr nc)]> (sh_new (bk_slots b))) !! Z.to_nat j
    = Some INVALID_TCP_SOCKET).
  { intros j Hj Hd. destruct (decide (j = i)) as [->|Hne].
    - rewrite list_lookup_insert_eq by (exact (lookup_lt_Some _ _ _ Hnc)). reflexivity.
    - rewrite list_lookup_insert_ne by lia. apply HD; [tauto | exact Hj]. }
  rewrite Hh. split; [split|split; [exact Hl | intros j Hd Hj; exact (Hlk j Hj Hd)]].
  - apply (balanced_new F b i _ nc _ o' Hb Hnc). cbn [nc_fd]. rewrite (valid_one (nc_fd nc) Hfd). exact Ho.
  - split; [apply (sizes_new (bk_set_opens o' b)), Ha|]. cbn. destruct Ha as [_ [Ha|Ha]]; [left; exact Ha|]. right.
    destruct (decide (Z.to_nat (sh_avail (bk_slots b)) = Z.to_nat i)) as [Ei|Hne].
    + rewrite Ei, list_lookup_insert_eq by (exact (lookup_lt_Some _ _ _ Hnc)). reflexivity.
    + rewrite list_lookup_insert_ne by congruence. exact Ha.
Qed.

(** The listening socket and the new connections are closed, the groups have
    the connections [cl], and those in [D] have no descriptor. *)
Definition clos : Type := list (list Z) * list (list Z).
Definition clos_of (sl : shape) : clos := (conns <$> sh_shm sl, conns <$> sh_tcp sl).
Definition cl_at (shm : bool) (cl : clos) : list (list Z) := if shm then fst cl else snd cl.
Definition conns_closed F (cl : clos) (D : Z -> Prop) b : Prop :=
  (balanced F b /\ avail_free b) /\ bk_listen b = INVALID_TCP_SOCKET /\ Forall (fun n => nc_fd n = INVALID_TCP_SOCKET) (sh_new (bk_slots b))
  /\ clos_of (bk_slots b) = cl
  /\ forall k, D k -> 0 <= k < zlen (bk_pool b) -> bk_pool b !! Z.to_nat k = Some INVALID_TCP_SOCKET.

Lemma conns_closed_weaken F cl D D' b : (forall k, D' k -> D k) -> conns_closed F cl D b -> conns_closed F cl D' b.
Proof using Type. intros H (A & B & C & E & G). repeat split; try apply A; auto. Qed.

Lemma release_closes F cl sl D k :
  hoare (fun h => conns_closed F cl D (books_of h) /\ bk_slots (books_of h) = sl) (release_conn k)
    (fun _ h => conns_closed F cl (fun j => j = k \/ D j) (books_of h) /\ bk_slots (books_of h) = sl).
Proof using Type.
  apply (hoare_books (fun b => conns_closed F cl D b /\ bk_slots b = sl)
    (fun b => conns_closed F cl (fun j => j = k \/ D j) b /\ bk_slots b = sl)). intros b [([Hb Ha] & Hl & Hn & Hcl & HD) Hsl].
  eapply hoare_weaken.
  { apply (at_conn_op b k _ (fun _ fd w fd' w' => fd' = INVALID_TCP_SOCKET /\ if fd =? INVALID_TCP_SOCKET then w' = w else w' = tcp_close fd w)).
    intros c d w a c' d' w' E. apply bind_Ret in E as ([[c1 d1] w1] & E & [= _ <- _ <-]). exact (Release_fd _ _ _ _ _ _ E). }
  { auto. }
  cbv beta. intros u h (fd & w & fd' & w' & Hk & Hfd & Hw & [-> Hc] & Hh). rewrite Hh.
  pose proof (lookup_lt_Some _ _ _ Hfd) as Hlt.
  split; [|exact Hsl]. split; [split|]; [|exact Ha|split; [exact Hl|]; split; [exact Hn|]; split; [exact Hcl|]].
  - apply (balanced_release F b k fd _ Hb Hfd). destruct (Z.eqb_spec fd INVALID_TCP_SOCKET) as [_|Hv]; [congruence|].
    rewrite Hc, <- Hw. apply close_opens. rewrite Hw. exact (pool_open F b _ fd Hb Hfd Hv).
  - intros j Hj Hr. cbn in *. rewrite length_insert in Hr. destruct (decide (j = k)) as [->|Hne].
    + apply list_lookup_insert_eq. exact Hlt.
    + rewrite list_lookup_insert_ne by lia. apply HD; [tauto | exact Hr].
Qed.

Lemma clos_set_grp shm g x x' sl : 0 <= g -> sh_grps shm sl !! Z.to_nat g = Some x -> conns x' = conns x ->
  clos_of (sh_set_grp shm g x' sl) = clos_of sl.
Proof using Type.
  intros Hg Hx Hc. unfold clos_of, sh_set_grp. destruct shm; cbn [sh_grps sh_set_grps sh_shm sh_tcp] in *; f_equal;
    rewrite list_fmap_insert, Hc; apply list_insert_id; rewrite list_lookup_fmap, Hx; reflexivity.
Qed.

Lemma stop_grp_closes F cl D shm g :
  hoare (fun h => conns_closed F cl D (books_of h)) (stop_grp shm g)
    (fun _ h => conns_closed F cl (fun k => (exists l, 0 <= g /\ cl_at shm cl !! Z.to_nat g = Some l /\ k ∈ l) \/ D k)
                  (books_of h)).
Proof using Type.
  intros h u h' HP E. apply M_bind_Ret in E as (x & h1 & E1 & E).
  assert (Hg : 0 <= g /\ sh_grps shm (bk_slots (books_of h)) !! Z.to_nat g = Some x /\ h1 = h).
  { apply M_bind_Ret in E1 as (p & h2 & [= <- <-] & E1). apply bind_Ret in E1 as (y & Ey & [= <- <-]).
    apply ld_Ret in Ey as [H1 H2]. split; [exact H1|]. split; [destruct shm; exact H2 | reflexivity]. }
  destruct Hg as (Hg & Hx & ->). apply M_bind_Ret in E as (v & h2 & E2 & E3).
  set (sl := bk_slots (books_of h)) in *.
  pose proof (for_each_done (fun D h => conns_closed F cl D (books_of h) /\ bk_slots (books_of h) = sl) release_conn
    (fun D k => release_closes F cl sl D k)
    (fun D D' h H '(conj H1 H2) => conj (conns_closed_weaken F cl D D' _ H H1) H2) (conns x) D
    h v h2 (conj HP eq_refl) E2) as [H2 Hsl2].
  pose proof (at_store_grp (books_of h2) shm g (mkGroup 0 (conns x)) h2 u h' eq_refl E3) as H3. rewrite Hsl2 in H3.
  destruct H2 as ([Hb Ha] & Hl & Hn & Hcl & HD). rewrite Hsl2 in Hn, Hcl.
  rewrite H3.
  assert (Hcl' : cl_at shm cl !! Z.to_nat g = Some (conns x)).
  { rewrite <- Hcl. unfold cl_at, clos_of. destruct shm; cbn in *; rewrite list_lookup_fmap, Hx; reflexivity. }
  rewrite <- Hsl2 in Hx. split; [split|].
  - rewrite <- Hsl2. apply (balanced_regroup F (books_of h2) shm g x (mkGroup 0 (conns x)) Hb Hg Hx (Permutation_refl _)).
    destruct (conns x) as [|k0 l0] eqn:Ec; [split; [cbn; lia | split; [cbn; lia | intros j k _ Hj; discriminate Hj]]|].
    destruct (grp_member _ _ _ _ 0 k0 (balanced_wf _ _ Hb) Hx ltac:(rewrite Ec; reflexivity)) as (_ & _ & ((_ & _) & H32 & _) & Hr).
    rewrite Ec in *. split; [cbn; lia|]. split; [exact H32|]. intros j k _ Hj. apply HD.
    + left. exact (list_elem_of_lookup_2 _ _ _ Hj).
    + rewrite Forall_lookup in Hr. exact (Hr _ _ Hj).
  - rewrite <- Hsl2. split; [apply sizes_set_grp, Ha|]. cbn. rewrite sh_set_grp_new, sh_set_grp_avail. apply Ha.
  - cbn [bk_listen bk_slots bk_pool bk_set_slots]. rewrite sh_set_grp_new. split; [exact Hl|]. split; [exact Hn|]. rewrite Hsl2 in Hx.
    split; [rewrite (clos_set_grp shm g x); [exact Hcl | exact Hg | exact Hx | reflexivity]|].
    intros k [(l & _ & Hl1 & Hk)|Hk] Hr; apply HD; auto. left. rewrite Hcl' in Hl1. injection Hl1 as <-. exact Hk.
Qed.

(** *** The whole of Stop *)
Lemma news_closed_start F b fd o' : balanced F b -> avail_free b -> fd <> INVALID_TCP_SOCKET -> bk_listen b = fd ->
  bk_opens b ≡ₚ fd :: o' -> news_closed F (fun _ => False) (bk_set_listen INVALID_TCP_SOCKET (bk_set_opens o' b)).
Proof using Type.
  intros [B1 B2 B3] Ha Hfd Hl Ho. split; [split; [split; [|exact B2|exact B3]|exact Ha]|]; [|split; [reflexivity | tauto]].
  unfold owned in *. cbn [bk_listen bk_slots bk_pool bk_opens bk_set_listen bk_set_opens] in *.
  rewrite Hl, (valid_one fd Hfd) in B1. rewrite valid_invalid. apply (Permutation_cons_inv (a := fd)).
  rewrite <- Ho, B1. reflexivity.
Qed.

Lemma groups_closed F cl shm n D :
  hoare (fun h => conns_closed F cl D (books_of h)) (for_each (range n) (stop_grp shm))
    (fun _ h => conns_closed F cl (fun k => (exists g l, g ∈ range n /\ 0 <= g /\ cl_at shm cl !! Z.to_nat g = Some l /\ k ∈ l) \/ D k)
                  (books_of h)).
Proof using Type.
  eapply hoare_weaken;
    [apply (for_each_done (fun G h => conns_closed F cl
       (fun k => (exists g l, G g /\ 0 <= g /\ cl_at shm cl !! Z.to_nat g = Some l /\ k ∈ l) \/ D k) (books_of h)))| |].
  - intros G g. eapply hoare_weaken; [apply stop_grp_closes | intros h H; exact H|]. intros u h. apply conns_closed_weaken.
    intros k [(g' & l & [->|Hg'] & H)|Hk]; [left; eauto | right; left; eauto 6 | right; right; exact Hk].
  - intros G G' h Hw. apply conns_closed_weaken. intros k [(g & l & Hg & H)|Hk]; [left; exists g, l; auto | auto].
  - intros h. instantiate (1 := fun _ => False). apply conns_closed_weaken. intros k [(g & l & [] & _)|Hk]. exact Hk.
  - intros u h. cbv beta. apply conns_closed_weaken. intros k [(g & l & Hg & H)|Hk]; [left; exists g, l; auto | auto].
Qed.

Lemma all_closed F cl b n m : length (sh_shm (bk_slots b)) = Z.to_nat n -> length (sh_tcp (bk_slots b)) = Z.to_nat m ->
  conns_closed F cl (fun k => (exists g l, g ∈ range m /\ 0 <= g /\ cl_at false cl !! Z.to_nat g = Some l /\ k ∈ l)
                \/ ((exists g l, g ∈ range n /\ 0 <= g /\ cl_at true cl !! Z.to_nat g = Some l /\ k ∈ l) \/ False)) b ->
  owned b = [].
Proof using Type.
  intros Ln Lm ([Hb _] & Hl & Hn & Hcl & HD). unfold owned. rewrite Hl, valid_invalid.
  rewrite (valid_none (nc_fd <$> _)) by (apply Forall_fmap; exact Hn). rewrite valid_none; [reflexivity|].
  apply Forall_lookup. intros i fd Hi. pose proof (lookup_lt_Some _ _ _ Hi) as Hlt.
  assert (Hin : Z.of_nat i ∈ slots_of (all_grps (bk_slots b))) by (rewrite (bal_slots _ _ Hb); apply elem_range; lia).
  apply elem_slots in Hin as (x & Hx & Hk). enough (Some fd = Some INVALID_TCP_SOCKET) as [= ->] by reflexivity.
  rewrite <- Hi, <- (Nat2Z.id i) at 1. apply HD; [|lia]. subst cl.
  apply elem_of_app in Hx as [Hx|Hx]; apply list_elem_of_lookup in Hx as (g & Hg); pose proof (lookup_lt_Some _ _ _ Hg);
    [right; left | left]; exists (Z.of_nat g), (conns x); (split; [apply elem_range; lia|]); (split; [lia|]);
    rewrite Nat2Z.id; (split; [|exact Hk]); cbn; rewrite list_lookup_fmap, Hg; reflexivity.
Qed.

Lemma conns_closed_start F b : 0 <= MaxNewConnections ->
  news_closed F (fun i => i ∈ range MaxNewConnections \/ False) b ->
  let b' := bk_set_slots (mkShape [] (sh_shm (bk_slots b)) (sh_tcp (bk_slots b)) (sh_new (bk_slots b)) 0 ([], [])) b in
  conns_closed F (clos_of (bk_slots b')) (fun _ => False) b'.
Proof using Type.
  intros HM ([[B1 B2 B3] [(S1 & S2) Ha]] & Hl & HD).
  assert (Hn : forall i nc, sh_new (bk_slots b) !! i = Some nc -> nc_fd nc = INVALID_TCP_SOCKET).
  { intros i nc Hi. pose proof (lookup_lt_Some _ _ _ Hi) as Hlt. specialize (HD (Z.of_nat i)). rewrite Nat2Z.id, Hi in HD.
    enough (Some (nc_fd nc) = Some INVALID_TCP_SOCKET) as [= E] by exact E. apply HD; [left; apply elem_range; lia | lia]. }
  split; [split; [split; [exact B1 | exact B2 | exact B3]|]|].
  - split; [split; [exact S1 | exact S2]|]. cbn. destruct (decide (MaxNewConnections = 0)) as [E|Hne]; [left; congruence | right].
    destruct (sh_new (bk_slots b) !! 0%nat) as [nc|] eqn:E0; [change (nc_fd <$> sh_new (bk_slots b) !! 0%nat = Some INVALID_TCP_SOCKET);
      rewrite E0; exact (f_equal Some (Hn _ _ E0))|].
    apply lookup_ge_None in E0. lia.
  - split; [exact Hl|]. split; [|split; [reflexivity | tauto]]. cbn. apply Forall_lookup. exact Hn.
Qed.

Lemma Stop_closes F : 0 <= MaxNewConnections ->
  hoare (fun h => bal F h /\ listenfd_ (server h) <> INVALID_TCP_SOCKET) (Stop (W := W))
    (fun _ h => bal F h /\ owned (books_of h) = []).
Proof using Type.
  intros HM. apply (hoare_books (fun b => (balanced F b /\ avail_free b) /\ bk_listen b <> INVALID_TCP_SOCKET)
    (fun b => (balanced F b /\ avail_free b) /\ owned b = [])).
  intros b [[Hb Ha] Hl]. unfold Stop.
  apply at_member. intros h0 Hh0. replace (listenfd_ (server h0)) with (bk_listen b) by (rewrite <- Hh0; reflexivity).
  destruct (Z.eqb_spec (bk_listen b) INVALID_TCP_SOCKET) as [|_]; [contradiction|].
  apply (hoare_bind _ _ (fun _ h => exists o', at_ (bk_set_opens o' b) h /\ bk_opens b ≡ₚ bk_listen b :: o')).
  { intros h v h1 Hh E. apply bind_Ret in E as ([v1 w1] & [= _ <-] & [= _ <-]). exists (opens (tcp_close (bk_listen b) (os h))).
    unfold at_ in *. rewrite <- Hh in *. split; [reflexivity|]. apply close_opens.
    change (bk_listen (books_of h) ∈ bk_opens (books_of h)). rewrite (bal_opens _ _ Hb). unfold owned. rewrite (valid_one _ Hl).
    left. }
  intros _. apply hoare_ex. intros o'. apply hoare_pure. intros Ho.
  apply (hoare_bind _ _ (fun _ h => news_closed F (fun _ => False) (books_of h))).
  { apply hoare_modify. intros h Hh.
    replace (books_of _) with (bk_set_listen INVALID_TCP_SOCKET (bk_set_opens o' b)) by (rewrite <- Hh; reflexivity).
    apply (news_closed_start F b (bk_listen b) o'); auto. }
  intros _. apply (hoare_bind _ _ (fun _ h => news_closed F (fun i => i ∈ range MaxNewConnections \/ False) (books_of h))).
  { apply (for_each_done (fun D h => news_closed F D (books_of h))); [apply close_new_conn_closes|].
    intros D D' h Hw (A & B & C). repeat split; try apply A; auto. }
  intros _. apply (hoare_bind _ _ (fun _ h => exists cl, conns_closed F cl (fun _ => False) (books_of h))).
  { apply hoare_modify. intros h Hh. eexists. exact (conns_closed_start F _ HM Hh). }
  intros _. apply hoare_ex. intros cl. eapply hoare_bind; [apply groups_closed|]. intros u1. cbv beta.
  intros h u2 h' Hh E. pose proof (groups_closed F cl false MaxTcpGrps _ h u2 h' Hh E) as H. destruct (proj1 H) as [Hb' Ha'].
  split; [exact (conj Hb' Ha')|]. exact (all_closed F cl _ _ _ (proj1 (proj2 (proj1 Ha'))) (proj2 (proj2 (proj1 Ha'))) H).
Qed.

Lemma Stop_bal F : 0 <= MaxNewConnections -> hoare (bal F) (Stop (W := W)) (fun _ => bal F).
Proof using Type.
  intros HM h u h' Hb E. destruct (Z.eqb_spec (listenfd_ (server h)) INVALID_TCP_SOCKET) as [Hl|Hl].
  - unfold Stop in E. rewrite (M_bind_eq _ _ h _ h eq_refl), Hl in E. injection E as _ <-. exact Hb.
  - exact (proj1 (Stop_closes F HM h u h' (conj Hb Hl) E)).
Qed.
End Stop.

(** ** Stop always returns

    [roomy n]: the arrays have their sizes, the slots of the groups are in the
    pool of [n] connections, and a name has room for its end. *)
Section Returns.
Context {platform : Platform} {conf : Conf} {params : ServerParams} {W : Type}.
Context {sockets : Sockets W} {mmap : Mmap W} {system : System W} {probes : ProbeMemory W} {app : App W}.
Implicit Types (h : host W).

Definition in_pool (n : Z) (x : ConnectionGroup) : Prop := Forall (fun k => 0 <= k < n) (conns x).
Definition roomy (n : Z) h : Prop :=
  let s := server h in
  zlen (conn_pool_ s) = n /\ Forall (fun c => 0 < zlen (remote_name_ c)) (conn_pool_ s)
  /\ (length (shm_grps_ s) = Z.to_nat MaxShmGrps /\ length (tcp_grps_ s) = Z.to_nat MaxTcpGrps)
  /\ (Forall (in_pool n) (shm_grps_ s) /\ Forall (in_pool n) (tcp_grps_ s))
  /\ zlen (new_conns_ s) = MaxNewConnections.

Lemma returns_for_each {A} (P : host W -> Prop) (l : list A) f :
  (forall a, a ∈ l -> returns P (f a) (fun _ => P)) -> returns P (for_each l f) (fun _ => P).
Proof using Type.
  induction l as [|a l IH]; intros H; [apply returns_ret; auto|]. cbn [for_each].
  apply (returns_bind _ _ (fun _ => P)); [apply H; left | intros _; apply IH; intros x Hx; apply H; right; exact Hx].
Qed.

Lemma returns_conn_at n k : 0 <= k < n ->
  returns (roomy n) (conn_at (W := W) k) (fun c h => roomy n h /\ 0 < zlen (remote_name_ c)).
Proof using Type.
  intros Hk. apply (returns_bind _ _ (fun p h => roomy n h /\ p = conn_pool_ (server h))); [apply returns_gets; auto|].
  intros p. apply returns_lift. intros h (H & ->). pose proof H as (Hn & Hc & _).
  destruct (ld_inb (conn_pool_ (server h)) k) as [c Ec]; [lia|]. exists c. split; [exact Ec|]. split; [exact H|].
  apply ld_Ret in Ec as [_ Ec]. exact (Forall_lookup_1 _ _ _ _ Hc Ec).
Qed.

Lemma returns_store_conn n k c : 0 <= k < n -> 0 < zlen (remote_name_ c) ->
  returns (roomy n) (store_conn (W := W) k c) (fun _ => roomy n).
Proof using Type.
  intros Hk Hc. apply (returns_bind _ _ (fun p h => roomy n h /\ p = conn_pool_ (server h))); [apply returns_gets; auto|].
  intros p. apply (returns_bind _ _ (fun p h => roomy n h /\ p = <[Z.to_nat k := c]> (conn_pool_ (server h)))).
  - apply returns_lift. intros h (H & ->). eexists. split; [|split; [exact H | reflexivity]]. apply st_Ret.
    split; [|reflexivity]. destruct H as (Hn & _). lia.
  - intros p'. apply returns_modify. intros h ((Hn & Hf & H) & ->). split; [cbn; rewrite length_insert; exact Hn|].
    split; [apply Forall_insert; assumption | exact H].
Qed.

Lemma release_conn_returns n k : 0 <= k < n -> returns (roomy n) (release_conn (W := W) k) (fun _ => roomy n).
Proof using Type.
  intros Hk. apply (returns_bind _ _ _ _ _ (returns_conn_at n k Hk)). intros c.
  apply (returns_bind _ _ (fun r h => roomy n h /\ 0 < zlen (remote_name_ (snd r)))).
  - intros h (H & Hc). unfold TS_Release, terminate.
    destruct (st (remote_name_ c) 0 0) as [name| |] eqn:E; try (unfold st in E; destruct (_ && _) eqn:Et; [discriminate E | lia]).
    apply st_Ret in E as [_ ->]. cbn [mbind res_bind]. destruct (Release (ptcp_conn_ c) (os h)) as [[q t] w].
    eexists _, _. split; [reflexivity|]. split; [exact H|]. cbn. rewrite length_insert. exact Hc.
  - intros [u c'] h [H Hc]. cbn [snd] in Hc.
    destruct (returns_store_conn n k c' Hk Hc h H) as ([] & h' & E & H'). exists u, h'. split; [|exact H'].
    rewrite (M_bind_eq _ _ _ _ _ E). reflexivity.
Qed.

Lemma stop_grp_returns n shm g : 0 <= g < (if shm : bool then MaxShmGrps else MaxTcpGrps) ->
  returns (roomy n) (stop_grp (W := W) shm g) (fun _ => roomy n).
Proof using Type.
  intros Hg. assert (Hlen : forall h, roomy n h -> zlen (grps shm (server h)) = if shm then MaxShmGrps else MaxTcpGrps).
  { intros h (_ & _ & (H1 & H2) & _). destruct shm; cbn; lia. }
  apply (returns_bind _ _ (fun x h => roomy n h /\ in_pool n x)).
  { apply (returns_bind _ _ (fun l h => roomy n h /\ l = grps shm (server h))); [apply returns_gets; auto|].
    intros l. apply returns_lift. intros h (H & ->). destruct (ld_inb (grps shm (server h)) g) as [x Ex]; [rewrite Hlen by exact H; exact Hg|].
    exists x. split; [exact Ex|]. split; [exact H|]. apply ld_Ret in Ex as [_ Ex]. destruct H as (_ & _ & _ & (H1 & H2) & _).
    destruct shm; [exact (Forall_lookup_1 _ _ _ _ H1 Ex) | exact (Forall_lookup_1 _ _ _ _ H2 Ex)]. }
  intros x. apply (returns_bind _ _ (fun _ h => roomy n h /\ in_pool n x)).
  { intros h [H Hx]. assert (HT : returns (roomy n) (for_each (conns x) release_conn) (fun _ => roomy n)).
    { apply returns_for_each. intros k Hk. apply release_conn_returns. unfold in_pool in Hx. rewrite Forall_forall in Hx. exact (Hx k Hk). }
    destruct (HT h H) as (u & h' & E & H'). exists u, h'. auto. }
  intros _. apply (returns_bind _ _ (fun l h => (roomy n h /\ in_pool n x) /\ l = grps shm (server h))); [apply returns_gets; auto|].
  intros l. apply (returns_bind _ _ (fun l h => (roomy n h /\ in_pool n x) /\ l = <[Z.to_nat g := mkGroup 0 (conns x)]> (grps shm (server h)))).
  { apply returns_lift. intros h (H & ->). eexists. split; [|split; [exact H | reflexivity]]. apply st_Ret.
    rewrite Hlen by apply H. auto. }
  intros l'. apply returns_modify. intros h (((Hn & Hc & (H1 & H2) & (H3 & H4) & H5) & Hx) & ->).
  destruct shm; (split; [exact Hn|]); (split; [exact Hc|]); (split; [|split; [|exact H5]]).
  - split; [cbn; rewrite length_insert; exact H1 | exact H2].
  - split; [apply Forall_insert; assumption | exact H4].
  - split; [exact H1 | cbn; rewrite length_insert; exact H2].
  - split; [exact H3 | apply Forall_insert; assumption].
Qed.

Lemma close_new_conn_returns n i : 0 <= i < MaxNewConnections -> returns (roomy n) (close_new_conn (W := W) i) (fun _ => roomy n).
Proof using Type.
  intros Hi. apply (returns_bind _ _ (fun _ => roomy n)).
  { apply (returns_bind _ _ (fun l h => roomy n h /\ l = new_conns_ (server h))); [apply returns_gets; auto|].
    intros l. apply returns_lift. intros h (H & ->). destruct (ld_inb (new_conns_ (server h)) i) as [x Ex]; [|eauto].
    destruct H as (_ & _ & _ & _ & H). lia. }
  intros nc. apply returns_when; [intros _|auto]. apply (returns_bind _ _ (fun _ => roomy n)).
  { intros h H. eexists tt, _. split; [reflexivity | exact H]. }
  intros _. apply (returns_bind _ _ (fun l h => roomy n h /\ l = new_conns_ (server h))); [apply returns_gets; auto|]. intros l.
  apply (returns_bind _ _ (fun l h => roomy n h /\ zlen l = MaxNewConnections)).
  { apply returns_lift. intros h (H & ->). pose proof H as (_ & _ & _ & _ & Hn). eexists.
    split; [apply st_Ret; split; [lia | reflexivity]|]. rewrite length_insert. auto. }
  intros l'. apply returns_modify. intros h ((Hn & Hc & Hl & Hg & _) & Hl'). exact (conj Hn (conj Hc (conj Hl (conj Hg Hl')))).
Qed.

Lemma Stop_returns n : returns (roomy n) (Stop (W := W)) (fun _ => roomy n).
Proof using Type.
  unfold Stop. apply (returns_bind _ _ (fun _ => roomy n)); [apply returns_gets; auto|]. intros fd.
  destruct (_ =? _); [apply returns_ret; auto|].
  apply (returns_bind _ _ (fun _ => roomy n)); [intros h H; eexists tt, _; split; [reflexivity | exact H]|]. intros _.
  apply (returns_bind _ _ (fun _ => roomy n)); [apply returns_modify; intros h H; exact H|]. intros _.
  apply (returns_bind _ _ (fun _ => roomy n)).
  { apply returns_for_each. intros i Hi. apply close_new_conn_returns. apply elem_range in Hi. exact Hi. }
  intros _. apply (returns_bind _ _ (fun _ => roomy n)); [apply returns_modify; intros h H; exact H|]. intros _.
  apply (returns_bind _ _ (fun _ => roomy n)); [|intros _]; apply returns_for_each; intros g Hg; apply elem_range in Hg;
    apply stop_grp_returns; exact Hg.
Qed.
End Returns.

(** ** Reachable states *)
Section Reachable.
Context {platform : Platform} {conf : Conf} {conf_ok : ConfOk conf} {params : ServerParams} {params_ok : ParamsOk params}.
Context {W : Type} {sockets : Sockets W} {recvs : RecvLaws W} {mmap : Mmap W} {system : System W} {probes : ProbeMemory W}.
Context {ledger : Descriptors W} {app : App W} {app_laws : AppLaws W} {app_fds : AppFds W}.
Implicit Types (h : host W).

Lemma booted_bal name dir d w h : booted name dir d w h -> bal (opens w) h.
Proof using conf_ok params_ok.
  intros Hb. pose proof (booted_inv name dir d w h Hb) as (sh & (Es & _ & _) & Hs).
  destruct Hb as (s & E & ->). cbn [server] in Es. unfold TcpShmServer_init in E.
  apply bind_Ret in E as (a & _ & E). apply bind_Ret in E as (a' & _ & [= <-]). destruct params_shm as [P1 P2], params_tcp as [P3 P4].
  pose proof params_new as P5. set (pool := replicate _ (TcpShmConnection_init dir a')) in *.
  assert (Hpool : forall k fd, (owned_fd <$> pool) !! k = Some fd -> fd = INVALID_TCP_SOCKET).
  { intros k fd Hk. rewrite list_lookup_fmap in Hk. unfold pool in Hk. destruct (replicate _ _ !! k) as [c|] eqn:Ec; [|discriminate Hk].
    apply lookup_replicate in Ec as [-> _]. injection Hk as <-. reflexivity. }
  destruct Hs as [H1 _ _ _]. rewrite <- Es in H1. cbn in H1. rewrite length_fmap in H1. split.
  - split.
    + cbn. unfold owned. cbn [bk_listen bk_slots bk_pool bk_opens books_of]. cbn. rewrite fmap_replicate.
      rewrite (valid_none (replicate _ _)) by (apply Forall_replicate; reflexivity).
      rewrite (valid_none (owned_fd <$> pool)) by (apply Forall_lookup; exact Hpool). reflexivity.
    + cbn. rewrite length_fmap. exact H1.
    + cbn. apply Forall_forall. intros x Hx.
      assert (Hlc : live_cnt x = 0 /\ zlen (conns x) < 2 ^ 32).
      { apply elem_of_app in Hx as [Hx|Hx]; apply list_elem_of_fmap in Hx as (g & -> & _); cbn;
          rewrite length_fmap, length_seq; lia. }
      destruct Hlc as [Hlc Hlen]. split; [lia|]. split; [exact Hlen|]. intros j k _ Hj.
      assert (Hk : k ∈ range (zlen pool)).
      { rewrite <- H1.
        apply elem_slots. exists x. split; [exact Hx | exact (list_elem_of_lookup_2 _ _ _ Hj)]. }
      apply elem_range in Hk. destruct (lookup_lt_is_Some_2 (owned_fd <$> pool) (Z.to_nat k)) as [fd Hfd]; [rewrite length_fmap; lia|].
      rewrite Hfd. f_equal. exact (Hpool _ _ Hfd).
  - split.
    + unfold sizes. cbn. rewrite length_replicate. unfold groups. rewrite !length_fmap, !length_seq. lia.
    + cbn. destruct (decide (MaxNewConnections = 0)); [left; congruence | right].
      destruct (Z.to_nat MaxNewConnections) eqn:En; [lia | reflexivity].
Qed.

Lemma reachable_roomy h : inv h -> avail_free (books_of h) -> roomy (zlen (conn_pool_ (server h))) h.
Proof using conf_ok.
  intros (sh & (Es & HF & _) & [H1 _ _ _]) [(S1 & S2 & S3) _]. pose proof conf_name as HN. split; [reflexivity|].
  split; [eapply Forall_impl; [exact HF|]; intros c (Hc & _); rewrite Hc; lia|]. split; [auto|]. split; [|exact S1].
  rewrite <- Es in H1. cbn in H1. rewrite length_fmap in H1.
  assert (Hin : forall x, x ∈ shm_grps_ (server h) ++ tcp_grps_ (server h) -> in_pool (zlen (conn_pool_ (server h))) x).
  { intros x Hx. apply Forall_forall. intros k Hk. apply elem_range. rewrite <- H1. apply elem_slots. eauto. }
  split; apply Forall_forall; intros x Hx; apply Hin, elem_of_app; auto.
Qed.

(** One call of the server, one operation of a user on a connection other than
    those that open and close it, or a change by another process or thread: it
    opens and closes nothing in this one. *)
Inductive ledger_step : host W -> host W -> Prop :=
| ledger_Start ip port b h h' : Start ip port h = Ret (b, h') -> ledger_step h h'
| ledger_PollCtl now h h' : PollCtl now h = Ret (tt, h') -> ledger_step h h'
| ledger_PollTcp now g h h' : PollTcp now g h = Ret (tt, h') -> ledger_step h h'
| ledger_PollShm g h h' : PollShm g h = Ret (tt, h') -> ledger_step h h'
| ledger_Stop h h' : Stop h = Ret (tt, h') -> ledger_step h h'
| ledger_user {A} k (f : TcpShmConnection -> disk -> W -> res (A * TcpShmConnection * disk * W)) a h h' :
    keeps_name f -> keeps_fd f -> conn_op k f h = Ret (a, h') -> ledger_step h h'
| ledger_other d w h : opens w = opens (os h) -> ledger_step h (mkHost (server h) d w (events h)).

(** The states reached where others had opened [F] before. *)
Definition ledger_reachable (name dir F : list Z) h : Prop :=
  exists d w h0, booted name dir d w h0 /\ opens w = F /\ rtc ledger_step h0 h.

Lemma ledger_step_keeps F h h' : inv h /\ bal F h -> ledger_step h h' -> inv h' /\ bal F h'.
Proof using conf_ok params_ok recvs app_laws app_fds.
  intros [Hi Hb] Hs. split.
  - apply (step_keeps_inv h); [exact Hi|]. destruct Hs; [eapply step_Start | eapply step_PollCtl | eapply step_PollTcp
      | eapply step_PollShm | eapply step_Stop | eapply step_user | apply step_other]; eassumption.
  - destruct Hs as [ip port b h h' E|now h h' E|now g h h' E|g h h' E|h h' E|A k f a h h' _ Hf E|d w h E].
    + exact (Start_bal F ip port h b h' Hb E).
    + exact (PollCtl_bal F now h tt h' Hb E).
    + exact (PollTcp_bal F now g h tt h' Hb E).
    + exact (PollShm_bal F g h tt h' Hb E).
    + exact (Stop_bal F params_new h tt h' Hb E).
    + exact (bal_still F (conn_op k f) (still_conn_op k f Hf) h a h' Hb E).
    + revert Hb. unfold bal, books_of. cbn. rewrite E. auto.
Qed.

Lemma reachable_bal name dir F h : ledger_reachable name dir F h -> inv h /\ bal F h.
Proof using conf_ok params_ok recvs app_laws app_fds.
  intros (d & w & h0 & Hb & HF & Hr). assert (H0 : inv h0 /\ bal F h0).
  { rewrite <- HF. split; [exact (booted_inv _ _ _ _ _ Hb) | exact (booted_bal _ _ _ _ _ Hb)]. }
  clear Hb HF. induction Hr as [|h0 h1 h2 Hs _ IH]; [exact H0|]. apply IH. exact (ledger_step_keeps F _ _ H0 Hs).
Qed.

Lemma reachable_owns name dir F h :
  ledger_reachable name dir F h ->
  opens (os h) ≡ₚ
    valid [listenfd_ (server h)] ++ valid (nc_fd <$> new_conns_ (server h)) ++ valid (owned_fd <$> conn_pool_ (server h)) ++ F.
Proof using conf_ok params_ok recvs app_laws app_fds.
  intros H. apply reachable_bal in H as [_ [[H _ _] _]]. revert H. unfold owned. cbn [bk_opens bk_listen bk_slots bk_pool books_of].
  rewrite <- !app_assoc. exact id.
Qed.

(** C8. In every state the server reaches, the open descriptors are those of its listening
    socket, its new connections and its pooled connections, each once, and those that were
    open before it was made: no path through accepting, logging in, polling, stopping or
    failing leaks a descriptor, closes one twice or closes one of somebody else. *)
Theorem server_owns_descriptors name dir F h :
  ledger_reachable name dir F h ->
  opens (os h) ≡ₚ
    valid [listenfd_ (server h)] ++ valid (nc_fd <$> new_conns_ (server h)) ++ valid (owned_fd <$> conn_pool_ (server h)) ++ F.
Proof using conf_ok params_ok recvs app_laws app_fds. exact (reachable_owns name dir F h). Qed.

(** C20. In every state the server reaches, [Stop] returns; and if the server was listening,
    every descriptor it opened is closed afterwards and those of others are still open. *)
Theorem Stop_closes_everything name dir F h :
  ledger_reachable name dir F h ->
  exists h', Stop h = Ret (tt, h')
  /\ (listenfd_ (server h) <> INVALID_TCP_SOCKET ->
       opens (os h') ≡ₚ F /\ listenfd_ (server h') = INVALID_TCP_SOCKET
       /\ Forall (fun c => owned_fd c = INVALID_TCP_SOCKET) (conn_pool_ (server h'))).
Proof using conf_ok params_ok recvs app_laws app_fds.
  intros H. apply reachable_bal in H as [Hi Hb].
  destruct (Stop_returns _ h (reachable_roomy h Hi (proj2 Hb))) as ([] & h' & E & _). exists h'. split; [exact E|].
  intros Hl. destruct (Stop_closes F params_new h tt h' (conj Hb Hl) E) as [[[Ho _ _] _] Hn]. rewrite Hn in Ho.
  split; [exact Ho|]. unfold owned in Hn. apply app_eq_nil in Hn as [H1 Hn]. apply app_eq_nil in Hn as [_ Hn]. split.
  - cbn [bk_listen books_of] in H1. destruct (Z.eqb_spec (listenfd_ (server h')) INVALID_TCP_SOCKET) as [|Hv]; [assumption|].
    rewrite (valid_one _ Hv) in H1. discriminate H1.
  - cbn [bk_pool books_of] in Hn. apply Forall_forall. intros c Hc.
    destruct (Z.eqb_spec (owned_fd c) INVALID_TCP_SOCKET) as [|Hv]; [assumption|]. exfalso. assert (Hin : owned_fd c ∈ ([] : list Z)).
    { rewrite <- Hn. apply list_elem_of_filter. split; [exact Hv | apply list_elem_of_fmap; eauto]. } inversion Hin.
Qed.
End Reachable.

(** ** Two clients log in and the server stops *)
Section Witnesses.
#[local] Existing Instance ServerConf.
#[local] Instance here : Platform := true.

#[export] Instance consumer_fds : AppFds sim.
Proof.
  constructor.
  - intros p c d w c' d' w' E. cbn in E. apply bind_Ret in E as ([c1 d1] & E & [= <- _ <-]). split; [|reflexivity].
    exact (Pop_fd _ _ _ _ E).
  - reflexivity.
Qed.

(** Descriptor 3 is somebody else's. *)
Definition listening : host sim :=
  let h := mkHost (server boot) (hdisk boot) (mkSim (net two_logins) ∅ [7; 8] 100 [3]) [] in
  match Start (lit "127.0.0.1") 12345 h with Ret (_, h) => h | _ => h end.
Definition serving : host sim := run (PollCtl 2) (run (PollCtl 1) listening).

Lemma serving_reachable : ledger_reachable (lit "server01") (lit "server_ptcp") [3] serving.
Proof.
  exists (mkDisk ∅ ∅), (mkSim (net two_logins) ∅ [7; 8] 100 [3]), (mkHost (server boot) (hdisk boot) (mkSim (net two_logins) ∅ [7; 8] 100 [3]) []).
  split; [eexists; split; [vm_compute; reflexivity | vm_compute; reflexivity]|]. split; [reflexivity|].
  eapply rtc_l; [apply (ledger_Start (lit "127.0.0.1") 12345 true _ listening); vm_compute; reflexivity|].
  eapply rtc_l; [apply (ledger_PollCtl 1 _ (run (PollCtl 1) listening)); vm_compute; reflexivity|].
  apply rtc_once, (ledger_PollCtl 2). vm_compute. reflexivity.
Qed.

Lemma server_owns_descriptors_witness :
  opens (os serving) ≡ₚ
    valid [listenfd_ (server serving)] ++ valid (nc_fd <$> new_conns_ (server serving))
      ++ valid (owned_fd <$> conn_pool_ (server serving)) ++ [3]
  /\ opens (os serving) = [8; 7; 5; 3].
Proof.
  split; [exact (server_owns_descriptors (lit "server01") (lit "server_ptcp") [3] serving serving_reachable) | vm_compute; reflexivity].
Defined.

Lemma Stop_closes_everything_witness : exists h', Stop serving = Ret (tt, h') /\ opens (os h') ≡ₚ [3].
Proof.
  destruct (Stop_closes_everything (lit "server01") (lit "server_ptcp") [3] serving serving_reachable) as (h' & E & H).
  exists h'. split; [exact E|]. apply H. vm_compute. discriminate.
Defined.
End Witnesses.
