(* ===== verification/PosixServer.v ===== *)
(** * The server over the POSIX layer

    The layers put together: the theorem on the server's descriptors, over the
    code of os.h for POSIX and a kernel, where a queue file that is mapped has a
    descriptor of its own for a moment. *)

From Stdlib Require Import String.
From stdpp Require Import relations gmap.
From S2P Require Import Prelude StateRes Endian MsgHeader Conf PTCPConn CString TcpShmConn SysIO Messages System ShmProbe Descriptors.
From S2P Require Import OsPosix OsPosixProps Server ServerShape ServerProps ServerTheorems ServerFds ServerStop.
From stdpp Require Import list_basics list_relations list.
Local Open Scope Z_scope.

(** What the theorem says of any kernel. *)
Section Posix.
Context {platform : Platform} {conf : Conf} {conf_ok : ConfOk conf} {params : ServerParams} {params_ok : ParamsOk params}.
Context {W : Type} {posix : Posix W} {laws : PosixLaws W} (sizeof_T : bool -> list Z -> Z).
#[local] Existing Instances posix_sockets posix_recvs posix_system posix_probes.
#[local] Instance mapped : Mmap W := posix_mmap sizeof_T.
#[local] Instance the_ledger : Descriptors W := posix_ledger sizeof_T.
Context {app : App W} {app_laws : AppLaws W} {app_fds : AppFds W}.

Corollary posix_server_owns_descriptors name dir F h :
  ledger_reachable name dir F h ->
  k_opens (os h) ≡ₚ
    valid [listenfd_ (server h)] ++ valid (nc_fd <$> new_conns_ (server h)) ++ valid (owned_fd <$> conn_pool_ (server h)) ++ F.
Proof using conf_ok params_ok app_laws app_fds. exact (reachable_owns name dir F h). Qed.
End Posix.

(** Two clients log in on the simulated kernel; the queue files were opened with
    the descriptors 5 and 6, and closed. *)
Section Run.
#[local] Existing Instance ServerConf.
#[local] Instance here : Platform := true.
#[local] Existing Instances posix_sockets posix_recvs posix_system posix_probes.
#[local] Instance kern_mmap : Mmap kern := posix_mmap (fun _ _ => 4096).
#[local] Instance kern_ledger : Descriptors kern := posix_ledger (fun _ _ => 4096).
#[local] Instance kern_app : App kern := {
  OnNewConnection addr login rsp w := (0, rsp, w);
  OnClientMsg p c d w := r ← TS_Pop c d; let '(c, d) := r in Ret (c, d, w)
}.

Definition kern_boot : host kern :=
  match TcpShmServer_init (W := kern) (lit "server01") (lit "server_ptcp") with
  | Ret s => mkHost s (mkDisk ∅ ∅) (mkKern (mkSim (net two_logins) ∅ [7; 8] 100 [3]) 4 ∅ false) []
  | _ => mkHost (mkServer [] [] 0 [] 0 [] [] []) (mkDisk ∅ ∅) (mkKern (mkSim (net two_logins) ∅ [7; 8] 100 [3]) 4 ∅ false) []
  end.
Definition after {A} (m : M (host kern) A) (h : host kern) : host kern := match m h with Ret (_, h) => h | _ => h end.
Definition kern_serving : host kern := after (PollCtl 2) (after (PollCtl 1) (after (Start (lit "127.0.0.1") 12345) kern_boot)).

Example kern_serving_opens : k_opens (os kern_serving) = [8; 7; 4; 3] /\ next_fd (os kern_serving) = 7.
Proof. vm_compute. split; reflexivity. Qed.
Example kern_stopped : k_opens (os (after Server.Stop kern_serving)) = [3].
Proof. vm_compute. reflexivity. Qed.
End Run.
