(* ===== verification/LoginTheorems.v ===== *)
(** * Logging in resumes the queue

    The sequence numbers the two sides exchange at login, and what the server
    does with them: it accepts only when what each side acknowledges is in the
    queue of the other, and then sends, after its response, exactly the messages
    the client has not consumed. *)

From Stdlib Require Import String.
From stdpp Require Import gmap.
From S2P Require Import Prelude StateRes Endian MsgHeader PTCPQueue PTCPQueueSpec PTCPQueueProps Conf.
From S2P Require Import PTCPConn PTCPSend PTCPConnTheorems CString TcpShmConn SysIO Messages System ShmProbe.
From S2P Require Import ShmProbeProps Server ServerShape.
From stdpp Require Import list_basics list_relations list.
Local Open Scope Z_scope.

(** ** The window of sequence numbers *)
Lemma CheckAckInQueue_iff ack_seq seq_start seq_end :
  u32 (seq_end - seq_start) < 2 ^ 31 ->
  CheckAckInQueue ack_seq seq_start seq_end = true <-> u32 (ack_seq - seq_start) <= u32 (seq_end - seq_start).
Proof.
  intros Hl. unfold CheckAckInQueue. rewrite andb_true_iff, !Z.leb_le. word_lia.
Qed.

(** C35. CheckAckInQueue accepts exactly the sequence numbers from seq_start to seq_end
    counted modulo 2^32, for windows shorter than 2^31, also across the wrap. *)
Theorem CheckAckInQueue_exact ack_seq seq_start seq_end :
  in_u32 ack_seq -> in_u32 seq_start -> in_u32 seq_end -> u32 (seq_end - seq_start) < 2 ^ 31 ->
  CheckAckInQueue ack_seq seq_start seq_end = true
  <-> exists k, 0 <= k <= u32 (seq_end - seq_start) /\ ack_seq = u32 (seq_start + k).
Proof.
  intros Ha Hs He Hl. rewrite CheckAckInQueue_iff by exact Hl. split.
  - intros H. exists (u32 (ack_seq - seq_start)). split; [pose proof (u32_in (ack_seq - seq_start)); word_lia|].
    rewrite u32_add_r, <- (u32_id ack_seq Ha) at 1. f_equal. lia.
  - intros (k & Hk & ->). rewrite u32_sub_l. replace (seq_start + k - seq_start) with k by lia.
    rewrite u32_id by word_lia. lia.
Qed.

Lemma CheckAckInQueue_exact_witness :
  CheckAckInQueue 1 (2 ^ 32 - 2) 3 = true
  <-> exists k, 0 <= k <= u32 (3 - (2 ^ 32 - 2)) /\ 1 = u32 (2 ^ 32 - 2 + k).
Proof. refine (CheckAckInQueue_exact 1 (2 ^ 32 - 2) 3 _ _ _ _); concrete. Defined.

(** ** The login of a slot *)
Section Login.
Context {platform : Platform} {conf : Conf} {conf_ok : ConfOk conf} {params : ServerParams} {W : Type}.
Context {sockets : Sockets W} {sends : SendLaws W} {recvs : RecvLaws W} {mmap : Mmap W} {system : System W}.
Context {probes : ProbeMemory W} {laws : SystemLaws} {app : App W}.
Abbreviation Rep := (Rep TcpQueueSize ToLittleEndian).
Abbreviation wires := (wires ToLittleEndian).
Implicit Types (h : host W) (c : TcpShmConnection).

(** *** Equations of the primitives *)
Lemma conn_op_run {A} k f h c (a : A) c' d w :
  0 <= k -> conn_pool_ (server h) !! Z.to_nat k = Some c -> f c (hdisk h) (os h) = Ret (a, c', d, w) ->
  conn_op k f h = Ret (a, mkHost (set_pool (<[Z.to_nat k := c']> (conn_pool_ (server h))) (server h)) d w (events h)).
Proof using Type.
  intros Hk Hc Hf. pose proof (lookup_lt_Some _ _ _ Hc) as Hl.
  unfold conn_op. rewrite (M_bind_eq _ _ h c h).
  2:{ unfold conn_at. change ((member_ conn_pool_ ≫= ?g) h) with (g (conn_pool_ (server h)) h). cbv beta.
      unfold lift. rewrite (proj2 (ld_Ret _ _ c) (conj Hk Hc)). reflexivity. }
  rewrite (M_bind_eq _ _ h (a, c') (mkHost (server h) d w (events h))) by (rewrite Hf; reflexivity).
  rewrite (M_bind_eq _ _ _ tt (mkHost (set_pool (<[Z.to_nat k := c']> (conn_pool_ (server h))) (server h)) d w (events h)));
    [reflexivity|].
  unfold store_conn. change ((member_ conn_pool_ ≫= ?g) ?s) with (g (conn_pool_ (server s)) s). cbv beta.
  rewrite (lift_bind _ _ _ (<[Z.to_nat k := c']> (conn_pool_ (server h)))); [reflexivity|].
  apply st_Ret. split; [cbn; lia | reflexivity].
Qed.

Lemma io_run {A} (m : M W A) h a w : m (os h) = Ret (a, w) -> io m h = Ret (a, set_os w h).
Proof using Type. intros E. unfold io, zoom. rewrite E. reflexivity. Qed.

Lemma grp_at_run shm g h x : 0 <= g -> grps shm (server h) !! Z.to_nat g = Some x -> grp_at shm g h = Ret (x, h).
Proof using Type.
  intros Hg Hx. unfold grp_at. change ((member_ (grps shm) ≫= ?f) h) with (f (grps shm (server h)) h). cbv beta.
  unfold lift. rewrite (proj2 (ld_Ret _ _ x) (conj Hg Hx)). reflexivity.
Qed.

Lemma store_grp_run shm g x h : 0 <= g < zlen (grps shm (server h)) ->
  store_grp shm g x h = Ret (tt, set_server (set_grps shm (<[Z.to_nat g := x]> (grps shm (server h))) (server h)) h).
Proof using Type.
  intros Hg. unfold store_grp. change ((member_ (grps shm) ≫= ?f) h) with (f (grps shm (server h)) h). cbv beta.
  rewrite (lift_bind _ _ _ (<[Z.to_nat g := x]> (grps shm (server h)))); [reflexivity|].
  apply st_Ret. split; [exact Hg | reflexivity].
Qed.

(** [error_msg] is an array of 32. *)
Lemma reject_run fd rsp msg h : zlen (error_msg rsp) = 32 ->
  exists w, reject fd rsp msg h = Ret (false, set_os w h).
Proof using sends recvs.
  intros L. destruct (strncpy_spec (error_msg rsp) (lit msg) 32 L ltac:(lia)) as (e & Ee & _).
  unfold reject. rewrite (lift_bind _ _ _ _ Ee).
  destruct (send_all_done fd (ctl_bytes 0 (ctl_header (A := LoginRspMsg) 0) (set_error e rsp)) (os h)) as (r & w & E & _).
  exists w. rewrite (M_bind_eq _ _ h (match r with None => true | Some _ => false end) (set_os w h)); [reflexivity|].
  apply io_run. unfold SendLoginRsp. rewrite (M_bind_eq _ _ _ _ _ E). reflexivity.
Qed.

Lemma report_reject_run ev fd rsp msg h : zlen (error_msg rsp) = 32 ->
  exists h', (report ev ≫= fun _ => reject fd rsp msg) h = Ret (false, h') /\ server h' = server h.
Proof using sends recvs.
  intros L. destruct (reject_run fd rsp msg (mkHost (server h) (hdisk h) (os h) (events h ++ [ev])) L) as [w E].
  change ((report ev ≫= ?m) h) with (m tt (mkHost (server h) (hdisk h) (os h) (events h ++ [ev]))). cbv beta.
  rewrite E. eexists. split; reflexivity.
Qed.

Lemma conn_at_run k h c : 0 <= k -> conn_pool_ (server h) !! Z.to_nat k = Some c -> conn_at k h = Ret (c, h).
Proof using Type.
  intros Hk Hc. unfold conn_at. change ((member_ conn_pool_ ≫= ?m) h) with (m (conn_pool_ (server h)) h). cbv beta.
  unfold lift. rewrite (proj2 (ld_Ret _ _ c) (conj Hk Hc)). reflexivity.
Qed.

Lemma SendLoginRsp_run fd hd rsp (w : W) : exists b w', SendLoginRsp fd hd rsp w = Ret (b, w')
  /\ (b = true -> outbox fd w' = outbox fd w ++ ctl_bytes 0 hd rsp).
Proof using sends recvs.
  destruct (send_all_done fd (ctl_bytes 0 hd rsp) w) as (r & w' & E & Ho & _).
  unfold SendLoginRsp. rewrite (M_bind_eq _ _ _ _ _ E). exists (match r with None => true | Some _ => false end), w'.
  split; [reflexivity|]. destruct r; [discriminate | intros _; apply Ho; reflexivity].
Qed.

(** *** Connections over TCP *)

(** The queue a connection has, or gets when its file is opened. *)
Definition queue_of c (d : disk) : PTCPQueue :=
  match q_ (ptcp_conn_ c) with Some q => q | None => map_file (GetPtcpFile c) d end.

Lemma OpenFile_tcp_run c d w :
  exists e c' d' w', TS_OpenFile false c d w = (e, c', d', w') /\ shm_sendq_ c' = shm_sendq_ c /\ same_io w w'
    /\ (e = None -> q_ (ptcp_conn_ c') = Some (queue_of c d))
    /\ (e <> None -> q_ (ptcp_conn_ c') = q_ (ptcp_conn_ c)).
Proof using laws.
  unfold TS_OpenFile, queue_of. destruct (q_ (ptcp_conn_ c)) as [q|] eqn:Eq.
  - exists None, c, d, w. split; [reflexivity|]. split; [reflexivity|]. split; [apply same_io_refl|].
    split; [intros _; exact Eq | congruence].
  - pose proof (my_mmap_io false (GetPtcpFile c) w) as Hio.
    destruct (my_mmap false (GetPtcpFile c) w) as [[e|] w1]; cbn [snd] in Hio.
    + eexists (Some e), _, d, w1. split; [reflexivity|]. split; [reflexivity|]. split; [exact Hio|].
      split; [discriminate|]. intros _. unfold OpenFile. rewrite Eq. exact Eq.
    + eexists None, _, d, w1. split; [reflexivity|]. split; [reflexivity|]. split; [exact Hio|].
      split; [|congruence]. intros _. unfold OpenFile. rewrite Eq. reflexivity.
Qed.

Lemma GetSeq_tcp_run c q l : shm_sendq_ c = None -> q_ (ptcp_conn_ c) = Some q -> Rep q l ->
  TS_GetSeq c = Ret (match spec_seq l with Some seqs => Some (Some (my_ack l, seqs)) | None => None end).
Proof using conf_ok.
  intros Hs Hq HR. unfold TS_GetSeq, GetSeq, deref. rewrite Hs, Hq. cbn [mbind res_bind].
  rewrite (SanityCheck_rep TcpQueueSize ToLittleEndian queue_range q l HR). cbn [mbind res_bind].
  unfold MyAck. destruct (rep_ack _ _ _ _ HR) as [-> _]. destruct (spec_seq l); reflexivity.
Qed.

(** The server's test is that the client acknowledges a prefix of the queue. *)
Lemma acked_in_window ack q l : Rep q l ->
  CheckAckInQueue ack (first_seq l) (u32 (first_seq l + zlen (entries l))) = true ->
  0 <= spec_acked ack l <= zlen (entries l).
Proof using conf_ok.
  intros HR H. pose proof (rep_bounds _ _ q l HR) as B. pose proof (BLK_CNT_range TcpQueueSize queue_range) as Hc.
  pose proof (length_wires_ge ToLittleEndian (entries l)) as Hlen.
  assert (El : u32 (u32 (first_seq l + zlen (entries l)) - first_seq l) = zlen (entries l)).
  { rewrite u32_sub_l. replace (_ + _ - _) with (zlen (entries l)) by lia. apply u32_id. unfold in_u32. lia. }
  apply CheckAckInQueue_iff in H; rewrite El in *; [|lia].
  unfold spec_acked. pose proof (u32_in (ack - first_seq l)) as Hu. rewrite s32_id by (unfold in_u32 in Hu; lia).
  unfold in_u32 in Hu. lia.
Qed.

Definition accepted_rsp (l : log) (rsp : LoginRspMsg) : LoginRspMsg :=
  set_status 0 (set_seqs (first_seq l) (u32 (first_seq l + zlen (entries l))) rsp).

(** A refused login leaves the groups and the queue as they were. *)
Definition refused h k (l : log) h' : Prop :=
  tcp_grps_ (server h') = tcp_grps_ (server h)
  /\ exists c', conn_pool_ (server h') !! Z.to_nat k = Some c'
      /\ forall q, q_ (ptcp_conn_ c') = Some q -> Rep q l.

(** An accepted one resumes: what the client acknowledged is dropped, the rest
    follows the response on the socket. *)
Definition accepted h k (l : log) (fd ack : Z) (rsp : LoginRspMsg) h' : Prop :=
  let l1 := spec_login_ack ToLittleEndian ack l in
  0 <= spec_acked ack l <= zlen (entries l)
  /\ exists c' q n, conn_pool_ (server h') !! Z.to_nat k = Some c'
      /\ q_ (ptcp_conn_ c') = Some q /\ Rep q (spec_sendout n l1)
      /\ (IsClosed (ptcp_conn_ c') = false ->
          outbox fd (os h') = outbox fd (os h)
            ++ ctl_bytes 0 (ctl_header (A := LoginRspMsg) (my_ack l)) (accepted_rsp l rsp)
            ++ blks_bytes (take (Z.to_nat n) (wires (entries l1)))).

Lemma refused_same h h1 k c1 l h' :
  tcp_grps_ (server h1) = tcp_grps_ (server h) -> conn_pool_ (server h1) !! Z.to_nat k = Some c1 ->
  (forall q, q_ (ptcp_conn_ c1) = Some q -> Rep q l) -> server h' = server h1 -> refused h k l h'.
Proof using Type. intros Hg Hc Hq E. split; rewrite E; [exact Hg | exists c1; auto]. Qed.

(** Sending the response and opening the connection, once the test passed. *)
Lemma login_accept now fd addr (ack : Z) rsp g i k h c q x l hd :
  Rep q l -> q_ (ptcp_conn_ c) = Some q -> 0 <= k -> conn_pool_ (server h) !! Z.to_nat k = Some c ->
  0 <= g -> tcp_grps_ (server h) !! Z.to_nat g = Some x -> 0 <= live_cnt x <= i -> i < zlen (conns x) ->
  fd <> INVALID_TCP_SOCKET -> in_u32 ack -> 0 <= spec_acked ack l <= zlen (entries l) ->
  let l1 := spec_login_ack ToLittleEndian ack l in
  exists b h', (sent ← io (SendLoginRsp fd hd rsp);
      if negb sent then mret false
      else
        _ ← io (sys (tcp_set_nonblocking fd));
        _ ← conn_op k (fun c d w => r ← TS_Open fd ack now c w; let '(c, w) := r in Ret (tt, c, d, w));
        grp ← grp_at false g;
        l ← lift (swap (conns grp) i (live_cnt grp));
        _ ← store_grp false g (mkGroup (u32 (live_cnt grp + 1)) l);
        _ ← report (OnClientLogon addr k);
        mret true) h = Ret (b, h')
    /\ if b : bool then
         exists c' q' n, conn_pool_ (server h') !! Z.to_nat k = Some c'
           /\ q_ (ptcp_conn_ c') = Some q' /\ Rep q' (spec_sendout n l1)
           /\ (IsClosed (ptcp_conn_ c') = false ->
               outbox fd (os h') = outbox fd (os h) ++ ctl_bytes 0 hd rsp
                 ++ blks_bytes (take (Z.to_nat n) (wires (entries l1))))
       else server h' = server h.
Proof using conf_ok laws.
  intros HR Hq Hk Hc Hg Hx Hlive Hi Hfd Hack Hwin l1.
  destruct (SendLoginRsp_run fd hd rsp (os h)) as (sent & w1 & E1 & Ho1).
  rewrite (M_bind_eq _ _ _ _ _ (io_run _ h _ _ E1)). destruct sent; cbn [negb].
  2:{ eexists false, _. split; [reflexivity | reflexivity]. }
  set (w2 := tcp_set_nonblocking fd w1). pose proof (nonblocking_io fd w1) as [Hio _]. fold w2 in Hio.
  rewrite (M_bind_eq _ _ _ tt (set_os w2 (set_os w1 h))) by (apply io_run; reflexivity).
  destruct (Open_effect fd ack now (ptcp_conn_ c) w2 q l Hfd Hq HR Hack ltac:(lia))
    as (t & w3 & q' & n & left & Eo & Hq' & HR' & _ & _ & Hout & _).
  set (h3 := mkHost (set_pool (<[Z.to_nat k := set_ptcp t c]> (conn_pool_ (server h))) (server h)) (hdisk h) w3 (events h)).
  rewrite (M_bind_eq _ _ _ tt h3).
  2:{ apply (conn_op_run k _ (set_os w2 (set_os w1 h)) c tt (set_ptcp t c) (hdisk h) w3 Hk Hc).
      unfold TS_Open. cbn [os hdisk set_os]. rewrite Eo. reflexivity. }
  rewrite (M_bind_eq _ _ h3 x h3) by (apply grp_at_run; assumption).
  destruct (swap_total (conns x) i (live_cnt x) ltac:(lia) ltac:(lia)) as [sl Esl].
  rewrite (lift_bind _ _ _ _ Esl). pose proof (lookup_lt_Some _ _ _ Hx) as Hgl.
  rewrite (M_bind_eq _ _ _ _ _ (store_grp_run false g _ h3 ltac:(cbn; lia))).
  eexists true, _. split; [reflexivity|]. exists (set_ptcp t c), q', n. split.
  { cbn. apply list_lookup_insert_eq. exact (lookup_lt_Some _ _ _ Hc). }
  split; [exact Hq'|]. split; [exact HR'|]. cbn. intros Hopen.
  destruct (Hout Hopen) as (_ & _ & Hob). rewrite Hob, Hio, (Ho1 eq_refl), <- app_assoc. reflexivity.
Qed.

(** The numbers of both sides, when the client names this server. *)
Lemma login_seqs_run k header login h c q l :
  0 <= k -> conn_pool_ (server h) !! Z.to_nat k = Some c -> shm_sendq_ c = None ->
  q_ (ptcp_conn_ c) = Some q -> Rep q l ->
  login_seqs false k header login h
  = Ret (match spec_seq l with
         | Some _ => Some ((my_ack l, first_seq l, u32 (first_seq l + zlen (entries l))),
                           (ack_seq header, client_seq_start login, client_seq_end login))
         | None => None
         end, h).
Proof using conf_ok.
  intros Hk Hc Hs Hq HR. unfold login_seqs.
  rewrite (M_bind_eq _ _ _ _ _ (conn_at_run k h c Hk Hc)), (lift_bind _ _ _ _ (GetSeq_tcp_run c q l Hs Hq HR)).
  unfold spec_seq. destruct (forallb _ _); reflexivity.
Qed.

Lemma login_slot_resumes now fd addr header login rsp g i k h c x l :
  use_shm login = 0 -> shm_sendq_ c = None -> Rep (queue_of c (hdisk h)) l ->
  0 <= k -> conn_pool_ (server h) !! Z.to_nat k = Some c ->
  0 <= g -> tcp_grps_ (server h) !! Z.to_nat g = Some x -> 0 <= live_cnt x <= i -> i < zlen (conns x) ->
  fd <> INVALID_TCP_SOCKET -> in_u32 (ack_seq header) -> zlen (error_msg rsp) = 32 ->
  strncmp_eq (last_server_name login) (server_name_ (server h)) NameSize = true ->
  exists b h', login_slot now fd addr header login rsp g i k h = Ret (b, h')
    /\ (b = false -> refused h k l h')
    /\ (b = true -> accepted h k l fd (ack_seq header) rsp h'
          /\ CheckAckInQueue (my_ack l) (client_seq_start login) (client_seq_end login) = true).
Proof using conf_ok laws.
  intros Hshm Hsq HR Hk Hc Hg Hx Hlive Hi Hfd Hack Herr Hname.
  unfold login_slot. rewrite Hshm. change (negb (0 =? 0)) with false.
  rewrite (M_bind_eq _ _ h x h) by (apply grp_at_run; assumption).
  destruct (Z.ltb_spec i (live_cnt x)); [lia|].
  destruct (OpenFile_tcp_run c (hdisk h) (os h)) as (e & c1 & d1 & w1 & Eo & Hsq1 & Hio & Hok & Hbad).
  set (h1 := mkHost (set_pool (<[Z.to_nat k := c1]> (conn_pool_ (server h))) (server h)) d1 w1 (events h)).
  rewrite (M_bind_eq _ _ h e h1) by (apply (conn_op_run k _ h c e c1 d1 w1 Hk Hc); rewrite Eo; reflexivity).
  assert (Hc1 : conn_pool_ (server h1) !! Z.to_nat k = Some c1)
    by (apply list_lookup_insert_eq; exact (lookup_lt_Some _ _ _ Hc)).
  assert (HRq : forall q, q_ (ptcp_conn_ c1) = Some q -> Rep q l).
  { intros q Hq. destruct e as [e|].
    - rewrite (Hbad ltac:(discriminate)) in Hq. unfold queue_of in HR. rewrite Hq in HR. exact HR.
    - rewrite (Hok eq_refl) in Hq. injection Hq as <-. exact HR. }
  assert (Hrefuse : forall m P, (exists h', m h1 = Ret (false, h') /\ server h' = server h1) ->
            exists b h', m h1 = Ret (b, h') /\ (b = false -> refused h k l h') /\ (b = true -> P h')).
  { intros m P (h' & E & Es). exists false, h'. split; [exact E|].
    split; [intros _; exact (refused_same h h1 k c1 l h' eq_refl Hc1 HRq Es) | discriminate]. }
  destruct e as [e|].
  { change ((gets ?f ≫= ?m) h1) with (m (f h1) h1). apply Hrefuse, report_reject_run, Herr. }
  specialize (Hok eq_refl). change ((member_ server_name_ ≫= ?m) h1) with (m (server_name_ (server h)) h1). cbv beta.
  rewrite Hname. cbn [negb].
  rewrite (M_bind_eq _ _ _ _ _ (login_seqs_run k header login h1 c1 _ l Hk Hc1 (eq_trans Hsq1 Hsq) Hok HR)).
  destruct (spec_seq l) as [se|]; [|apply Hrefuse, report_reject_run, Herr]. cbv zeta beta iota.
  destruct (negb _ || negb _) eqn:Ec.
  { apply Hrefuse.
    change ((report ?ev ≫= ?m) h1) with (m tt (mkHost (server h1) (hdisk h1) (os h1) (events h1 ++ [ev]))). cbv beta.
    match goal with |- context [(io (SendLoginRsp fd ?hd ?r) ≫= _) ?hh] =>
      destruct (SendLoginRsp_run fd hd r (os hh)) as (b & w & E & _); rewrite (M_bind_eq _ _ _ _ _ (io_run _ hh _ _ E)) end.
    eexists. split; reflexivity. }
  apply orb_false_iff in Ec as [Ec1%negb_false_iff Ec2%negb_false_iff].
  pose proof (acked_in_window (ack_seq header) _ l HR Ec1) as Hwin.
  destruct (login_accept now fd addr (ack_seq header) (accepted_rsp l rsp) g i k h1 c1 _ x l
              (ctl_header (A := LoginRspMsg) (my_ack l)) HR Hok Hk Hc1 Hg Hx Hlive Hi Hfd Hack Hwin) as (b & h' & E & Hb).
  destruct b; [|apply Hrefuse; exists h'; auto].
  exists true, h'. split; [exact E|]. split; [discriminate|]. intros _. split; [|exact Ec2]. split; [exact Hwin|].
  destruct Hb as (c' & q' & n & H1 & H2 & H3 & H4). exists c', q', n.
  split; [exact H1|]. split; [exact H2|]. split; [exact H3|]. intros Hopen.
  rewrite (H4 Hopen). f_equal. exact (proj1 Hio fd).
Qed.

(** C7. The login of a client over TCP to the server it last used, matched to a slot that is
    not live, returns, and implements the resumption of the abstract log: a refusal leaves
    the groups and the queue as they were; an acceptance means that each side acknowledges a
    prefix of what the other has, the queue drops what the client acknowledged, and, unless
    the connection closed, the socket got the response followed by a prefix of everything
    not acknowledged, the same prefix the queue counts as sent. *)
Theorem login_resumes_queue now fd addr header login rsp g i k h c x l :
  use_shm login = 0 -> shm_sendq_ c = None -> Rep (queue_of c (hdisk h)) l ->
  0 <= k -> conn_pool_ (server h) !! Z.to_nat k = Some c ->
  0 <= g -> tcp_grps_ (server h) !! Z.to_nat g = Some x -> 0 <= live_cnt x <= i -> i < zlen (conns x) ->
  fd <> INVALID_TCP_SOCKET -> in_u32 (ack_seq header) -> zlen (error_msg rsp) = 32 ->
  strncmp_eq (last_server_name login) (server_name_ (server h)) NameSize = true ->
  exists b h', login_slot now fd addr header login rsp g i k h = Ret (b, h')
    /\ (b = false -> refused h k l h')
    /\ (b = true -> accepted h k l fd (ack_seq header) rsp h'
          /\ CheckAckInQueue (my_ack l) (client_seq_start login) (client_seq_end login) = true).
Proof using conf_ok laws. exact (login_slot_resumes now fd addr header login rsp g i k h c x l). Qed.
End Login.

(** ** A client comes back

    Its connection has a message of two blocks that it has not acknowledged. *)
Section Witness.
#[local] Instance here : Platform := true.
#[local] Existing Instance ServerConf.

Definition old_conn : TcpShmConnection :=
  set_ptcp (set_q (Some sending_queue) PTCPConnection_init)
    (set_remote (a_name (lit "c1")) (TcpShmConnection_init (lit "dir") (a_name (lit "s1")))).
Definition old_server : TcpShmServer :=
  mkServer (a_name (lit "s1")) (lit "dir") 3 [mkNewConn 0 7 []] 0 [old_conn] [] [mkGroup 0 [0]].
Definition old_host : host sim :=
  mkHost old_server (mkDisk ∅ ∅) (mkSim (mkWorld [EvSend 1000; EvSend 1000] [] 0 []) ∅ [] 0 [7]) [].
Definition back_login : LoginMsg := mkLogin 0 0 0 0 (a_name (lit "c1")) (a_name (lit "s1")).
Definition fresh_rsp : LoginRspMsg := mkLoginRsp 0 0 0 2 (a_name (lit "s1")) (replicate 32 0).

Lemma login_resumes_queue_witness :
  exists b h', login_slot 1 7 [] (ctl_header (A := LoginMsg) 0) back_login fresh_rsp 0 0 0 old_host = Ret (b, h')
    /\ (b = false -> refused old_host 0 sending_log h')
    /\ (b = true -> accepted old_host 0 sending_log 7 0 fresh_rsp h'
          /\ CheckAckInQueue (my_ack sending_log) (client_seq_start back_login) (client_seq_end back_login) = true).
Proof.
  refine (login_resumes_queue 1 7 [] (ctl_header (A := LoginMsg) 0) back_login fresh_rsp 0 0 0 old_host
            old_conn (mkGroup 0 [0]) sending_log _ _ sending_queue_rep _ _ _ _ _ _ _ _ _ _);
    vm_compute; try reflexivity; try (split; congruence); congruence.
Defined.
End Witness.
