(* ===== verification/Handshake.v ===== *)
(** * A login, seen from both sides

    [Connect] of the client and the server's half of the login, between hosts of
    any byte orders: when both have accepted, each queue starts where the other
    side stopped reading. *)

From Stdlib Require Import String.
From stdpp Require Import gmap.
From S2P Require Import Prelude StateRes Endian MsgHeader PTCPQueue PTCPQueueSpec PTCPQueueProps Conf PTCPConn PTCPSend PTCPConnTheorems.
From S2P Require Import CString TcpShmConn SysIO Messages System ShmProbe ShmProbeProps Server Client ServerShape LoginTheorems.
From stdpp Require Import list_basics list_relations list.
Local Open Scope Z_scope.

(** ** Names *)
Lemma strncpy_short dst src n : zlen dst = n -> zlen (cstr src) < n ->
  strncpy dst src n = Ret (cstr src ++ replicate (Z.to_nat n - length (cstr src)) 0).
Proof.
  intros L H. unfold strncpy. rewrite take_ge by lia. unfold write_at. rewrite length_app, length_replicate.
  destruct (_ && _) eqn:B; [|lia]. change (Z.to_nat 0) with 0%nat. rewrite drop_ge by lia.
  cbn [take app]. rewrite app_nil_r. reflexivity.
Qed.

Lemma cstr_bytes a : Forall in_byte a -> Forall in_byte (cstr a).
Proof. induction 1 as [|b a Hb _ IH]; [constructor|]. simpl. case_test; constructor; assumption. Qed.

Lemma padded_chars s n : Forall in_byte s -> zlen s <= n ->
  chars n (s ++ replicate (Z.to_nat n - length s) 0).
Proof.
  intros Hs Hl. split; [rewrite length_app, length_replicate; lia|].
  apply Forall_app. split; [exact Hs | apply Forall_replicate; unfold in_byte; lia].
Qed.

Lemma terminate_short s n : zlen s < n ->
  terminate (s ++ replicate (Z.to_nat n - length s) 0) (n - 1) = Ret (s ++ replicate (Z.to_nat n - length s) 0).
Proof.
  intros H. unfold terminate, st. rewrite length_app, length_replicate. destruct (_ && _) eqn:B; [|lia].
  f_equal. apply list_insert_id. rewrite lookup_app_r by lia. apply lookup_replicate. lia.
Qed.

(** An array that holds a name. *)
Definition holds_name {conf : Conf} (a : list Z) : Prop := Forall in_byte a /\ zlen (cstr a) < NameSize.
Definition name_array {conf : Conf} (a : list Z) : list Z := cstr a ++ replicate (Z.to_nat NameSize - length (cstr a)) 0.

Section Names.
Context {conf : Conf}.

Lemma cstr_name_array a : cstr (name_array a) = cstr a.
Proof using Type. apply cstr_app_zeros, cstr_nz. Qed.
Lemma name_array_chars a : holds_name a -> chars NameSize (name_array a).
Proof using Type. intros [Hb Hl]. apply padded_chars; [apply cstr_bytes; exact Hb | lia]. Qed.
Lemma copy_name b a : holds_name a -> 0 <= NameSize ->
  strncpy (replicate (Z.to_nat NameSize) b) a NameSize = Ret (name_array a).
Proof using Type. intros [_ Hl] H0. apply strncpy_short; [rewrite length_replicate; lia | exact Hl]. Qed.
Lemma same_name a b : cstr a = cstr b -> strncmp_eq a b NameSize = true.
Proof using Type. unfold strncmp_eq. intros ->. apply bool_decide_eq_true_2. reflexivity. Qed.
End Names.

(** ** The client *)

(** Making and connecting a socket transfers no bytes of the streams. *)
Class SocketLaws (W : Type) {sockets : Sockets W} {sends : SendLaws W} {recvs : RecvLaws W} {system : System W} : Prop := {
  socket_io w : same_io w (snd (tcp_socket w));
  setsockopt_io fd o w : same_io w (snd (tcp_setsockopt fd o w));
  connect_io fd ip port w : same_io w (snd (tcp_connect fd ip port w))
}.

Section Client.
Context {platform : Platform} {conf : Conf} {conf_ok : ConfOk conf} {W : Type}.
Context {sockets : Sockets W} {sends : SendLaws W} {recvs : RecvLaws W} {mmap : Mmap W} {system : System W}.
Context {probes : ProbeMemory W} {laws : SystemLaws} {socket_laws : SocketLaws W} {app : ClientApp W}.
Abbreviation Rep := (Rep TcpQueueSize ToLittleEndian).
Implicit Types (h : chost W) (c : TcpShmConnection).

(** A call of the system that leaves the streams alone. *)
Definition quiet_step h h' : Prop :=
  client h' = client h /\ names h' = names h /\ cdisk h' = cdisk h /\ same_io (cos h) (cos h').
Lemma quiet_refl h : quiet_step h h.
Proof using Type. repeat split; reflexivity || apply same_io_refl. Qed.
Lemma quiet_trans h h1 h2 : quiet_step h h1 -> quiet_step h1 h2 -> quiet_step h h2.
Proof using Type.
  intros (A & B & C & D) (A' & B' & C' & D'). repeat split; try congruence; apply (same_io_trans _ _ _ D D').
Qed.
Lemma io_call_quiet {A} (f : W -> A * W) h a h' : (forall w, same_io w (snd (f w))) ->
  Client.io (call f) h = Ret (a, h') -> quiet_step h h'.
Proof using Type.
  intros Hf E. apply bind_Ret in E as ([x w] & E & [= <- <-]). injection E as E.
  pose proof (Hf (cos h)) as H. rewrite E in H. repeat split; apply H.
Qed.

Lemma member_bind {A B} (f : TcpShmClient -> A) (k : A -> M (chost W) B) h : (member_ f ≫= k) h = k (f (client h)) h.
Proof using Type. reflexivity. Qed.

(** A failure is not success. *)
Lemma fail_close_false fd msg e h h' : fail_close fd msg e h <> Ret (true, h').
Proof using Type.
  intros E. apply M_bind_Ret in E as (u & h1 & _ & E). apply M_bind_Ret in E as (u2 & h2 & _ & E). discriminate E.
Qed.
Lemma fail_close_errno_false fd msg h h' : fail_close_errno fd msg h <> Ret (true, h').
Proof using Type. intros E. exact (fail_close_false _ _ _ _ _ E). Qed.

Lemma open_socket_true ip port next h h' : open_socket ip port next h = Ret (true, h') ->
  exists fd h1, fd <> INVALID_TCP_SOCKET /\ next fd h1 = Ret (true, h') /\ quiet_step h h1.
Proof using laws socket_laws.
  intros E. unfold open_socket in E.
  apply M_bind_Ret in E as (fd & h1 & E1 & E). apply (io_call_quiet _ _ _ _ socket_io) in E1.
  destruct (Z.eqb_spec fd INVALID_TCP_SOCKET) as [_|Hfd]; [discriminate E|].
  apply M_bind_Ret in E as (r & h2 & E2 & E). apply (io_call_quiet _ _ _ _ (timeout_io _ _ _)) in E2.
  destruct (r <? 0); [destruct (fail_close_errno_false _ _ _ _ E)|].
  apply M_bind_Ret in E as (r2 & h3 & E3 & E). apply (io_call_quiet _ _ _ _ (timeout_io _ _ _)) in E3.
  destruct (r2 <? 0); [destruct (fail_close_errno_false _ _ _ _ E)|].
  apply M_bind_Ret in E as (r3 & h4 & E4 & E).
  assert (E4' : quiet_step h3 h4).
  { destruct TcpNoDelay; [exact (io_call_quiet _ _ _ _ (setsockopt_io _ _) E4) | injection E4 as _ <-; apply quiet_refl]. }
  destruct (r3 <? 0); [destruct (fail_close_errno_false _ _ _ _ E)|].
  apply M_bind_Ret in E as (r4 & h5 & E5 & E). apply (io_call_quiet _ _ _ _ (connect_io _ _ _)) in E5.
  destruct (r4 <? 0); [destruct (fail_close_errno_false _ _ _ _ E)|].
  exists fd, h5. split; [exact Hfd|]. split; [exact E|]. eauto 6 using quiet_trans.
Qed.

(** *** The login of a client that knows the server *)
Record knows h (f n : list Z) (b : Z) : Prop := {
  kn_file : server_name_ (client h) = Some f;
  kn_name : names h !! f = Some n;
  kn_head : n !! 0%nat = Some b;
  kn_some : b <> 0
}.
Lemma read_name_run h f n : server_name_ (client h) = Some f -> names h !! f = Some n -> read_name h = Ret (n, h).
Proof using Type.
  intros Hf Hn. unfold read_name. rewrite member_bind, gets_bind, Hf. unfold lift. rewrite Hn. reflexivity.
Qed.
Lemma ld_head (n : list Z) b : n !! 0%nat = Some b -> ld n 0 = Ret b.
Proof using Type. intros H. apply ld_Ret. split; [lia | exact H]. Qed.

(** The connection with the queue [l] in memory. *)
Definition queue_open h (l : log) : Prop :=
  exists q, q_ (ptcp_conn_ (conn_ (client h))) = Some q /\ Rep q l.

Lemma login_queue_true n b h r h' l :
  n !! 0%nat = Some b -> b <> 0 -> shm_sendq_ (conn_ (client h)) = None ->
  Rep (queue_of (conn_ (client h)) (cdisk h)) l -> login_queue n false h = Ret (Some r, h') ->
  r = (my_ack l, first_seq l, u32 (first_seq l + zlen (entries l))) /\ queue_open h' l
  /\ server_name_ (client h') = server_name_ (client h) /\ names h' = names h /\ same_io (cos h) (cos h').
Proof using conf_ok laws.
  intros Hn Hb Hs HR E. unfold login_queue in E. rewrite (lift_bind _ _ _ _ (ld_head n b Hn)) in E.
  destruct (Z.eqb_spec b 0); [congruence|]. cbn [negb andb] in E.
  destruct (OpenFile_tcp_run (conn_ (client h)) (cdisk h) (cos h)) as (e & c1 & d1 & w1 & Eo & Hs1 & Hio & Hok & _).
  set (h1 := mkCHost (set_conn c1 (client h)) (names h) d1 w1 (cevents h)).
  rewrite (M_bind_eq _ _ h e h1) in E by (unfold OpenConnFile, conn_op; rewrite Eo; reflexivity).
  destruct e as [e|].
  { apply M_bind_Ret in E as (x & h2 & _ & E). discriminate E. }
  specialize (Hok eq_refl). rewrite member_bind in E.
  pose proof (GetSeq_tcp_run (conn_ (client h1)) _ l (eq_trans Hs1 Hs) Hok HR) as Eseq.
  rewrite (lift_bind _ _ _ _ Eseq) in E. unfold spec_seq in E. destruct (forallb _ _).
  - injection E as <- <-. split; [reflexivity|]. split; [eexists; split; [exact Hok | exact HR]|]. auto.
  - apply M_bind_Ret in E as (x & h2 & _ & E). discriminate E.
Qed.

Lemma TryClose_run h : fd_to_close_ (ptcp_conn_ (conn_ (client h))) = INVALID_TCP_SOCKET -> TryClose h = Ret (false, h).
Proof using Type.
  intros Hf. unfold TryClose, conn_op, TS_TryCloseFd, TryCloseFd. rewrite Hf, Z.eqb_refl, andb_false_r.
  destruct h as [[? ? ? []] ? ? ? ?]. reflexivity.
Qed.

(** What [Connect] has done when it is about to send the login. *)
Lemma Connect_login ip port ud h h' f n b l :
  knows h f n b -> holds_name n -> holds_name (client_name_ (client h)) ->
  shm_sendq_ (conn_ (client h)) = None -> Rep (queue_of (conn_ (client h)) (cdisk h)) l ->
  fd_to_close_ (ptcp_conn_ (conn_ (client h))) = INVALID_TCP_SOCKET ->
  Connect false ip port ud h = Ret (true, h') ->
  exists fd h1, fd <> INVALID_TCP_SOCKET
    /\ login_exchange fd false true (ctl_header (A := LoginMsg) (my_ack l))
         (mkLogin (first_seq l) (u32 (first_seq l + zlen (entries l))) ud 0
                  (name_array (client_name_ (client h))) (name_array n)) h1 = Ret (true, h')
    /\ queue_open h1 l /\ knows h1 f n b /\ same_io (cos h) (cos h1).
Proof using conf_ok laws socket_laws.
  intros Hk Hn Hc Hs HR Hfd0 E. pose proof (conf_name (conf := conf)) as HN. destruct Hk as [K1 K2 K3 K4].
  unfold Connect in E. rewrite member_bind in E.
  destruct (TS_IsClosed _); [|discriminate E]. cbn [negb] in E.
  rewrite (M_bind_eq _ _ _ _ _ (TryClose_run h Hfd0)) in E.
  assert (Em : map_server_name h = Ret (None, h)).
  { unfold map_server_name. rewrite member_bind, K1. reflexivity. }
  rewrite (M_bind_eq _ _ _ _ _ Em), (M_bind_eq _ _ _ _ _ (read_name_run h f n K1 K2)), member_bind in E.
  rewrite (lift_bind _ _ _ _ (copy_name _ _ Hc ltac:(lia))), (lift_bind _ _ _ _ (copy_name _ _ Hn ltac:(lia))) in E.
  apply M_bind_Ret in E as (r & h2 & E2 & E). destruct r as [r|]; [|discriminate E].
  apply (login_queue_true n b _ _ _ l K3 K4 Hs HR) in E2 as (-> & HQ & S1 & S3 & Hio).
  rewrite (lift_bind _ _ _ _ (ld_head n b K3)) in E. apply Z.eqb_neq in K4 as K4'. rewrite K4' in E. cbn [negb andb] in E.
  apply open_socket_true in E as (fd & h3 & Hfd & E & T1 & T2 & _ & T4).
  exists fd, h3. split; [exact Hfd|]. split; [exact E|]. split; [unfold queue_open; rewrite T1; exact HQ|].
  split; [constructor; [congruence | congruence | exact K3 | exact K4]|]. exact (same_io_trans _ _ _ Hio T4).
Qed.

(** *** The answer *)
Lemma rsp_w_ok rsp : login_rsp_ok rsp -> w_ok (A := LoginRspMsg) rsp.
Proof using Type. intros H. exact H. Qed.
Lemma login_w_ok login : login_ok login -> w_ok (A := LoginMsg) login.
Proof using Type. intros H. exact H. Qed.

Lemma RecvLoginRsp_true (server : bool) fd w ack rsp rest a w' :
  in_u32 ack -> login_rsp_ok rsp ->
  inbox fd w = @ctl_bytes server _ _ _ 0 (ctl_header (A := LoginRspMsg) ack) rsp ++ rest ->
  RecvLoginRsp (platform := platform) fd w = Ret (inl a, w') ->
  a = (ctl_header (A := LoginRspMsg) ack, rsp) /\ forall fd', outbox fd' w' = outbox fd' w.
Proof using conf_ok laws.
  intros Ha Hr%rsp_w_ok HI E. set (hd := ctl_header (A := LoginRspMsg) ack) in *.
  assert (Hh : hdr_ok hd) by (apply (ctl_header_ok (A := LoginRspMsg)); exact Ha).
  destruct (ctl_decode (A := LoginRspMsg) server platform 0 hd rsp [] Hh Hr) as [E1 E2].
  pose proof (length_ctl_bytes (A := LoginRspMsg) server 0 hd rsp Hr) as L.
  set (bs := @ctl_bytes server _ _ _ 0 hd rsp) in *. rewrite app_nil_r in E1.
  pose proof (body_size_bounds (A := LoginRspMsg)) as HB.
  destruct (w_sizeof_ok (A := LoginRspMsg)) as [HS _]. unfold buf_size, sizeof_MsgHeader in L.
  rewrite <- (take_drop 8 bs), <- app_assoc in HI.
  destruct (recv_message fd sizeof_MsgHeader w (take 8 bs) (drop 8 bs ++ rest)) as (r & w1 & Er & Hm & Ho1);
    [concrete | exact HI | rewrite length_take; unfold sizeof_MsgHeader; lia |].
  unfold RecvLoginRsp, RecvHeader in E.
  rewrite (M_bind_eq _ _ w (match r with inl x => inl (ctl_head (platform := platform) x) | inr e => inr e end) w1) in E
    by (rewrite (M_bind_eq _ _ _ _ _ Er); reflexivity).
  destruct r as [out|e]; [|discriminate E]. destruct Hm as [-> HI1].
  replace (ctl_head (platform := platform) (take 8 bs)) with hd in E
    by (rewrite <- E1; unfold ctl_head; rewrite take_take; reflexivity).
  change (msg_type hd =? w_type (A := ShmProbeReqMsg)) with false in E. cbv beta iota in E. rewrite ret_bind in E.
  rewrite (ctl_valid_header (A := LoginRspMsg) ack : ctl_valid hd = true) in E. cbn [negb] in E.
  destruct (recv_message fd (body_size (A := LoginRspMsg)) w1 (drop 8 bs) rest) as (r & w2 & Er2 & Hm2 & Ho2);
    [lia | exact HI1 | rewrite length_drop; lia |].
  rewrite (M_bind_eq _ _ _ _ _ Er2) in E. destruct r as [out|e]; [|discriminate E].
  destruct Hm2 as [-> _]. change (Ret (@inl _ (string * Z) (hd, ctl_body (platform := platform) (A := LoginRspMsg) (drop 8 bs)), w2) = Ret (inl a, w')) in E.
  rewrite E2 in E. injection E as <- <-. split; [reflexivity|].
  intros fd'. rewrite Ho2. apply Ho1.
Qed.

Context (success_io : forall rsp (w : W), same_io w (snd (OnLoginSuccess rsp w))).

(** [logged_in], when the server is the one the client knew. *)
Lemma logged_in_true fd ack rsp h h' f n b l :
  knows h f n b -> queue_open h l -> fd <> INVALID_TCP_SOCKET -> in_u32 ack ->
  0 <= spec_acked ack l <= zlen (entries l) ->
  terminate (server_name rsp) (NameSize - 1) = Ret (server_name rsp) -> cstr n = cstr (server_name rsp) ->
  logged_in fd false true ack rsp h = Ret (true, h') ->
  let l1 := spec_login_ack ToLittleEndian ack l in
  exists q k, q_ (ptcp_conn_ (conn_ (client h'))) = Some q /\ Rep q (spec_sendout k l1)
    /\ (TS_IsClosed (conn_ (client h')) = false ->
        outbox fd (cos h') = outbox fd (cos h) ++ blks_bytes (take (Z.to_nat k) (wires ToLittleEndian (entries l1)))).
Proof using conf_ok laws success_io.
  intros Hk (q & Hq & HR) Hfd Ha Hw Ht Hn E l1. unfold logged_in in E. rewrite (lift_bind _ _ _ _ Ht) in E.
  cbv zeta in E. destruct Hk as [K1 K2 K3 K4].
  rewrite (M_bind_eq _ _ _ _ _ (read_name_run h f n K1 K2)), (same_name _ _ Hn) in E. cbn [negb andb when] in E.
  rewrite !ret_bind in E. set (w1 := tcp_set_nonblocking fd (cos h)) in *.
  rewrite (M_bind_eq _ _ h tt (set_cos w1 h)) in E by reflexivity.
  apply M_bind_Ret in E as (now & h2 & E2 & E). apply bind_Ret in E2 as ([now' w2] & E2 & [= -> <-]).
  unfold call in E2. injection E2 as E2. cbn [cos set_cos] in E2.
  pose proof (success_io (mkLoginRsp (server_seq_start rsp) (server_seq_end rsp) (rsp_user_data rsp) (status rsp)
    (server_name rsp) (error_msg rsp)) w1) as Hio2. rewrite E2 in Hio2. cbn [snd] in Hio2.
  destruct (Open_effect fd ack now (ptcp_conn_ (conn_ (client h))) w2 q l Hfd Hq HR Ha ltac:(lia))
    as (t & w3 & q' & k & left & Eo & Hq' & HR' & _ & _ & Hopen & _).
  apply M_bind_Ret in E as (u & h3 & E3 & [= <-]). apply bind_Ret in E3 as ([[[u1 c1] d1] w4] & E3 & [= _ <-]).
  unfold TS_Open in E3. cbn [client set_cos cos] in E3. rewrite Eo in E3. injection E3 as _ <- _ <-.
  exists q', k. split; [exact Hq'|]. split; [exact HR'|]. intros Hc. cbn [cos].
  change (IsClosed t = false) in Hc. destruct (Hopen Hc) as (_ & _ & Hout). rewrite Hout. f_equal.
  rewrite (proj1 Hio2). exact (proj1 (nonblocking_io fd (cos h)) fd).
Qed.

(** The exchange, when the stream from the server starts with [rsp]. *)
Lemma exchange_true (server : bool) fd hd login ack rsp rest h h' f n b l :
  knows h f n b -> queue_open h l -> fd <> INVALID_TCP_SOCKET -> in_u32 ack ->
  0 <= spec_acked ack l <= zlen (entries l) -> login_rsp_ok rsp ->
  terminate (server_name rsp) (NameSize - 1) = Ret (server_name rsp) -> cstr n = cstr (server_name rsp) ->
  inbox fd (cos h) = @ctl_bytes server _ _ _ 0 (ctl_header (A := LoginRspMsg) ack) rsp ++ rest ->
  login_exchange (platform := platform) fd false true hd login h = Ret (true, h') ->
  let l1 := spec_login_ack ToLittleEndian ack l in
  exists q k, q_ (ptcp_conn_ (conn_ (client h'))) = Some q /\ Rep q (spec_sendout k l1)
    /\ (TS_IsClosed (conn_ (client h')) = false ->
        outbox fd (cos h') = outbox fd (cos h) ++ ctl_bytes (platform := platform) uninit hd login
          ++ blks_bytes (take (Z.to_nat k) (wires (platform := platform) ToLittleEndian (entries l1)))).
Proof using conf_ok laws success_io.
  intros Hk HQ Hfd Ha Hw Hr Ht Hn HI E l1. unfold login_exchange in E.
  destruct (send_all_done fd (ctl_bytes (platform := platform) uninit hd login) (cos h)) as (r & w1 & E1 & Ho1 & Hi1).
  rewrite (M_bind_eq _ _ h r (set_cos w1 h)) in E by (unfold Client.io, zoom; rewrite E1; reflexivity).
  destruct r as [e|]; [destruct (fail_close_false _ _ _ _ _ E)|].
  apply M_bind_Ret in E as (r & h2 & E2 & E). apply bind_Ret in E2 as ([r' w2] & E2 & [= -> <-]).
  destruct r as [[rh lr]|[msg e]]; [|destruct (fail_close_false _ _ _ _ _ E)].
  cbn [cos set_cos] in E2.
  apply (RecvLoginRsp_true server fd w1 ack rsp rest) in E2 as ([= -> ->] & Ho2);
    [|exact Ha | exact Hr | rewrite Hi1; exact HI].
  apply M_bind_Ret in E as (first & h3 & E3 & E). apply bind_Ret in E3 as (first' & _ & [= -> <-]).
  destruct (_ || _); [destruct (fail_close_false _ _ _ _ _ E)|].
  destruct (negb (status rsp =? 0)).
  { apply M_bind_Ret in E as (u & h4 & _ & E). apply M_bind_Ret in E as (u2 & h5 & _ & E). discriminate E. }
  apply (logged_in_true fd ack rsp _ h' f n b l) in E as (q & k & Hq & HR & Ho); auto;
    [|destruct Hk; constructor; assumption].
  exists q, k. split; [exact Hq|]. split; [exact HR|]. intros Hc. rewrite (Ho Hc). cbn [cos set_cos].
  rewrite Ho2, (Ho1 eq_refl), <- app_assoc. reflexivity.
Qed.
End Client.

(** ** Both sides *)

(** The side with the log [l] now has [l']: exactly the messages the peer has
    consumed are gone, the first one left is the next the peer expects, and what
    it has consumed itself is as before. *)
Record in_step (l l' peer : log) : Prop := {
  step_entries : exists k, (k <= length (entries l))%nat /\ entries l' = drop k (entries l)
                           /\ my_ack peer = u32 (first_seq l + Z.of_nat k);
  step_first : first_seq l' = my_ack peer;
  step_ack : my_ack l' = my_ack l
}.

Lemma login_ack_in_step {platform : Platform} to n l peer :
  in_u32 (first_seq l) -> in_u32 (my_ack peer) -> 0 <= spec_acked (my_ack peer) l <= zlen (entries l) ->
  zlen (entries l) < 2 ^ 31 ->
  in_step l (spec_sendout n (spec_login_ack to (my_ack peer) l)) peer.
Proof.
  intros Hf Ha Hw Hl. unfold spec_login_ack, spec_ack.
  assert (E : my_ack peer = u32 (first_seq l + spec_acked (my_ack peer) l)).
  { unfold spec_acked in *. pose proof (u32_in (my_ack peer - first_seq l)). word_lia. }
  destruct (Z.leb_spec (spec_acked (my_ack peer) l) 0) as [H|H].
  - replace (spec_acked (my_ack peer) l) with 0 in E by lia. rewrite Z.add_0_r, (u32_id _ Hf) in E.
    constructor; cbn; [exists 0%nat | congruence | reflexivity]. split; [lia|]. split; [reflexivity|].
    rewrite Z.add_0_r, (u32_id _ Hf). exact E.
  - constructor; cbn; [exists (Z.to_nat (spec_acked (my_ack peer) l)) | reflexivity | reflexivity].
    split; [lia|]. split; [reflexivity|]. rewrite Z2Nat.id by lia. exact E.
Qed.

Lemma sent_after_login {platform : Platform} to n ack l : sent (spec_sendout n (spec_login_ack to ack l)) = n.
Proof. reflexivity. Qed.

Section BothSides.
Context {conf : Conf} {conf_ok : ConfOk conf} {params : ServerParams}.
Context {Wc : Type} {socketsc : Sockets Wc} {sendsc : SendLaws Wc} {recvsc : RecvLaws Wc} {mmapc : Mmap Wc}.
Context {systemc : System Wc} {probesc : ProbeMemory Wc} {lawsc : SystemLaws (W := Wc)} {slawsc : SocketLaws Wc} {appc : ClientApp Wc}.
Context {Ws : Type} {sockets_s : Sockets Ws} {sends_s : SendLaws Ws} {recvs_s : RecvLaws Ws} {mmap_s : Mmap Ws}.
Context {system_s : System Ws} {probes_s : ProbeMemory Ws} {laws_s : SystemLaws (W := Ws)}.
Context (success_io : forall rsp (w : Wc), same_io w (snd (OnLoginSuccess rsp w))).
Implicit Types (client server : bool).
Abbreviation RepOn p := (PTCPQueueSpec.Rep (platform := p) TcpQueueSize ToLittleEndian).

Lemma Rep_bounds p q l : RepOn p q l -> zlen (entries l) < 2 ^ 31 /\ in_u32 (first_seq l) /\ in_u32 (my_ack l).
Proof using conf_ok.
  intros HR. pose proof (rep_bounds _ _ q l HR) as B. pose proof (BLK_CNT_range TcpQueueSize queue_range) as Hc.
  pose proof (length_wires_ge (platform := p) ToLittleEndian (entries l)) as Hlen.
  split; [lia|]. split; [exact (proj2 (rep_seq _ _ _ _ HR)) | exact (proj2 (rep_ack _ _ _ _ HR))].
Qed.

(** The login of a client whose log is [l]. *)
Definition login_of (hc : chost Wc) (n : list Z) (ud : Z) (l : log) : LoginMsg :=
  mkLogin (first_seq l) (u32 (first_seq l + zlen (entries l))) ud 0
    (name_array (client_name_ (Client.client hc))) (name_array n).
Definition login_bytes client hc n ud l : list Z :=
  @ctl_bytes client _ _ _ (uninit (W := Wc)) (ctl_header (A := LoginMsg) (my_ack l)) (login_of hc n ud l).

Lemma login_of_ok client hc n ud l q : RepOn client q l -> holds_name n ->
  holds_name (client_name_ (Client.client hc)) -> in_byte ud -> w_ok (A := LoginMsg) (login_of hc n ud l).
Proof using conf_ok.
  intros HR Hn Hc Hu. destruct (Rep_bounds client q l HR) as (_ & Hf & _). apply login_w_ok.
  repeat split; cbn; try apply Hf; try apply u32_in; try apply Hu;
    try (apply name_array_chars; assumption); concrete.
Qed.

(** What the server is given, and how its socket and group stand. *)
Record slot_ready (hs : host Ws) (fd : Z) (rsp : LoginRspMsg) (g i k : Z) (c : TcpShmConnection) (x : ConnectionGroup) : Prop := {
  sr_tcp : shm_sendq_ c = None;
  sr_conn : 0 <= k /\ conn_pool_ (server hs) !! Z.to_nat k = Some c;
  sr_grp : 0 <= g /\ tcp_grps_ (server hs) !! Z.to_nat g = Some x;
  sr_slot : 0 <= live_cnt x <= i /\ i < zlen (conns x);
  sr_fd : fd <> INVALID_TCP_SOCKET;
  sr_name : holds_name (Server.server_name_ (server hs));
  sr_rsp : login_rsp_ok rsp /\ server_name rsp = name_array (Server.server_name_ (server hs))
}.

(** The server's half, on the bytes of the login. *)
Lemma server_half client server hc n ud lc qc now fds addr rsp g i k nm hs hs' c x ls :
  RepOn client qc lc -> holds_name n -> holds_name (client_name_ (Client.client hc)) -> in_byte ud ->
  RepOn server (queue_of c (hdisk hs)) ls -> slot_ready hs fds rsp g i k c x ->
  cstr n = cstr (Server.server_name_ (Server.server hs)) ->
  let bs := login_bytes client hc n ud lc in
  login_slot (platform := server) now fds addr (@ctl_head server _ bs)
    (set_client_name nm (@ctl_body server _ _ _ (drop 8 bs))) rsp g i k hs = Ret (true, hs') ->
  accepted (platform := server) hs k ls fds (my_ack lc) rsp hs'
  /\ CheckAckInQueue (my_ack ls) (first_seq lc) (u32 (first_seq lc + zlen (entries lc))) = true.
Proof using conf_ok laws_s.
  intros HRc Hn Hc Hu HRs [R1 [R2 R2'] [R3 R3'] [R4 R4'] R5 R6 [R7 R7']] Hname bs E.
  destruct (Rep_bounds client qc lc HRc) as (_ & _ & Ha).
  destruct (ctl_decode (A := LoginMsg) client server (uninit (W := Wc)) (ctl_header (A := LoginMsg) (my_ack lc))
    (login_of hc n ud lc) [] (ctl_header_ok (A := LoginMsg) _ Ha) (login_of_ok client hc n ud lc qc HRc Hn Hc Hu)) as [D1 D2].
  rewrite app_nil_r in D1. fold (login_bytes client hc n ud lc) in D1, D2. fold bs in D1, D2. rewrite D1, D2 in E.
  destruct (login_slot_resumes (platform := server) now fds addr (ctl_header (A := LoginMsg) (my_ack lc))
    (set_client_name nm (login_of hc n ud lc)) rsp g i k hs c x ls) as (b & h1 & E1 & _ & Hacc); auto.
  - apply R7.
  - apply same_name. cbn. rewrite cstr_name_array. exact Hname.
  - rewrite E in E1. injection E1 as <- <-. exact (Hacc eq_refl).
Qed.

(** C3. A Connect of the client over TCP to the server it last used and the server's half of
    the login, on the bytes the client sent, between hosts of any byte orders: when both
    accept, each queue has dropped exactly the messages the other side had consumed, the
    first one left is the next the other side expects, what each has consumed is as before,
    and what follows the login and its answer on each socket is a prefix of what is left: no
    message is lost or doubled by the reconnection. *)
Theorem login_in_step client server hc hc' ip port ud f n b lc :
  knows hc f n b -> holds_name n -> holds_name (client_name_ (Client.client hc)) -> in_byte ud ->
  shm_sendq_ (conn_ (Client.client hc)) = None ->
  RepOn client (queue_of (conn_ (Client.client hc)) (cdisk hc)) lc ->
  fd_to_close_ (ptcp_conn_ (conn_ (Client.client hc))) = INVALID_TCP_SOCKET ->
  Connect (platform := client) false ip port ud hc = Ret (true, hc') ->
  exists fd, fd <> INVALID_TCP_SOCKET /\ forall now fds addr rsp g i k nm hs hs' c x ls rest,
         RepOn server (queue_of c (hdisk hs)) ls -> slot_ready hs fds rsp g i k c x ->
         cstr n = cstr (Server.server_name_ (Server.server hs)) ->
         let bs := login_bytes client hc n ud lc in
         login_slot (platform := server) now fds addr (@ctl_head server _ bs)
           (set_client_name nm (@ctl_body server _ _ _ (drop 8 bs))) rsp g i k hs = Ret (true, hs') ->
         let answer := @ctl_bytes server _ _ _ 0 (ctl_header (A := LoginRspMsg) (my_ack ls)) (accepted_rsp ls rsp) in
         inbox fd (cos hc) = answer ++ rest ->
         exists qc lc' qs ls' c',
           q_ (ptcp_conn_ (conn_ (Client.client hc'))) = Some qc /\ RepOn client qc lc' /\ in_step lc lc' ls
           /\ conn_pool_ (Server.server hs') !! Z.to_nat k = Some c'
           /\ q_ (ptcp_conn_ c') = Some qs /\ RepOn server qs ls' /\ in_step ls ls' lc
           /\ (TS_IsClosed (conn_ (Client.client hc')) = false ->
               outbox fd (cos hc') = outbox fd (cos hc) ++ bs
                 ++ blks_bytes (platform := client) (take (Z.to_nat (sent lc')) (wires (platform := client) ToLittleEndian (entries lc'))))
           /\ (TS_IsClosed c' = false ->
               outbox fds (os hs') = outbox fds (os hs) ++ answer
                 ++ blks_bytes (platform := server) (take (Z.to_nat (sent ls')) (wires (platform := server) ToLittleEndian (entries ls')))).
Proof using conf_ok lawsc slawsc laws_s success_io.
  intros Hk Hn Hc Hu Hs HRc Hf0 E. pose proof (Rep_bounds client _ lc HRc) as (Lc & Fc & Ac).
  destruct (Connect_login (platform := client) ip port ud hc hc' f n b lc Hk Hn Hc Hs HRc Hf0 E)
    as (fd & h1 & Hfd & Ex & HQ & Hk1 & Hio & Hin).
  exists fd. split; [exact Hfd|].
  intros now fds addr rsp g i k nm hs hs' c x ls rest HRs Hr Hname bs Es answer HI.
  pose proof (Rep_bounds server _ ls HRs) as (Ls & Fs & As).
  destruct (server_half client server hc n ud lc _ now fds addr rsp g i k nm hs hs' c x ls HRc Hn Hc Hu HRs Hr Hname Es)
    as [(Ws1 & c' & qs & m & P1 & P2 & P3 & P4) Hwin].
  pose proof (acked_in_window (platform := client) (my_ack ls) _ lc HRc Hwin) as Wc1.
  destruct Hr as [_ _ _ _ _ R6 [R7 R7']].
  assert (Hrok : login_rsp_ok (accepted_rsp ls rsp)).
  { destruct R7 as (_ & _ & Hud & _ & Hsn & Hem). split; [exact Fs|]. split; [apply u32_in|].
    split; [exact Hud|]. split; [concrete|]. split; assumption. }
  destruct (exchange_true (platform := client) success_io server fd (ctl_header (A := LoginMsg) (my_ack lc))
              (login_of hc n ud lc) (my_ack ls) (accepted_rsp ls rsp) rest
              h1 hc' f n b lc Hk1 HQ Hfd As Wc1 Hrok) as (qc & mc & Q1 & Q2 & Q3).
  { cbn. rewrite R7'. apply terminate_short. apply R6. }
  { cbn. rewrite R7', cstr_name_array. exact Hname. }
  { rewrite Hin. exact HI. }
  { exact Ex. }
  exists qc, (spec_sendout mc (spec_login_ack (platform := client) ToLittleEndian (my_ack ls) lc)),
    qs, (spec_sendout m (spec_login_ack (platform := server) ToLittleEndian (my_ack lc) ls)), c'.
  split; [exact Q1|]. split; [exact Q2|]. split; [apply login_ack_in_step; assumption|].
  split; [exact P1|]. split; [exact P2|]. split; [exact P3|]. split; [apply login_ack_in_step; assumption|].
  rewrite !sent_after_login, <- (Hio fd). split; [exact Q3 | exact P4].
Qed.
End BothSides.

(** ** A little-endian client with a message nobody consumed logs in to a
    big-endian server *)
Section Witness.
#[local] Existing Instance ServerConf.
#[local] Instance quiet_app : ClientApp sim :=
  { OnLoginSuccess _ w := (0, w); OnServerMsg _ c d w := Ret (c, d, w) }.
#[local] Instance sim_socket_laws : SocketLaws sim.
Proof. constructor; intros; split; reflexivity. Qed.

Lemma all_bytes l : forallb (fun b => (0 <=? b) && (b <? 256)) l = true -> Forall in_byte l.
Proof.
  intros H. apply Forall_forall. intros b Hb. unfold in_byte. apply list_elem_of_In in Hb.
  pose proof (proj1 (forallb_forall _ _) H b Hb). cbv beta in *. lia.
Qed.
Lemma a_holds_name l : forallb (fun b => (0 <=? b) && (b <? 256)) l = true -> zlen (cstr l) < NameSize -> holds_name l.
Proof. intros H Hl. split; [exact (all_bytes l H) | exact Hl]. Qed.

Definition c1_file : list Z := lit "c1.lastserver".
Definition fresh_conn : TcpShmConnection :=
  set_remote (a_name (lit "c1")) (TcpShmConnection_init (platform := false) (lit "dir") (a_name (lit "s1"))).
Definition slot_host : host sim :=
  mkHost (mkServer (a_name (lit "s1")) (lit "dir") 3 [mkNewConn 0 7 []] 0 [fresh_conn] [] [mkGroup 0 [0]])
    (mkDisk ∅ ∅) (mkSim (mkWorld [EvSend 1000; EvSend 1000] [] 0 []) ∅ [] 0 [7]) [].
Definition s1_rsp : LoginRspMsg := mkLoginRsp 0 0 0 2 (a_name (lit "s1")) (replicate 32 0).
Definition s1_answer : list Z :=
  @ctl_bytes false _ _ _ 0 (ctl_header (A := LoginRspMsg) 0) (accepted_rsp (mkLog [] 0 0 0) s1_rsp).
Definition c1_host : chost sim :=
  mkCHost (mkClient (a_name (lit "c1")) (Some c1_file) (lit "dir")
             (set_ptcp (set_q (Some sending_queue) (PTCPConnection_init (platform := true))) (TcpShmConnection_init (platform := true) (lit "dir") (a_name (lit "c1")))))
    {[ c1_file := a_name (lit "s1") ]} (mkDisk ∅ ∅)
    (mkSim (mkWorld [EvSend 1000; EvRecv (take 8 s1_answer); EvRecv (drop 8 s1_answer); EvSend 1000] [] 0 []) ∅ [] 0 []) [].
Definition c1_after : chost sim :=
  match Connect (platform := true) false [127; 0; 0; 1] 12345 0 c1_host with Ret (_, h) => h | _ => c1_host end.
Definition c1_bytes : list Z := login_bytes true c1_host (a_name (lit "s1")) 0 sending_log.
Definition slot_after : host sim :=
  match login_slot (platform := false) 1 7 [] (@ctl_head false _ c1_bytes)
          (set_client_name (a_name (lit "c1")) (@ctl_body false _ _ _ (drop 8 c1_bytes))) s1_rsp 0 0 0 slot_host with
  | Ret (_, h) => h
  | _ => slot_host
  end.

Lemma login_in_step_witness :
  exists qc lc' qs ls' c',
    q_ (ptcp_conn_ (conn_ (Client.client c1_after))) = Some qc
    /\ PTCPQueueSpec.Rep (platform := true) TcpQueueSize ToLittleEndian qc lc' /\ in_step sending_log lc' (mkLog [] 0 0 0)
    /\ conn_pool_ (Server.server slot_after) !! 0%nat = Some c' /\ q_ (ptcp_conn_ c') = Some qs
    /\ PTCPQueueSpec.Rep (platform := false) TcpQueueSize ToLittleEndian qs ls' /\ in_step (mkLog [] 0 0 0) ls' sending_log.
Proof.
  destruct (login_in_step (Wc := sim) (appc := quiet_app) (Ws := sim) (fun rsp w => same_io_refl w) true false c1_host c1_after [127; 0; 0; 1] 12345 0
    c1_file (a_name (lit "s1")) 115 sending_log) as (fd & Hfd & H).
  - split; try reflexivity. discriminate.
  - apply a_holds_name; vm_compute; reflexivity.
  - apply a_holds_name; vm_compute; reflexivity.
  - concrete.
  - reflexivity.
  - exact sending_queue_rep.
  - reflexivity.
  - vm_compute. reflexivity.
  - destruct (H 1 7 [] s1_rsp 0 0 0 (a_name (lit "c1")) slot_host slot_after fresh_conn (mkGroup 0 [0]) (mkLog [] 0 0 0) [])
      as (qc & lc' & qs & ls' & c' & H1 & H2 & H3 & H4 & H5 & H6 & H7 & _).
    + apply rep_zero; [apply queue_range | concrete].
    + split; try (split; [vm_compute; congruence | reflexivity]); try reflexivity; try discriminate.
      * cbn. lia.
      * apply a_holds_name; vm_compute; reflexivity.
      * split; [|reflexivity]. repeat split; try (apply all_bytes; vm_compute; reflexivity); try concrete.
    + reflexivity.
    + vm_compute. reflexivity.
    + rewrite app_nil_r. apply Z.eqb_neq in Hfd. cbn -[s1_answer]. unfold script_inbox. rewrite Hfd. vm_compute. reflexivity.
    + exists qc, lc', qs, ls', c'. auto 10.
Defined.
End Witness.
