(* ===== verification/SweepTheorems.v ===== *)
(** * Closed connections leave the server once

    The loops of [PollCtl] over a group of TCP connections: the descriptors that
    are to be closed are closed, each client is reported once, and the slots of
    the others stay live. *)

From Stdlib Require Import String.
From stdpp Require Import gmap.
From S2P Require Import Prelude StateRes Endian MsgHeader Conf PTCPConn CString TcpShmConn Messages System.
From S2P Require Import ShmProbe Server ServerShape ServerProps ServerTheorems PTCPQueue LoginTheorems.
From stdpp Require Import list_basics list_relations list.
Local Open Scope Z_scope.

Section Sweep.
Context {platform : Platform} {conf : Conf} {params : ServerParams} {W : Type}.
Context {sockets : Sockets W} {mmap : Mmap W} {system : System W} {probes : ProbeMemory W} {app : App W}.
Implicit Types (h : host W) (c : TcpShmConnection).

(** The user or an error closed it, and its descriptor is not released yet. *)
Definition closing c : bool :=
  (sockfd_ (ptcp_conn_ c) =? INVALID_TCP_SOCKET) && negb (fd_to_close_ (ptcp_conn_ c) =? INVALID_TCP_SOCKET).
Definition closed_conn c : TcpShmConnection :=
  set_ptcp (set_fds (sockfd_ (ptcp_conn_ c)) INVALID_TCP_SOCKET (ptcp_conn_ c)) c.

Definition conn_of (p : list TcpShmConnection) (k : Z) : option TcpShmConnection := p !! Z.to_nat k.
Definition closing_at (p : list TcpShmConnection) (k : Z) : bool :=
  match conn_of p k with Some c => closing c | None => false end.
Definition report_of (p : list TcpShmConnection) (k : Z) : event :=
  match conn_of p k with
  | Some c => let '(reason, e) := TS_GetCloseReason c in OnClientDisconnected k reason e
  | None => OnSystemError "" 0
  end.
Definition close_fd (p : list TcpShmConnection) (w : W) (k : Z) : W :=
  match conn_of p k with Some c => tcp_close (fd_to_close_ (ptcp_conn_ c)) w | None => w end.

Lemma TryCloseFd_run c (w : W) :
  TS_TryCloseFd c w
  = if closing c then (true, closed_conn c, tcp_close (fd_to_close_ (ptcp_conn_ c)) w) else (false, c, w).
Proof using Type.
  unfold TS_TryCloseFd, TryCloseFd, closing, closed_conn. destruct (_ && _); [reflexivity|]. destruct c; reflexivity.
Qed.

(** Moving the slot [i] behind the live ones. *)
Lemma swap_last l (i n : Z) l' : 0 <= i < n -> n <= zlen l -> swap l i (n - 1) = Ret l' ->
  exists k, l !! Z.to_nat i = Some k /\ length l' = length l
    /\ take (Z.to_nat (n - 1)) l' ++ [k] ≡ₚ take (Z.to_nat n) l
    /\ (forall j, (j < Z.to_nat i)%nat -> l' !! j = l !! j).
Proof using Type.
  intros Hi Hn E. pose proof E as E0. apply swap_Ret in E as (a & b & Ea & Eb & ->). exists a.
  split; [exact Ea|]. split; [rewrite !length_insert; reflexivity|]. split.
  - rewrite <- (take_drop (Z.to_nat n) l) in E0.
    apply swap_app in E0 as (l1' & El & HP); [|rewrite length_take; lia|rewrite length_take; lia].
    rewrite (take_drop (Z.to_nat n) l) in El. rewrite <- HP. assert (L : length l1' = Z.to_nat n).
    { apply Permutation_length in HP. rewrite HP, length_take. lia. }
    assert (Et : l1' = take (Z.to_nat n) (<[Z.to_nat (n - 1) := a]> (<[Z.to_nat i := b]> l))).
    { rewrite El. symmetry. apply take_app_length'. symmetry. exact L. }
    rewrite Et. replace (Z.to_nat n) with (S (Z.to_nat (n - 1))) by lia.
    rewrite (take_S_r _ _ a); [reflexivity|]. apply list_lookup_insert_eq. rewrite length_insert. lia.
  - intros j Hj. rewrite !list_lookup_insert_ne by lia. reflexivity.
Qed.

(** *** The loop *)

(** What the sweep did to a state: the slots [live'] stay, those of the clients
    [ks] left. *)
Record swept (h : host W) (g : Z) (x : ConnectionGroup) (ks : list Z) (h' : host W) (x' : ConnectionGroup) : Prop := {
  sw_grp : tcp_grps_ (server h') = <[Z.to_nat g := x']> (tcp_grps_ (server h));
  sw_conns : conns x' ≡ₚ conns x /\ 0 <= live_cnt x' <= live_cnt x;
  sw_live : take (Z.to_nat (live_cnt x')) (conns x') ++ ks ≡ₚ take (Z.to_nat (live_cnt x)) (conns x);
  sw_pool : forall k, 0 <= k -> conn_of (conn_pool_ (server h')) k
      = (if decide (k ∈ ks) then closed_conn <$> conn_of (conn_pool_ (server h)) k else conn_of (conn_pool_ (server h)) k);
  sw_os : os h' = foldl (close_fd (conn_pool_ (server h))) (os h) ks;
  sw_events : events h' = events h ++ (report_of (conn_pool_ (server h)) <$> ks)
}.

Definition grp_wf h (x : ConnectionGroup) : Prop :=
  0 <= live_cnt x <= zlen (conns x) /\ zlen (conns x) < 2 ^ 32 /\ NoDup (conns x)
  /\ Forall (fun k => 0 <= k < zlen (conn_pool_ (server h))) (conns x).

(** One round: the connection of slot [i]. *)
Lemma close_run h k c : 0 <= k -> conn_pool_ (server h) !! Z.to_nat k = Some c ->
  conn_op k (fun c d w => let '(b, c, w) := TS_TryCloseFd c w in Ret (b, c, d, w)) h
  = Ret (closing c, if closing c
          then mkHost (set_pool (<[Z.to_nat k := closed_conn c]> (conn_pool_ (server h))) (server h)) (hdisk h)
                 (tcp_close (fd_to_close_ (ptcp_conn_ c)) (os h)) (events h)
          else h).
Proof using Type.
  intros Hk Hc.
  rewrite (conn_op_run k _ h c (closing c) (if closing c then closed_conn c else c) (hdisk h)
             (if closing c then tcp_close (fd_to_close_ (ptcp_conn_ c)) (os h) else os h) Hk Hc).
  2:{ rewrite TryCloseFd_run. destruct (closing c); reflexivity. }
  destruct (closing c); [reflexivity|]. rewrite list_insert_id by exact Hc. destruct h as [[] ? ? ?]. reflexivity.
Qed.

Lemma swept_nothing h g x : tcp_grps_ (server h) !! Z.to_nat g = Some x -> 0 <= live_cnt x -> swept h g x [] h x.
Proof using Type.
  intros Hx Hl. split; auto.
  - rewrite list_insert_id by exact Hx. reflexivity.
  - split; [reflexivity | lia].
  - rewrite app_nil_r. reflexivity.
  - cbn. rewrite app_nil_r. reflexivity.
Qed.

(** After the connection [k] of a slot left, the rest is swept. *)
Lemma swept_step h g x k c l h1 ks h' x' :
  let x1 := mkGroup (live_cnt x - 1) l in
  0 <= k -> conn_pool_ (server h) !! Z.to_nat k = Some c -> closing c = true ->
  (Z.to_nat g < length (tcp_grps_ (server h)))%nat -> l ≡ₚ conns x -> k ∉ ks -> Forall (fun k => 0 <= k) ks ->
  take (Z.to_nat (live_cnt x - 1)) l ++ [k] ≡ₚ take (Z.to_nat (live_cnt x)) (conns x) ->
  tcp_grps_ (server h1) = <[Z.to_nat g := x1]> (tcp_grps_ (server h)) ->
  conn_pool_ (server h1) = <[Z.to_nat k := closed_conn c]> (conn_pool_ (server h)) ->
  os h1 = tcp_close (fd_to_close_ (ptcp_conn_ c)) (os h) ->
  events h1 = events h ++ [report_of (conn_pool_ (server h)) k] ->
  swept h1 g x1 ks h' x' -> swept h g x (k :: ks) h' x'.
Proof using Type.
  intros x1 Hk Hc Hcl Hgl HP Hnin Hpos Htake Hg1 Hp1 Ho1 He1 [A B C D E F].
  assert (Hother : forall k', 0 <= k' -> k' <> k -> conn_of (conn_pool_ (server h1)) k' = conn_of (conn_pool_ (server h)) k').
  { intros k' Hk' Hne. unfold conn_of. rewrite Hp1. apply list_lookup_insert_ne. lia. }
  assert (Hks : forall k', k' ∈ ks -> conn_of (conn_pool_ (server h1)) k' = conn_of (conn_pool_ (server h)) k').
  { intros k' Hin. rewrite Forall_forall in Hpos. apply Hother; [auto | intros ->; contradiction]. }
  cbn [live_cnt conns x1] in *. split.
  - rewrite A, Hg1, list_insert_insert_eq. reflexivity.
  - destruct B as [B1 B2]. split; [rewrite B1; exact HP | lia].
  - rewrite <- Htake, <- C, <- app_assoc. apply Permutation_app_head. rewrite Permutation_app_comm. reflexivity.
  - intros k' Hk'. rewrite (D k' Hk'). destruct (decide (k' = k)) as [->|Hne].
    + rewrite decide_False by exact Hnin. rewrite decide_True by (apply elem_of_cons; auto).
      unfold conn_of. rewrite Hp1, Hc, list_lookup_insert_eq by (exact (lookup_lt_Some _ _ _ Hc)). reflexivity.
    + rewrite (Hother k' Hk' Hne). destruct (decide (k' ∈ ks)).
      * rewrite decide_True by (apply elem_of_cons; auto). reflexivity.
      * rewrite decide_False by (rewrite elem_of_cons; tauto). reflexivity.
  - rewrite E. cbn [foldl]. unfold close_fd at 3. unfold conn_of at 1. rewrite Hc, <- Ho1.
    generalize (os h1). clear - Hks. induction ks as [|k' ks IH]; intros w; [reflexivity|]. cbn [foldl].
    rewrite IH by (intros; apply Hks; apply elem_of_cons; auto). unfold close_fd at 2 4.
    rewrite Hks by (apply elem_of_cons; auto). reflexivity.
  - rewrite F, He1, <- app_assoc. f_equal. cbn. f_equal. apply list_fmap_ext. intros j k' Hj.
    unfold report_of. rewrite Hks by (exact (list_elem_of_lookup_2 _ _ _ Hj)). reflexivity.
Qed.

Lemma closing_closed c : closing (closed_conn c) = false.
Proof using Type. unfold closing, closed_conn. cbn. apply andb_false_r. Qed.

Lemma closing_at_insert h k c k' : 0 <= k -> conn_pool_ (server h) !! Z.to_nat k = Some c -> 0 <= k' ->
  closing_at (<[Z.to_nat k := closed_conn c]> (conn_pool_ (server h))) k'
  = if decide (k' = k) then false else closing_at (conn_pool_ (server h)) k'.
Proof using Type.
  intros Hk Hc Hk'. unfold closing_at, conn_of. destruct (decide (k' = k)) as [->|Hne].
  - rewrite list_lookup_insert_eq by (exact (lookup_lt_Some _ _ _ Hc)). apply closing_closed.
  - rewrite list_lookup_insert_ne by lia. reflexivity.
Qed.

(** The slots before [i] are those of clients that stay. *)
Definition passed h (x : ConnectionGroup) (i : Z) : Prop :=
  forall j k, (j < Z.to_nat i)%nat -> conns x !! j = Some k -> closing_at (conn_pool_ (server h)) k = false.

(** What the sweep from slot [i] on does. *)
Definition sweeps fuel now g i h x : Prop := exists ks h' x',
  sweep fuel now false g i h = Ret (tt, h') /\ swept h g x ks h' x'
  /\ Forall (fun k => closing_at (conn_pool_ (server h)) k = false) (take (Z.to_nat (live_cnt x')) (conns x'))
  /\ Forall (fun k => closing_at (conn_pool_ (server h)) k = true) ks.

Lemma sweeps_end fuel now g h x : 0 <= g -> tcp_grps_ (server h) !! Z.to_nat g = Some x -> grp_wf h x ->
  passed h x (live_cnt x) -> sweeps (S fuel) now g (live_cnt x) h x.
Proof using Type.
  intros Hg Hx Hwf Hp. exists [], h, x. split.
  { cbn [sweep]. rewrite (M_bind_eq _ _ h x h) by (apply grp_at_run; assumption). rewrite Z.ltb_irrefl. reflexivity. }
  split; [apply swept_nothing; [exact Hx | apply Hwf]|]. split; [|constructor].
  apply Forall_lookup. intros j k Hj. apply lookup_take_Some in Hj as [Hj Hlt]. exact (Hp j k Hlt Hj).
Qed.

Lemma sweeps_pass fuel now g i h x k c : 0 <= g -> tcp_grps_ (server h) !! Z.to_nat g = Some x -> 0 <= i < live_cnt x ->
  conns x !! Z.to_nat i = Some k -> 0 <= k -> conn_pool_ (server h) !! Z.to_nat k = Some c -> closing c = false ->
  sweeps fuel now g (i + 1) h x -> sweeps (S fuel) now g i h x.
Proof using Type.
  intros Hg Hx Hi Hk Hk0 Hc Hcl (ks & h' & x' & E & rest). exists ks, h', x'. split; [|exact rest].
  cbn [sweep]. rewrite (M_bind_eq _ _ h x h) by (apply grp_at_run; assumption).
  rewrite (proj2 (Z.ltb_lt _ _)) by lia. rewrite (lift_bind _ _ _ k) by (apply ld_Ret; split; [lia | exact Hk]).
  cbn [when]. rewrite (M_bind_eq _ _ h tt h) by reflexivity.
  rewrite (M_bind_eq _ _ _ _ _ (close_run h k c Hk0 Hc)), Hcl. exact E.
Qed.

Lemma sweeps_close fuel now g i h x k c l :
  let x1 := mkGroup (live_cnt x - 1) l in
  let h1 := mkHost (set_grps false (<[Z.to_nat g := x1]> (tcp_grps_ (server h)))
                     (set_pool (<[Z.to_nat k := closed_conn c]> (conn_pool_ (server h))) (server h))) (hdisk h)
              (tcp_close (fd_to_close_ (ptcp_conn_ c)) (os h)) (events h ++ [report_of (conn_pool_ (server h)) k]) in
  0 <= g -> tcp_grps_ (server h) !! Z.to_nat g = Some x -> grp_wf h x -> 0 <= i < live_cnt x ->
  conns x !! Z.to_nat i = Some k -> conn_pool_ (server h) !! Z.to_nat k = Some c -> closing c = true ->
  swap (conns x) i (live_cnt x - 1) = Ret l ->
  sweep (S fuel) now false g i h = sweep fuel now false g i h1.
Proof using Type.
  intros x1 h1 Hg Hx Hwf Hi Hk Hc Hcl Hl. destruct Hwf as (Hlive & Hlen & _ & Hin).
  assert (Hk0 : 0 <= k) by (rewrite Forall_lookup in Hin; apply (Hin _ _ Hk)).
  assert (Hgl : g < zlen (tcp_grps_ (server h))) by (apply lookup_lt_Some in Hx; lia).
  assert (Hu : u32 (live_cnt x - 1) = live_cnt x - 1) by (apply u32_id; unfold in_u32; lia).
  cbn [sweep]. rewrite (M_bind_eq _ _ h x h) by (apply grp_at_run; assumption).
  rewrite (proj2 (Z.ltb_lt _ _)) by lia. rewrite (lift_bind _ _ _ k) by (apply ld_Ret; split; [lia | exact Hk]).
  cbn [when]. rewrite (M_bind_eq _ _ h tt h) by reflexivity.
  rewrite (M_bind_eq _ _ _ _ _ (close_run h k c Hk0 Hc)), Hcl.
  set (h0 := mkHost _ _ _ _).
  rewrite (M_bind_eq _ _ h0 (closed_conn c) h0).
  2:{ unfold conn_at. change ((member_ conn_pool_ ≫= ?f) h0) with (f (conn_pool_ (server h0)) h0). cbv beta.
      unfold lift. rewrite (proj2 (ld_Ret _ _ (closed_conn c))); [reflexivity|]. split; [exact Hk0|].
      apply list_lookup_insert_eq. exact (lookup_lt_Some _ _ _ Hc). }
  destruct (TS_GetCloseReason (closed_conn c)) as [reason e] eqn:Er.
  change ((report ?ev ≫= ?m) h0) with (m tt (mkHost (server h0) (hdisk h0) (os h0) (events h0 ++ [ev]))). cbv beta zeta.
  rewrite Hu, (lift_bind _ _ _ l) by exact Hl.
  match goal with |- (store_grp _ _ ?y ≫= _) ?h2 = _ =>
    rewrite (M_bind_eq _ _ _ _ _ (store_grp_run false g y h2 (conj Hg Hgl))) end.
  f_equal. unfold h1, h0, report_of, conn_of. rewrite Hc. change (TS_GetCloseReason c) with (TS_GetCloseReason (closed_conn c)).
  rewrite Er. reflexivity.
Qed.

Lemma NoDup_take (n : nat) (l : list Z) : NoDup l -> NoDup (take n l).
Proof using Type. intros H. rewrite <- (take_drop n l) in H. apply NoDup_app in H as [H _]. exact H. Qed.

(** The connection [k] of a slot leaves, the rest is swept in the state it
    left in. *)
Lemma sweeps_step fuel now g i h x k c l :
  let x1 := mkGroup (live_cnt x - 1) l in
  let h1 := mkHost (set_grps false (<[Z.to_nat g := x1]> (tcp_grps_ (server h)))
                     (set_pool (<[Z.to_nat k := closed_conn c]> (conn_pool_ (server h))) (server h))) (hdisk h)
              (tcp_close (fd_to_close_ (ptcp_conn_ c)) (os h)) (events h ++ [report_of (conn_pool_ (server h)) k]) in
  0 <= g -> tcp_grps_ (server h) !! Z.to_nat g = Some x -> grp_wf h x -> 0 <= i < live_cnt x -> 0 <= k ->
  conns x !! Z.to_nat i = Some k -> conn_pool_ (server h) !! Z.to_nat k = Some c -> closing c = true ->
  swap (conns x) i (live_cnt x - 1) = Ret l -> l ≡ₚ conns x ->
  take (Z.to_nat (live_cnt x - 1)) l ++ [k] ≡ₚ take (Z.to_nat (live_cnt x)) (conns x) ->
  sweeps fuel now g i h1 x1 -> sweeps (S fuel) now g i h x.
Proof using Type.
  intros x1 h1 Hg Hx Hwf Hi Hk0 Hk Hc Hcl Hl HP Htake (ks & h' & x' & E & SW & Hst & Hks).
  assert (Hpool : forall k', 0 <= k' -> closing_at (conn_pool_ (server h1)) k'
    = if decide (k' = k) then false else closing_at (conn_pool_ (server h)) k')
    by (intros k' Hk'; apply closing_at_insert; assumption).
  pose proof Hwf as (Hlive & Hlen & Hnd & Hin).
  assert (Hall : Forall (fun k => 0 <= k) (take (Z.to_nat (live_cnt x)) (conns x))).
  { apply Forall_take. eapply Forall_impl; [exact Hin|]. cbn. lia. }
  assert (Hsub : forall k', k' ∈ take (Z.to_nat (live_cnt x')) (conns x') \/ k' ∈ ks -> 0 <= k' /\ k' <> k).
  { intros k' H'. rewrite <- elem_of_app in H'. rewrite (sw_live _ _ _ _ _ _ SW) in H'. cbn [live_cnt conns x1] in H'.
    rewrite <- Htake in Hall. apply Forall_app in Hall as [Hall _]. rewrite Forall_forall in Hall. split; [auto|].
    pose proof (NoDup_take (Z.to_nat (live_cnt x)) _ Hnd) as Hnd'. rewrite <- Htake in Hnd'.
    apply NoDup_app in Hnd' as (_ & Hd & _). intros ->. apply (Hd k H'). apply list_elem_of_singleton. reflexivity. }
  exists (k :: ks), h', x'. split; [rewrite (sweeps_close fuel now g i h x k c l) by assumption; exact E|].
  split; [|split].
  - apply (swept_step h g x k c l h1); try assumption; try reflexivity.
    + exact (lookup_lt_Some _ _ _ Hx).
    + intros H. apply (Hsub k (or_intror H)). reflexivity.
    + apply Forall_forall. intros k' H. apply (Hsub k' (or_intror H)).
  - rewrite Forall_forall in Hst |- *. intros k' H. destruct (Hsub k' (or_introl H)) as [? ?].
    specialize (Hst k' H). rewrite Hpool, decide_False in Hst by assumption. exact Hst.
  - constructor; [unfold closing_at, conn_of; rewrite Hc; exact Hcl|].
    rewrite Forall_forall in Hks |- *. intros k' H. destruct (Hsub k' (or_intror H)) as [? ?].
    specialize (Hks k' H). rewrite Hpool, decide_False in Hks by assumption. exact Hks.
Qed.

Lemma sweep_run fuel now g : 0 <= g -> forall h x i,
  tcp_grps_ (server h) !! Z.to_nat g = Some x -> grp_wf h x -> 0 <= i <= live_cnt x ->
  (Z.to_nat (live_cnt x - i) < fuel)%nat -> passed h x i -> sweeps fuel now g i h x.
Proof using Type.
  intros Hg. induction fuel as [|fuel IH]; intros h x i Hx Hwf Hi Hf Hp; [lia|].
  destruct (Z.eq_dec i (live_cnt x)) as [->|Hne]; [apply sweeps_end; assumption|].
  pose proof Hwf as (Hlive & Hlen & Hnd & Hin).
  destruct (lookup_lt_is_Some_2 (conns x) (Z.to_nat i) ltac:(lia)) as [k Hk].
  assert (Hkr : 0 <= k < zlen (conn_pool_ (server h))) by (rewrite Forall_lookup in Hin; apply (Hin _ _ Hk)).
  destruct (lookup_lt_is_Some_2 (conn_pool_ (server h)) (Z.to_nat k) ltac:(lia)) as [c Hc].
  destruct (closing c) eqn:Hcl.
  2:{ apply (sweeps_pass fuel now g i h x k c); try assumption; try lia. apply IH; try assumption; try lia.
      intros j k' Hj Hk'. destruct (Nat.eq_dec j (Z.to_nat i)) as [->|]; [|apply (Hp j k'); [lia | exact Hk']].
      rewrite Hk in Hk'. injection Hk' as <-. unfold closing_at, conn_of. rewrite Hc. exact Hcl. }
  destruct (swap_total (conns x) i (live_cnt x - 1) ltac:(lia) ltac:(lia)) as [l Hl].
  destruct (swap_last (conns x) i (live_cnt x) l ltac:(lia) ltac:(lia) Hl) as (k0 & Hk0 & Hlen' & Htake & Hbefore).
  rewrite Hk in Hk0. injection Hk0 as <-.
  assert (HP : l ≡ₚ conns x).
  { pose proof Hl as Hl'. rewrite <- (app_nil_r (conns x)) in Hl'.
    apply swap_app in Hl' as (l1 & -> & HP); [|lia|lia]. rewrite app_nil_r. exact HP. }
  apply (sweeps_step fuel now g i h x k c l); try assumption; try lia.
  apply IH; cbn [live_cnt conns]; try lia.
  - apply list_lookup_insert_eq. exact (lookup_lt_Some _ _ _ Hx).
  - split; [cbn; lia|]. split; [cbn; lia|]. cbn. rewrite length_insert. split; [rewrite HP; exact Hnd|].
    rewrite HP. exact Hin.
  - intros j k' Hj Hk'. cbn [conns] in Hk'. rewrite Hbefore in Hk' by exact Hj. cbn.
    rewrite (closing_at_insert h k c k') by (try assumption; try lia; rewrite Forall_lookup in Hin; apply (Hin _ _ Hk')).
    destruct (decide _); [reflexivity | exact (Hp j k' Hj Hk')].
Qed.
End Sweep.

(** ** From the constructor on *)
Lemma filter_keep {A} (P : A -> Prop) `{!forall x, Decision (P x)} (l : list A) : Forall P l -> filter P l = l.
Proof. induction 1 as [|x l Hx _ IH]; [reflexivity|]. rewrite filter_cons_True by exact Hx. f_equal. exact IH. Qed.
Lemma filter_drop {A} (P : A -> Prop) `{!forall x, Decision (P x)} (l : list A) : Forall (fun x => ~ P x) l -> filter P l = [].
Proof. induction 1 as [|x l Hx _ IH]; [reflexivity|]. rewrite filter_cons_False by exact Hx. exact IH. Qed.

Section Reachable.
Context {platform : Platform} {conf : Conf} {conf_ok : ConfOk conf} {params : ServerParams} {params_ok : ParamsOk params}.
Context {W : Type} {sockets : Sockets W} {recvs : RecvLaws W} {mmap : Mmap W} {system : System W} {probes : ProbeMemory W}.
Context {app : App W} {app_laws : AppLaws W}.
Implicit Types (h : host W).

Lemma reachable_grp_wf name dir h g x :
  server_reachable name dir h -> tcp_grps_ (server h) !! Z.to_nat g = Some x -> grp_wf h x.
Proof using conf_ok params_ok recvs app_laws.
  intros Hr Hx. apply reachable_server_inv in Hr as (sh & (Es & _ & _) & Hok).
  assert (Hg : sh_grps false sh !! Z.to_nat g = Some x) by (rewrite <- Es; exact Hx).
  assert (En : length (sh_names sh) = length (conn_pool_ (server h))) by (rewrite <- Es; apply length_fmap).
  pose proof (ok_grps _ Hok) as HF. destruct (grps_split _ _ _ _ Hg) as (L1 & L2 & EL & _).
  rewrite EL in HF. apply Forall_app in HF as [_ HF]. apply Forall_cons in HF as [Hgrp _].
  destruct Hgrp as (named & free & E & Hl & Hc & _). unfold grp_wf.
  assert (zlen named <= zlen (conns x)) by (rewrite E, length_app; lia).
  split; [lia|]. split; [exact Hc|]. destruct (conns x) as [|k l] eqn:Ec; [split; constructor|].
  destruct (slot_facts false sh _ x 0 k Hok Hg ltac:(rewrite Ec; reflexivity)) as (_ & Hnd & Hr & _).
  rewrite Ec, ?En in *. auto.
Qed.

(** C14. In every reachable state of the server, the sweep of PollCtl over a TCP group
    returns and equals a filter of the live slots: the connections closed with a descriptor
    left are those that leave, each of their descriptors is closed once, the client reported
    once with its reason, and its pooled connection otherwise kept; the others stay live. *)
Theorem sweep_closes_once name dir h now g x :
  server_reachable name dir h -> 0 <= g -> tcp_grps_ (server h) !! Z.to_nat g = Some x ->
  let live := take (Z.to_nat (live_cnt x)) (conns x) in
  exists ks h' x', sweep_grp now false g h = Ret (tt, h') /\ swept h g x ks h' x'
    /\ ks ≡ₚ filter (fun k => closing_at (conn_pool_ (server h)) k = true) live
    /\ take (Z.to_nat (live_cnt x')) (conns x') ≡ₚ filter (fun k => closing_at (conn_pool_ (server h)) k = false) live.
Proof using conf_ok params_ok recvs app_laws.
  intros Hr Hg Hx live. pose proof (reachable_grp_wf name dir h g x Hr Hx) as Hwf.
  destruct (sweep_run (S (Z.to_nat (live_cnt x))) now g Hg h x 0 Hx Hwf ltac:(destruct Hwf; lia) ltac:(lia)
              ltac:(intros j k Hj; lia)) as (ks & h' & x' & E & SW & Hst & Hks).
  exists ks, h', x'. split; [|split; [exact SW|]].
  { unfold sweep_grp. rewrite (M_bind_eq _ _ h x h) by (apply grp_at_run; assumption). exact E. }
  unfold live. rewrite <- (sw_live _ _ _ _ _ _ SW), !filter_app.
  rewrite (filter_keep _ _ Hks), (filter_keep _ _ Hst).
  rewrite !filter_drop, app_nil_r; [auto| |]; eapply Forall_impl; try eassumption; cbn; congruence.
Qed.
End Reachable.

(** ** One of two clients closes

    The server closes the connection of the first of the two clients of
    [two_clients]; the next sweep closes its descriptor. *)
Section Witness.
#[local] Existing Instance ServerConf.
#[local] Instance here : Platform := true.

Definition request_close (c : TcpShmConnection) (d : disk) (w : sim) : res (unit * TcpShmConnection * disk * sim) :=
  Ret (tt, TS_Close c, d, w).
Definition one_closed : host sim := run (conn_op 4 request_close) two_clients.

Lemma one_closed_reachable : server_reachable (lit "server01") (lit "server_ptcp") one_closed.
Proof.
  destruct two_clients_reachable as (d & w & h0 & Hb & Hr). exists d, w, h0. split; [exact Hb|].
  eapply rtc_r; [exact Hr|]. apply (step_user 4 request_close tt two_clients one_closed).
  - intros c d' w' a c' d2 w2 [= _ <- _ _]. unfold TS_Close, RequestClose, Close. destruct (IsClosed _); reflexivity.
  - vm_compute. reflexivity.
Qed.

Lemma sweep_closes_once_witness :
  exists ks h' x', sweep_grp 3 false 0 one_closed = Ret (tt, h') /\ swept one_closed 0 (mkGroup 2 [4; 5; 6; 7]) ks h' x'
    /\ ks ≡ₚ filter (fun k => closing_at (conn_pool_ (server one_closed)) k = true) [4; 5]
    /\ take (Z.to_nat (live_cnt x')) (conns x')
        ≡ₚ filter (fun k => closing_at (conn_pool_ (server one_closed)) k = false) [4; 5].
Proof.
  refine (sweep_closes_once (lit "server01") (lit "server_ptcp") one_closed 3 0 (mkGroup 2 [4; 5; 6; 7])
            one_closed_reachable _ _); vm_compute; congruence.
Defined.

(** The first client is the one that leaves. *)
Example one_closed_leaves : filter (fun k => closing_at (conn_pool_ (server one_closed)) k = true) [4; 5] = [4].
Proof. vm_compute. reflexivity. Qed.
End Witness.
