(* ===== verification/PollThreads.v ===== *)
(** * A polling thread against the control thread (src/tcpshm/tcpshm_server.h)

    [PollTcp] and [PollShm] run in threads of their own and read a group that
    [PollCtl] changes in another: a login or a closed connection moves live_cnt
    and swaps two pointers, and nothing locks the group.  The two threads are
    interleaved access by access.  A comment in the code says that a live
    connection may be missed, a closed one visited and one visited twice, and that
    all of it is fine: the theorems say what holds through it. *)

From stdpp Require Import relations.
From S2P Require Import Prelude Server ServerShape.
From stdpp Require Import list_basics list_relations list.
Local Open Scope Z_scope.

(** [std::swap(a, b)] is [tmp = a; a = b; b = tmp], after its arguments, and with
    them live_cnt, are evaluated.  [a] is [conns[i]], [b] is [conns[j]]. *)
Inductive ctl_pc : Type :=
| CtlIdle
| CtlFirst (i j tmp : Z)  (* a = b is next *)
| CtlSecond (j tmp : Z).  (* b = tmp is next *)

(** The loop over the group: about to test [i < grp.live_cnt], about to read
    [grp.conns[i]]. *)
Inductive poll_pc : Type :=
| PollIdle
| PollTest (i : Z)
| PollLoad (i : Z).

(** [visited] are the connections of the pass, in order. *)
Record threads : Type := mkThreads {
  group : ConnectionGroup;
  ctl : ctl_pc;
  poll : poll_pc;
  visited : list Z
}.

Inductive access : Type :=
| TLeave (i : Z)  (* std::swap(grp.conns[i], grp.conns[--grp.live_cnt]): the decrement *)
| TEnter (i : Z)  (* std::swap(grp.conns[i], grp.conns[grp.live_cnt++]): the increment *)
| TFirst
| TSecond
| TStart
| TTest
| TVisit.

Definition set_live (n : Z) (g : ConnectionGroup) : ConnectionGroup := mkGroup n (conns g).
Definition set_conns (l : list Z) (g : ConnectionGroup) : ConnectionGroup := mkGroup (live_cnt g) l.
Definition with_ctl (g : ConnectionGroup) (c : ctl_pc) (s : threads) : threads := mkThreads g c (poll s) (visited s).
Definition with_poll (p : poll_pc) (v : list Z) (s : threads) : threads := mkThreads (group s) (ctl s) p v.

(** [None]: the access is not what its thread does next. *)
Definition thread_step (a : access) (s : threads) : option (res threads) :=
  let g := group s in
  match a, ctl s, poll s with
  | TLeave i, CtlIdle, _ =>
      if (0 <=? i) && (i <? live_cnt g) then
        let last := u32 (live_cnt g - 1) in
        Some (tmp ← ld (conns g) i; Ret (with_ctl (set_live last g) (CtlFirst i last tmp) s))
      else None
  | TEnter i, CtlIdle, _ =>
      if (live_cnt g <=? i) && (i <? zlen (conns g)) then
        Some (tmp ← ld (conns g) i;
              Ret (with_ctl (set_live (u32 (live_cnt g + 1)) g) (CtlFirst i (live_cnt g) tmp) s))
      else None
  | TFirst, CtlFirst i j tmp, _ =>
      Some (b ← ld (conns g) j; l ← st (conns g) i b; Ret (with_ctl (set_conns l g) (CtlSecond j tmp) s))
  | TSecond, CtlSecond j tmp, _ =>
      Some (l ← st (conns g) j tmp; Ret (with_ctl (set_conns l g) CtlIdle s))
  | TStart, _, PollIdle => Some (Ret (with_poll (PollTest 0) [] s))
  | TTest, _, PollTest i =>
      Some (Ret (with_poll (if i <? live_cnt g then PollLoad i else PollIdle) (visited s) s))
  | TVisit, _, PollLoad i =>
      Some (k ← ld (conns g) i; Ret (with_poll (PollTest (i + 1)) (visited s ++ [k]) s))
  | _, _, _ => None
  end.

Fixpoint thread_steps (acts : list access) (s : threads) : option (res threads) :=
  match acts with
  | [] => Some (Ret s)
  | a :: acts => match thread_step a s with Some (Ret s) => thread_steps acts s | r => r end
  end.
Definition threads_reachable (s0 s : threads) : Prop :=
  rtc (fun s s' => exists a, thread_step a s = Some (Ret s')) s0 s.
Definition threads_init (g : ConnectionGroup) : threads := mkThreads g CtlIdle PollIdle [].

(** The accesses of the control thread, without the other, are the swaps of the
    sweep and of the login. *)
Lemma leave_is_swap g i l : 0 <= i < live_cnt g -> swap (conns g) i (u32 (live_cnt g - 1)) = Ret l ->
  thread_steps [TLeave i; TFirst; TSecond] (threads_init g)
  = Some (Ret (threads_init (mkGroup (u32 (live_cnt g - 1)) l))).
Proof.
  intros Hi E. unfold swap in E. apply bind_Ret in E as (a & Ea & E). apply bind_Ret in E as (b & Eb & E).
  apply bind_Ret in E as (l1 & E1 & E2). cbn [thread_steps thread_step threads_init group ctl].
  destruct (_ && _) eqn:B; [|lia]. rewrite Ea. cbn. rewrite Eb. cbn. rewrite E1. cbn. rewrite E2. reflexivity.
Qed.
Lemma enter_is_swap g i l : live_cnt g <= i < zlen (conns g) -> swap (conns g) i (live_cnt g) = Ret l ->
  thread_steps [TEnter i; TFirst; TSecond] (threads_init g)
  = Some (Ret (threads_init (mkGroup (u32 (live_cnt g + 1)) l))).
Proof.
  intros Hi E. unfold swap in E. apply bind_Ret in E as (a & Ea & E). apply bind_Ret in E as (b & Eb & E).
  apply bind_Ret in E as (l1 & E1 & E2). cbn [thread_steps thread_step threads_init group ctl].
  destruct (_ && _) eqn:B; [|lia]. rewrite Ea. cbn. rewrite Eb. cbn. rewrite E1. cbn. rewrite E2. reflexivity.
Qed.

(** ** Only connections of the group are visited *)
Section Shared.
Context (ks : list Z) (ks_size : zlen ks < 2 ^ 32).
Implicit Types (s : threads) (g : ConnectionGroup).

Definition ctl_ok g (c : ctl_pc) : Prop :=
  match c with
  | CtlIdle => conns g ≡ₚ ks
  | CtlFirst i j tmp => conns g ≡ₚ ks /\ 0 <= i < zlen ks /\ 0 <= j < zlen ks /\ conns g !! Z.to_nat i = Some tmp
  | CtlSecond j tmp => 0 <= j < zlen ks /\ <[Z.to_nat j := tmp]> (conns g) ≡ₚ ks
  end.
Definition poll_ok (p : poll_pc) : Prop :=
  match p with PollIdle => True | PollTest i => 0 <= i | PollLoad i => 0 <= i < zlen ks end.

Record shared s : Prop := {
  sh_len : zlen (conns (group s)) = zlen ks;
  sh_live : 0 <= live_cnt (group s) <= zlen ks;
  sh_conns : Forall (fun k => k ∈ ks) (conns (group s));
  sh_visited : Forall (fun k => k ∈ ks) (visited s);
  sh_poll : poll_ok (poll s);
  sh_ctl : ctl_ok (group s) (ctl s)
}.

(** The first store of a swap: one connection is there twice, the other is in [tmp]. *)
Lemma first_store g i j tmp b : ctl_ok g (CtlFirst i j tmp) -> conns g !! Z.to_nat j = Some b -> zlen (conns g) = zlen ks ->
  <[Z.to_nat j := tmp]> (<[Z.to_nat i := b]> (conns g)) ≡ₚ ks.
Proof using Type.
  intros (Hp & Hi & Hj & Et) Eb L.
  assert (Es : swap (conns g) i j = Ret (<[Z.to_nat j := tmp]> (<[Z.to_nat i := b]> (conns g)))).
  { unfold swap. rewrite (proj2 (ld_Ret _ _ tmp) (conj (proj1 Hi) Et)), (proj2 (ld_Ret _ _ b) (conj (proj1 Hj) Eb)).
    cbn [mbind res_bind]. rewrite (proj2 (st_Ret (conns g) i b _)) by (split; [lia | reflexivity]). cbn [mbind res_bind].
    apply st_Ret. rewrite length_insert. split; [lia | reflexivity]. }
  rewrite <- (app_nil_r (conns g)) in Es at 1. apply swap_app in Es as (l1 & El & Hl); [|lia|lia].
  rewrite El, app_nil_r, Hl. exact Hp.
Qed.

Ltac some_ret := eexists; split; [reflexivity|].

Lemma ctl_step a s o : shared s -> match a with TLeave _ | TEnter _ | TFirst | TSecond => True | _ => False end ->
  thread_step a s = Some o -> exists s', o = Ret s' /\ shared s'.
Proof using ks_size.
  intros [L Hl Hc Hv Hp Hk] Ha E. unfold thread_step in E.
  destruct a as [i|i| | | | |]; try destruct Ha; destruct (ctl s) as [|i' j tmp|j tmp]; try discriminate E; cbn [ctl_ok] in Hk.
  - destruct (_ && _) eqn:B; [|discriminate E]. injection E as <-.
    destruct (ld_inb (conns (group s)) i ltac:(lia)) as [tmp Et]. rewrite Et. some_ret.
    apply ld_Ret in Et as [_ Et]. rewrite (u32_id (_ - 1)) by (unfold in_u32; lia).
    constructor; cbn; auto; [lia|]. repeat split; auto; lia.
  - destruct (_ && _) eqn:B; [|discriminate E]. injection E as <-.
    destruct (ld_inb (conns (group s)) i ltac:(lia)) as [tmp Et]. rewrite Et. some_ret.
    apply ld_Ret in Et as [_ Et]. rewrite u32_id by (unfold in_u32; lia).
    constructor; cbn; auto; [lia|]. repeat split; auto; lia.
  - injection E as <-. destruct Hk as (H1 & H2 & H3 & H4).
    destruct (ld_inb (conns (group s)) j ltac:(lia)) as [b Eb]. rewrite Eb. cbn [mbind res_bind].
    apply ld_Ret in Eb as [_ Eb]. rewrite (proj2 (st_Ret _ _ b _)) by (split; [lia | reflexivity]). some_ret.
    constructor; cbn; auto; [rewrite length_insert; exact L | |].
    + apply Forall_insert; [exact Hc|]. rewrite Forall_lookup in Hc. exact (Hc _ _ Eb).
    + split; [lia|]. apply (first_store (group s) i' j tmp b); [repeat split; auto; lia | exact Eb | exact L].
  - injection E as <-. destruct Hk as (H1 & H2).
    rewrite (proj2 (st_Ret _ _ tmp _)) by (split; [lia | reflexivity]). some_ret.
    constructor; cbn; auto; [rewrite length_insert; exact L|].
    apply Forall_forall. intros k Hin. rewrite <- H2. exact Hin.
Qed.

Lemma poll_step a s o : shared s -> match a with TStart | TTest | TVisit => True | _ => False end ->
  thread_step a s = Some o -> exists s', o = Ret s' /\ shared s'.
Proof using ks_size.
  intros [L Hl Hc Hv Hp Hk] Ha E. unfold thread_step in E.
  destruct a; try destruct Ha; destruct (ctl s) eqn:Ec, (poll s) as [|n|n]; try discriminate E; injection E as <-;
    cbn [poll_ok] in Hp;
    try (some_ret; constructor; cbn; rewrite ?Ec; auto; repeat case_match; cbn; auto; lia).
  all: destruct (ld_inb (conns (group s)) n ltac:(lia)) as [k Ek]; rewrite Ek; some_ret;
    apply ld_Ret in Ek as [_ Ek]; constructor; cbn; rewrite ?Ec; auto; try lia;
    apply Forall_app; split; [exact Hv|]; constructor; [|constructor]; rewrite Forall_lookup in Hc; exact (Hc _ _ Ek).
Qed.

Lemma shared_step a s o : shared s -> thread_step a s = Some o -> exists s', o = Ret s' /\ shared s'.
Proof using ks_size.
  intros Hs E. destruct a; first [refine (ctl_step _ s o Hs _ E); exact I | refine (poll_step _ s o Hs _ E); exact I].
Qed.

Lemma shared_reachable s0 s : shared s0 -> threads_reachable s0 s -> shared s.
Proof using ks_size.
  intros H0 H. unfold threads_reachable in H. induction H as [|s s1 s2 [a E] _ IH]; [exact H0|]. apply IH.
  destruct (shared_step a s _ H0 E) as (s' & [= <-] & Hs). exact Hs.
Qed.
End Shared.

Lemma shared_init g : 0 <= live_cnt g <= zlen (conns g) -> shared (conns g) (threads_init g).
Proof.
  intros Hl. constructor; cbn; auto; try lia.
  apply Forall_forall. auto.
Qed.

(** C40. With a polling thread and the control thread interleaved access by access, no read
    of the group is out of its bounds, only connections of the group are visited, and
    between two swaps the group is a permutation of what it was. *)
Theorem polling_stays_in_group g s :
  zlen (conns g) < 2 ^ 32 -> 0 <= live_cnt g <= zlen (conns g) -> threads_reachable (threads_init g) s ->
  (forall a o, thread_step a s = Some o -> exists s', o = Ret s')
  /\ Forall (fun k => k ∈ conns g) (visited s)
  /\ 0 <= live_cnt (group s) <= zlen (conns g)
  /\ (ctl s = CtlIdle -> conns (group s) ≡ₚ conns g).
Proof.
  intros Hn Hl H. apply (shared_reachable (conns g) Hn _ s (shared_init g Hl)) in H as Hs. split; [|split; [|split]].
  - intros a o E. destruct (shared_step (conns g) Hn a s o Hs E) as (s' & -> & _). eauto.
  - apply Hs.
  - apply Hs.
  - intros E. pose proof (sh_ctl _ _ Hs) as Hc. rewrite E in Hc. exact Hc.
Qed.

(** ** A connection that is left alone is visited once *)
Section Pass.
Context (p : Z) (x : Z).
Implicit Types (s : threads).

(** [x] is live in slot [p] and nowhere else; the swap in progress, if any, is of
    other slots. *)
Definition settled s : Prop :=
  0 <= p < live_cnt (group s) /\ live_cnt (group s) < 2 ^ 32 - 1
  /\ (forall n : nat, conns (group s) !! n = Some x <-> n = Z.to_nat p)
  /\ match ctl s with
     | CtlIdle => True
     | CtlFirst i j tmp => 0 <= i /\ 0 <= j /\ i <> p /\ j <> p /\ tmp <> x
     | CtlSecond j tmp => 0 <= j /\ j <> p /\ tmp <> x
     end.

(** The accesses of one pass: the control thread does not move slot [p]. *)
Definition spares s (a : access) : bool :=
  match a with
  | TLeave i => negb (i =? p) && negb (live_cnt (group s) - 1 =? p)
  | TEnter i => live_cnt (group s) <? 2 ^ 32 - 2
  | TStart => false
  | _ => true
  end.
Definition pass s s' : Prop := rtc (fun s s' => exists a, spares s a = true /\ thread_step a s = Some (Ret s')) s s'.

(** How often [x] was visited when the loop is at [i]. *)
Definition count s : nat := length (filter (fun k => k = x) (visited s)).
Definition counted s : Prop :=
  count s = match poll s with
            | PollTest i | PollLoad i => if p <? i then 1%nat else 0%nat
            | PollIdle => 1%nat
            end
  /\ match poll s with PollTest i | PollLoad i => 0 <= i | PollIdle => True end.

Lemma store_other (l : list Z) (n : nat) y : (forall m : nat, l !! m = Some x <-> m = Z.to_nat p) ->
  n <> Z.to_nat p -> y <> x -> forall m : nat, <[n := y]> l !! m = Some x <-> m = Z.to_nat p.
Proof using Type.
  intros Hl Hn Hy m. destruct (decide (m = n)) as [->|Hm].
  - destruct (decide (n < length l)%nat) as [Hlt|Hge].
    + rewrite list_lookup_insert_eq by exact Hlt. split; [intros [= E]; congruence | congruence].
    + rewrite lookup_ge_None_2 by (rewrite length_insert; lia). split; [discriminate | congruence].
  - rewrite list_lookup_insert_ne by congruence. apply Hl.
Qed.

Lemma other_slot (l : list Z) (n : Z) y : (forall m : nat, l !! m = Some x <-> m = Z.to_nat p) ->
  0 <= p -> ld l n = Ret y -> n <> p -> y <> x.
Proof using Type.
  intros Hl Hp E Hn ->. apply ld_Ret in E as [H0 E]. apply Hl in E. lia.
Qed.

Lemma settled_same s s' : group s' = group s -> ctl s' = ctl s -> settled s -> settled s'.
Proof using Type. unfold settled. intros -> ->. auto. Qed.

(** The accesses of the polling thread. *)
Lemma poll_same a s s' : match a with TStart | TTest | TVisit => True | _ => False end ->
  thread_step a s = Some (Ret s') -> group s' = group s /\ ctl s' = ctl s.
Proof using Type.
  intros Ha E. unfold thread_step in E.
  destruct a; try destruct Ha; destruct (ctl s) eqn:Ec, (poll s); try discriminate E; injection E as E;
    repeat (apply bind_Ret in E as (? & ? & E)); try (injection E as <-); rewrite <- ?E, ?Ec; auto.
Qed.

Lemma settled_ctl a s s' : match a with TLeave _ | TEnter _ | TFirst | TSecond => True | _ => False end ->
  settled s -> spares s a = true -> thread_step a s = Some (Ret s') -> settled s' /\ poll s' = poll s /\ visited s' = visited s.
Proof using Type.
  intros Ha (Hp & Hm & Hc & Hk) Hsp E. unfold thread_step in E.
  destruct a as [i|i| | | | |]; try destruct Ha; destruct (ctl s) as [|i' j tmp|j tmp]; try discriminate E; cbn [spares] in Hsp.
  - destruct (_ && _) eqn:B in E; [|discriminate E]. injection E as E. apply bind_Ret in E as (tmp & Et & [= <-]).
    pose proof (other_slot _ _ _ Hc (proj1 Hp) Et ltac:(lia)) as Hx.
    split; [|split; reflexivity]. unfold settled. cbn. rewrite u32_id by (unfold in_u32; lia).
    split; [lia|]. split; [lia|]. split; [exact Hc|]. repeat split; auto; lia.
  - destruct (_ && _) eqn:B in E; [|discriminate E]. injection E as E. apply bind_Ret in E as (tmp & Et & [= <-]).
    pose proof (other_slot _ _ _ Hc (proj1 Hp) Et ltac:(lia)) as Hx.
    split; [|split; reflexivity]. unfold settled. cbn. rewrite u32_id by (unfold in_u32; lia).
    split; [lia|]. split; [lia|]. split; [exact Hc|]. repeat split; auto; lia.
  - injection E as E. apply bind_Ret in E as (b & Eb & E). apply bind_Ret in E as (l & El & [= <-]).
    destruct Hk as (H1 & H2 & H3 & H4 & H5). pose proof (other_slot _ _ _ Hc (proj1 Hp) Eb H4) as Hx.
    apply st_Ret in El as [_ ->]. split; [|split; reflexivity]. unfold settled. cbn.
    split; [exact Hp|]. split; [exact Hm|]. split; [apply store_other; auto; lia | auto].
  - injection E as E. apply bind_Ret in E as (l & El & [= <-]). destruct Hk as (H2 & H4 & H5).
    apply st_Ret in El as [_ ->]. split; [|split; reflexivity]. unfold settled. cbn.
    split; [exact Hp|]. split; [exact Hm|]. split; [apply store_other; auto; lia | exact I].
Qed.

Lemma counted_step a s s' : settled s -> counted s -> spares s a = true -> thread_step a s = Some (Ret s') ->
  settled s' /\ counted s'.
Proof using Type.
  intros Hs Hc Hsp E.
  assert (Hctl : match a with TLeave _ | TEnter _ | TFirst | TSecond => True | _ => False end -> settled s' /\ counted s').
  { intros Ha. destruct (settled_ctl a s s' Ha Hs Hsp E) as (H1 & H2 & H3). split; [exact H1|].
    unfold counted, count. rewrite H2, H3. exact Hc. }
  destruct a; try (apply Hctl; exact I); try discriminate Hsp; clear Hctl;
    (match type of E with thread_step ?b _ = _ => destruct (poll_same b s s' I E) as [Eg Ec] end; pose proof (settled_same s s' Eg Ec Hs) as Hs'; split; [exact Hs'|]);
    destruct Hs as (Hp & _ & Hx & _); destruct Hc as [Hc Hi]; unfold thread_step in E; unfold counted, count in *.
  - destruct (ctl s), (poll s) as [|n|n]; try discriminate E; injection E as <-; cbn; (case_test; cbn; (split; [|lia || exact I]);
      rewrite Hc; repeat case_test; lia).
  - destruct (ctl s), (poll s) as [|n|n]; try discriminate E; injection E as E;
      apply bind_Ret in E as (k & Ek & [= <-]); cbn; (split; [|lia]);
      rewrite filter_app, length_app, Hc; apply ld_Ret in Ek as [_ Ek];
      (destruct (decide (k = x)) as [->|Hne];
       [apply Hx in Ek; rewrite filter_cons_True by reflexivity; cbn; repeat case_test; lia
       |rewrite filter_cons_False by exact Hne; cbn;
        assert (n <> p) by (intros ->; rewrite (proj2 (Hx _) eq_refl) in Ek; congruence); repeat case_test; lia]).
Qed.

Lemma pass_counted s s' : settled s -> counted s -> pass s s' -> settled s' /\ counted s'.
Proof using Type.
  intros Hs Hc H. unfold pass in H. induction H as [|s s1 s2 (a & Ha & E) _ IH]; [auto|].
  destruct (counted_step a s s1 Hs Hc Ha E) as [Hs1 Hc1]. exact (IH Hs1 Hc1).
Qed.
End Pass.

(** C16. A pass of a polling thread over a group visits a live connection exactly once,
    however the control thread lets connections leave and enter the group meanwhile, as long
    as it does not move that one. *)
Theorem settled_visited_once p x s s' :
  settled p x s -> poll s = PollTest 0 -> visited s = [] -> pass p s s' -> poll s' = PollIdle ->
  exists before after, visited s' = before ++ x :: after /\ (x ∉ before) /\ (x ∉ after).
Proof.
  intros Hs Hp Hv H He. destruct (pass_counted p x s s' Hs) as [_ [Hc _]]; [|exact H|].
  { unfold counted, count. rewrite Hp, Hv. destruct Hs as (H0 & _). cbn. split; [case_test; lia | lia]. }
  rewrite He in Hc. unfold count in Hc.
  assert (Hin : x ∈ visited s').
  { destruct (filter _ _) as [|y l] eqn:E; [discriminate Hc|].
    assert (Hy : y ∈ filter (fun k => k = x) (visited s')) by (rewrite E; left).
    apply list_elem_of_filter in Hy as [-> Hy]. exact Hy. }
  apply list_elem_of_split in Hin as (l1 & l2 & E). exists l1, l2. split; [exact E|].
  rewrite E, filter_app, filter_cons_True, length_app in Hc by reflexivity. cbn [length] in Hc.
  assert (Hno : forall l : list Z, length (filter (fun k => k = x) l) = 0%nat -> x ∉ l).
  { intros l Hl Hin. apply nil_length_inv in Hl.
    assert (x ∈ filter (fun k => k = x) l) as Hf by (apply list_elem_of_filter; auto). rewrite Hl in Hf. inversion Hf. }
  split; apply Hno; lia.
Qed.

(** ** A pass that a closed connection overlaps

    Three live connections; the control thread takes the first one out while the
    polling thread is past it. *)
Section Witness.
Definition three : ConnectionGroup := mkGroup 3 [10; 11; 12; 13].
Definition state_after (acts : list access) (s : threads) : threads :=
  match thread_steps acts s with Some (Ret s) => s | _ => s end.

Lemma steps_reach acts : forall s0 s s', threads_reachable s0 s -> thread_steps acts s = Some (Ret s') -> threads_reachable s0 s'.
Proof.
  induction acts as [|a acts IH]; intros s0 s s' H E; cbn [thread_steps] in E; [injection E as <-; exact H|].
  destruct (thread_step a s) as [[s1| |]|] eqn:E1; try discriminate E.
  apply (IH s0 s1 s'); [|exact E]. eapply rtc_r; [exact H|]. exists a. exact E1.
Qed.
Lemma state_after_reachable acts s : threads_reachable s (state_after acts s).
Proof.
  unfold state_after. destruct (thread_steps acts s) as [[s1| |]|] eqn:E; try apply rtc_refl.
  exact (steps_reach acts s s s1 (rtc_refl _ _) E).
Qed.

Fixpoint spares_all (p : Z) (acts : list access) (s : threads) : bool :=
  match acts with
  | [] => true
  | a :: acts =>
      spares p s a && match thread_step a s with Some (Ret s) => spares_all p acts s | _ => false end
  end.
Lemma pass_steps p acts : forall s s', spares_all p acts s = true -> thread_steps acts s = Some (Ret s') -> pass p s s'.
Proof.
  induction acts as [|a acts IH]; intros s s' H E; cbn [thread_steps spares_all] in *; [injection E as <-; apply rtc_refl|].
  apply andb_true_iff in H as [Ha H]. destruct (thread_step a s) as [[s1| |]|] eqn:E1; try discriminate E.
  eapply rtc_l; [exists a; split; [exact Ha | exact E1]|]. exact (IH s1 s' H E).
Qed.

Definition leave_first : list access := [TTest; TVisit; TLeave 0; TTest; TFirst; TVisit; TSecond; TTest].
Definition started : threads := state_after [TStart] (threads_init three).

(** 12 went to slot 0, which the pass had left: it is live and not visited. *)
Example live_one_missed :
  let s := state_after leave_first started in
  poll s = PollIdle /\ visited s = [10; 11] /\ group s = mkGroup 2 [12; 11; 10; 13].
Proof. vm_compute. auto. Qed.
(** 10 is visited, closed, taken out, and visited again in the slot it left live. *)
Example closed_one_visited_twice :
  let s := state_after [TTest; TVisit; TTest; TVisit; TTest; TLeave 0; TFirst; TSecond; TVisit; TTest] started in
  poll s = PollIdle /\ visited s = [10; 11; 10] /\ group s = mkGroup 2 [12; 11; 10; 13].
Proof. vm_compute. auto. Qed.
(** A login takes slot 3: while it is being swapped, the pass sees the one that
    was in slot 2, which is not live. *)
Example dead_one_visited :
  let s := state_after [TLeave 0; TFirst; TSecond; TTest; TVisit; TTest; TVisit; TEnter 3; TTest; TVisit; TFirst; TSecond; TTest] started in
  visited s = [12; 11; 10] /\ group s = mkGroup 3 [12; 11; 13; 10].
Proof. vm_compute. auto. Qed.

Lemma polling_stays_in_group_witness :
  Forall (fun k => k ∈ conns three) (visited (state_after (TStart :: leave_first) (threads_init three))).
Proof.
  refine (proj1 (proj2 (polling_stays_in_group three _ _ _ (state_after_reachable (TStart :: leave_first) (threads_init three)))));
    concrete.
Defined.

Lemma settled_visited_once_witness :
  exists before after, visited (state_after leave_first started) = before ++ 11 :: after
    /\ (11 ∉ before) /\ (11 ∉ after).
Proof.
  refine (settled_visited_once 1 11 started (state_after leave_first started) _ _ _ _ _).
  - split; [concrete|]. split; [concrete|]. split; [|exact I].
    change (conns (group started)) with [10; 11; 12; 13]. change (Z.to_nat 1) with 1%nat.
    intros n. do 4 (destruct n as [|n]; [cbn; split; congruence|]). split; [discriminate | lia].
  - reflexivity.
  - reflexivity.
  - apply (pass_steps 1 leave_first); vm_compute; reflexivity.
  - vm_compute. reflexivity.
Defined.
End Witness.
