(* ===== verification/ClientTheorems.v ===== *)
(** * A login of the client that fails loses nothing

    The queues in the files and the rings are the same after a [Connect] that
    returns [false] as before it, whatever step failed. *)

From Stdlib Require Import String.
From stdpp Require Import gmap.
From S2P Require Import Prelude StateRes Endian MsgHeader PTCPQueue SPSCVarQueue Conf PTCPConn CString.
From S2P Require Import TcpShmConn SysIO Messages System PTCPConnTheorems ShmProbe Client.
Local Open Scope Z_scope.

Section Failed.
Context {platform : Platform} {conf : Conf} {W : Type}.
Context {sockets : Sockets W} {mmap : Mmap W} {system : System W} {probes : ProbeMemory W} {app : ClientApp W}.
Implicit Types (h : chost W) (c : TcpShmConnection) (d : disk).

(** The queue in a file: the connection holds the content of the file it maps. *)
Definition file_content (F : list Z) c d : PTCPQueue :=
  match q_ (ptcp_conn_ c) with
  | Some q => if decide (file_ c = F) then q else map_file F d
  | None => map_file F d
  end.
Definition ring_content (n : list Z) d : SPSCVarQueue := default (zero_ring ShmQueueSize) (shm_objects d !! n).

(** What a failed login keeps. *)
Record kept c d c' d' : Prop := {
  kept_closed : TS_IsClosed c' = TS_IsClosed c;
  kept_files : forall F, file_content F c' d' = file_content F c d;
  kept_rings : forall n, ring_content n d' = ring_content n d
}.

Lemma kept_same c d : kept c d c d.
Proof using Type. split; reflexivity. Qed.
Lemma kept_trans c0 d0 c1 d1 c2 d2 : kept c0 d0 c1 d1 -> kept c1 d1 c2 d2 -> kept c0 d0 c2 d2.
Proof using Type. intros [A B C] [A' B' C']. split; intros; [rewrite A', A | rewrite B', B | rewrite C', C]; reflexivity. Qed.

(** *** The operations of the connection *)
Lemma map_shm_kept name d n : ring_content n (map_shm name d) = ring_content n d.
Proof using Type.
  unfold map_shm, ring_content. destruct (shm_objects d !! name) eqn:E; [reflexivity|]. cbn.
  destruct (decide (n = name)) as [->|].
  - rewrite lookup_insert_eq, E. reflexivity.
  - rewrite lookup_insert_ne by congruence. reflexivity.
Qed.
Lemma map_shm_files name d : ptcp_files (map_shm name d) = ptcp_files d.
Proof using Type. unfold map_shm. destruct (shm_objects d !! name); reflexivity. Qed.
Lemma map_ring_kept cur name d w r d' w' n : map_ring cur name d w = (r, d', w') ->
  ring_content n d' = ring_content n d /\ ptcp_files d' = ptcp_files d.
Proof using Type.
  unfold map_ring. destruct cur; [intros [= _ <- _]; auto|].
  destruct (my_mmap true name w) as [[e|] w1]; intros [= _ <- _]; auto using map_shm_kept, map_shm_files.
Qed.

Lemma kept_disk c d c' d' : ptcp_conn_ c' = ptcp_conn_ c -> file_ c' = file_ c -> ptcp_files d' = ptcp_files d ->
  (forall n, ring_content n d' = ring_content n d) -> kept c d c' d'.
Proof using Type.
  intros E1 E2 E3 E4. split; [unfold TS_IsClosed; rewrite E1; reflexivity | | exact E4].
  intros F. unfold file_content, map_file. rewrite E1, E2, E3. reflexivity.
Qed.

Lemma OpenFile_kept use_shm c d w e c' d' w' : TS_OpenFile use_shm c d w = (e, c', d', w') -> kept c d c' d'.
Proof using Type.
  unfold TS_OpenFile. destruct use_shm.
  - destruct (map_ring (shm_sendq_ c) _ d w) as [[r d1] w1] eqn:E1.
    pose proof (fun n => map_ring_kept _ _ _ _ _ _ _ n E1) as K1.
    destruct r as [s|err]; [|intros [= _ <- <- _]; apply kept_disk; auto; apply (K1 [])|| (intros; apply K1)].
    destruct (map_ring (shm_recvq_ (set_shmqs s (shm_recvq_ c) c)) _ d1 w1) as [[r d2] w2] eqn:E2.
    pose proof (fun n => map_ring_kept _ _ _ _ _ _ _ n E2) as K2.
    assert (Hd : ptcp_files d2 = ptcp_files d) by (rewrite (proj2 (K2 [])); apply (K1 [])).
    assert (Hr : forall n, ring_content n d2 = ring_content n d) by (intros n; rewrite (proj1 (K2 n)); apply K1).
    destruct r; intros [= _ <- <- _]; apply kept_disk; auto.
  - destruct (q_ (ptcp_conn_ c)) as [q|] eqn:Eq; [intros [= _ <- <- _]; apply kept_same|].
    destruct (my_mmap false (GetPtcpFile c) w) as [[err|] w1]; intros [= _ <- <- _]; unfold OpenFile; rewrite Eq; cbn [snd].
    + apply kept_disk; reflexivity.
    + split; [reflexivity | | reflexivity]. intros F. unfold file_content. rewrite Eq. cbn. case_decide; congruence.
Qed.

Lemma set_file_content F file q d : map_file F (set_file file q d) = if decide (file = F) then q else map_file F d.
Proof using Type.
  unfold map_file. cbn. case_decide as E; [rewrite E, lookup_insert_eq | rewrite lookup_insert_ne by exact E]; reflexivity.
Qed.

Lemma Release_kept c d w c' d' w' : TS_IsClosed c = true -> TS_Release c d w = Ret (c', d', w') -> kept c d c' d'.
Proof using Type.
  intros Hcl E. apply bind_Ret in E as (n & _ & E). unfold Release in E.
  unfold Close in E. change (IsClosed (ptcp_conn_ c)) with (TS_IsClosed c) in E. rewrite Hcl in E.
  destruct (TryCloseFd (ptcp_conn_ c) w) as [[b t] w1] eqn:Et. injection E as <- <- _.
  assert (Ht : q_ t = q_ (ptcp_conn_ c) /\ IsClosed t = IsClosed (ptcp_conn_ c)).
  { unfold TryCloseFd in Et. destruct (_ && _); injection Et as _ <- _; auto. }
  destruct Ht as [Hq Hc]. split.
  - exact Hc.
  - intros F. unfold file_content. cbn. rewrite Hq. destruct (q_ (ptcp_conn_ c)); [apply set_file_content | reflexivity].
  - intros m. rewrite Hq. destruct (q_ (ptcp_conn_ c)); reflexivity.
Qed.

Lemma TryCloseFd_kept c d w b c' w' : TS_TryCloseFd c w = (b, c', w') -> kept c d c' d.
Proof using Type.
  unfold TS_TryCloseFd, TryCloseFd. destruct (_ && _); intros [= _ <- _]; [split; reflexivity|].
  apply kept_disk; reflexivity.
Qed.

(** *** Computations of the client

    [quiet] ones keep everything, [fails] ones when they return [false]. *)
Definition same h h' : Prop := kept (conn_ (client h)) (cdisk h) (conn_ (client h')) (cdisk h').
Definition closed h : Prop := TS_IsClosed (conn_ (client h)) = true.

Definition quiet {A} (m : M (chost W) A) : Prop := forall h a h', closed h -> m h = Ret (a, h') -> same h h'.
Definition fails (m : M (chost W) bool) : Prop := forall h h', closed h -> m h = Ret (false, h') -> same h h'.
Definition succeeds (m : M (chost W) bool) : Prop := forall h b h', m h = Ret (b, h') -> b = true.

Lemma same_closed h h' : closed h -> same h h' -> closed h'.
Proof using Type. intros H [E _ _]. unfold closed. rewrite E. exact H. Qed.

Lemma quiet_bind {A B} (m : M (chost W) A) (f : A -> M (chost W) B) : quiet m -> (forall a, quiet (f a)) -> quiet (m ≫= f).
Proof using Type.
  intros Hm Hf h b h' Hc E. apply M_bind_Ret in E as (a & h1 & E1 & E2). pose proof (Hm _ _ _ Hc E1) as K.
  exact (kept_trans _ _ _ _ _ _ K (Hf a _ _ _ (same_closed _ _ Hc K) E2)).
Qed.
Lemma fails_bind {A} (m : M (chost W) A) f : quiet m -> (forall a, fails (f a)) -> fails (m ≫= f).
Proof using Type.
  intros Hm Hf h h' Hc E. apply M_bind_Ret in E as (a & h1 & E1 & E2). pose proof (Hm _ _ _ Hc E1) as K.
  exact (kept_trans _ _ _ _ _ _ K (Hf a _ _ (same_closed _ _ Hc K) E2)).
Qed.
Lemma fails_quiet m : quiet m -> fails m.
Proof using Type. intros Hm h h'. apply Hm. Qed.
Lemma fails_succeeds m : succeeds m -> fails m.
Proof using Type. intros Hm h h' _ E. discriminate (Hm _ _ _ E). Qed.
Lemma succeeds_bind {A} (m : M (chost W) A) f : (forall a, succeeds (f a)) -> succeeds (m ≫= f).
Proof using Type. intros Hf h b h' E. apply M_bind_Ret in E as (a & h1 & _ & E). exact (Hf a _ _ _ E). Qed.
Lemma succeeds_true : succeeds (mret true).
Proof using Type. intros h b h' [= <- _]. reflexivity. Qed.

Lemma quiet_ret {A} (a : A) : quiet (mret a).
Proof using Type. intros h a' h' _ [= _ <-]. apply kept_same. Qed.
Lemma quiet_gets {A} (f : chost W -> A) : quiet (gets f).
Proof using Type. intros h a h' _ [= _ <-]. apply kept_same. Qed.
Lemma quiet_member {A} (f : TcpShmClient -> A) : quiet (member_ f).
Proof using Type. apply quiet_gets. Qed.
Lemma quiet_lift {A} (r : res A) : quiet (lift r).
Proof using Type. intros h a h' _ E. apply bind_Ret in E as (x & _ & [= _ <-]). apply kept_same. Qed.
Lemma quiet_report e : quiet (report e).
Proof using Type. intros h a h' _ [= _ <-]. apply kept_same. Qed.
Lemma quiet_io {A} (m : M W A) : quiet (io m).
Proof using Type. intros h a h' _ E. apply bind_Ret in E as ([x w] & _ & [= _ <-]). apply kept_same. Qed.
Lemma quiet_name_file f : quiet (assign (set_name_file f)).
Proof using Type. intros h a h' _ [= _ <-]. apply kept_same. Qed.
Lemma quiet_when b m : quiet m -> quiet (when b m).
Proof using Type. destruct b; [auto | intros _; apply quiet_ret]. Qed.
Lemma quiet_conn_op {A} (f : TcpShmConnection -> disk -> W -> res (A * TcpShmConnection * disk * W)) :
  (forall c d w a c' d' w', TS_IsClosed c = true -> f c d w = Ret (a, c', d', w') -> kept c d c' d') -> quiet (conn_op f).
Proof using Type.
  intros Hf h a h' Hc E. apply bind_Ret in E as ([[[a1 c1] d1] w1] & E & [= _ <-]). exact (Hf _ _ _ _ _ _ _ Hc E).
Qed.
End Failed.

Create HintDb quiet discriminated.
#[export] Hint Resolve quiet_ret quiet_gets quiet_member quiet_lift quiet_report quiet_io quiet_name_file quiet_when : quiet.
#[export] Hint Resolve succeeds_true : quiet.

(** Follows the code: each call is quiet, each branch fails or succeeds. *)
Ltac quietly :=
  repeat first
    [ progress auto with quiet
    | apply quiet_bind; [auto with quiet | intros ?]
    | apply fails_bind; [auto with quiet | intros ?]
    | match goal with
      | |- fails (match ?x with _ => _ end) => destruct x
      | |- quiet (match ?x with _ => _ end) => destruct x
      end
    | apply fails_quiet; solve [quietly] ].

Section Connect.
Context {platform : Platform} {conf : Conf} {W : Type}.
Context {sockets : Sockets W} {mmap : Mmap W} {system : System W} {probes : ProbeMemory W} {app : ClientApp W}.
Implicit Types (h : chost W).

Lemma quiet_fail msg e : quiet (W := W) (fail msg e).
Proof using Type. unfold fail. quietly. Qed.
Lemma quiet_fail_errno msg : quiet (fail_errno msg).
Proof using Type. unfold fail_errno, fail. quietly. Qed.
Lemma quiet_fail_close fd msg e : quiet (fail_close fd msg e).
Proof using Type. unfold fail_close. quietly. Qed.
Lemma quiet_fail_close_errno fd msg : quiet (fail_close_errno fd msg).
Proof using Type. unfold fail_close_errno, fail_close. quietly. Qed.
#[local] Hint Resolve quiet_fail quiet_fail_errno quiet_fail_close quiet_fail_close_errno : quiet.

Lemma quiet_read_name : quiet (W := W) read_name.
Proof using Type. unfold read_name. quietly. Qed.
Lemma quiet_write_name n : quiet (W := W) (write_name n).
Proof using Type.
  unfold write_name. apply quiet_bind; [auto with quiet|]. intros [f|].
  - intros h a h' _ [= _ <-]. apply kept_same.
  - intros h a h' _ E. discriminate E.
Qed.
#[local] Hint Resolve quiet_read_name quiet_write_name : quiet.

Lemma quiet_copy_remote_name : quiet (W := W) copy_remote_name.
Proof using Type.
  unfold copy_remote_name. apply quiet_bind; [auto with quiet|]. intros n h a h' _ E.
  change ((member_ conn_ ≫= ?f) h) with (f (conn_ (client h)) h) in E. cbv beta in E.
  apply M_bind_Ret in E as (r & h1 & E1 & [= _ <-]). apply bind_Ret in E1 as (x & _ & [= _ <-]).
  apply kept_disk; reflexivity.
Qed.
Lemma quiet_TryClose : quiet (W := W) TryClose.
Proof using Type.
  apply quiet_conn_op. intros c d w a c' d' w' _ E. destruct (TS_TryCloseFd c w) as [[b c1] w1] eqn:Et.
  injection E as _ <- <- _. exact (TryCloseFd_kept _ _ _ _ _ _ Et).
Qed.
Lemma quiet_OpenConnFile use_shm : quiet (W := W) (OpenConnFile use_shm).
Proof using Type.
  apply quiet_conn_op. intros c d w a c' d' w' _ E.
  destruct (TS_OpenFile use_shm c d w) as [[[e c1] d1] w1] eqn:Eo. injection E as _ <- <- _.
  exact (OpenFile_kept _ _ _ _ _ _ _ _ Eo).
Qed.
Lemma quiet_Release :
  quiet (W := W) (conn_op (fun c d w => r ← TS_Release c d w; let '(c, d, w) := r in Ret (tt, c, d, w))).
Proof using Type.
  apply quiet_conn_op. intros c d w a c' d' w' Hc E. apply bind_Ret in E as ([[c1 d1] w1] & E & [= _ <- <- _]).
  exact (Release_kept _ _ _ _ _ _ Hc E).
Qed.
#[local] Hint Resolve quiet_copy_remote_name quiet_TryClose quiet_OpenConnFile quiet_Release : quiet.

Lemma logged_in_fails fd use_shm opened ack rsp : fails (W := W) (logged_in fd use_shm opened ack rsp).
Proof using Type.
  unfold logged_in. apply fails_bind; [auto with quiet|]. intros name. cbv zeta.
  apply fails_bind; [auto with quiet|]. intros old. apply fails_bind; [apply quiet_when; quietly|]. intros _.
  apply fails_bind; [destruct (_ && _); auto with quiet|]. intros [e|]; [apply fails_quiet; auto with quiet|].
  apply fails_succeeds. repeat (apply succeeds_bind; intros ?). apply succeeds_true.
Qed.

Lemma login_exchange_fails fd use_shm opened header login :
  fails (W := W) (login_exchange fd use_shm opened header login).
Proof using Type.
  unfold login_exchange. apply fails_bind; [auto with quiet|]. intros [e|]; [apply fails_quiet; auto with quiet|].
  apply fails_bind; [auto with quiet|]. intros [[rsp_header rsp]|[msg e]]; [|apply fails_quiet; auto with quiet].
  apply fails_bind; [auto with quiet|]. intros first.
  destruct (_ || _); [apply fails_quiet; auto with quiet|]. destruct (negb _); [|apply logged_in_fails].
  apply fails_quiet. destruct (_ =? _); quietly.
Qed.

Lemma open_socket_fails ip port next : (forall fd, fails (next fd)) -> fails (W := W) (open_socket ip port next).
Proof using Type.
  intros Hn. unfold open_socket. quietly.
Qed.

Lemma login_queue_quiet name use_shm : quiet (W := W) (login_queue name use_shm).
Proof using Type. unfold login_queue, fail. quietly. Qed.

Lemma map_server_name_quiet : quiet (W := W) map_server_name.
Proof using Type. unfold map_server_name. quietly. Qed.
#[local] Hint Resolve login_queue_quiet map_server_name_quiet open_socket_fails login_exchange_fails : quiet.

(** C13. A Connect that returns false, at whichever step it failed, leaves the connection
    open or closed as it was, every queue file with the content it had (counting what the
    connection has mapped) and every ring as it was. *)
Theorem failed_connect_loses_nothing use_shm ip port data h h' :
  Connect use_shm ip port data h = Ret (false, h') ->
  TS_IsClosed (conn_ (client h')) = TS_IsClosed (conn_ (client h))
  /\ (forall F, file_content F (conn_ (client h')) (cdisk h') = file_content F (conn_ (client h)) (cdisk h))
  /\ (forall n, ring_content n (cdisk h') = ring_content n (cdisk h)).
Proof using Type.
  intros E. enough (same h h') as [A B C] by auto. unfold Connect in E.
  change ((member_ conn_ ≫= ?f) h) with (f (conn_ (client h)) h) in E. cbv beta in E.
  destruct (TS_IsClosed (conn_ (client h))) eqn:Hc.
  2:{ cbn [negb] in E. unfold fail in E. injection E as <-. apply kept_same. }
  revert E. apply (fun H : fails _ => H h h' Hc). cbn [negb]. quietly.
Qed.
End Connect.

(** ** The server rejects a client with unacknowledged messages *)
Section Witness.
#[local] Existing Instance ServerConf.
#[local] Instance here : Platform := true.
#[local] Instance quiet_app : ClientApp sim :=
  { OnLoginSuccess _ w := (0, w); OnServerMsg _ c d w := Ret (c, d, w) }.

Definition rejection : list Z :=
  ctl_bytes 0 (ctl_header (A := LoginRspMsg) 0)
    (mkLoginRsp 0 0 0 2 (lit "s1" ++ replicate 14 0) (replicate 32 0)).
Definition waiting_client : chost sim :=
  mkCHost (mkClient (lit "c1") (Some (lit "c1.lastserver")) (lit "dir")
             (set_ptcp (set_q (Some sending_queue) PTCPConnection_init) (TcpShmConnection_init (lit "dir") (lit "c1"))))
    {[ lit "c1.lastserver" := lit "s1" ++ replicate 14 0 ]} (mkDisk ∅ ∅)
    (mkSim (mkWorld [EvSend 1000; EvRecv rejection] [] 0 []) ∅ [] 0 []) [].
Definition rejected_client : chost sim :=
  match Connect false [127; 0; 0; 1] 12345 0 waiting_client with Ret (_, h) => h | _ => waiting_client end.

Lemma failed_connect_loses_nothing_witness :
  TS_IsClosed (conn_ (client rejected_client)) = TS_IsClosed (conn_ (client waiting_client))
  /\ (forall F, file_content F (conn_ (client rejected_client)) (cdisk rejected_client)
        = file_content F (conn_ (client waiting_client)) (cdisk waiting_client))
  /\ (forall n, ring_content n (cdisk rejected_client) = ring_content n (cdisk waiting_client)).
Proof.
  refine (failed_connect_loses_nothing false [127; 0; 0; 1] 12345 0 waiting_client rejected_client _).
  vm_compute. reflexivity.
Defined.

Example rejection_reported : cevents rejected_client = [OnLoginReject (ctl_body (drop 8 rejection))].
Proof. vm_compute. reflexivity. Qed.
End Witness.
