(* ===== verification/ClientFds.v ===== *)
(** * The client owns its descriptor

    Over every sequence of calls of the client and its user, what is open is the
    descriptor of its connection and what others had opened: a Connect that fails
    has closed what it opened, at whichever step. *)

From Stdlib Require Import String.
From stdpp Require Import relations gmap.
From S2P Require Import Prelude StateRes Endian MsgHeader Conf PTCPConn CString TcpShmConn SysIO Messages.
From S2P Require Import System ShmProbe Descriptors Server Client ServerProps ServerFds ClientTheorems.
From stdpp Require Import list_basics list_relations list.
Local Open Scope Z_scope.

(** The user of the client opens and closes nothing. *)
Class ClientFds (W : Type) {sockets : Sockets W} {mmap : Mmap W} {system : System W} {probes : ProbeMemory W}
    {ledger : Descriptors W} {app : ClientApp W} : Prop := {
  OnServerMsg_fd p c d w c' d' w' :
    Client.OnServerMsg p c d w = Ret (c', d', w') -> owned_fd c' = owned_fd c /\ opens w' = opens w;
  OnLoginSuccess_opens rsp w : opens (snd (OnLoginSuccess rsp w)) = opens w
}.

Section Client.
Context {platform : Platform} {conf : Conf} {W : Type}.
Context {sockets : Sockets W} {mmap : Mmap W} {system : System W} {probes : ProbeMemory W} {ledger : Descriptors W}.
Context {app : ClientApp W} {app_fds : ClientFds W}.
Implicit Types (h : chost W) (F : list Z).

(** The descriptor of the connection, and those that are open. *)
Definition fds_of h : Z * list Z := (owned_fd (conn_ (client h)), opens (cos h)).

(** *** What leaves them alone *)
Lemma still_creport e : still fds_of (Client.report (W := W) e).
Proof using Type. apply still_modify. reflexivity. Qed.
Lemma still_cio {A} (m : M W A) : still opens m -> still fds_of (Client.io m).
Proof using Type. apply still_zoom. intros h w E. unfold fds_of. cbn. rewrite E. reflexivity. Qed.
Lemma still_cmember {A} (f : TcpShmClient -> A) : still fds_of (Client.member_ (W := W) f).
Proof using Type. apply still_gets. Qed.
Lemma still_cassign f : (forall c, owned_fd (conn_ (f c)) = owned_fd (conn_ c)) -> still fds_of (Client.assign (W := W) f).
Proof using Type. intros H. apply still_modify. intros h. unfold fds_of. cbn. rewrite H. reflexivity. Qed.
Lemma still_read_name : still fds_of (read_name (W := W)).
Proof using Type. unfold read_name. repeat (apply still_bind; [apply still_gets | intros ?]). apply still_lift. Qed.
Lemma still_write_name n : still fds_of (write_name (W := W) n).
Proof using Type.
  unfold write_name. apply still_bind; [apply still_gets|]. intros [f|]; [apply still_modify; reflexivity|].
  intros h a h' E. discriminate E.
Qed.
Lemma still_cop {A} (f : TcpShmConnection -> disk -> W -> res (A * TcpShmConnection * disk * W)) :
  keeps_fd f -> still fds_of (Client.conn_op f).
Proof using Type.
  intros Hf h a h' E. apply bind_Ret in E as ([[[a1 c1] d1] w1] & E & [= <- <-]). apply Hf in E as [H1 H2].
  unfold fds_of. cbn. congruence.
Qed.
#[local] Hint Resolve still_creport still_cio still_cmember still_read_name still_write_name : still.

Lemma still_fail msg e : still fds_of (fail (W := W) msg e).
Proof using Type. unfold fail. stilly. Qed.
Lemma still_fail_errno msg : still fds_of (fail_errno (W := W) msg).
Proof using Type. unfold fail_errno. apply still_bind; [apply still_gets | intros e; apply still_fail]. Qed.
Lemma still_copy_remote : still fds_of (copy_remote_name (W := W)).
Proof using Type.
  intros h a h' E. unfold copy_remote_name in E. apply M_bind_Ret in E as (n & h1 & E1 & E). apply still_read_name in E1.
  apply M_bind_Ret in E as (c & h2 & [= <- <-] & E). apply M_bind_Ret in E as (r & h3 & E3 & [= _ <-]).
  apply bind_Ret in E3 as (r' & _ & [= <- <-]). exact E1.
Qed.
Lemma still_OpenConnFile use_shm : still fds_of (OpenConnFile (W := W) use_shm).
Proof using Type.
  apply still_cop. intros c d w a c' d' w' E. destruct (TS_OpenFile use_shm c d w) as [[[e c1] d1] w1] eqn:Eo.
  injection E as _ <- _ <-. exact (OpenFile_fd _ _ _ _ _ _ _ _ Eo).
Qed.
Lemma still_RecvLoginRsp fd : still opens (RecvLoginRsp (W := W) fd).
Proof using Type. unfold RecvLoginRsp, RecvHeader, HandleShmProbe. stilly. Qed.
#[local] Hint Resolve still_fail still_fail_errno still_copy_remote still_OpenConnFile still_RecvLoginRsp : still.

Lemma still_map_server_name : still fds_of (map_server_name (W := W)).
Proof using Type.
  unfold map_server_name. stilly. apply still_cassign. reflexivity.
Qed.
Lemma still_login_queue name use_shm : still fds_of (login_queue (W := W) name use_shm).
Proof using Type. unfold login_queue. stilly. Qed.
#[local] Hint Resolve still_map_server_name still_login_queue : still.

(** *** Who has to close what *)
Definition client_bal F h : Prop := opens (cos h) ≡ₚ valid [owned_fd (conn_ (client h))] ++ F.
(** [Connect] holds the descriptor it opened, the connection has none. *)
Definition holds F fd h : Prop := fd <> INVALID_TCP_SOCKET /\ owned_fd (conn_ (client h)) = INVALID_TCP_SOCKET /\ opens (cos h) ≡ₚ fd :: F.
Definition idle F h : Prop := owned_fd (conn_ (client h)) = INVALID_TCP_SOCKET /\ opens (cos h) ≡ₚ F.

Lemma idle_bal F h : idle F h -> client_bal F h.
Proof using Type. intros [H1 H2]. unfold client_bal. rewrite H1, valid_invalid. exact H2. Qed.

(** A predicate that looks at the descriptors only. *)
Definition on_fds (P : chost W -> Prop) : Prop := forall h h', fds_of h' = fds_of h -> P h -> P h'.
Lemma on_bal F : on_fds (client_bal F).
Proof using Type. intros h h' [= E1 E2] H. unfold client_bal in *. rewrite E1, E2. exact H. Qed.
Lemma on_holds F fd : on_fds (holds F fd).
Proof using Type. intros h h' [= E1 E2] H. unfold holds in *. rewrite E1, E2. exact H. Qed.
Lemma on_idle F : on_fds (idle F).
Proof using Type. intros h h' [= E1 E2] H. unfold idle in *. rewrite E1, E2. exact H. Qed.
#[local] Hint Resolve on_bal on_holds on_idle idle_bal : core.

Lemma still_keeps {A} P (m : M (chost W) A) : on_fds P -> still fds_of m -> hoare P m (fun _ => P).
Proof using Type. intros HP Hm h a h' H E. exact (HP _ _ (Hm _ _ _ E) H). Qed.
Lemma still_then {A B} P (m : M (chost W) A) (f : A -> M (chost W) B) Q :
  on_fds P -> still fds_of m -> (forall a, hoare P (f a) Q) -> hoare P (m ≫= f) Q.
Proof using Type. intros HP Hm Hf. apply (hoare_bind _ _ (fun _ => P)); [exact (still_keeps P m HP Hm) | exact Hf]. Qed.
Lemma still_idle {A} F (m : M (chost W) A) : still fds_of m -> hoare (idle F) m (fun _ => client_bal F).
Proof using Type. intros Hm. eapply hoare_weaken; [apply (still_keeps (idle F) m); auto | auto | auto]. Qed.

Lemma close_held F fd : hoare (holds F fd) (Client.io (sys (tcp_close fd))) (fun _ => idle F).
Proof using Type.
  intros h u h' (Hv & Ho & Hl) E. apply bind_Ret in E as ([v w] & [= _ <-] & [= _ <-]). split; [exact Ho|]. cbn.
  apply (Permutation_cons_inv (a := fd)). rewrite <- Hl. symmetry. apply close_opens. rewrite Hl. left.
Qed.
Lemma fail_close_idle F fd msg e : hoare (holds F fd) (fail_close fd msg e) (fun _ => idle F).
Proof using Type.
  apply still_then; [auto | apply still_creport | intros _].
  eapply hoare_bind; [apply close_held|]. intros u1. cbv beta. apply hoare_ret. auto.
Qed.
Lemma fail_close_errno_idle F fd msg : hoare (holds F fd) (fail_close_errno fd msg) (fun _ => idle F).
Proof using Type. apply still_then; [auto | apply still_gets | intros e; apply fail_close_idle]. Qed.

(** A connection without a descriptor that is released closes none. *)
Lemma release_holds F fd :
  hoare (holds F fd) (Client.conn_op (fun c d w => r ← TS_Release c d w; let '(c, d, w) := r in Ret (tt, c, d, w))) (fun _ => holds F fd).
Proof using Type.
  intros h u h' (Hv & Ho & Hl) E. apply bind_Ret in E as ([[[a1 c1] d1] w1] & E & [= _ <-]).
  apply bind_Ret in E as ([[c2 d2] w2] & E & [= _ <- _ <-]). apply Release_fd in E as [E1 E2]. rewrite Ho, Z.eqb_refl in E2.
  split; [exact Hv|]. cbn. rewrite E2. auto.
Qed.

(** A login that is answered: the descriptor goes to the connection, or is closed. *)
Lemma logged_in_bal F fd use_shm opened ack rsp :
  hoare (holds F fd) (logged_in fd use_shm opened ack rsp) (fun ok h => client_bal F h /\ (ok = false -> idle F h)).
Proof using app_fds.
  unfold logged_in. apply still_then; [auto | apply still_lift | intros name]. cbv zeta.
  apply still_then; [auto | apply still_read_name | intros old].
  apply (hoare_bind _ _ (fun _ => holds F fd)).
  { apply hoare_when; [intros _|auto]. apply (hoare_bind _ _ (fun _ => holds F fd)); [apply release_holds|]. intros _.
    apply still_keeps; [auto|]. stilly. }
  intros _. apply still_then; [auto | destruct (_ && _); stilly |]. intros [e|].
  { eapply hoare_weaken; [apply (fail_close_errno_idle F fd e) | auto | auto]. }
  apply still_then; [auto | |].
  { apply still_when, still_cop. intros c d w a c' d' w' E. apply bind_Ret in E as ([c1 d1] & E & [= _ <- _ <-]).
    split; [exact (Reset_fd _ _ _ _ E) | reflexivity]. }
  intros _. apply still_then; [auto | apply still_cio, still_sys; intros; apply nonblocking_opens | intros _].
  apply still_then; [auto | apply still_cio, still_call; intros; apply OnLoginSuccess_opens | intros now].
  apply (hoare_bind _ _ (fun _ => client_bal F)).
  { intros h u h' (Hv & Ho & Hl) E. apply bind_Ret in E as ([[[a1 c1] d1] w1] & E & [= _ <-]).
    apply bind_Ret in E as ([c2 w2] & E & [= _ <- _ <-]). apply Open_fd in E as [E1 E2].
    assert (H : client_bal F (mkCHost (set_conn c2 (client h)) (names h) (cdisk h) w2 (cevents h))).
    { change (opens w2 ≡ₚ valid [owned_fd c2] ++ F). rewrite E1, E2, Hl, (valid_one fd Hv). reflexivity. }
    exact H. }
  intros _. apply hoare_ret. intros h H. split; [exact H | discriminate].
Qed.

(** [Connect] from the socket on. *)
Definition connects F (ok : bool) h : Prop := client_bal F h /\ (ok = false -> idle F h).
Lemma idle_connects {A} F P (m : M (chost W) A) (g : A -> bool) : hoare P m (fun _ => idle F) -> hoare P m (fun a => connects F (g a)).
Proof using Type. intros H. eapply hoare_weaken; [exact H | auto|]. intros a h Hh. split; auto. Qed.
Lemma still_connects F (m : M (chost W) bool) : still fds_of m -> hoare (idle F) m (fun a => connects F a).
Proof using Type. intros H. apply (idle_connects F _ m (fun b => b)). exact (still_keeps (idle F) m (on_idle F) H). Qed.

Lemma login_exchange_bal F fd use_shm opened hd login :
  hoare (holds F fd) (login_exchange fd use_shm opened hd login) (fun ok => connects F ok).
Proof using app_fds.
  assert (Hf : forall msg e, hoare (holds F fd) (fail_close fd msg e) (fun ok => connects F ok)).
  { intros msg e. apply (idle_connects F _ _ (fun b => b)), fail_close_idle. }
  unfold login_exchange. apply still_then; [auto | apply still_cio; auto with still | intros [e|]]; [apply Hf|].
  apply still_then; [auto | apply still_cio; auto with still | intros [[rh lr]|[msg e]]]; [|apply Hf].
  apply still_then; [auto | apply still_lift | intros first]. destruct (_ || _); [apply Hf|].
  destruct (negb _); [|apply logged_in_bal].
  apply still_then; [auto | apply still_creport | intros _].
  eapply hoare_bind; [apply close_held|]. intros u1. cbv beta. apply hoare_ret. intros h H. split; auto.
Qed.

Lemma open_socket_bal F ip port next :
  (forall fd, hoare (holds F fd) (next fd) (fun ok => connects F ok)) -> hoare (idle F) (open_socket ip port next) (fun ok => connects F ok).
Proof using Type.
  intros Hn. unfold open_socket.
  apply (hoare_bind _ _ (fun fd h => if fd =? INVALID_TCP_SOCKET then idle F h else holds F fd h)).
  { intros h fd h' (Ho & Hl) E. apply bind_Ret in E as ([r w] & [= E] & [= <- <-]). apply socket_opens in E.
    destruct (Z.eqb_spec r INVALID_TCP_SOCKET) as [_|Hv]; [split; [exact Ho | cbn; congruence]|].
    split; [exact Hv|]. split; [exact Ho|]. cbn. rewrite E, Hl. reflexivity. }
  intros fd. destruct (fd =? INVALID_TCP_SOCKET); [apply still_connects, still_fail_errno|].
  assert (Hf : forall msg, hoare (holds F fd) (fail_close_errno fd msg) (fun ok => connects F ok)).
  { intros msg. apply (idle_connects F _ _ (fun b => b)), fail_close_errno_idle. }
  apply still_then; [auto | apply still_cio, still_call; intros; apply timeout_opens | intros r1]. destruct (r1 <? 0); [apply Hf|].
  apply still_then; [auto | apply still_cio, still_call; intros; apply timeout_opens | intros r2]. destruct (r2 <? 0); [apply Hf|].
  apply still_then; [auto | destruct TcpNoDelay; [apply still_cio, still_call; intros; apply setsockopt_opens | apply still_ret] | intros r3].
  destruct (r3 <? 0); [apply Hf|].
  apply still_then; [auto | apply still_cio, still_call; intros; apply connect_opens | intros r4]. destruct (r4 <? 0); [apply Hf | apply Hn].
Qed.

(** Closing what a closed connection still owns. *)
Lemma TryClose_spec F b : hoare (fun h => client_bal F h /\ TS_IsClosed (conn_ (client h)) = b) (TryClose (W := W))
  (fun _ h => client_bal F h /\ (b = true -> idle F h)).
Proof using Type.
  intros h closed h' [Hb Hc] E. apply bind_Ret in E as ([[[a c] d] w] & E & [= _ <-]).
  destruct (TS_TryCloseFd (conn_ (client h)) (cos h)) as [[b1 c1] w1] eqn:Et. injection E as _ <- _ <-.
  apply TryCloseFd_fd in Et. unfold client_bal, idle. cbn [client conn_ cos set_conn]. destruct b1.
  - destruct Et as (H1 & H2 & ->). rewrite H2, valid_invalid. unfold client_bal in Hb. rewrite (valid_one _ H1) in Hb.
    assert (H3 : opens (tcp_close (owned_fd (conn_ (client h))) (cos h)) ≡ₚ F).
    { apply (Permutation_cons_inv (a := owned_fd (conn_ (client h)))). etransitivity; [symmetry; apply close_opens; rewrite Hb; left | exact Hb]. }
    auto.
  - destruct Et as (H1 & -> & H2). rewrite H1. split; [exact Hb|]. intros ->. specialize (H2 Hc). split; [exact H2|].
    unfold client_bal in Hb. rewrite H2, valid_invalid in Hb. exact Hb.
Qed.

Lemma Connect_bal F use_shm ip port data :
  hoare (client_bal F) (Connect use_shm ip port data) (fun ok h => client_bal F h).
Proof using app_fds.
  unfold Connect. apply (hoare_bind _ _ (fun c h => client_bal F h /\ TS_IsClosed (conn_ (client h)) = TS_IsClosed c)).
  { apply hoare_gets. auto. }
  intros c. destruct (negb (TS_IsClosed c)) eqn:Ec.
  { eapply hoare_weaken; [apply (still_keeps (client_bal F)); [auto | apply still_fail] | intros h H; apply H | auto]. }
  apply negb_false_iff in Ec. rewrite Ec.
  eapply hoare_bind; [apply (TryClose_spec F true)|]. intros u1. cbv beta.
  apply (hoare_weaken _ (idle F) _ _ (fun ok h => connects F ok h)); [| intros h [_ H]; exact (H eq_refl) | intros ok h H; exact (proj1 H)].
  apply still_then; [auto | apply still_map_server_name | intros [e|]]; [apply still_connects, still_fail_errno|].
  apply still_then; [auto | apply still_read_name | intros name]. apply still_then; [auto | apply still_cmember | intros me].
  apply still_then; [auto | apply still_lift | intros cn]. apply still_then; [auto | apply still_lift | intros ln].
  apply still_then; [auto | apply still_login_queue | intros [[[ack s] e]|]]; [|apply still_connects, still_ret].
  apply still_then; [auto | apply still_lift | intros first]. cbv zeta. apply open_socket_bal. intros fd. apply login_exchange_bal.
Qed.

Lemma still_cdeliver head : still fds_of (Client.deliver (W := W) head).
Proof using app_fds.
  destruct head as [p|]; [|apply still_ret]. apply still_cop. intros c d w a c' d' w' E.
  apply bind_Ret in E as ([[c1 d1] w1] & E & [= _ <- _ <-]). exact (OnServerMsg_fd _ _ _ _ _ _ _ E).
Qed.

Lemma PollTcp_client_bal F now : hoare (client_bal F) (Client.PollTcp now) (fun _ => client_bal F).
Proof using app_fds.
  unfold Client.PollTcp. apply still_then; [auto | apply still_cmember | intros c].
  apply still_then; [auto | |].
  { apply still_when, still_bind; [|intros; apply still_cdeliver]. apply still_cop. intros c0 d w a c' d' w' E.
    apply bind_Ret in E as ([[p c1] w1] & E & [= _ <- _ <-]). exact (TcpFront_fd _ _ _ _ _ _ E). }
  intros _. apply (hoare_bind _ _ (fun _ => client_bal F)).
  { intros h b h' Hb E. exact (proj1 (TryClose_spec F _ h b h' (conj Hb eq_refl) E)). }
  intros closed. apply still_keeps; [auto|]. apply still_when, still_bind; [apply still_cmember|]. intros c'.
  destruct (TS_GetCloseReason c'). apply still_creport.
Qed.

Lemma PollShm_client_bal F : hoare (client_bal F) (Client.PollShm (W := W)) (fun _ => client_bal F).
Proof using app_fds.
  apply still_keeps; [auto|]. apply still_bind; [|intros; apply still_cdeliver]. apply still_cop. intros c d w a c' d' w' E.
  apply bind_Ret in E as ([p d1] & E & [= _ <- _ <-]). split; reflexivity.
Qed.

Lemma Stop_client_bal F : hoare (client_bal F) (Client.Stop (W := W)) (fun _ => idle F).
Proof using Type.
  unfold Client.Stop. apply still_then; [auto | apply still_cassign; reflexivity | intros _].
  intros h u h' Hb E. apply bind_Ret in E as ([[[a1 c1] d1] w1] & E & [= _ <-]).
  apply bind_Ret in E as ([[c2 d2] w2] & E & [= _ <- _ <-]). apply Release_fd in E as [E1 E2]. split; [exact E1|]. cbn [client conn_ cos set_conn].
  unfold client_bal in Hb. destruct (Z.eqb_spec (owned_fd (conn_ (client h))) INVALID_TCP_SOCKET) as [Hv|Hv]; rewrite E2.
  - rewrite Hv, valid_invalid in Hb. exact Hb.
  - rewrite (valid_one _ Hv) in Hb. apply (Permutation_cons_inv (a := owned_fd (conn_ (client h)))).
    etransitivity; [symmetry; apply close_opens; rewrite Hb; left | exact Hb].
Qed.

(** *** Every sequence of calls *)

(** A call of the client, an operation of its user, or a change by others that
    opens and closes nothing in this process. *)
Inductive client_step : chost W -> chost W -> Prop :=
| cstep_Connect use_shm ip port data ok h h' : Connect use_shm ip port data h = Ret (ok, h') -> client_step h h'
| cstep_PollTcp now h h' : Client.PollTcp now h = Ret (tt, h') -> client_step h h'
| cstep_PollShm h h' : Client.PollShm h = Ret (tt, h') -> client_step h h'
| cstep_Stop h h' : Client.Stop h = Ret (tt, h') -> client_step h h'
| cstep_user {A} (f : TcpShmConnection -> disk -> W -> res (A * TcpShmConnection * disk * W)) a h h' :
    keeps_fd f -> Client.conn_op f h = Ret (a, h') -> client_step h h'
| cstep_other ns d w h : opens w = opens (cos h) -> client_step h (mkCHost (client h) ns d w (cevents h)).

Lemma client_step_bal F h h' : client_bal F h -> client_step h h' -> client_bal F h'.
Proof using app_fds.
  intros Hb Hs. destruct Hs as [use_shm ip port data ok h0 h1 E|now h0 h1 E|h0 h1 E|h0 h1 E|A f a h0 h1 Hf E|ns d w h0 E].
  - exact (Connect_bal F use_shm ip port data h0 ok h1 Hb E).
  - exact (PollTcp_client_bal F now h0 tt h1 Hb E).
  - exact (PollShm_client_bal F h0 tt h1 Hb E).
  - exact (idle_bal F h1 (Stop_client_bal F h0 tt h1 Hb E)).
  - exact (still_keeps _ _ (on_bal F) (still_cop f Hf) h0 a h1 Hb E).
  - unfold client_bal in *. cbn [client conn_ cos]. rewrite E. exact Hb.
Qed.

(** C19. From a new client on, over every sequence of calls of Connect, PollTcp, PollShm and
    Stop and of its user, however each of them ends, what is open is the one descriptor of
    its connection, if it has one, and what others had opened; after Stop the connection has
    none. *)
Theorem client_owns_descriptor name dir k d w ns h :
  TcpShmClient_init name dir = Ret k -> rtc client_step (mkCHost k ns d w []) h ->
  opens (cos h) ≡ₚ valid [owned_fd (conn_ (client h))] ++ opens w
  /\ forall h', Client.Stop h = Ret (tt, h') -> opens (cos h') ≡ₚ opens w.
Proof using app_fds.
  intros Ei Hr. assert (H0 : client_bal (opens w) (mkCHost k ns d w [])).
  { apply bind_Ret in Ei as (a & _ & Ei). apply bind_Ret in Ei as (a' & _ & [= <-]).
    change (opens w ≡ₚ valid [INVALID_TCP_SOCKET] ++ opens w). reflexivity. }
  assert (H : client_bal (opens w) h).
  { clear Ei. revert H0. induction Hr as [|h0 h1 h2 Hs _ IH]; intros H0; [exact H0|]. apply IH. exact (client_step_bal _ _ _ H0 Hs). }
  split; [exact H|]. intros h' E. exact (proj2 (Stop_client_bal _ h tt h' H E)).
Qed.
End Client.

(** ** A login over the simulated system *)
Section Witness.
#[local] Existing Instance ServerConf.
#[local] Instance here : Platform := true.
#[local] Instance silent : ClientApp sim :=
  { OnLoginSuccess _ w := (0, w); Client.OnServerMsg _ c d w := Ret (c, d, w) }.
#[local] Instance silent_fds : ClientFds sim.
Proof. constructor; [intros p c d w c' d' w' [= <- _ <-]; auto | reflexivity]. Qed.

Definition acceptance : list Z :=
  ctl_bytes 0 (ctl_header (A := LoginRspMsg) 0) (mkLoginRsp 0 0 0 0 (lit "s1" ++ replicate 14 0) (replicate 32 0)).
(** Descriptor 3 is somebody else's. *)
Definition fresh_client : chost sim :=
  match TcpShmClient_init (W := sim) (lit "c1") (lit "dir") with
  | Ret k => mkCHost k ∅ (mkDisk ∅ ∅) (mkSim (mkWorld [EvSend 1000; EvRecv acceptance] [] 0 []) ∅ [] 0 [3]) []
  | _ => waiting_client
  end.
Definition connected_client : chost sim :=
  match Connect false [127; 0; 0; 1] 12345 0 fresh_client with Ret (_, h) => h | _ => waiting_client end.

Lemma client_owns_descriptor_witness :
  opens (cos connected_client) ≡ₚ valid [owned_fd (conn_ (client connected_client))] ++ [3]
  /\ opens (cos connected_client) = [5; 3].
Proof.
  split; [|vm_compute; reflexivity].
  destruct (client_owns_descriptor (lit "c1") (lit "dir") (client fresh_client) (mkDisk ∅ ∅)
    (mkSim (mkWorld [EvSend 1000; EvRecv acceptance] [] 0 []) ∅ [] 0 [3]) ∅ connected_client) as [H _].
  - vm_compute. reflexivity.
  - apply rtc_once, (cstep_Connect false [127; 0; 0; 1] 12345 0 true). vm_compute. reflexivity.
  - exact H.
Defined.
End Witness.
