(* ===== verification/Echo.v ===== *)
(** * The example programs (src/server.cpp, src/client.cpp, src/common.h)

    The client sends a login for every line it reads, the server answers a login
    with a response, the client prints it.  Messages are in Protocol Buffers, by
    the library iguana: a parameter.  What is written to the console goes to the
    system as the values that are formatted. *)

From Stdlib Require Import String.
From stdpp Require Import gmap.
From S2P Require Import Prelude StateRes Endian MsgHeader PTCPQueue SPSCVarQueue Conf PTCPConn CString TcpShmConn SysIO Messages.
From S2P Require Import System ShmProbe Server Client.
From stdpp Require Import list_basics list_relations list.
Local Open Scope Z_scope.

(** ** The messages (common.h)

    A [double] is its 64 bits; a string its bytes. *)
Record Order : Type := mkOrder { id : Z; price : Z; volume : Z }.
Record Trade : Type := mkTrade { order_id : Z; trade_id : Z; trade_price : Z; trade_volume : Z }.
Record Login : Type := mkLoginData { name : list Z; password : list Z }.
Record LoginResponse : Type := mkLoginResponse { error_code : Z; error_message : list Z }.
Inductive Request : Type := ReqLogin (m : Login) | ReqOrder (m : Order).
Inductive Response : Type := RspLogin (m : LoginResponse) | RspTrade (m : Trade).

(** [to_pb] and [from_pb] of iguana; [None]: [from_pb] throws. *)
Class Protobuf : Type := {
  request_to_pb : Request -> list Z;
  request_from_pb : list Z -> option Request;
  response_to_pb : Response -> list Z;
  response_from_pb : list Z -> option Response
}.

(** What is printed. *)
Inductive printed : Type :=
| LoginLine (name pwd : list Z)
| CodeLine (code : Z) (msg : list Z)
| BufferFullLine
| NewConnectionLine (client_name addr : list Z) (use_shm : bool).
Class Console (W : Type) : Type := { println : printed -> W -> W }.

(** ** The bytes of a message in memory

    A message is copied byte by byte into blocks that the queue and the ring see
    as an array of headers, or of cache lines. *)
Section Memory.
Context {platform : Platform}.

(** The first [n] objects of [size] bytes. *)
Fixpoint chunks {A} (of_bytes : list Z -> A) (size n : nat) (bs : list Z) : list A :=
  match n with
  | O => []
  | S n => of_bytes (take size bs) :: chunks of_bytes size n (drop size bs)
  end.
Definition line_bytes (b : Block) : list Z := hdr_bytes native_little (header b) ++ line b.
Definition bytes_line (bs : list Z) : Block := mkBlock (bytes_hdr native_little (take 8 bs)) (drop 8 bs).

(** [memcpy] to the byte [off] of the array. *)
Definition poke_queue (off : Z) (bs : list Z) (l : list MsgHeader) : res (list MsgHeader) :=
  mem ← write_at (blks_bytes l) off bs;
  Ret (chunks (bytes_hdr native_little) 8 (length l) mem).
Definition poke_ring (off : Z) (bs : list Z) (l : list Block) : res (list Block) :=
  mem ← write_at (flat_map line_bytes l) off bs;
  Ret (chunks bytes_line 64 (length l) mem).

(** [header->msg_type = ty; memcpy(header + 1, body.data(), body.size())] *)
Definition queue_message (p ty : Z) (body : list Z) (q : PTCPQueue) : res PTCPQueue :=
  h ← ld (blk_ q) p;
  blk ← st (blk_ q) p (mkHeader (MsgHeader.size h) ty (ack_seq h));
  blk ← poke_queue (8 * p + 8) body blk;
  Ret (PTCPQueue.with_blk q blk).
Definition ring_message (p ty : Z) (body : list Z) (q : SPSCVarQueue) : res SPSCVarQueue :=
  b ← ld (blk q) p;
  blk ← st (blk q) p (mkBlock (mkHeader (blk_size b) ty (ack_seq (header b))) (line b));
  blk ← poke_ring (64 * p + 8) body blk;
  Ret (SPSCVarQueue.with_blk q blk).
End Memory.

Section Programs.
Context {platform : Platform} {conf : Conf} {W : Type} {sockets : Sockets W} {pb : Protobuf} {console : Console W}.
Implicit Types (c : TcpShmConnection) (d : disk) (w : W).

(** ** What both programs do with a message *)

(** The header at the pointer [Front] returned. *)
Definition recv_header (p : Z) c d : res MsgHeader :=
  match shm_recvq_ c with
  | Some n => match shm_objects d !! n with Some q => b ← ld (blk q) p; Ret (header b) | None => UB end
  | None => header_at (ptcp_conn_ c) p
  end.
(** The [n] bytes after it. *)
Definition recv_body (p n : Z) c d : res (list Z) :=
  match shm_recvq_ c with
  | Some o => match shm_objects d !! o with Some q => read_at (flat_map line_bytes (blk q)) (64 * p + 8) n | None => UB end
  | None => read_at (recvbuf_ (ptcp_conn_ c)) (p + 8) n
  end.
(** [size_t body_size = header->size - sizeof(MsgHeader)] *)
Definition body_len (h : MsgHeader) : Z := u64 (MsgHeader.size h - sizeof_MsgHeader).

Definition send_message (p ty : Z) (body : list Z) c d : res (TcpShmConnection * disk) :=
  match shm_sendq_ c with
  | Some n =>
      r ← on_ring n (fun q => no_result (ring_message p ty body q)) d;
      let '(_, d) := r in
      Ret (c, d)
  | None =>
      q ← deref (ptcp_conn_ c);
      q ← queue_message p ty body q;
      Ret (set_ptcp (set_q (Some q) (ptcp_conn_ c)) c, d)
  end.

(** Alloc, write and Push; [false] if there is no room.  [Alloc] takes the size
    as a [uint16_t]. *)
Definition send_bytes (out : list Z) c d w : res (bool * TcpShmConnection * disk * W) :=
  r ← TS_Alloc (u16 (zlen out)) c d;
  let '(p, c, d) := r in
  match p with
  | None => Ret (false, c, d, w)
  | Some p =>
      r ← send_message p 1 out c d;
      let '(c, d) := r in
      r ← TS_Push c d w;
      let '(c, d, w) := r in
      Ret (true, c, d, w)
  end.

(** ** The server: class StringServer *)
Definition writeResponse (rsp : Response) c d w : res (TcpShmConnection * disk * W) :=
  r ← send_bytes (response_to_pb rsp) c d w;
  let '(_, c, d, w) := r in
  Ret (c, d, w).

(** [None]: an exception ends the program. *)
Definition OnClientMsg (p : Z) c d w : res (option (TcpShmConnection * disk * W)) :=
  h ← recv_header p c d;
  view ← recv_body p (body_len h) c d;
  match request_from_pb view with
  | None => Ret None
  | Some req =>
      r ← TS_Pop c d;
      let '(c, d) := r in
      match req with
      | ReqLogin msg =>
          let w := println (LoginLine (name msg) (password msg)) w in
          let rsp :=
            if bool_decide (name msg = lit "gewei") then mkLoginResponse 0 (lit "success")
            else mkLoginResponse (-1) (lit "failure") in
          r ← writeResponse (RspLogin rsp) c d w;
          Ret (Some r)
      | ReqOrder _ => Ret (Some (c, d, w))
      end
  end.

(** Group 0 for everybody. *)
Definition OnNewConnection (addr : list Z) (login : LoginMsg) (login_rsp : LoginRspMsg) w : Z * LoginRspMsg * W :=
  (0, login_rsp, println (NewConnectionLine (cstr (client_name login)) addr (negb (use_shm login =? 0))) w).

(** ** The client: class StringClient *)
Definition Send (s : list Z) c d w : res (TcpShmConnection * disk * W) :=
  r ← send_bytes (request_to_pb (ReqLogin (mkLoginData s (lit "123456")))) c d w;
  let '(sent, c, d, w) := r in
  Ret (c, d, if sent : bool then w else println BufferFullLine w).

Definition OnServerMsg (p : Z) c d w : res (option (TcpShmConnection * disk * W)) :=
  h ← recv_header p c d;
  w ← (if msg_type h =? 1 then
         view ← recv_body p (body_len h) c d;
         match response_from_pb view with
         | None => Ret None
         | Some (RspLogin msg) => Ret (Some (println (CodeLine (error_code msg) (error_message msg)) w))
         | Some (RspTrade _) => Ret (Some w)
         end
       else Ret (Some w));
  match w with
  | None => Ret None
  | Some w => r ← TS_Pop c d; let '(c, d) := r in Ret (Some (c, d, w))
  end.

(** The users of the connections that the two programs are.  A program that an
    exception ends does not return from the callback. *)
Definition returns_of {A} (r : res (option A)) : res A :=
  o ← r; match o with Some a => Ret a | None => NoFuel end.
#[export] Instance StringServer : App W := {
  Server.OnNewConnection := OnNewConnection;
  Server.OnClientMsg p c d w := returns_of (OnClientMsg p c d w)
}.
#[export] Instance StringClient (now : W -> Z * W) : ClientApp W := {
  OnLoginSuccess _ w := now w;
  Client.OnServerMsg p c d w := returns_of (OnServerMsg p c d w)
}.
End Programs.
