(* ===== verification/EchoTheorems.v ===== *)
(** * Theorems on the example programs

    A line the user types goes, as a login, into the log of the client's
    connection; the server consumes that message and puts the answer in its own;
    the client prints the answer: between hosts of any byte order. *)

From Stdlib Require Import String.
From stdpp Require Import gmap.
From S2P Require Import Prelude StateRes Endian MsgHeader PTCPQueue PTCPQueueSpec Conf PTCPConn PTCPFraming PTCPFront PTCPSend PTCPConnTheorems.
From S2P Require Import CString TcpShmConn SysIO Messages System ShmProbe Descriptors Server Client ServerProps ServerFds Echo.
From stdpp Require Import list_basics list_relations list.
Local Open Scope Z_scope.

(** ** Bytes copied into blocks *)
Section Memory.
Context {platform : Platform}.
Implicit Types (l pre b post : list MsgHeader) (bs : list Z).

Lemma chunks_bytes bs : forall n, length bs = (8 * n)%nat -> Forall in_byte bs ->
  let l := chunks (bytes_hdr native_little) 8 n bs in
  blks_bytes l = bs /\ length l = n /\ Forall hdr_ok l.
Proof using Type.
  intros n. revert bs. induction n as [|n IH]; intros bs L Hb; cbn [chunks].
  - destruct bs; [auto | discriminate L].
  - assert (L8 : length (take 8 bs) = 8%nat) by (rewrite length_take; lia).
    destruct (IH (drop 8 bs)) as (E & L' & H); [rewrite length_drop; lia | apply Forall_drop, Hb|].
    split; [|split; [cbn; lia | constructor; [apply bytes_hdr_ok; [apply Forall_take, Hb | exact L8] | exact H]]].
    unfold blks_bytes in *. cbn [flat_map]. rewrite E, hdr_bytes_hdr by (try apply Forall_take; assumption). apply take_drop.
Qed.

Lemma chunks_blks l : Forall hdr_ok l -> chunks (bytes_hdr native_little) 8 (length l) (blks_bytes l) = l.
Proof using Type.
  induction 1 as [|h l Hh _ IH]; [reflexivity|]. unfold blks_bytes in *. cbn [length chunks flat_map].
  rewrite take_app_length', drop_app_length' by (rewrite length_hdr_bytes; reflexivity). rewrite IH. f_equal.
  rewrite <- (app_nil_r (hdr_bytes _ h)). apply bytes_hdr_bytes. exact Hh.
Qed.

Lemma chunks_app {A} (f : list Z -> A) s n m bs1 bs2 : length bs1 = (s * n)%nat ->
  chunks f s (n + m) (bs1 ++ bs2) = chunks f s n bs1 ++ chunks f s m bs2.
Proof using Type.
  revert bs1. induction n as [|n IH]; intros bs1 L; [destruct bs1; [reflexivity | cbn in L; lia]|].
  cbn [Nat.add chunks app]. rewrite take_app_le, drop_app_le by lia. rewrite IH by (rewrite length_drop; lia). reflexivity.
Qed.

(** Copying [bs] to the blocks [b] changes only them, and they begin with it. *)
Lemma poke_queue_spec pre b post bs off : Forall hdr_ok (pre ++ b ++ post) -> Forall in_byte bs ->
  off = 8 * zlen pre -> zlen bs <= 8 * zlen b ->
  exists b', poke_queue off bs (pre ++ b ++ post) = Ret (pre ++ b' ++ post)
    /\ length b' = length b /\ Forall hdr_ok b' /\ take (length bs) (blks_bytes b') = bs.
Proof using Type.
  intros Hh Hbs -> Hl. rewrite !Forall_app in Hh. destruct Hh as (H1 & H2 & H3).
  pose proof (length_blks_bytes b) as Lb. pose proof (length_blks_bytes pre) as Lp.
  set (new := bs ++ drop (length bs) (blks_bytes b)).
  assert (Ln : length new = (8 * length b)%nat) by (unfold new; rewrite length_app, length_drop; lia).
  assert (Hn : Forall in_byte new) by (apply Forall_app; split; [exact Hbs | apply Forall_drop, blks_bytes_in_byte]).
  destruct (chunks_bytes new (length b) Ln Hn) as (E & L' & Hok). exists (chunks (bytes_hdr native_little) 8 (length b) new).
  split; [|split; [exact L'|split; [exact Hok|]]].
  - unfold poke_queue. rewrite !blks_bytes_app, <- (take_drop (length bs) (blks_bytes b)), <- app_assoc.
    rewrite write_at_app by (rewrite ?length_take; lia). cbn [mbind res_bind].
    replace (blks_bytes pre ++ bs ++ drop (length bs) (blks_bytes b) ++ blks_bytes post)
      with (blks_bytes pre ++ new ++ blks_bytes post) by (unfold new; rewrite <- app_assoc; reflexivity).
    rewrite !length_app, chunks_app, chunks_app, !chunks_blks by (assumption || lia). reflexivity.
  - rewrite E. unfold new. apply take_app_length.
Qed.
End Memory.

Lemma read_at_sub {A} (l : list A) i n xs j m : read_at l i n = Ret xs -> 0 <= j -> 0 <= m -> j + m <= n ->
  read_at l (i + j) m = Ret (take (Z.to_nat m) (drop (Z.to_nat j) xs)).
Proof.
  unfold read_at. destruct (_ && _) eqn:E; [|discriminate]. intros [= <-] Hj Hm Hn.
  destruct ((0 <=? i + j) && _ && _) eqn:E2; [|lia]. f_equal.
  rewrite skipn_firstn_comm, drop_drop, take_take. f_equal; [lia | f_equal; lia].
Qed.

(** ** One message over TCP *)
Section Tcp.
Context {platform : Platform} {conf : Conf} {conf_ok : ConfOk conf} {W : Type}.
Context {sockets : Sockets W} {laws : SendLaws W} {pb : Protobuf} {console : Console W}.
Implicit Types (c : TcpShmConnection) (d : disk) (w : W) (q : PTCPQueue) (l : log) (f : frame).
Abbreviation Rep := (Rep TcpQueueSize ToLittleEndian).

Lemma queue_message_Fill sz bs q l : Reserved TcpQueueSize ToLittleEndian (sz + sizeof_MsgHeader) q l ->
  zlen bs = sz -> Forall in_byte bs -> sz + sizeof_MsgHeader < 2 ^ 16 ->
  exists body, queue_message (write_idx_ q) 1 bs q = Fill (write_idx_ q) 1 body q
    /\ Forall hdr_ok body /\ 1 + zlen body = blocks sizeof_MsgHeader (sz + sizeof_MsgHeader)
    /\ take (length bs) (blks_bytes body) = bs.
Proof using conf_ok.
  intros (HR & pre & h & post & E & Er & Esz & Hroom) Hl Hb Hlt.
  pose proof (rep_write _ _ _ _ HR) as Hw. pose proof (rep_hdrs _ _ _ _ HR) as Hh.
  pose proof (blocks_bounds sizeof_MsgHeader (sz + sizeof_MsgHeader) ltac:(reflexivity)) as HB. unfold sizeof_MsgHeader in *.
  set (n := Z.to_nat (blocks 8 (sz + 8) - 1)).
  rewrite <- (take_drop n post) in E. set (b := take n post) in *. set (post' := drop n post) in *.
  assert (Lb : length b = n) by (unfold b; rewrite length_take; lia).
  set (pre' := pre ++ wires ToLittleEndian (entries l)) in *. rewrite app_assoc in E. fold pre' in E.
  assert (Hi : write_idx_ q = zlen pre') by (unfold pre'; rewrite length_app; lia).
  set (h1 := mkHeader (MsgHeader.size h) 1 (ack_seq h)).
  assert (Hh1 : Forall hdr_ok ((pre' ++ [h1]) ++ b ++ post')).
  { rewrite E, !Forall_app, Forall_cons_iff, Forall_app in Hh. destruct Hh as (A & (B1 & B2 & B3) & C & D).
    rewrite !Forall_app. split; [split; [exact A|]|auto]. constructor; [|constructor].
    apply hdr_ok_intro; [exact B1 | unfold in_u16; lia | exact B3]. }
  destruct (poke_queue_spec (pre' ++ [h1]) b post' bs (8 * write_idx_ q + 8) Hh1 Hb) as (b' & Ep & L' & Hok & Et);
    [rewrite length_app; cbn; lia | lia|].
  exists b'. split; [|split; [exact Hok|split; [lia | exact Et]]].
  unfold queue_message, Fill. rewrite E, ld_app by exact Hi. cbn [mbind res_bind].
  rewrite st_app by exact Hi. cbn [mbind res_bind]. fold h1. change (h1 :: b ++ post') with ([h1] ++ b ++ post').
  rewrite app_assoc, Ep, write_at_app by (rewrite ?length_app; cbn; lia). reflexivity.
Qed.

Lemma set_same c q : q_ (ptcp_conn_ c) = Some q -> set_ptcp (set_q (Some q) (ptcp_conn_ c)) c = c.
Proof using Type. intros E. destruct c as [? ? ? [] ? ? ?]. cbn in *. rewrite E. reflexivity. Qed.

(** A message of type 1 with the bytes [out], and what sending it does to the log:
    it is there, and some of the log is handed to the socket. *)
Definition carries (m : msg) (ack : Z) (out : list Z) : Prop :=
  m_hdr m = mkHeader (zlen out + 8) 1 ack /\ msg_ok m /\ take (length out) (blks_bytes (m_body m)) = out.
Definition logged (m : msg) l c' : Prop :=
  exists q' n, q_ (ptcp_conn_ c') = Some q'
    /\ Rep q' (spec_sendout n (mkLog (entries l ++ [m]) (first_seq l) (sent l) (my_ack l))).

Lemma TS_Push_logged c d w q1 l1 : shm_sendq_ c = None -> q_ (ptcp_conn_ c) = Some q1 ->
  forall q2, PTCPQueue.Push ToLittleEndian q1 = Ret q2 -> Rep q2 l1 ->
  exists c' w' q' n, TS_Push c d w = Ret (c', d, w') /\ q_ (ptcp_conn_ c') = Some q' /\ Rep q' (spec_sendout n l1)
    /\ readidx_ (ptcp_conn_ c') = readidx_ (ptcp_conn_ c).
Proof using conf_ok laws.
  intros Hs Hq q2 Ep HR. unfold TS_Push. rewrite Hs. unfold PTCPConn.Push, deref. rewrite Hq. cbn [mbind res_bind].
  rewrite Ep. cbn [mbind res_bind]. set (t := set_q (Some q2) (ptcp_conn_ c)). destruct (IsClosed t) eqn:Ec.
  - exists (set_ptcp t c), w, q2, 0. unfold SendPending. rewrite Ec, spec_sendout_0. split; [reflexivity|]. split; [reflexivity | split; [exact HR | reflexivity]].
  - destruct (SendPending_effect t w q2 l1 Ec eq_refl HR)
      as (b & t' & w' & q' & n & rest & E & Hq' & HR' & _ & _ & _ & _ & (_ & _ & _ & _ & Hr & _)). rewrite E.
    exists (set_ptcp t' c), w', q', n. split; [reflexivity|]. split; [exact Hq' | split; [exact HR' | exact Hr]].
Qed.

Lemma send_bytes_spec out c d w q l : shm_sendq_ c = None -> q_ (ptcp_conn_ c) = Some q -> Rep q l ->
  Forall in_byte out -> zlen out + 8 < 2 ^ 16 ->
  if spec_room TcpQueueSize ToLittleEndian (zlen out) l
  then exists m c' w', send_bytes out c d w = Ret (true, c', d, w') /\ carries m (my_ack l) out /\ logged m l c'
         /\ readidx_ (ptcp_conn_ c') = readidx_ (ptcp_conn_ c)
  else send_bytes out c d w = Ret (false, c, d, w).
Proof using conf_ok laws.
  intros Hs Hq HR Hb Hlt. pose proof queue_range as Hqr. assert (H0 : 0 <= zlen out) by lia.
  unfold send_bytes. rewrite u16_id by (unfold in_u16; lia). unfold TS_Alloc. rewrite Hs.
  unfold PTCPConn.Alloc, deref. rewrite Hq. cbn [mbind res_bind].
  destruct (spec_room _ _ (zlen out) l) eqn:Er.
  - destruct (Alloc_room _ _ Hqr (zlen out) q l HR H0 Hlt Er) as (q1 & -> & HR1). cbn [mbind res_bind].
    destruct (queue_message_Fill (zlen out) out q1 l HR1 eq_refl Hb Hlt) as (body & Eb & Hok & Hlen & Ht).
    destruct (Fill_Push _ _ Hqr (zlen out) 1 body q1 l HR1 H0 Hlt ltac:(unfold in_u16; lia) Hok Hlen) as (q3 & Ef & HR3).
    rewrite <- Eb in Ef. apply bind_Ret in Ef as (q2 & E2 & E3).
    set (c1 := set_ptcp (set_q (Some q1) (ptcp_conn_ c)) c). unfold send_message. change (shm_sendq_ c1) with (shm_sendq_ c). rewrite Hs.
    unfold deref. change (q_ (ptcp_conn_ c1)) with (Some q1). cbn [mbind res_bind]. rewrite E2. cbn [mbind res_bind].
    set (c2 := set_ptcp (set_q (Some q2) (ptcp_conn_ c1)) c1).
    destruct (TS_Push_logged c2 d w q2 _ Hs eq_refl q3 E3 HR3) as (c' & w' & q' & n & E & Hq' & HR' & Hr'). rewrite E.
    exists (mkMsg (mkHeader (zlen out + 8) 1 (my_ack l)) body), c', w'. split; [reflexivity|].
    split; [|split; [exists q', n; auto | exact Hr']].
    split; [reflexivity|]. split; [|exact Ht]. split; [|split; [exact Hok | exact Hlen]].
    apply hdr_ok_intro; [unfold in_u16; lia | unfold in_u16; lia | exact (proj2 (rep_ack _ _ _ _ HR))].
  - rewrite (Alloc_full _ _ Hqr (zlen out) q l HR H0 Hlt Er). cbn [mbind res_bind]. rewrite (set_same c q Hq). reflexivity.
Qed.

(** *** What a user reads *)

(** The message at the front of the connection. *)
Definition front_is f c : Prop :=
  shm_recvq_ c = None /\ read_msg (ptcp_conn_ c) (readidx_ (ptcp_conn_ c)) = Ret f /\ 8 <= MsgHeader.size (fhdr f) < 2 ^ 16.
Definition payload f : list Z := take (Z.to_nat (MsgHeader.size (fhdr f) - 8)) (fbody f).

Lemma recv_spec f c d : front_is f c -> let p := readidx_ (ptcp_conn_ c) in
  recv_header p c d = Ret (fhdr f) /\ recv_body p (body_len (fhdr f)) c d = Ret (payload f)
  /\ header_at (ptcp_conn_ c) p = Ret (fhdr f).
Proof using Type.
  intros (Hs & E & H8). cbv zeta. unfold recv_header, recv_body. rewrite Hs. unfold read_msg in E.
  apply bind_Ret in E as (h & Eh & E). apply bind_Ret in E as (bs & Eb & [= <-]). cbn [fhdr fbody] in *. rewrite Eh.
  split; [reflexivity|]. split; [|reflexivity]. unfold body_len, u64, sizeof_MsgHeader. rewrite Z.mod_small by lia.
  pose proof (msg_size_bounds h). rewrite (read_at_sub _ _ _ _ 8 _ Eb) by lia. reflexivity.
Qed.

(** The message [f] at the front of [c] is behind the read index of [c']. *)
Definition passed f c c' : Prop :=
  readidx_ (ptcp_conn_ c') = u32 (readidx_ (ptcp_conn_ c) + msg_size (fhdr f)).

Lemma TS_Pop_logged f c d q l : front_is f c -> q_ (ptcp_conn_ c) = Some q -> Rep q l ->
  exists c' q', TS_Pop c d = Ret (c', d) /\ q_ (ptcp_conn_ c') = Some q' /\ Rep q' (spec_pop l)
    /\ shm_sendq_ c' = shm_sendq_ c /\ passed f c c'.
Proof using Type.
  intros Hf Hq HR. destruct (recv_spec f c d Hf) as (_ & _ & Eh). destruct Hf as (Hs & _). unfold TS_Pop. rewrite Hs.
  unfold PTCPConn.Pop. rewrite Eh. cbn [mbind res_bind]. unfold deref. cbn [q_ set_idx]. rewrite Hq. cbn [mbind res_bind].
  eexists _, (MyAck_incr q). split; [reflexivity|]. split; [reflexivity|].
  split; [apply MyAck_incr_rep; exact HR | split; reflexivity].
Qed.

(** iguana decodes what it encoded, for values of the types of common.h. *)
Definition str_ok (s : list Z) : Prop := Forall in_byte s /\ zlen s < 2 ^ 31.
Definition int_ok (bits n : Z) : Prop := - 2 ^ (bits - 1) <= n < 2 ^ (bits - 1).
Definition request_ok (r : Request) : Prop :=
  match r with
  | ReqLogin m => str_ok (name m) /\ str_ok (password m)
  | ReqOrder m => int_ok 32 (id m) /\ in_u64 (price m) /\ int_ok 64 (volume m)
  end.
Definition response_ok (r : Response) : Prop :=
  match r with
  | RspLogin m => int_ok 32 (error_code m) /\ str_ok (error_message m)
  | RspTrade m => int_ok 32 (order_id m) /\ int_ok 32 (trade_id m) /\ in_u64 (trade_price m) /\ int_ok 64 (trade_volume m)
  end.
Class ProtobufLaws : Prop := {
  request_roundtrip r : request_ok r -> request_from_pb (request_to_pb r) = Some r /\ Forall in_byte (request_to_pb r);
  response_roundtrip r : response_ok r -> response_from_pb (response_to_pb r) = Some r /\ Forall in_byte (response_to_pb r)
}.
Context {pb_laws : ProtobufLaws}.

(** The answer to a login. *)
Definition answer (m : Login) : LoginResponse :=
  if bool_decide (name m = lit "gewei") then mkLoginResponse 0 (lit "success") else mkLoginResponse (-1) (lit "failure").

Lemma answer_ok m : response_ok (RspLogin (answer m)).
Proof using Type.
  unfold answer. destruct (bool_decide _); cbn; (split; [unfold int_ok; lia|]); (split; [|cbn; lia]);
    unfold lit; repeat constructor; cbn; lia.
Qed.

Lemma OnClientMsg_spec f m c d w q l : request_ok (ReqLogin m) ->
  front_is f c -> shm_sendq_ c = None -> q_ (ptcp_conn_ c) = Some q -> Rep q l ->
  payload f = request_to_pb (ReqLogin m) -> let out := response_to_pb (RspLogin (answer m)) in zlen out + 8 < 2 ^ 16 ->
  exists c' w', OnClientMsg (readidx_ (ptcp_conn_ c)) c d w = Ret (Some (c', d, w')) /\ passed f c c'
    /\ if spec_room TcpQueueSize ToLittleEndian (zlen out) (spec_pop l)
       then exists r, carries r (u32 (my_ack l + 1)) out /\ logged r (spec_pop l) c'
       else exists q', q_ (ptcp_conn_ c') = Some q' /\ Rep q' (spec_pop l).
Proof using conf_ok laws pb_laws.
  intros Hm Hf Hs Hq HR Hp out Hlt. destruct (recv_spec f c d Hf) as (Eh & Eb & _). unfold OnClientMsg.
  rewrite Eh. cbn [mbind res_bind]. rewrite Eb, Hp. cbn [mbind res_bind]. rewrite (proj1 (request_roundtrip _ Hm)).
  destruct (TS_Pop_logged f c d q l Hf Hq HR) as (c1 & q1 & -> & Hq1 & HR1 & Hs1 & Hr1). cbn [mbind res_bind]. rewrite Hs in Hs1.
  fold (answer m). unfold writeResponse. set (w1 := println _ w).
  pose proof (send_bytes_spec out c1 d w1 q1 _ Hs1 Hq1 HR1 (proj2 (response_roundtrip _ (answer_ok m))) Hlt) as H. fold out.
  destruct (spec_room _ _ _ _).
  - destruct H as (r & c' & w' & -> & Hc & Hl & Hr). exists c', w'. split; [reflexivity|].
    split; [unfold passed; rewrite Hr; exact Hr1 | exists r; auto].
  - rewrite H. exists c1, w1. split; [reflexivity|]. split; [exact Hr1|]. exists q1. auto.
Qed.

Lemma line_ok s : str_ok s -> request_ok (ReqLogin (mkLoginData s (lit "123456"))).
Proof using Type. intros H. split; [exact H|]. split; [|cbn; lia]. unfold lit; repeat constructor; cbn; lia. Qed.

Lemma Send_spec s c d w q l : str_ok s -> shm_sendq_ c = None -> q_ (ptcp_conn_ c) = Some q -> Rep q l ->
  let out := request_to_pb (ReqLogin (mkLoginData s (lit "123456"))) in zlen out + 8 < 2 ^ 16 ->
  if spec_room TcpQueueSize ToLittleEndian (zlen out) l
  then exists m c' w', Send s c d w = Ret (c', d, w') /\ carries m (my_ack l) out /\ logged m l c'
  else Send s c d w = Ret (c, d, println BufferFullLine w).
Proof using conf_ok laws pb_laws.
  intros Hok Hs Hq HR out Hlt. unfold Send. fold out.
  pose proof (send_bytes_spec out c d w q l Hs Hq HR (proj2 (request_roundtrip _ (line_ok s Hok))) Hlt) as H.
  destruct (spec_room _ _ _ _); [|rewrite H; reflexivity].
  destruct H as (m & c' & w' & E & Hc & Hl & _). rewrite E. exists m, c', w'. auto.
Qed.

Lemma OnServerMsg_spec f m c d w q l : response_ok (RspLogin m) ->
  front_is f c -> q_ (ptcp_conn_ c) = Some q -> Rep q l -> msg_type (fhdr f) = 1 -> payload f = response_to_pb (RspLogin m) ->
  exists c' q', OnServerMsg (readidx_ (ptcp_conn_ c)) c d w
      = Ret (Some (c', d, println (CodeLine (error_code m) (error_message m)) w))
    /\ q_ (ptcp_conn_ c') = Some q' /\ Rep q' (spec_pop l) /\ passed f c c'.
Proof using pb_laws.
  intros Hm Hf Hq HR Hty Hp. destruct (recv_spec f c d Hf) as (Eh & Eb & _). unfold OnServerMsg.
  rewrite Eh. cbn [mbind res_bind]. rewrite Hty, Z.eqb_refl, Eb, Hp. cbn [mbind res_bind]. rewrite (proj1 (response_roundtrip _ Hm)).
  destruct (TS_Pop_logged f c d q l Hf Hq HR) as (c1 & q1 & E & Hq1 & HR1 & _ & Hr1). cbn [mbind res_bind]. rewrite E. cbn [mbind res_bind].
  exists c1, q1. auto.
Qed.

(** C36. The size is cut to 16 bits where it is passed to [Alloc] and nowhere else: a
    message no shorter than the queue of which the cut size fits is copied past the end of
    the array of the queue. *)
Theorem long_message_overflows out c d w q l :
  shm_sendq_ c = None -> q_ (ptcp_conn_ c) = Some q -> Rep q l ->
  TcpQueueSize <= zlen out -> u16 (zlen out) + 8 < 2 ^ 16 ->
  spec_room TcpQueueSize ToLittleEndian (u16 (zlen out)) l = true ->
  send_bytes out c d w = UB.
Proof using conf_ok.
  intros Hs Hq HR Hbig Hlt Hr. pose proof queue_range as Hqr. unfold send_bytes, TS_Alloc. rewrite Hs.
  unfold PTCPConn.Alloc, deref. rewrite Hq. cbn [mbind res_bind]. set (n := u16 (zlen out)) in *.
  assert (H0 : 0 <= n) by (unfold n, u16; apply Z.mod_pos_bound; lia).
  destruct (Alloc_room _ _ Hqr n q l HR H0 Hlt Hr) as (q1 & -> & (HR1 & pre & h & post & E & Er & _)). cbn [mbind res_bind].
  unfold send_message. cbn [shm_sendq_ set_ptcp]. rewrite Hs. unfold deref. cbn [q_ set_q ptcp_conn_ set_ptcp mbind res_bind].
  pose proof (rep_size _ _ _ _ HR1) as Hsz. pose proof (rep_write _ _ _ _ HR1) as Hw. unfold queue_message.
  rewrite app_assoc in E. rewrite E in Hsz |- *. rewrite !length_app in Hsz. cbn [length] in Hsz.
  rewrite ld_app by (rewrite length_app; lia). cbn [mbind res_bind].
  rewrite st_app by (rewrite length_app; lia). cbn [mbind res_bind]. unfold poke_queue, write_at.
  rewrite length_blks_bytes, !length_app. cbn [length]. destruct (_ && _) eqn:Ew; [|reflexivity].
  apply andb_true_iff in Ew as [_ Ew]. apply Z.leb_le in Ew. unfold BLK_CNT, sizeof_MsgHeader in Hsz.
  pose proof (Z.mul_div_le TcpQueueSize 8 ltac:(lia)). lia.
Qed.
End Tcp.

(** ** From the line to the answer *)
Section Programs.
Context {W : Type} {sockets : Sockets W} {laws : SendLaws W} {pb : Protobuf} {pb_laws : ProtobufLaws} {console : Console W}.
Context (client_host server_host : Platform) (client_conf server_conf : Conf).
Context {client_ok : ConfOk client_conf} {server_ok : ConfOk server_conf}.

Lemma carried_payload (p : Platform) m ack out : carries (platform := p) m ack out -> zlen out + 8 < 2 ^ 16 ->
  payload (frame_of p m) = out /\ msg_type (fhdr (frame_of p m)) = 1.
Proof using Type.
  intros (Eh & _ & Et) Hlt. unfold payload, frame_of. cbn [fhdr fbody]. rewrite Eh. cbn [MsgHeader.size msg_type].
  split; [|reflexivity]. rewrite <- Et at 2. f_equal. lia.
Qed.

(** C9. For a line and an answer whose encodings fit 16 bits with a header: if the client's
    queue has room, the line is a login message in its log, and otherwise the client says
    that its buffer is full and nothing changes. When the server finds that message at the
    front of its connection, it passes and counts it; if its queue has room its log has the
    answer, success for the one name it knows and failure for any other, and otherwise there
    is none. When the client finds the answer, it prints its code and its text, and passes
    and counts it. This holds whatever the two hosts' byte orders and configurations are. *)
Theorem login_roundtrip s c d w q l :
  let m := mkLoginData s (lit "123456") in
  let out := request_to_pb (ReqLogin m) in
  let rsp := if bool_decide (s = lit "gewei") then mkLoginResponse 0 (lit "success") else mkLoginResponse (-1) (lit "failure") in
  let rout := response_to_pb (RspLogin rsp) in
  str_ok s -> shm_sendq_ c = None -> q_ (ptcp_conn_ c) = Some q ->
  @Rep client_host (@TcpQueueSize client_conf) (@ToLittleEndian client_conf) q l ->
  zlen out + 8 < 2 ^ 16 -> zlen rout + 8 < 2 ^ 16 ->
  if @spec_room client_host (@TcpQueueSize client_conf) (@ToLittleEndian client_conf) (zlen out) l
  then exists ms c' w', @Send client_host client_conf W sockets pb console s c d w = Ret (c', d, w')
  /\ @carries client_host ms (my_ack l) out /\ @logged client_host client_conf ms l c'
  /\ forall c2 d2 w2 q2 l2,
      @front_is server_host (frame_of client_host ms) c2 -> shm_sendq_ c2 = None -> q_ (ptcp_conn_ c2) = Some q2 ->
      @Rep server_host (@TcpQueueSize server_conf) (@ToLittleEndian server_conf) q2 l2 ->
      exists c2' w2',
        @OnClientMsg server_host server_conf W sockets pb console (readidx_ (ptcp_conn_ c2)) c2 d2 w2 = Ret (Some (c2', d2, w2'))
        /\ passed (frame_of client_host ms) c2 c2'
        /\ if @spec_room server_host (@TcpQueueSize server_conf) (@ToLittleEndian server_conf) (zlen rout) (spec_pop l2)
           then exists mr,
             @carries server_host mr (u32 (my_ack l2 + 1)) rout /\ @logged server_host server_conf mr (spec_pop l2) c2'
             /\ forall c3 d3 w3 q3 l3,
                 @front_is client_host (frame_of server_host mr) c3 -> q_ (ptcp_conn_ c3) = Some q3 ->
                 @Rep client_host (@TcpQueueSize client_conf) (@ToLittleEndian client_conf) q3 l3 ->
                 exists c3' q3', @OnServerMsg client_host client_conf W pb console (readidx_ (ptcp_conn_ c3)) c3 d3 w3
                   = Ret (Some (c3', d3, println (CodeLine (error_code rsp) (error_message rsp)) w3))
                 /\ passed (frame_of server_host mr) c3 c3' /\ q_ (ptcp_conn_ c3') = Some q3'
                 /\ @Rep client_host (@TcpQueueSize client_conf) (@ToLittleEndian client_conf) q3' (spec_pop l3)
           else exists q2', q_ (ptcp_conn_ c2') = Some q2'
             /\ @Rep server_host (@TcpQueueSize server_conf) (@ToLittleEndian server_conf) q2' (spec_pop l2)
  else @Send client_host client_conf W sockets pb console s c d w = Ret (c, d, println BufferFullLine w).
Proof using pb_laws client_ok server_ok laws.
  intros m out rsp rout Hok Hs Hq HR Hlt Hlt2.
  pose proof (Send_spec (platform := client_host) s c d w q l Hok Hs Hq HR Hlt) as H1. fold m out in H1.
  destruct (spec_room _ _ _ l); [|exact H1]. destruct H1 as (ms & c' & w' & E & Hc & Hl).
  destruct (carried_payload _ _ _ _ Hc Hlt) as [Hp _]. exists ms, c', w'. do 3 (split; [assumption|]).
  intros c2 d2 w2 q2 l2 Hf Hs2 Hq2 HR2.
  destruct (OnClientMsg_spec (platform := server_host) _ m c2 d2 w2 q2 l2 (line_ok s Hok) Hf Hs2 Hq2 HR2 Hp Hlt2) as (c2' & w2' & E2 & Hr2 & H2).
  change (answer m) with rsp in H2. fold rout in H2. exists c2', w2'. split; [exact E2|]. split; [exact Hr2|].
  destruct (spec_room _ _ _ (spec_pop l2)); [|exact H2]. destruct H2 as (mr & Hc2 & Hl2).
  exists mr. split; [exact Hc2|]. split; [exact Hl2|]. destruct (carried_payload _ _ _ _ Hc2 Hlt2) as [Hp2 Ht2].
  intros c3 d3 w3 q3 l3 Hf3 Hq3 HR3.
  destruct (OnServerMsg_spec (platform := client_host) _ rsp c3 d3 w3 q3 l3 (answer_ok m) Hf3 Hq3 HR3 Ht2 Hp2) as (c3' & q' & E3 & Hq' & HR' & Hr3).
  exists c3', q'. auto.
Qed.
End Programs.

(** ** The server's invariants hold of the example server *)
Section User.
Context {platform : Platform} {conf : Conf} {W : Type} {sockets : Sockets W} {mmap : Mmap W} {system : System W}.
Context {probes : ProbeMemory W} {ledger : Descriptors W} {pb : Protobuf} {console : Console W}.
Implicit Types (c : TcpShmConnection) (d : disk) (w : W).

Definition same_conn c w c' w' : Prop := ident c' = ident c /\ owned_fd c' = owned_fd c /\ opens w' = opens w.

Lemma send_message_same p ty body c d c' d' : send_message p ty body c d = Ret (c', d') ->
  ident c' = ident c /\ owned_fd c' = owned_fd c.
Proof using Type.
  unfold send_message. destruct (shm_sendq_ c); intros E.
  - apply bind_Ret in E as ([u d1] & _ & [= <- _]). split; reflexivity.
  - apply bind_Ret in E as (q & _ & E). apply bind_Ret in E as (q' & _ & [= <- _]). split; reflexivity.
Qed.

Lemma send_bytes_same out c d w b c' d' w' : send_bytes out c d w = Ret (b, c', d', w') -> same_conn c w c' w'.
Proof using Type.
  intros E. apply bind_Ret in E as ([[p c1] d1] & Ea & E).
  assert (H1 : ident c1 = ident c /\ owned_fd c1 = owned_fd c).
  { split; [|exact (Alloc_fd _ _ _ _ _ _ Ea)]. revert Ea. unfold TS_Alloc. destruct (shm_sendq_ c); intros Ea;
      [apply bind_Ret in Ea as ([u d2] & _ & [= _ <- _]) | apply bind_Ret in Ea as ([p2 t] & _ & [= _ <- _])]; reflexivity. }
  destruct p as [p|]; [|injection E as _ <- _ <-; split; [apply H1 | split; [apply H1 | reflexivity]]].
  apply bind_Ret in E as ([c2 d2] & Em & E). apply send_message_same in Em as [H2 H3].
  apply bind_Ret in E as ([[c3 d3] w3] & Ep & [= _ <- _ <-]). destruct (TS_Push_fd _ _ _ _ _ _ Ep) as [H4 H5].
  assert (H6 : ident c3 = ident c2).
  { revert Ep. unfold TS_Push. destruct (shm_sendq_ c2); intros Ep;
      [apply bind_Ret in Ep as ([u d4] & _ & [= <- _ _]) | apply bind_Ret in Ep as ([t w4] & _ & [= <- _ _])]; reflexivity. }
  split; [|split]; [rewrite H6, H2; apply H1 | rewrite H4, H3; apply H1 | exact H5].
Qed.

Lemma Pop_ident c d c' d' : TS_Pop c d = Ret (c', d') -> ident c' = ident c.
Proof using Type.
  unfold TS_Pop. destruct (shm_recvq_ c); intros E;
    [apply bind_Ret in E as ([u d2] & _ & [= <- _]) | apply bind_Ret in E as (t & _ & [= <- _])]; reflexivity.
Qed.

Context (println_opens : forall l w, opens (println l w) = opens w).

Lemma OnClientMsg_same p c d w c' d' w' : OnClientMsg p c d w = Ret (Some (c', d', w')) -> same_conn c w c' w'.
Proof using println_opens.
  intros E. apply bind_Ret in E as (h & _ & E). apply bind_Ret in E as (view & _ & E).
  destruct (request_from_pb view) as [req|]; [|discriminate E]. apply bind_Ret in E as ([c1 d1] & Ep & E).
  pose proof (Pop_ident _ _ _ _ Ep) as H1. pose proof (Pop_fd _ _ _ _ Ep) as H2. destruct req as [m|m].
  - apply bind_Ret in E as ([[c2 d2] w2] & Ew & [= <- _ <-]). apply bind_Ret in Ew as ([[[b c3] d3] w3] & Es & [= <- _ <-]).
    apply send_bytes_same in Es as (H3 & H4 & H5). rewrite println_opens in H5.
    split; [|split]; [rewrite H3; exact H1 | rewrite H4; exact H2 | exact H5].
  - injection E as <- _ <-. split; [exact H1 | split; [exact H2 | reflexivity]].
Qed.

Lemma StringServer_msg p c d w c' d' w' : Server.OnClientMsg p c d w = Ret (c', d', w') -> OnClientMsg p c d w = Ret (Some (c', d', w')).
Proof using Type. intros E. apply bind_Ret in E as ([r|] & E & E2); [injection E2 as ->; exact E | discriminate E2]. Qed.

Lemma StringServer_laws : AppLaws W.
Proof using println_opens.
  constructor.
  - intros p c d w c' d' w' E. apply StringServer_msg in E. exact (proj1 (OnClientMsg_same _ _ _ _ _ _ _ E)).
  - intros addr login rsp w g rsp' w' [= _ <- _]. reflexivity.
Qed.
Lemma StringServer_fds : AppFds W.
Proof using println_opens.
  constructor.
  - intros p c d w c' d' w' E. apply StringServer_msg in E. exact (proj2 (OnClientMsg_same _ _ _ _ _ _ _ E)).
  - intros addr login rsp w. apply println_opens.
Qed.
End User.
