(* ===== verification/EchoRun.v ===== *)
(** * The example programs run

    A codec with the properties the theorems ask of iguana, a system with a
    console, and a conversation between a little-endian client and a big-endian
    server. *)

From Stdlib Require Import String.
From stdpp Require Import gmap.
From S2P Require Import Prelude StateRes Endian MsgHeader PTCPQueue PTCPQueueSpec Conf PTCPConn PTCPFraming PTCPFront PTCPSend PTCPConnTheorems.
From S2P Require Import CString TcpShmConn SysIO Messages System Server Client Echo EchoTheorems.
From stdpp Require Import list_basics list_relations list.
Local Open Scope Z_scope.

(** ** A codec: integers in 8 bytes, strings after their length, a tag in front *)
Definition put_int (n : Z) : list Z := to_bytes true 8 (u64 n).
Definition put_str (s : list Z) : list Z := put_int (zlen s) ++ s.
Definition get_u64 (bs : list Z) : Z * list Z := (of_bytes true (take 8 bs), drop 8 bs).
Definition get_int (bs : list Z) : Z * list Z :=
  let '(n, bs) := get_u64 bs in (if 2 ^ 63 <=? n then n - 2 ^ 64 else n, bs).
Definition get_str (bs : list Z) : list Z * list Z :=
  let '(n, bs) := get_u64 bs in (take (Z.to_nat n) bs, drop (Z.to_nat n) bs).

Definition put_request (r : Request) : list Z :=
  match r with
  | ReqLogin m => 1 :: put_str (name m) ++ put_str (password m)
  | ReqOrder m => 2 :: put_int (id m) ++ put_int (price m) ++ put_int (volume m)
  end.
Definition get_request (bs : list Z) : option Request :=
  match bs with
  | 1 :: bs => let '(n, bs) := get_str bs in let '(p, _) := get_str bs in Some (ReqLogin (mkLoginData n p))
  | 2 :: bs => let '(i, bs) := get_int bs in let '(p, bs) := get_u64 bs in let '(v, _) := get_int bs in Some (ReqOrder (mkOrder i p v))
  | _ => None
  end.
Definition put_response (r : Response) : list Z :=
  match r with
  | RspLogin m => 1 :: put_int (error_code m) ++ put_str (error_message m)
  | RspTrade m => 2 :: put_int (order_id m) ++ put_int (trade_id m) ++ put_int (trade_price m) ++ put_int (trade_volume m)
  end.
Definition get_response (bs : list Z) : option Response :=
  match bs with
  | 1 :: bs => let '(c, bs) := get_int bs in let '(m, _) := get_str bs in Some (RspLogin (mkLoginResponse c m))
  | 2 :: bs =>
      let '(o, bs) := get_int bs in let '(t, bs) := get_int bs in
      let '(p, bs) := get_u64 bs in let '(v, _) := get_int bs in Some (RspTrade (mkTrade o t p v))
  | _ => None
  end.

Lemma put_int_bytes n : Forall in_byte (put_int n).
Proof. apply to_bytes_in_byte. Qed.
Lemma put_str_bytes s : Forall in_byte s -> Forall in_byte (put_str s).
Proof. intros H. apply Forall_app. split; [apply put_int_bytes | exact H]. Qed.
Lemma get_u64_put n rest : get_u64 (put_int n ++ rest) = (u64 n, rest).
Proof.
  unfold get_u64, put_int. rewrite take_app_length', drop_app_length' by (rewrite length_to_bytes; reflexivity).
  rewrite of_to_bytes; [reflexivity|]. unfold u64. change (256 ^ Z.of_nat 8) with (2 ^ 64). apply Z.mod_pos_bound. lia.
Qed.
Lemma get_int_put n rest : int_ok 64 n -> get_int (put_int n ++ rest) = (n, rest).
Proof.
  intros H. unfold get_int. rewrite get_u64_put. f_equal. unfold int_ok, u64 in *. change (64 - 1) with 63 in H.
  destruct (Z.ltb_spec n 0).
  - replace (n mod 2 ^ 64) with (n + 2 ^ 64); [destruct (Z.leb_spec (2 ^ 63) (n + 2 ^ 64)); lia|].
    apply (Z.mod_unique_pos _ _ (-1)); lia.
  - rewrite Z.mod_small by lia. destruct (Z.leb_spec (2 ^ 63) n); lia.
Qed.
Lemma get_str_put s rest : zlen s < 2 ^ 31 -> get_str (put_str s ++ rest) = (s, rest).
Proof.
  intros H. unfold get_str, put_str. rewrite <- app_assoc, get_u64_put. unfold u64. rewrite Z.mod_small by lia.
  rewrite Nat2Z.id, take_app_length, drop_app_length. reflexivity.
Qed.
Lemma int_ok_64 n : int_ok 32 n -> int_ok 64 n.
Proof. unfold int_ok. cbn. lia. Qed.

#[export] Instance tagged : Protobuf := {
  request_to_pb := put_request; request_from_pb := get_request;
  response_to_pb := put_response; response_from_pb := get_response
}.

Ltac decode := repeat first
  [ rewrite get_str_put by (assumption || (cbn; lia)) | rewrite get_int_put by auto using int_ok_64 | rewrite get_u64_put ].
Ltac encoded := apply Forall_cons; split; [unfold in_byte; lia|]; rewrite ?Forall_app; auto using put_int_bytes, put_str_bytes.

#[export] Instance tagged_laws : ProtobufLaws.
Proof.
  constructor.
  - intros [m|m]; cbn [request_ok request_to_pb request_from_pb tagged put_request get_request].
    + intros ([H1 H2] & [H3 H4]). split; [|encoded]. rewrite get_str_put by exact H2. rewrite <- (app_nil_r (put_str (password m))).
      rewrite get_str_put by exact H4. destruct m. reflexivity.
    + intros (H1 & H2 & H3). split; [|encoded]. decode. rewrite <- (app_nil_r (put_int (volume m))). decode.
      unfold u64. rewrite Z.mod_small by exact H2. destruct m. reflexivity.
  - intros [m|m]; cbn [response_ok response_to_pb response_from_pb tagged put_response get_response].
    + intros (H1 & H2 & H3). split; [|encoded]. decode. rewrite <- (app_nil_r (put_str _)). decode. destruct m. reflexivity.
    + intros (H1 & H2 & H3 & H4). split; [|encoded]. decode. rewrite <- (app_nil_r (put_int (trade_volume m))). decode.
      unfold u64. rewrite Z.mod_small by exact H3. destruct m. reflexivity.
Qed.

(** ** A system with a console *)
Record desk : Type := mkDesk { io_of : world; shown : list printed }.
Definition set_io (x : world) (w : desk) : desk := mkDesk x (shown w).

#[export] Instance desk_sockets : Sockets desk := {
  tcp_send fd bs w := let '(n, x) := tcp_send fd bs (io_of w) in (n, set_io x w);
  tcp_recv fd len w := let '(r, x) := tcp_recv fd len (io_of w) in (r, set_io x w);
  tcp_readv fd lens w := let '(r, x) := tcp_readv fd lens (io_of w) in (r, set_io x w);
  tcp_close fd w := set_io (tcp_close fd (io_of w)) w;
  tcp_get_last_error w := tcp_get_last_error (io_of w);
  uninit := 205
}.
#[export] Instance desk_sends : SendLaws desk.
Proof.
  refine {| outbox fd w := outbox fd (io_of w) |}. intros fd bs w n w' E. cbn in E.
  destruct (script_send fd bs (io_of w)) as [n0 x] eqn:Es. injection E as <- <-. exact (send_law fd bs (io_of w) n0 x Es).
Defined.
#[export] Instance desk_console : Console desk := { println l w := mkDesk (io_of w) (shown w ++ [l]) }.

(** ** A conversation *)
Section Conversation.
Let client_host : Platform := true.
Let server_host : Platform := false.

Definition wired (host : Platform) (conf : Conf) : TcpShmConnection :=
  set_ptcp (set_buf (replicate 1000 205) 1000 (set_q (Some (zero_queue TcpQueueSize)) (set_fds 7 7 PTCPConnection_init)))
    (TcpShmConnection_init [] []).
Definition desk_of (evs : list io_event) : desk := mkDesk (mkWorld evs [] 0 []) [].
Definition no_disk : disk := mkDisk ∅ ∅.

(** What the client sent for a line, what the server makes of it, and what the
    client prints then. *)
Definition typed (s : list Z) : res (TcpShmConnection * disk * desk) :=
  @Send client_host ClientConf _ _ _ _ s (wired client_host ClientConf) no_disk (desk_of [EvSend 1000]).
Definition served (bytes : list Z) : res (option (TcpShmConnection * disk * desk)) :=
  r ← @TS_Front server_host ServerConf _ _ (wired server_host ServerConf) no_disk (desk_of [EvRecv bytes; EvSend 1000]);
  match r with
  | (Some p, c, d, w) => @OnClientMsg server_host ServerConf _ _ _ _ p c d w
  | (None, _, _, _) => Ret None
  end.
Definition read_back (bytes : list Z) : res (option (TcpShmConnection * disk * desk)) :=
  r ← @TS_Front client_host ClientConf _ _ (wired client_host ClientConf) no_disk (desk_of [EvRecv bytes]);
  match r with
  | (Some p, c, d, w) => @OnServerMsg client_host ClientConf _ _ _ p c d w
  | (None, _, _, _) => Ret None
  end.
Definition conversation (s : list Z) : res (list printed) :=
  r ← typed s;
  let '(_, _, w) := r in
  r ← served (output (io_of w));
  match r with
  | Some (_, _, w) =>
      r ← read_back (output (io_of w));
      match r with Some (_, _, w) => Ret (shown w) | None => UB end
  | None => UB
  end.

Example gewei_succeeds : conversation (lit "gewei") = Ret [CodeLine 0 (lit "success")].
Proof. vm_compute. reflexivity. Qed.
Example bob_fails : conversation (lit "bob") = Ret [CodeLine (-1) (lit "failure")].
Proof. vm_compute. reflexivity. Qed.
End Conversation.

(** ** The theorem, over the whole conversation about a line of one letter

    Its encoding and that of the answer fill their blocks, so that the messages are
    determined by what they carry. *)
Definition a_request : list Z := put_request (ReqLogin (mkLoginData (lit "b") (lit "123456"))).
Definition an_answer : list Z := put_response (RspLogin (mkLoginResponse (-1) (lit "failure"))).

Lemma carries_exact (p : Platform) m ack out : carries (platform := p) m ack out -> zlen out mod 8 = 0 ->
  frame_of p m = mkFrame (mkHeader (zlen out + 8) 1 ack) out.
Proof.
  intros (Eh & (_ & _ & Hl) & Et) Hm. unfold frame_of. rewrite Eh in Hl |- *. f_equal.
  rewrite <- Et at 1. symmetry. apply take_ge. rewrite length_blks_bytes. cbn [MsgHeader.size] in Hl.
  unfold blocks, sizeof_MsgHeader in Hl. Z.div_mod_to_equations. lia.
Qed.

Definition hdr_okb (h : MsgHeader) : bool :=
  (0 <=? MsgHeader.size h) && (MsgHeader.size h <? 2 ^ 16) && (0 <=? msg_type h) && (msg_type h <? 2 ^ 16)
  && (0 <=? ack_seq h) && (ack_seq h <? 2 ^ 32).
Lemma hdr_okb_ok h : hdr_okb h = true -> hdr_ok h.
Proof.
  destruct h as [s t a]. unfold hdr_okb. cbn [MsgHeader.size msg_type ack_seq]. intros H.
  apply hdr_ok_intro; unfold in_u16, in_u32; lia.
Qed.

(** A queue without messages. *)
Lemma rep_empty (p : Platform) Bytes le q :
  forallb hdr_okb (blk_ q) = true -> zlen (blk_ q) = BLK_CNT Bytes -> read_idx_ q = 0 -> write_idx_ q = 0 -> send_idx_ q = 0 ->
  in_u32 (read_seq_num_ q) -> in_u32 (ack_seq_num_ q) -> Rep Bytes le q (mkLog [] (read_seq_num_ q) 0 (ack_seq_num_ q)).
Proof.
  intros Hh Hs Hr Hw Hsd Hq Ha. constructor; cbn [entries first_seq sent my_ack]; auto; try (simpl; lia).
  - exists [], (blk_ q). split; [reflexivity | exact Hr].
  - eapply Forall_impl; [apply forallb_True; rewrite Hh; exact I|]. intros h. rewrite Is_true_true. apply hdr_okb_ok.
Qed.

(** The server with the request at its front, and the client with the answer. *)
Definition request_bytes : list Z := match typed (lit "b") with Ret (_, _, w) => output (io_of w) | _ => [] end.
Definition serving : TcpShmConnection :=
  match @TS_Front false ServerConf _ _ (wired false ServerConf) no_disk (desk_of [EvRecv request_bytes]) with
  | Ret (_, c, _, _) => c
  | _ => wired false ServerConf
  end.
Definition answer_bytes : list Z := match served request_bytes with Ret (Some (_, _, w)) => output (io_of w) | _ => [] end.
Definition answered : TcpShmConnection :=
  match typed (lit "b") with
  | Ret (c, d, _) =>
      match @TS_Front true ClientConf _ _ c d (desk_of [EvRecv answer_bytes]) with Ret (_, c, _, _) => c | _ => c end
  | _ => wired true ClientConf
  end.
Definition answered_queue : PTCPQueue := match q_ (ptcp_conn_ answered) with Some q => q | None => zero_queue 0 end.

Lemma serving_front : @front_is false (mkFrame (mkHeader 32 1 0) a_request) serving.
Proof. split; [vm_compute; reflexivity | split; [vm_compute; reflexivity | cbn; lia]]. Qed.
Lemma answered_front : @front_is true (mkFrame (mkHeader 32 1 1) an_answer) answered.
Proof. split; [vm_compute; reflexivity | split; [vm_compute; reflexivity | cbn; lia]]. Qed.
Lemma answered_rep : @Rep true 2000 true answered_queue (mkLog [] 1 0 0).
Proof.
  assert (E : read_seq_num_ answered_queue = 1 /\ ack_seq_num_ answered_queue = 0) by (vm_compute; split; reflexivity).
  destruct E as [E1 E2]. rewrite <- E1, <- E2. apply rep_empty; rewrite ?E1, ?E2; try (unfold in_u32; lia); vm_compute; reflexivity.
Qed.

Lemma login_roundtrip_witness :
  exists c' w' c2 w2 c3 q3,
    @Send true ClientConf desk _ _ _ (lit "b") (wired true ClientConf) no_disk (desk_of [EvSend 1000]) = Ret (c', no_disk, w')
    /\ @OnClientMsg false ServerConf desk _ _ _ (readidx_ (ptcp_conn_ serving)) serving no_disk (desk_of [EvSend 1000]) = Ret (Some (c2, no_disk, w2))
    /\ @OnServerMsg true ClientConf desk _ _ (readidx_ (ptcp_conn_ answered)) answered no_disk (desk_of [])
       = Ret (Some (c3, no_disk, println (CodeLine (-1) (lit "failure")) (desk_of [])))
    /\ passed (mkFrame (mkHeader 32 1 1) an_answer) answered c3
    /\ q_ (ptcp_conn_ c3) = Some q3 /\ @Rep true 2000 true q3 (mkLog [] 1 0 1).
Proof.
  pose proof (login_roundtrip (W := desk) true false ClientConf ServerConf (lit "b") (wired true ClientConf) no_disk (desk_of [EvSend 1000])
    (zero_queue 2000) (mkLog [] 0 0 0)) as H. cbv zeta in H.
  change (if bool_decide _ then _ else _) with (mkLoginResponse (-1) (lit "failure")) in H.
  change (request_to_pb _) with a_request in H. change (response_to_pb _) with an_answer in H.
  destruct H as (ms & c' & w' & E1 & Hc1 & _ & H).
  - split; [unfold lit; repeat constructor; cbn; lia | cbn; lia].
  - reflexivity.
  - reflexivity.
  - apply rep_zero; [apply (queue_range (conf := ClientConf)) | unfold in_u32; lia].
  - vm_compute. reflexivity.
  - vm_compute. reflexivity.
  - rewrite (carries_exact _ _ _ _ Hc1 eq_refl) in H.
    destruct (H serving no_disk (desk_of [EvSend 1000]) (zero_queue 3000) (mkLog [] 0 0 0)) as (c2 & w2 & E2 & _ & mr & Hc2 & _ & H2).
    + exact serving_front.
    + vm_compute. reflexivity.
    + vm_compute. reflexivity.
    + apply rep_zero; [apply (queue_range (conf := ServerConf)) | unfold in_u32; lia].
    + rewrite (carries_exact _ _ _ _ Hc2 eq_refl) in H2.
      destruct (H2 answered no_disk (desk_of []) answered_queue (mkLog [] 1 0 0)) as (c3 & q3 & E3 & Hp & Hq & HR).
      * exact answered_front.
      * vm_compute. reflexivity.
      * exact answered_rep.
      * exists c', w', c2, w2, c3, q3. auto 10.
Defined.

(** A line of 65536 characters in the example's queue of 2000 bytes. *)
Definition long_line : list Z := put_request (ReqLogin (mkLoginData (replicate (Z.to_nat 65536) 97) (lit "123456"))).
Lemma long_message_overflows_witness :
  @send_bytes true ClientConf desk _ long_line (wired true ClientConf) no_disk (desk_of []) = UB.
Proof.
  apply (long_message_overflows (platform := true) (conf := ClientConf) long_line (wired true ClientConf) no_disk (desk_of [])
           (zero_queue 2000) (mkLog [] 0 0 0)).
  - reflexivity.
  - reflexivity.
  - apply rep_zero; [apply (queue_range (conf := ClientConf)) | unfold in_u32; lia].
  - vm_compute. discriminate.
  - vm_compute. reflexivity.
  - vm_compute. reflexivity.
Defined.
